(* ===== verification/_CoqProject ===== *)
-Q . S2P
Prelude.v
Prog.v
Text.v
CxxString.v
Utf8.v
Format.v
Common.v
Cleanup.v
Ini.v
Http.v
Queue.v
Block.v
RwQueue.v
RwQueueSys.v
BlockingQueue.v
RwQueueCalls.v
KeyTable.v
PingLedger.v
PingMsgMap.v
RdmaPingInfo.v
RdmaTypes.v
TcpUdpPingInfo.v
Ipc.v
SharedMemory.v
Yaml.v
YamlScan.v
YamlConv.v
Scheduler.v
SchedulerLoad.v
Wire.v
TcpUdpCommon.v
ResultThread.v
UdpPing.v
TcpPing.v
RdmaGid.v
YamlParse.v
YamlPlain.v
YamlInput.v
YamlLex.v
YamlNode.v
YamlDoc.v
YamlBlock.v
YamlDump.v
PingListFile.v
RdmaCommon.v
RdmaContext.v
RdmaServer.v
RdmaClient.v
RdmaResult.v
Pipeline.v
RdmaPing.v
Supervisor.v
Logging.v
Programs.v
RdmaPrograms.v
