(* ===== verification/Prelude.v ===== *)
(** * Pingweave: a model of its C++ programs and the theorems about it

    Pingweave measures the latency between hosts. On each host an agent runs,
    per address and protocol, a server and a client; a client pings the
    addresses its ping list gives it, in turn, keeps each ping in a table until
    it is answered or expires, and reports every ping once to a result thread,
    which writes a summary per destination into shared memory, where the agent
    picks it up. The sources are those under src/src/.

    ** Parts and files

    - [Prelude]: machine integers on [Z] with their wrap-around, bytes,
      [outcome] (a value, an exception, undefined behaviour), tactics, hints.
      [Prog]: the monad of operations that change a state and may throw.
    - [Text], [CxxString]: the parts of the C and C++ libraries' text functions
      that the code uses.
    - [Format], [Wire]: the constants of macro.hpp; the message and result
      records of format.hpp, and the bytes of the messages with their padding.
    - [Common] (Modules [NetAddr], [PingId], [Clock], [Stats]): the helpers of
      common.cpp. [Cleanup]: its removal of files. [Ini]: ini.hpp and the
      configuration getters of common.cpp. [Http]: the alarms posted to the
      controller, also of common.cpp.
    - [Queue]: the queue between two threads as the interface [SpscQueue].
      [Block], [RwQueue]: the lock-free queue of libs/readerwriterqueue that
      stands behind it, each call cut into steps that touch one shared variable,
      and its invariant; [RwQueueSys]: its runs, its constructor.
      [BlockingQueue]: the semaphore on top of it (atomicops.h) and the calls
      the program makes, which give the instance [blocking_spsc]. [RwQueueCalls]:
      the other calls and the destructor, each alone.
    - [KeyTable]: the map with a list of keys in time order that the three ping
      tables share. [PingMsgMap]: the server's table (rdma_ping_msg.hpp).
      [PingLedger]: the accounting of pings the two client tables share.
      [RdmaPingInfo], [TcpUdpPingInfo]: the clients' tables
      (rdma_ping_info.hpp, tcpudp_ping_info.hpp); [RdmaTypes]: the machine
      types of the RDMA one.
    - [Utf8]: how Python decodes bytes that may be no UTF-8. [Ipc]: the ring in
      shared memory (ipc_producer.hpp), and the step relation of producer and
      consumer. [SharedMemory]: the life of its segment.
    - [Yaml], [Scheduler], [SchedulerLoad]: documents, and the schedulers that
      load the addresses and hand them out (scheduler.hpp,
      tcpudp_scheduler.hpp, rdma_scheduler.hpp). Under them, of the YAML
      library: [YamlScan], the type of a plain scalar; [YamlConv], its value;
      [YamlParse], quoted and block scalars; [YamlPlain], how the scalars of a
      ping list read; [YamlInput], from the bytes of a file to a text;
      [YamlLex], from a text to tokens; [YamlNode], the nodes that are built,
      their anchors and their order; [YamlDoc], from tokens to a document.
      [YamlBlock]: the parser's steps on text in block style; [YamlDump]: such a
      text, as [yaml.dump] writes it, and what is read from it.
      [PingListFile]: the schedulers on the files that the agent writes
      (agent_fetcher.py).
    - [TcpUdpCommon]: sockets and messages (tcpudp_common.cpp). [UdpPing],
      [TcpPing]: the threads of the UDP and TCP programs.
    - [ResultThread]: the result threads, one class [ResultKind] with an
      instance for UDP and TCP; [RdmaResult]: its instance for RDMA.
    - [RdmaGid], [RdmaCommon], [RdmaContext]: rdma_common.cpp, that is GIDs and
      their texts, address handles and posting, the making of a context.
      [RdmaServer], [RdmaClient]: the handlers and loops of rdma_server.cpp and
      rdma_client.cpp. [RdmaPing]: both ends together.
    - [Pipeline]: a client, its result thread and the ring together, from the
      ping to the line the agent reads; a client is a [PingSource], whose
      promises the three clients keep.
    - [Supervisor]: the main loops of the clients and of the RDMA server, which
      poll the flags of their threads. [Logging]: the loggers of a process
      (logger.hpp). [Programs], [RdmaPrograms]: the programs from [main] to the
      start of their threads.

    An operation that changes a state takes it as an argument and returns the
    new one. What the program gets from outside (a clock reading, the result of
    a system call or of a verbs call, a file, a received datagram) is an
    argument; what it does outside (a datagram, a work request, a descriptor
    opened or closed) is part of the result. A method under a mutex is one
    step; the interleavings of threads are sequences of such steps ([rtc] of a
    step relation), and of smaller steps where the code has no lock ([Ipc],
    [RwQueueSys], [BlockingQueue]). Those steps are interleaved in a
    sequentially consistent order: the fences of the code are not modelled.

    ** What the theorems show

    - A ping from end to end: [RdmaPing.rdma_ping_end_to_end],
      [UdpPing.udp_ping_pong]; the server's protocol:
      [RdmaServer.rdma_server_answers_ping], [RdmaServer.rdma_server_rx_queues].
    - Every ping is reported at most once, and is reported, in the table, or
      refused, whatever the order of the events: the theorems of
      [RdmaPingInfo], [TcpUdpPingInfo], [UdpPing.udp_pings_accounted],
      [TcpPing.tcp_pings_accounted].
    - What the clients issue is what the agent reads: every ping is in a report
      that was published, queued, pending, in the current window, lost on the
      way in a place that is named, and the texts read are those published:
      [Pipeline.pipeline_accounted].
    - [main] returns what its arguments and the set-up give, and the set-up
      leaves nothing open when it fails: [Programs]; but it does not see a
      failure of the RDMA RX context, and two answers of the device make its
      behaviour undefined: [RdmaPrograms].
    - The tables never follow a dangling iterator and implement a map with
      expiry: the theorems of [PingMsgMap].
    - The schedulers load exactly the addresses that the documents give, of an
      ill-formed one those before the error, keep the old ones when a file is not
      read, as the code does, and hand them out in rotation:
      [SchedulerLoad], [Scheduler].
    - A scalar has the type that a grammar says and the value of its digits, and
      what was quoted reads back: [YamlScan], [YamlConv], [YamlParse]; the
      addresses and numbers of a ping list read as the schedulers expect, and so
      does a GID unless it looks like a number: [YamlPlain]. A file reads the
      same in five encodings, unless nothing is left of it ([YamlInput]). Cutting a text into tokens ends, and
      knows the line and the column of each token; a text in double quotes is cut
      out whole but in one case ([YamlLex]). Nested mappings, sequences and
      scalars, plain or in single quotes, in block style are parsed into what was
      written, in the file as a whole ([YamlDump.block_text_read_back]), and so the
      schedulers get from the stored files what the ping list asks for
      ([PingListFile]).
    - The reports: [ResultThread], [RdmaResult], [Common.calc_result_stats_spec].
      The ring delivers them in order, or counts them as dropped, and a text that
      is UTF-8 and fits a slot arrives unchanged: [Ipc].
    - Address handles, buffers, descriptors and the resources of a context are
      neither leaked nor used after release, but where a theorem says so:
      [RdmaCommon], [RdmaContext], [TcpUdpCommon], [TcpPing].
    - The queue between the threads: in every interleaving it loses, repeats
      and reorders nothing, fails no assertion, each call ends after a bounded
      number of its own steps ([RwQueueSys]), no wake-up of the consumer is lost,
      and calls that do not overlap answer as a bounded list ([BlockingQueue]).
      Looking, counting, growing and destroying agree with that list
      ([RwQueueCalls]).
    - The supervisor never restarts a thread ([Supervisor]): an exception that
      leaves one ends the process. The alarms are read as they were written
      ([Http]).
    - Every field of the RDMA table stays in its machine type ([RdmaTypes]).
    - Texts and bytes read back as what was written: configuration, addresses,
      ping ids, GIDs, messages. Time differences survive the wrap of the clock.

    ** Bounds and fuel

    Most recursions are structural, on a list, a counter or the number of
    attempts that the code's loop has. The others take fuel. [Text.dec_string] starts
    with one unit per bit of the number, more than one per digit
    ([dec_fuel_enough]). [RwQueue.enq_run] and [deq_run], a call that runs alone,
    have eight units, and [BlockingQueue.prod_run] and [cons_run] nine and 1040:
    the lemmas on them say that the result is always reached ([enq_left],
    [deq_left], [prod_left] and [cons_left] count what is left; 1024 is the
    number of spins). A look at the front has six ([peek_exact]), and a walk round
    the ring one for each block ([ring_loop_visits]). [Http.read_headers] has the length of the text.
    [YamlLex.next_token] takes a unit for each comment that it skips:
    [YamlLex.lexer_terminates]. [YamlDoc.deserialize_loop] handles a token twice
    at most, and a token has a character at least: on text in block style it
    ends within its fuel ([YamlDump.deserialize_node_leads]); [YamlDoc.properties_loop] reads
    an anchor and a tag at most. Comparing and destroying nodes, and
    [YamlDoc.tree_of], go no deeper than the nodes and the anchors are large, but
    for an alias within its own anchor, where the code does not end.
    [Ipc.waitConsumerToReadAll] waits for another process:
    [Ipc.ipc_wait_terminates] says how much is enough. The sizes of the queue
    are below 2^60, so that no counter of it wraps. Statistics need fewer than
    2^64 / 99 delays, the number past which the code's percentile index wraps.

    ** What is not modelled

    Logger output; the verbs and socket libraries; of the YAML library, how a
    document is written, several documents in one text, input that is not a
    stream, the tags that stay on nodes, and the conversion of decimal fractions,
    which is a parameter; of the queue's library, assignment by move, the fences
    and the other platforms; the Python agent and controller, but
    for the consumer's side of the ring and the text of the files that the agent
    stores. *)
From Stdlib Require Export ZArith Lia.
From stdpp Require Export base option sorting strings gmap numbers.
From stdpp Require Export list.

(** ** Machine integers

    A C++ unsigned integer of width [w] is an integer of [Z] reduced modulo
    [2^w]; a signed [int] (32 bits, two's complement) is reduced into
    [-2^31, 2^31). *)
Definition u16 (x : Z) : Z := (x `mod` 2 ^ 16)%Z.
Definition u32 (x : Z) : Z := (x `mod` 2 ^ 32)%Z.
Definition u64 (x : Z) : Z := (x `mod` 2 ^ 64)%Z.
Definition s32 (x : Z) : Z := ((x + 2 ^ 31) `mod` 2 ^ 32 - 2 ^ 31)%Z.
Definition s64 (x : Z) : Z := ((x + 2 ^ 63) `mod` 2 ^ 64 - 2 ^ 63)%Z.

Definition is_u32 (x : Z) : Prop := (0 <= x < 2 ^ 32)%Z.
Definition is_u64 (x : Z) : Prop := (0 <= x < 2 ^ 64)%Z.

(** [PINGWEAVE_SUCCESS]/[PINGWEAVE_FAILURE] are the return codes of most
    functions of the code; [SUCCESS] is 1 and [FAILURE] is 0, so that a [bool]
    returned by such a function is [true] on success. *)
Definition PINGWEAVE_SUCCESS : Z := 1.
Definition PINGWEAVE_FAILURE : Z := 0.
Definition IS_SUCCESS (retval : Z) : bool := (retval =? PINGWEAVE_SUCCESS)%Z.
Definition IS_FAILURE (retval : Z) : bool := (retval =? PINGWEAVE_FAILURE)%Z.

(** ** Outcomes

    A C++ expression either yields a value, throws, or has undefined
    behaviour (a dangling iterator, an index out of range of
    [operator[]], a read of freed memory). *)
Inductive exn :=
  | RuntimeError (what : string)
  | InvalidArgument
  | OutOfRange
  | YamlTypeError
  | YamlParseError
  | YamlEncodingError
  | YamlInvalidTag
  | YamlError
  | SpdlogError.

Inductive outcome (A : Type) :=
  | Ret (a : A)
  | Throw (e : exn)
  | Undef.
Arguments Ret {A} a.
Arguments Throw {A} e.
Arguments Undef {A}.

#[export] Instance exn_eq_dec : EqDecision exn.
Proof. solve_decision. Defined.
#[export] Instance outcome_eq_dec `{EqDecision A} : EqDecision (outcome A).
Proof. solve_decision. Defined.

#[export] Instance outcome_ret : MRet outcome := fun A a => Ret a.
#[export] Instance outcome_bind : MBind outcome := fun A B f o =>
  match o with
  | Ret a => f a
  | Throw e => Throw e
  | Undef => Undef
  end.

(** ** Tactics *)

(** Case analysis on the integer and string comparisons of a goal. *)
Ltac case_cmp :=
  repeat match goal with
  | |- context [Z.eqb ?x ?y] => destruct (Z.eqb_spec x y)
  | |- context [Z.ltb ?x ?y] => destruct (Z.ltb_spec x y)
  | |- context [Z.leb ?x ?y] => destruct (Z.leb_spec x y)
  | |- context [String.eqb ?x ?y] => destruct (String.eqb_spec x y)
  end.

(** The same in a hypothesis. *)
Ltac case_cmp_in H :=
  repeat match type of H with
  | context [Z.eqb ?x ?y] => destruct (Z.eqb_spec x y)
  | context [Z.ltb ?x ?y] => destruct (Z.ltb_spec x y)
  | context [Z.leb ?x ?y] => destruct (Z.leb_spec x y)
  | context [String.eqb ?x ?y] => destruct (String.eqb_spec x y)
  end.

(** Linear arithmetic with [`div`] and [`mod`] by constants. *)
Ltac zmod := Z.div_mod_to_equations; lia.

(** ** Hints *)
Create HintDb pw.
Create Rewrite HintDb pw.

Section machine_integers.
Local Open Scope Z_scope.

Lemma u64_range x : is_u64 (u64 x).
Proof. unfold is_u64, u64. apply Z.mod_pos_bound. lia. Qed.

Lemma u32_range x : is_u32 (u32 x).
Proof. unfold is_u32, u32. apply Z.mod_pos_bound. lia. Qed.

Lemma u64_small x : is_u64 x -> u64 x = x.
Proof. intros ?. apply Z.mod_small. done. Qed.

Lemma u32_small x : is_u32 x -> u32 x = x.
Proof. intros ?. apply Z.mod_small. done. Qed.

Lemma is_u32_u64 x : is_u32 x -> is_u64 x.
Proof. unfold is_u32, is_u64. lia. Qed.

Lemma s32_small x : -2 ^ 31 <= x < 2 ^ 31 -> s32 x = x.
Proof. intros ?. unfold s32. rewrite Z.mod_small by lia. lia. Qed.

Lemma s64_small x : -2 ^ 63 <= x < 2 ^ 63 -> s64 x = x.
Proof. intros ?. unfold s64. rewrite Z.mod_small by lia. lia. Qed.

Lemma s32_range x : -2 ^ 31 <= s32 x < 2 ^ 31.
Proof. unfold s32. pose proof (Z.mod_pos_bound (x + 2 ^ 31) (2 ^ 32)). lia. Qed.
End machine_integers.

#[export] Hint Resolve u64_range u32_range is_u32_u64 : pw.
#[export] Hint Rewrite u64_small u32_small using (solve [auto with pw]) : pw.

(** ** Bytes

    Memory is a list of bytes, a byte an integer of [0, 256); the host is
    little-endian (x86-64, the platform the Makefile builds for). *)
Definition is_byte (b : Z) : Prop := (0 <= b < 256)%Z.

(** [n] bytes of the little-endian representation of [v]. *)
Fixpoint le_bytes (n : nat) (v : Z) : list Z :=
  match n with
  | O => []
  | S n' => (v `mod` 256)%Z :: le_bytes n' (v `div` 256)%Z
  end.

(** The value of a little-endian byte list. *)
Fixpoint le_val (l : list Z) : Z :=
  match l with
  | [] => 0
  | b :: l' => (b + 256 * le_val l')%Z
  end.

Section bytes.
Local Open Scope Z_scope.

Lemma le_bytes_length n v : length (le_bytes n v) = n.
Proof. revert v. induction n; intros; simpl; auto. Qed.

Lemma le_bytes_bytes n v : Forall is_byte (le_bytes n v).
Proof.
  revert v. induction n; intros; simpl; constructor; auto.
  apply Z.mod_pos_bound. lia.
Qed.

Lemma le_val_bytes n v : 0 <= v < 256 ^ Z.of_nat n -> le_val (le_bytes n v) = v.
Proof.
  revert v. induction n as [|n IH]; intros v Hv; simpl.
  - simpl in Hv. lia.
  - rewrite Nat2Z.inj_succ, Z.pow_succ_r in Hv by lia.
    rewrite IH; [zmod|]. zmod.
Qed.

Lemma le_val_range l :
  Forall is_byte l -> 0 <= le_val l < 256 ^ Z.of_nat (length l).
Proof.
  induction 1 as [|b l Hb Hl IH]; cbn [length le_val]; [lia|].
  rewrite Nat2Z.inj_succ, Z.pow_succ_r by lia. unfold is_byte in Hb. lia.
Qed.

Lemma le_bytes_val l : Forall is_byte l -> le_bytes (length l) (le_val l) = l.
Proof.
  induction 1 as [|b l Hb Hl IH]; simpl; [done|].
  unfold is_byte in Hb. f_equal; [zmod|].
  replace ((b + 256 * le_val l) `div` 256) with (le_val l) by zmod. done.
Qed.
End bytes.

#[export] Hint Resolve le_bytes_length le_bytes_bytes le_val_range : pw.

(** ** Lists *)
Lemma filter_all {A} (P : A -> Prop) `{forall x, Decision (P x)} l :
  Forall P l -> filter P l = l.
Proof. induction 1; [done|]. rewrite filter_cons_True by done. congruence. Qed.

Lemma sum_permutation (l l' : list Z) : l ≡ₚ l' -> foldr Z.add 0%Z l = foldr Z.add 0%Z l'.
Proof. induction 1; simpl; lia. Qed.

Lemma sublist_fmap {A B} (f : A -> B) l1 l2 : sublist l1 l2 -> sublist (f <$> l1) (f <$> l2).
Proof. induction 1; cbn; by constructor. Qed.

Lemma sublist_Forall {A} (P : A -> Prop) l1 l2 : sublist l1 l2 -> Forall P l2 -> Forall P l1.
Proof. induction 1; rewrite ?list.Forall_cons; intros; destruct_and?; auto. Qed.

Lemma omap_cons_eq {A B} (f : A -> option B) x l :
  omap f (x :: l) = match f x with Some y => y :: omap f l | None => omap f l end.
Proof. done. Qed.

Lemma mjoin_app {A} (l l' : list (list A)) : mjoin (l ++ l') = mjoin l ++ mjoin l'.
Proof. apply join_app. Qed.

Lemma mjoin_cons {A} (x : list A) (l : list (list A)) : mjoin (x :: l) = x ++ mjoin l.
Proof. done. Qed.
