(* ===== verification/Prog.v ===== *)
(** * Prog: programs with a state.

    [prog St A] runs from a state and ends with a value, an exception or
    undefined behaviour, and the state reached so far: what a [catch] that
    goes on sees. *)
From S2P Require Import Prelude.

Definition prog (St A : Type) : Type := St -> St * outcome A.

#[export] Instance prog_ret {St} : MRet (prog St) := fun A a st => (st, Ret a).
#[export] Instance prog_bind {St} : MBind (prog St) := fun A B f p st =>
  match p st with
  | (st', Ret a) => f a st'
  | (st', Throw e) => (st', Throw e)
  | (st', Undef) => (st', Undef)
  end.

Definition lift {St A} (o : outcome A) : prog St A := fun st => (st, o).
Definition modify {St} (f : St -> St) : prog St unit := fun st => (f st, Ret tt).

(** A range [for] whose body may [break] (by returning [true]). *)
Fixpoint for_each {St A} (body : A -> prog St bool) (l : list A) : prog St unit :=
  match l with
  | [] => mret tt
  | x :: l => stop ← body x; if (stop : bool) then mret tt else for_each body l
  end.

(** A body that never breaks. *)
Definition go_on {St A} (body : A -> prog St unit) (x : A) : prog St bool :=
  body x;; mret false.

Definition throw {St A} (e : exn) : prog St A := fun st => (st, Throw e).

Lemma prog_bind_ret {St A B} (p : prog St A) (f : A -> prog St B) st st' a :
  p st = (st', Ret a) -> (p ≫= f) st = f a st'.
Proof. intros Hp. unfold mbind, prog_bind. by rewrite Hp. Qed.

Lemma lift_bind {St A B} (o : outcome A) (f : A -> prog St B) st a :
  o = Ret a -> (lift o ≫= f) st = f a st.
Proof. by intros ->. Qed.

Lemma for_each_cons {St A} (body : A -> prog St bool) x l st st' (stop : bool) :
  body x st = (st', Ret stop) ->
  for_each body (x :: l) st = if stop then (st', Ret tt) else for_each body l st'.
Proof. intros Hb. cbn. rewrite (prog_bind_ret _ _ _ _ _ Hb). by destruct stop. Qed.

(** A [for] without [break] over values whose bodies all succeed is a fold. *)
Lemma for_each_fold {St A} (body : A -> prog St unit) (f : A -> St -> St) l st :
  (forall x st, x ∈ l -> body x st = (f x st, Ret tt)) ->
  for_each (go_on body) l st = (foldl (fun st x => f x st) st l, Ret tt).
Proof.
  revert st. induction l as [|x l IH]; intros st Hb; [done|].
  rewrite (for_each_cons _ _ _ _ (f x st) false).
  - apply IH. intros y st' Hy. apply Hb. by right.
  - unfold go_on. rewrite (prog_bind_ret _ _ _ (f x st) tt); [done|]. apply Hb. by left.
Qed.

Lemma prog_bind_throw {St A B} (p : prog St A) (f : A -> prog St B) st st' e :
  p st = (st', Throw e) -> (p ≫= f) st = (st', Throw e).
Proof. intros Hp. unfold mbind, prog_bind. by rewrite Hp. Qed.
