(* ===== verification/Text.v ===== *)
(** * Text: the parts of [std::string], [iostream] and the C library's text
    functions that the program uses: decimal output ([operator<<],
    [std::to_string], [%09llu]), [std::stoi], and [inet_pton]/[inet_ntop] for
    [AF_INET]. A [std::string] is a Rocq [string]; positions are [nat], and
    [std::string::npos] is [None]. *)
From S2P Require Import Prelude.
From Stdlib Require Import Ascii.
From Stdlib Require String.
Local Open Scope Z_scope.

Abbreviation bytes_of := String.list_ascii_of_string.
Abbreviation of_bytes := String.string_of_list_ascii.

(** ** Decimal output *)
Definition digit (d : Z) : ascii := ascii_of_nat (48 + Z.to_nat d).

Definition digit_val (c : ascii) : option Z :=
  let n := Z.of_nat (nat_of_ascii c) in
  if (48 <=? n) && (n <=? 57) then Some (n - 48) else None.

(** Prepend the decimal digits of [n] to [acc], least significant first. *)
Fixpoint dec_go (fuel : nat) (n : Z) (acc : string) : string :=
  match fuel with
  | O => acc
  | S fuel' =>
      let acc' := String (digit (n `mod` 10)) acc in
      if n <? 10 then acc' else dec_go fuel' (n `div` 10) acc'
  end.

(** Enough fuel for [n]: one round per bit is more than one per digit. *)
Definition dec_fuel (n : Z) : nat := S (Z.to_nat (Z.log2 n)).

(** [std::to_string] and [operator<<] of an unsigned integer. *)
Definition dec_string (n : Z) : string := dec_go (dec_fuel n) n "".

(** The same of a signed one. *)
Definition dec_int (z : Z) : string :=
  if z <? 0 then String "-" (dec_string (- z)) else dec_string z.

(** Left padding with zeros to [w] characters, as [%0<w>llu] does. *)
Definition pad0 (w : nat) (s : string) : string :=
  of_bytes (replicate (w - String.length s) "0"%char ++ bytes_of s).

(** Reading a run of decimal digits that makes up the whole string. *)
Fixpoint dec_val (s : string) (acc : Z) : option Z :=
  match s with
  | EmptyString => Some acc
  | String c s' =>
      match digit_val c with
      | Some d => dec_val s' (10 * acc + d)
      | None => None
      end
  end.

Lemma digit_val_digit d : 0 <= d < 10 -> digit_val (digit d) = Some d.
Proof.
  intros Hd.
  assert (d = 0 \/ d = 1 \/ d = 2 \/ d = 3 \/ d = 4 \/ d = 5 \/ d = 6 \/ d = 7 \/
          d = 8 \/ d = 9) as Hc by lia.
  repeat destruct Hc as [->|Hc]; [reflexivity..|subst; reflexivity].
Qed.

Lemma digit_val_range c d : digit_val c = Some d -> 0 <= d < 10.
Proof.
  unfold digit_val. destruct (_ <=? _) eqn:H1; [|done].
  destruct (_ <=? 57) eqn:H2; simpl; [|done]. intros [= <-].
  apply Z.leb_le in H1, H2. lia.
Qed.

Lemma digit_of_val c d : digit_val c = Some d -> digit d = c.
Proof.
  unfold digit_val. destruct (_ <=? _) eqn:H1; [|done].
  destruct (_ <=? 57) eqn:H2; simpl; [|done]. intros [= <-].
  apply Z.leb_le in H1, H2. unfold digit.
  replace (48 + Z.to_nat (Z.of_nat (nat_of_ascii c) - 48))%nat with (nat_of_ascii c) by lia.
  apply ascii_nat_embedding.
Qed.

Lemma dec_val_go fuel n acc :
  0 <= n < 2 ^ Z.of_nat fuel -> (0 < fuel)%nat ->
  dec_val (dec_go fuel n acc) 0 = dec_val acc n.
Proof.
  revert n acc. induction fuel as [|fuel IH]; intros n acc Hn Hf; [lia|].
  cbn [dec_go]. destruct (Z.ltb_spec n 10) as [Hlt|Hge].
  - cbn [dec_val]. rewrite Z.mod_small, digit_val_digit by lia. done.
  - rewrite Nat2Z.inj_succ, Z.pow_succ_r in Hn by lia.
    destruct fuel as [|fuel']; [simpl in Hn; lia|].
    rewrite IH; [|zmod|lia]. cbn [dec_val].
    rewrite digit_val_digit by zmod. f_equal. zmod.
Qed.

Lemma dec_fuel_enough n : 0 <= n -> 0 <= n < 2 ^ Z.of_nat (dec_fuel n).
Proof.
  intros Hn. split; [done|]. unfold dec_fuel.
  pose proof (Z.log2_nonneg n). rewrite Nat2Z.inj_succ, Z2Nat.id by lia.
  destruct (decide (n = 0)) as [->|]; [done|]. apply Z.log2_spec. lia.
Qed.

(** Printing then reading an unsigned integer is the identity. *)
Lemma dec_val_string n : 0 <= n -> dec_val (dec_string n) 0 = Some n.
Proof.
  intros Hn. unfold dec_string. rewrite dec_val_go; [done| |unfold dec_fuel; lia].
  by apply dec_fuel_enough.
Qed.

Lemma dec_string_inj m n : 0 <= m -> 0 <= n -> dec_string m = dec_string n -> m = n.
Proof.
  intros Hm Hn Heq. apply (f_equal (fun s => dec_val s 0)) in Heq.
  rewrite !dec_val_string in Heq by done. by simplify_eq.
Qed.

(** ** C strings *)

(** The characters [s.c_str()] shows to a C function: up to the first NUL. *)
Fixpoint c_str (s : string) : string :=
  match s with
  | EmptyString => EmptyString
  | String c s' => if Ascii.eqb c zero then EmptyString else String c (c_str s')
  end.

(** ** IPv4 addresses: [inet_pton] and [inet_ntop] for [AF_INET]

    glibc's [inet_pton] accepts exactly the dotted quads of decimal octets
    0-255 without leading zeros; its result is the four octets in network
    order. *)

(** One more digit in an octet: refused after a leading zero and above 255. *)
Definition octet_step (cur : option Z) (d : Z) : option Z :=
  match cur with
  | None => Some d
  | Some v =>
      if v =? 0 then None
      else if 255 <? 10 * v + d then None else Some (10 * v + d)
  end.

(** [octets] are the finished ones, [cur] the one being read, if a digit of it
    was seen. *)
Fixpoint pton4_go (s : string) (octets : list Z) (cur : option Z) : option (list Z) :=
  match s with
  | EmptyString =>
      match cur with
      | Some v => if (length octets =? 3)%nat then Some (octets ++ [v]) else None
      | None => None
      end
  | String c s' =>
      match digit_val c with
      | Some d =>
          match octet_step cur d with
          | Some v => pton4_go s' octets (Some v)
          | None => None
          end
      | None =>
          if Ascii.eqb c "." then
            match cur with
            | Some v =>
                if (length octets <? 3)%nat then pton4_go s' (octets ++ [v]) None else None
            | None => None
            end
          else None
      end
  end.

Definition inet_pton4 (s : string) : option (list Z) := pton4_go (c_str s) [] None.

Fixpoint join_dot (l : list Z) : string :=
  match l with
  | [] => ""
  | [v] => dec_string v
  | v :: l' => dec_string v +:+ "." +:+ join_dot l'
  end.

Definition inet_ntop4 (octets : list Z) : string := join_dot octets.

(** The digits of an octet, read by [octet_step]. *)
Fixpoint octet_fold (s : string) (cur : option Z) : option (option Z) :=
  match s with
  | EmptyString => Some cur
  | String c s' =>
      match digit_val c with
      | Some d => match octet_step cur d with Some v => octet_fold s' (Some v) | None => None end
      | None => None
      end
  end.

Lemma forall_range (P : Z -> Prop) `{forall x, Decision (P x)} lo n :
  forallb (fun x => bool_decide (P x)) (seqZ lo n) = true ->
  forall x, lo <= x < lo + n -> P x.
Proof.
  intros Hall x Hx. rewrite forallb_forall in Hall.
  specialize (Hall x). rewrite bool_decide_eq_true in Hall. apply Hall.
  apply list_elem_of_In, elem_of_seqZ. lia.
Qed.

Lemma octet_fold_dec v : 0 <= v < 256 -> octet_fold (dec_string v) None = Some (Some v).
Proof.
  intros Hv. revert v Hv. apply (forall_range _ 0 256). vm_compute. reflexivity.
Qed.

(** Appending a digit to an octet appends it to its text. *)
Lemma dec_string_snoc v d :
  0 < v -> 0 <= d < 10 -> 10 * v + d <= 255 ->
  dec_string (10 * v + d) = dec_string v +:+ String (digit d) "".
Proof.
  intros Hv Hd Hle.
  pattern v. apply (forall_range _ 1 25); [|lia]. clear v Hv Hle.
  pattern d. apply (forall_range _ 0 10); [|lia]. vm_compute. reflexivity.
Qed.

Lemma string_app_nil_r (s : string) : s +:+ "" = s.
Proof. induction s as [|c s IH]; [done|]. cbv [String.append] in *. congruence. Qed.

Lemma string_app_cons c (s t : string) : String c s +:+ t = String c (s +:+ t).
Proof. done. Qed.

Lemma string_app_assoc (a b c : string) : (a +:+ b) +:+ c = a +:+ (b +:+ c).
Proof. induction a as [|x a IH]; [done|]. by rewrite !string_app_cons, IH. Qed.

Lemma concat_cons s l : String.concat "" (s :: l) = s +:+ String.concat "" l.
Proof. destruct l; [by cbn; rewrite string_app_nil_r|done]. Qed.

Lemma pton4_go_octet s rest octets cur w :
  octet_fold s cur = Some w -> pton4_go (s +:+ rest) octets cur = pton4_go rest octets w.
Proof.
  revert cur. induction s as [|c s IH]; intros cur; [by intros [= <-]|].
  rewrite string_app_cons. cbn [octet_fold pton4_go].
  destruct (digit_val c); [|done]. destruct (octet_step cur z); [|done]. apply IH.
Qed.

Lemma pton4_go_dot rest octets v :
  (length octets < 3)%nat ->
  pton4_go ("." +:+ rest) octets (Some v) = pton4_go rest (octets ++ [v]) None.
Proof. intros Hl%Nat.ltb_lt. change ("." +:+ rest) with (String "." rest). simpl. by rewrite Hl. Qed.

Lemma pton4_ntop a b c d :
  is_byte a -> is_byte b -> is_byte c -> is_byte d ->
  pton4_go (inet_ntop4 [a; b; c; d]) [] None = Some [a; b; c; d].
Proof.
  unfold is_byte. intros. unfold inet_ntop4. cbn [join_dot].
  rewrite <- (string_app_nil_r (dec_string d)).
  do 3 (erewrite pton4_go_octet by (apply octet_fold_dec; lia);
        rewrite pton4_go_dot by (simpl; lia)).
  by erewrite pton4_go_octet by (apply octet_fold_dec; lia).
Qed.

(** The text scanned so far, in the state of [pton4_go]. *)
Definition scanned (octets : list Z) (cur : option Z) : string :=
  foldr (fun v t => dec_string v +:+ "." +:+ t)
        (match cur with Some v => dec_string v | None => "" end) octets.

Lemma scanned_snoc octets v cur :
  scanned (octets ++ [v]) cur = scanned octets (Some v) +:+ "." +:+ scanned [] cur.
Proof.
  unfold scanned. induction octets as [|o octets IH]; [done|].
  cbn [app foldr]. by rewrite IH, !string_app_assoc.
Qed.

Lemma join_dot_scanned octets v : join_dot (octets ++ [v]) = scanned octets (Some v).
Proof.
  induction octets as [|o octets IH]; [done|]. cbn [app]. unfold scanned. cbn [foldr].
  fold (scanned octets (Some v)). rewrite <- IH.
  destruct (octets ++ [v]) eqn:E; [|done]. by destruct octets.
Qed.

Lemma scanned_step octets cur d w :
  octet_step cur d = Some w ->
  0 <= d < 10 -> (forall v, cur = Some v -> 0 <= v) ->
  scanned octets (Some w) = scanned octets cur +:+ String (digit d) "".
Proof.
  intros Hstep Hd Hcur.
  assert (dec_string w = match cur with Some v => dec_string v | None => "" end
                           +:+ String (digit d) "") as Hw.
  { destruct cur as [v|]; simpl in Hstep.
    - specialize (Hcur v eq_refl). destruct (Z.eqb_spec v 0); [done|].
      destruct (Z.ltb_spec 255 (10 * v + d)); [done|]. simplify_eq.
      apply dec_string_snoc; lia.
    - injection Hstep as <-. revert d Hd. apply (forall_range _ 0 10).
      vm_compute. reflexivity. }
  unfold scanned. induction octets as [|o octets IH]; cbn [foldr]; [done|].
  by rewrite IH, !string_app_assoc.
Qed.

Lemma octet_step_nonneg cur d w :
  octet_step cur d = Some w -> 0 <= d < 10 ->
  (forall v, cur = Some v -> is_byte v) -> is_byte w.
Proof.
  unfold is_byte. destruct cur as [v|]; simpl; intros Hstep Hd Hcur.
  - specialize (Hcur v eq_refl). destruct (v =? 0); [done|].
    destruct (Z.ltb_spec 255 (10 * v + d)); [done|]. simplify_eq. lia.
  - simplify_eq. lia.
Qed.

(** The scanner accepts one text per address: what it read is what
    [inet_ntop4] prints. *)
Lemma pton4_go_text s octets cur l :
  pton4_go s octets cur = Some l ->
  (forall v, cur = Some v -> is_byte v) -> Forall is_byte octets ->
  inet_ntop4 l = scanned octets cur +:+ s /\ Forall is_byte l /\ length l = 4%nat.
Proof.
  unfold inet_ntop4. revert octets cur. induction s as [|c s IH]; intros octets cur; cbn [pton4_go].
  - destruct cur as [v|]; [|done]. destruct (Nat.eqb_spec (length octets) 3) as [Hlen|]; [|done].
    intros [= <-] Hcur Hall. rewrite join_dot_scanned, string_app_nil_r.
    split; [done|]. rewrite length_app, Hlen. split; [|done].
    apply Forall_app_2; [done|]. constructor; [by apply Hcur|constructor].
  - destruct (digit_val c) as [d|] eqn:Hc.
    + destruct (octet_step cur d) as [w|] eqn:Hstep; [|done]. intros Hgo Hcur Hall.
      pose proof (digit_val_range _ _ Hc) as Hd.
      destruct (IH _ _ Hgo) as (Htext & Hbytes & Hlen); [|done|].
      { intros ? [= <-]. by eapply octet_step_nonneg. }
      split; [|done]. rewrite Htext, (scanned_step _ _ _ _ Hstep Hd).
      * by rewrite string_app_assoc, (digit_of_val _ _ Hc).
      * intros v Hv. specialize (Hcur v Hv). unfold is_byte in Hcur. lia.
    + destruct (Ascii.eqb_spec c ".") as [->|]; [|done]. destruct cur as [v|]; [|done].
      destruct (_ <? _)%nat; [|done]. intros Hgo Hcur Hall.
      destruct (IH _ _ Hgo) as (Htext & Hrest); [done| |].
      { apply Forall_app_2; [done|]. constructor; [by apply Hcur|constructor]. }
      split; [|done]. by rewrite Htext, scanned_snoc, !string_app_assoc.
Qed.

Lemma inet_pton4_ntop a b c d :
  Forall is_byte [a; b; c; d] -> inet_pton4 (inet_ntop4 [a; b; c; d]) = Some [a; b; c; d].
Proof.
  intros Hall. inversion_clear Hall as [|?? Ha H1]. inversion_clear H1 as [|?? Hb H2].
  inversion_clear H2 as [|?? Hc H3]. inversion_clear H3 as [|?? Hd _].
  unfold inet_pton4. assert (forall s octets cur l,
    pton4_go s octets cur = Some l -> c_str s = s) as Hcstr.
  { induction s as [|ch s IH]; [done|]. intros octets cur l Hgo. cbn [pton4_go] in Hgo. cbn [c_str].
    destruct (Ascii.eqb_spec ch zero) as [->|].
    - by vm_compute in Hgo.
    - f_equal. repeat case_match; simplify_eq; eauto. }
  pose proof (pton4_ntop a b c d Ha Hb Hc Hd) as Hgo.
  by rewrite (Hcstr _ _ _ _ Hgo).
Qed.

(** An accepted text is the text [inet_ntop4] prints for its address. *)
Lemma inet_ntop4_pton s l :
  inet_pton4 s = Some l -> inet_ntop4 l = c_str s /\ Forall is_byte l /\ length l = 4%nat.
Proof. intros H. by apply (pton4_go_text _ [] None). Qed.
