(* ===== verification/CxxString.v ===== *)
(** * CxxString: [std::string] positions, [std::getline] and [std::stoi].

    A [std::string] is its list of characters here; [npos] is [None]. *)
From S2P Require Import Prelude Text.
From Stdlib Require Import Ascii.
From Stdlib Require String.
Local Open Scope Z_scope.

Abbreviation chars := (list ascii).

Definition newline : ascii := "010"%char.

(** [find_first_of]: the position of the first character that meets [p]. *)
Definition find_first (p : ascii -> bool) (s : chars) : option nat :=
  fst <$> list_find (fun c => p c = true) s.

(** [find_last_of]. *)
Definition find_last (p : ascii -> bool) (s : chars) : option nat :=
  (fun i => (length s - 1 - i)%nat) <$> find_first p (reverse s).

(** [substr(pos, len)] for [pos <= size()]. *)
Definition substr (pos len : nat) (s : chars) : chars := take len (drop pos s).

(** [std::getline] until it fails: the lines of a text, the last one even
    without a newline. *)
Fixpoint getlines (text : chars) : list chars :=
  match text with
  | [] => []
  | c :: text' =>
      if Ascii.eqb c newline then [] :: getlines text'
      else match getlines text' with
           | [] => [[c]]
           | l :: ls => (c :: l) :: ls
           end
  end.

(** [isspace] in the C locale. *)
Definition isspace (c : ascii) : bool :=
  let n := nat_of_ascii c in ((n =? 32) || ((9 <=? n) && (n <=? 13)))%nat.

Fixpoint skip_spaces (s : chars) : chars :=
  match s with
  | c :: s' => if isspace c then skip_spaces s' else s
  | [] => []
  end.

(** The values of the digits a string starts with. *)
Fixpoint leading_digits (s : chars) : list Z :=
  match s with
  | c :: s' => match digit_val c with Some d => d :: leading_digits s' | None => [] end
  | [] => []
  end.

Definition digits_value (ds : list Z) : Z := foldl (fun acc d => 10 * acc + d) 0 ds.

(** [std::stoi(s)] in base 10: what follows the number is ignored. *)
Definition stoi (s : chars) : outcome Z :=
  let '(neg, s) :=
    match skip_spaces s with
    | c :: s' =>
        if Ascii.eqb c "-" then (true, s')
        else if Ascii.eqb c "+" then (false, s') else (false, c :: s')
    | [] => (false, [])
    end in
  match leading_digits s with
  | [] => Throw InvalidArgument
  | ds =>
      let v := if neg then - digits_value ds else digits_value ds in
      if (- 2 ^ 31 <=? v) && (v <? 2 ^ 31) then Ret v else Throw OutOfRange
  end.

(** ** Positions *)
(** ** C strings *)
Definition NUL : ascii := "000"%char.

(** [message.c_str()], up to the terminator. *)
Fixpoint c_chars (s : chars) : chars :=
  match s with
  | [] => []
  | c :: s' => if Ascii.eqb c NUL then [] else c :: c_chars s'
  end.

Lemma find_first_app p l1 c l2 :
  Forall (fun x => p x = false) l1 -> p c = true ->
  find_first p (l1 ++ c :: l2) = Some (length l1).
Proof.
  intros Hl Hc. unfold find_first. induction Hl as [|x l1 Hx Hl IH]; cbn [app list_find].
  - by rewrite decide_True.
  - rewrite decide_False by (rewrite Hx; done).
    destruct (list_find (fun c0 => p c0 = true) (l1 ++ c :: l2)) as [[i y]|]; cbn in *; congruence.
Qed.

Lemma find_first_none p l : Forall (fun x => p x = false) l -> find_first p l = None.
Proof.
  unfold find_first. induction 1 as [|x l Hx Hl IH]; cbn [list_find]; [done|].
  rewrite decide_False by (rewrite Hx; done).
  by destruct (list_find _ l) as [[i y]|].
Qed.

Lemma find_last_app p l1 c l2 :
  Forall (fun x => p x = false) l2 -> p c = true ->
  find_last p (l1 ++ c :: l2) = Some (length l1).
Proof.
  intros Hl Hc. unfold find_last. rewrite reverse_app, reverse_cons, <- app_assoc.
  cbn [app]. rewrite find_first_app; [|by apply Forall_reverse|done].
  cbn. rewrite length_reverse, length_app. cbn. f_equal. lia.
Qed.

Lemma drop_mark (a : chars) c r : drop (length a + 1) (a ++ c :: r) = r.
Proof. induction a; [done|]. cbn. done. Qed.

(** ** Lines *)
Lemma getlines_line l text :
  newline ∉ l -> getlines (l ++ newline :: text) = l :: getlines text.
Proof.
  induction l as [|c l IH]; intros Hn; [done|]. cbn [app getlines].
  apply not_elem_of_cons in Hn as [Hne Hn].
  destruct (Ascii.eqb_spec c newline) as [->|_]; [done|]. by rewrite IH.
Qed.

Lemma getlines_concat (ls : list chars) :
  Forall (fun l => newline ∉ l) ls ->
  getlines (mjoin ((fun l => l ++ [newline]) <$> ls)) = ls.
Proof.
  induction 1 as [|l ls Hl Hls IH]; [done|]. cbn [fmap list_fmap mjoin list_join].
  rewrite <- app_assoc. cbn [app]. rewrite getlines_line by done. f_equal. exact IH.
Qed.

(** ** Numbers *)
Lemma leading_digits_dec s acc w :
  dec_val s acc = Some w ->
  foldl (fun acc d => 10 * acc + d) acc (leading_digits (bytes_of s)) = w.
Proof.
  revert acc. induction s as [|c s IH]; cbn; intros acc; [by intros [= ->]|].
  destruct (digit_val c) as [d|]; [|done]. apply IH.
Qed.

Lemma dec_string_cons n : 0 <= n -> exists d s, dec_string n = String (digit d) s /\ 0 <= d < 10.
Proof.
  intros Hn. unfold dec_string, dec_fuel. generalize (Z.to_nat (Z.log2 n)). intros f.
  assert (forall f n acc, 0 <= n -> exists d s, dec_go (S f) n acc = String (digit d) s /\ 0 <= d < 10)
    as Hgo; [|by apply Hgo].
  clear. intros f. induction f as [|f IH]; intros n acc Hn; cbn [dec_go].
  - exists (n `mod` 10). destruct (n <? 10); eexists; (split; [done|apply Z.mod_pos_bound; lia]).
  - destruct (n <? 10).
    + exists (n `mod` 10). eexists. split; [done|apply Z.mod_pos_bound; lia].
    + apply IH. zmod.
Qed.

Lemma digit_plain d : 0 <= d < 10 ->
  isspace (digit d) = false /\ Ascii.eqb (digit d) "-" = false /\ Ascii.eqb (digit d) "+" = false.
Proof.
  intros Hd. assert (forall i, (i < 10)%nat -> isspace (digit (Z.of_nat i)) = false /\
    Ascii.eqb (digit (Z.of_nat i)) "-" = false /\ Ascii.eqb (digit (Z.of_nat i)) "+" = false) as H.
  { intros i Hi. do 10 (destruct i as [|i]; [done|]). lia. }
  specialize (H (Z.to_nat d)). rewrite Z2Nat.id in H by lia. apply H. lia.
Qed.

(** [std::stoi] reads back what [std::to_string] wrote. *)
Lemma stoi_dec_int z : - 2 ^ 31 <= z < 2 ^ 31 -> stoi (bytes_of (dec_int z)) = Ret z.
Proof.
  intros Hz.
  assert (forall n, 0 <= n -> exists d ds, leading_digits (bytes_of (dec_string n)) = d :: ds /\
    digits_value (d :: ds) = n) as Hpos.
  { intros n Hn. pose proof (leading_digits_dec _ _ _ (dec_val_string n Hn)) as Hv.
    destruct (dec_string_cons n Hn) as (d & s & Hs & Hd). rewrite Hs in *. cbn in *.
    rewrite digit_val_digit in * by done. by exists d, (leading_digits (bytes_of s)). }
  unfold stoi, dec_int. destruct (Z.ltb_spec z 0).
  - destruct (Hpos (- z)) as (d & ds & Hl & Hv); [lia|].
    change (bytes_of (String "-" (dec_string (- z)))) with ("-"%char :: bytes_of (dec_string (- z))).
    cbn -[leading_digits digits_value dec_string String.list_ascii_of_string Z.leb Z.ltb Z.pow].
    change (isspace "-") with false. cbv beta iota zeta.
    change (Ascii.eqb "-" "-") with true. cbv beta iota zeta.
    rewrite Hl, Hv, Z.opp_involutive.
    rewrite (proj2 (Z.leb_le _ _)), (proj2 (Z.ltb_lt _ _)) by lia. done.
  - destruct (Hpos z) as (d & ds & Hl & Hv); [lia|].
    destruct (dec_string_cons z) as (d0 & s & Hs & Hd0); [lia|]. rewrite Hs in *.
    destruct (digit_plain d0 Hd0) as (H1 & H2 & H3).
    change (bytes_of (String (digit d0) s)) with (digit d0 :: bytes_of s) in *.
    cbn -[leading_digits digits_value digit isspace Ascii.eqb String.list_ascii_of_string Z.leb Z.ltb Z.pow].
    rewrite H1, H2, H3, Hl, Hv.
    rewrite (proj2 (Z.leb_le _ _)), (proj2 (Z.ltb_lt _ _)) by lia. done.
Qed.
