(* ===== verification/Utf8.v ===== *)
(** * Utf8: Python's [bytes.decode("utf-8", "ignore")].

    The agent turns the bytes of a report into a text (ipc_consumer.py). A text
    is kept here as the bytes of its characters, so that decoding keeps the
    bytes of whole characters and drops those that are not part of one. A
    character is one to four bytes; surrogates, overlong forms and numbers above
    0x10FFFF are none. What is dropped is, as in CPython, the longest start of a
    character at that place, or the one byte that starts none. *)
From S2P Require Import Prelude Text CxxString.
From Stdlib Require Import Ascii.
Local Open Scope Z_scope.

Definition unit_of (c : ascii) : Z := Z.of_nat (nat_of_ascii c).

(** A byte of the form 10xxxxxx. *)
Definition continuation (c : ascii) : bool := (128 <=? unit_of c) && (unit_of c <? 192).

(** The number of bytes that follow [c], when a character can start with it. *)
Definition trailing (c : ascii) : option nat :=
  if unit_of c <? 128 then Some 0%nat
  else if unit_of c <? 194 then None
  else if unit_of c <? 224 then Some 1%nat
  else if unit_of c <? 240 then Some 2%nat
  else if unit_of c <? 245 then Some 3%nat
  else None.

(** The second byte, which the first one restricts. *)
Definition second_ok (c1 c2 : ascii) : bool :=
  continuation c2 &&
  (if unit_of c1 =? 224 then 160 <=? unit_of c2
   else if unit_of c1 =? 237 then unit_of c2 <? 160
   else if unit_of c1 =? 240 then 144 <=? unit_of c2
   else if unit_of c1 =? 244 then unit_of c2 <? 144
   else true).

(** How many of the first [n] bytes, from the first on, are continuations. *)
Fixpoint following (n : nat) (s : chars) : nat :=
  match n, s with
  | S n, c :: s => if continuation c then S (following n s) else 0
  | _, _ => 0
  end.

(** How many of the bytes [s] belong with [c] before them, and whether they make
    a character. *)
Definition decode_unit (c : ascii) (s : chars) : nat * bool :=
  match trailing c with
  | None => (0%nat, false)
  | Some 0%nat => (0%nat, true)
  | Some (S n) =>
      match s with
      | c2 :: s =>
          if second_ok c c2
          then (S (following n s), Nat.eqb (following n s) n)
          else (0%nat, false)
      | [] => (0%nat, false)
      end
  end.

(** [skip] bytes belong with one already seen, [keep] whether they stay. *)
Fixpoint utf8_from (skip : nat) (keep : bool) (s : chars) : chars :=
  match s with
  | [] => []
  | c :: s =>
      match skip with
      | S skip => (if keep then [c] else []) ++ utf8_from skip keep s
      | O =>
          let '(skip, keep) := decode_unit c s in
          (if keep then [c] else []) ++ utf8_from skip keep s
      end
  end.

Definition utf8_ignore (s : chars) : chars := utf8_from 0 true s.

(** ** The texts *)

(** The bytes of one character. *)
Inductive utf8_char : chars -> Prop :=
  | utf8_one c : unit_of c < 128 -> utf8_char [c]
  | utf8_more c c2 s n :
      trailing c = Some (S n) -> second_ok c c2 = true ->
      length s = n -> Forall (fun c => continuation c = true) s ->
      utf8_char (c :: c2 :: s).

Inductive utf8_text : chars -> Prop :=
  | utf8_nil : utf8_text []
  | utf8_cons s t : utf8_char s -> utf8_text t -> utf8_text (s ++ t).

(** ** Facts *)

Lemma following_all n s t :
  length s = n -> Forall (fun c => continuation c = true) s -> following n (s ++ t) = n.
Proof.
  revert n. induction s as [|c s IH]; intros n <- Hs; [by destruct t|]. cbn.
  inversion Hs as [|? ? Hc Hs']; subst. rewrite Hc. f_equal. by apply IH.
Qed.

Lemma following_le n s : (following n s <= n)%nat.
Proof. revert s. induction n as [|n IH]; intros [|c s]; cbn; try lia. specialize (IH s). case_match; lia. Qed.

Lemma following_length n s : (following n s <= length s)%nat.
Proof. revert s. induction n as [|n IH]; intros [|c s]; cbn; try lia. specialize (IH s). case_match; lia. Qed.

Lemma following_taken n s : Forall (fun c => continuation c = true) (take (following n s) s).
Proof.
  revert s. induction n as [|n IH]; intros [|c s]; cbn; try done.
  destruct (continuation c) eqn:Hc; cbn; [|done]. by constructor.
Qed.

Lemma decode_unit_length c s : ((decode_unit c s).1 <= length s)%nat.
Proof.
  unfold decode_unit. destruct (trailing c) as [[|n]|], s as [|c2 s]; cbn; try lia.
  case_match; cbn; [|lia]. pose proof (following_length n s). lia.
Qed.

Lemma trailing_ascii c : unit_of c < 128 -> trailing c = Some 0%nat.
Proof. intros Hc. unfold trailing. by destruct (Z.ltb_spec (unit_of c) 128); [|lia]. Qed.

Lemma trailing_zero c : trailing c = Some 0%nat -> unit_of c < 128.
Proof. unfold trailing. repeat case_match; try done. lia. Qed.

Lemma decode_unit_one c t : unit_of c < 128 -> decode_unit c t = (0%nat, true).
Proof. intros Hc. unfold decode_unit. by rewrite trailing_ascii. Qed.

Lemma utf8_from_skip k s b t :
  length s = k -> utf8_from k b (s ++ t) = (if b then s else []) ++ utf8_from 0 b t.
Proof.
  revert k. induction s as [|c s IH]; intros k <-; [by destruct b|].
  cbn. rewrite IH by done. by destruct b.
Qed.

(** Nothing depends on [keep] when no byte is left to skip. *)
Lemma utf8_from_keep b b' s : utf8_from 0 b s = utf8_from 0 b' s.
Proof. by destruct s. Qed.

Lemma utf8_ignore_cons c s :
  utf8_ignore (c :: s)
    = (if (decode_unit c s).2 then c :: take (decode_unit c s).1 s else [])
      ++ utf8_ignore (drop (decode_unit c s).1 s).
Proof.
  unfold utf8_ignore. cbn [utf8_from]. pose proof (decode_unit_length c s) as Hl.
  destruct (decode_unit c s) as [k b]. cbn [fst snd] in *.
  rewrite <- (take_drop k s) at 1. rewrite utf8_from_skip by (rewrite length_take; lia).
  rewrite (utf8_from_keep b true). by destruct b.
Qed.

Lemma utf8_ignore_char s t : utf8_char s -> utf8_ignore (s ++ t) = s ++ utf8_ignore t.
Proof.
  intros [c Hc|c c2 s' n Ht H2 Hl Hs]; cbn [app].
  - rewrite utf8_ignore_cons, decode_unit_one by done. cbn. by rewrite drop_0.
  - assert (decode_unit c (c2 :: s' ++ t) = (S n, true)) as Hu.
    { unfold decode_unit. rewrite Ht, H2, following_all by done. by rewrite Nat.eqb_refl. }
    rewrite utf8_ignore_cons, Hu. cbn. by rewrite take_app_length', drop_app_length' by done.
Qed.

(** A text decodes to itself, *)
Lemma utf8_ignore_text s : utf8_text s -> utf8_ignore s = s.
Proof. induction 1 as [|s t Hs _ IH]; [done|]. by rewrite utf8_ignore_char, IH. Qed.

(** whatever was decoded is a text, *)
Lemma utf8_ignore_is_text s : utf8_text (utf8_ignore s).
Proof.
  induction s as [s IH] using (induction_ltof1 _ length). unfold ltof in IH.
  destruct s as [|c s]; [constructor|]. rewrite utf8_ignore_cons.
  assert (utf8_text (utf8_ignore (drop (decode_unit c s).1 s))) as Hrest.
  { apply IH. rewrite length_drop. cbn. lia. }
  destruct (decode_unit c s) as [k [|]] eqn:Hu; [|exact Hrest]. cbn [fst snd] in *.
  apply utf8_cons; [|exact Hrest]. revert Hu. unfold decode_unit.
  destruct (trailing c) as [[|n]|] eqn:Ht; [| |done].
  - intros [= <-]. apply utf8_one. by apply trailing_zero.
  - destruct s as [|c2 s]; [done|]. destruct (second_ok c c2) eqn:H2; [|done].
    intros [= <- Hn%Nat.eqb_eq]. rewrite Hn. cbn. eapply utf8_more; [done|done| |].
    + rewrite length_take. pose proof (following_length n s). lia.
    + pose proof (following_taken n s) as Hf. by rewrite Hn in Hf.
Qed.

(** and characters below 128 decode to themselves. *)
Lemma ascii_text s : Forall (fun c => unit_of c < 128) s -> utf8_text s.
Proof.
  induction 1 as [|c s Hc _ IH]; [constructor|]. apply (utf8_cons [c]); [by constructor|done].
Qed.

(** ** NULs, which end a text in a slot *)

Lemma continuation_nul : continuation NUL = false.
Proof. reflexivity. Qed.

Lemma following_nul n s t : following n (s ++ NUL :: t) = following n s.
Proof.
  revert s. induction n as [|n IH]; intros [|c s]; cbn; try done. case_match; [|done]. by rewrite IH.
Qed.

Lemma decode_unit_nul c s t : decode_unit c (s ++ NUL :: t) = decode_unit c s.
Proof.
  unfold decode_unit. destruct (trailing c) as [[|n]|], s as [|c2 s]; cbn [app]; try done.
  by rewrite following_nul.
Qed.

Lemma utf8_from_nul k b s t :
  (k <= length s)%nat ->
  utf8_from k b (s ++ NUL :: t) = utf8_from k b s ++ NUL :: utf8_ignore t.
Proof.
  revert k b. induction s as [|c s IH]; intros k b Hk; cbn in Hk.
  - by replace k with 0%nat by lia.
  - destruct k as [|k]; cbn [app utf8_from].
    + rewrite decode_unit_nul. pose proof (decode_unit_length c s).
      destruct (decode_unit c s) as [k' b']. cbn in *. rewrite IH by lia. by rewrite app_assoc.
    + rewrite IH by lia. by rewrite app_assoc.
Qed.

Lemma utf8_ignore_padded s k :
  utf8_ignore (s ++ replicate k NUL) = utf8_ignore s ++ replicate k NUL.
Proof.
  assert (forall k, utf8_ignore (replicate k NUL) = replicate k NUL) as Hn.
  { intros j. apply utf8_ignore_text, ascii_text, Forall_replicate. reflexivity. }
  destruct k as [|k]; [by rewrite !app_nil_r|]. cbn [replicate].
  unfold utf8_ignore at 1. rewrite utf8_from_nul by lia. by rewrite Hn.
Qed.

Lemma utf8_from_Forall (P : ascii -> Prop) k b s : Forall P s -> Forall P (utf8_from k b s).
Proof.
  intros Hs. revert k b. induction Hs as [|c s Hc Hs IH]; intros k b; [constructor|].
  destruct k as [|k]; cbn; [destruct (decode_unit c s) as [k' b']|];
    apply Forall_app; (split; [case_match; by repeat constructor|apply IH]).
Qed.

Lemma utf8_ignore_Forall (P : ascii -> Prop) s : Forall P s -> Forall P (utf8_ignore s).
Proof. apply utf8_from_Forall. Qed.

Lemma utf8_ignore_length s : (length (utf8_ignore s) <= length s)%nat.
Proof.
  unfold utf8_ignore. generalize 0%nat, true. induction s as [|c s IH]; intros k b; [done|].
  destruct k as [|k]; cbn; [destruct (decode_unit c s) as [k' b']|];
    rewrite length_app; [pose proof (IH k' b')|pose proof (IH k b)];
    case_match; cbn; lia.
Qed.

(** CPython on ill-formed bytes: a cut character goes, what follows it stays. *)
Example ignored_bytes :
  utf8_ignore ["a"; "195"; "("; "226"; "130"; "172"; "226"; "130"; "b"; "240"; "144"]%char
    = ["a"; "("; "226"; "130"; "172"; "b"]%char /\
  utf8_ignore ["237"; "160"; "128"; "192"; "175"; "244"; "144"; "z"]%char = ["z"]%char.
Proof. split; vm_compute; reflexivity. Qed.
