(* ===== verification/Format.v ===== *)
(** * Format: the constants of macro.hpp, the enumerations and message records
    of format.hpp. Fields are integers of [Z] at the width the struct gives
    them; a [std::string] is a [string]. *)
From S2P Require Import Prelude.
Local Open Scope Z_scope.

(** ** macro.hpp *)
Definition TARGET_PROTOCOLS : list string := ["ib"; "roce"; "tcp"; "udp"].
Definition MESSAGE_SIZE : Z := 64.
Definition MAX_NUM_HOSTS_IN_PINGLIST : Z := 10000.
Definition NUM_BUFFER : Z := 256.
Definition TX_DEPTH : Z := 1.
Definition RX_DEPTH : Z := 1.
Definition SERVICE_LEVEL : Z := 0.
Definition BATCH_CQE : Z := 16.
Definition SMALL_JITTERING_MICROSEC : Z := 10.
Definition PINGWEAVE_REMOTE_QKEY : Z := 1915183105.
Definition PINGWEAVE_TABLE_EXPIRY_TIME_RDMA_MS : Z := 1000.
Definition PINGWEAVE_TABLE_EXPIRY_TIME_TCP_MS : Z := 1000.
Definition PINGWEAVE_TABLE_EXPIRY_TIME_UDP_MS : Z := 1000.
Definition PINGWEAVE_TCP_PORT_SERVER : Z := 33334.
Definition PINGWEAVE_UDP_PORT_CLIENT : Z := 33335.
Definition PINGWEAVE_UDP_PORT_SERVER : Z := 33336.
Definition PINGWEAVE_TIME_CALC_MODULO : Z := Z.shiftl 1 32.
Definition MSG_QUEUE_SIZE : Z := Z.shiftl 1 16.
Definition IPC_MESSAGE_SIZE : Z := 2097152.
Definition IPC_BUFFER_SIZE : Z := 64.

(** ** format.hpp: result codes, opcodes and work-request ids *)
Definition PINGWEAVE_RESULT_WEIRD : Z := -2.
Definition PINGWEAVE_RESULT_FAILURE : Z := -1.
Definition PINGWEAVE_RESULT_SUCCESS : Z := 0.
Definition PINGWEAVE_OPCODE_PONG : Z := 1.
Definition PINGWEAVE_OPCODE_ACK : Z := 2.
Definition PINGWEAVE_WRID_PONG_ACK : Z := NUM_BUFFER * 4.

(** ** format.hpp: statistics of a report *)
Record result_stat_t := ResultStat {
  mean : Z; max : Z; percentile_50 : Z; percentile_95 : Z; percentile_99 : Z }.

(** ** format.hpp: TCP and UDP *)
Record tcpudp_result_msg_t := TcpUdpResultMsg {
  tu_pingid : Z; tu_dstip : Z; tu_time_ping_send : Z; tu_network_delay : Z;
  tu_result : Z }.

Record tcpudp_result_info_t := TcpUdpResultInfo {
  tu_n_success : Z; tu_n_failure : Z; tu_n_weird : Z;
  tu_ts_start : Z; tu_ts_end : Z;
  tu_network_delays : list Z }.

(** The default constructor of the struct: every counter and timestamp 0. *)
Definition tcpudp_result_info_init : tcpudp_result_info_t :=
  TcpUdpResultInfo 0 0 0 0 0 [].

(** ** format.hpp: RDMA

    A GID is its 16 bytes in network order. *)
Record rdma_pingmsg_t := RdmaPingMsg {
  pm_pingid : Z; pm_qpn : Z; pm_gid : list Z; pm_lid : Z; pm_time : Z }.

Record rdma_pongmsg_t := RdmaPongMsg {
  po_opcode : Z; po_pingid : Z; po_server_delay : Z }.

Record rdma_result_msg_t := RdmaResultMsg {
  rd_pingid : Z; rd_dstip : Z; rd_time_ping_send : Z;
  rd_client_delay : Z; rd_network_delay : Z; rd_server_delay : Z;
  rd_result : Z }.

Record rdma_result_info_t := RdmaResultInfo {
  rd_n_success : Z; rd_n_failure : Z; rd_n_weird : Z;
  rd_ts_start : Z; rd_ts_end : Z;
  rd_server_delays : list Z; rd_network_delays : list Z; rd_client_delays : list Z }.

Definition rdma_result_info_init : rdma_result_info_t :=
  RdmaResultInfo 0 0 0 0 0 [] [] [].

Record rdma_addr := RdmaAddr { ra_qpn : Z; ra_gid : list Z; ra_lid : Z }.

#[export] Instance tcpudp_result_msg_eq_dec : EqDecision tcpudp_result_msg_t.
Proof. solve_decision. Defined.
#[export] Instance rdma_result_msg_eq_dec : EqDecision rdma_result_msg_t.
Proof. solve_decision. Defined.
#[export] Instance result_stat_eq_dec : EqDecision result_stat_t.
Proof. solve_decision. Defined.
