(* ===== verification/Common.v ===== *)
(** * Common: the pure helpers of common.cpp — addresses, ping identifiers,
    clock arithmetic, and the statistics of a report. *)
From S2P Require Import Prelude Text Format.
Local Open Scope Z_scope.

(** ** IP addresses (common.cpp: [get_all_local_ips], [ip2uint], [uint2ip]) *)
Module NetAddr.
(** One entry of [getifaddrs]: its name, and when it has an address the
    family and, for [AF_INET], the octets. *)
Inductive ifa_addr := IfaInet (octets : list Z) | IfaOther.
Record ifaddrs := Ifaddrs { ifa_name : string; ifa_addr_opt : option ifa_addr }.

(** [name.rfind(prefix, 0) == 0]. *)
Definition starts_with (prefix name : string) : bool := String.prefix prefix name.

Definition ignored_iface (name : string) : bool :=
  String.eqb name "lo" || starts_with "virbr" name || starts_with "docker" name.

(** [None]: [getifaddrs] returned -1. *)
Definition get_all_local_ips (interfaces : option (list ifaddrs)) : gset string :=
  match interfaces with
  | None => ∅
  | Some l =>
      foldl (fun local_ips ifa =>
        match ifa_addr_opt ifa with
        | None => local_ips
        | Some addr =>
            if ignored_iface (ifa_name ifa) then local_ips
            else match addr with
                 | IfaInet octets => {[ inet_ntop4 octets ]} ∪ local_ips
                 | IfaOther => local_ips
                 end
        end) ∅ l
  end.

(** The return value of [inet_pton] is not looked at: on a malformed address
    [result] keeps the value the stack had, here [indet]. *)
Definition ip2uint (indet : Z) (ip : string) : Z :=
  match inet_pton4 ip with
  | Some octets => le_val octets
  | None => indet
  end.

Definition uint2ip (ip : Z) : string := inet_ntop4 (le_bytes 4 ip).

(** A text [inet_pton] accepts. *)
Definition valid_ipv4 (ip : string) : Prop := is_Some (inet_pton4 ip).
#[export] Instance valid_ipv4_dec ip : Decision (valid_ipv4 ip).
Proof. unfold valid_ipv4. apply _. Defined.

Lemma ip2uint_u32 indet ip : valid_ipv4 ip -> is_u32 (ip2uint indet ip).
Proof.
  intros [l Hl]. unfold ip2uint. rewrite Hl.
  destruct (inet_ntop4_pton _ _ Hl) as (_ & Hb & Hlen).
  pose proof (le_val_range _ Hb) as Hr. rewrite Hlen in Hr. done.
Qed.

Lemma uint2ip_bytes n : is_u32 n ->
  exists a b c d, le_bytes 4 n = [a; b; c; d] /\ Forall is_byte [a; b; c; d].
Proof.
  intros Hn. pose proof (le_bytes_bytes 4 n) as Hb.
  cbn [le_bytes] in *. by do 4 eexists.
Qed.

Lemma uint2ip_valid n : is_u32 n -> valid_ipv4 (uint2ip n).
Proof.
  intros Hn. unfold valid_ipv4, uint2ip.
  destruct (uint2ip_bytes n Hn) as (a & b & c & d & -> & Hall).
  rewrite inet_pton4_ntop by done. by eexists.
Qed.
End NetAddr.

(** ** Ping identifiers (common.cpp: [make_pingid], [parse_pingid]) *)
Module PingId.
Definition make_pingid (high low : Z) : Z := Z.lor (u64 (Z.shiftl high 32)) low.

Definition parse_pingid (value : Z) : Z * Z :=
  (u32 (Z.shiftr value 32), u32 (Z.land value 4294967295)).

(** On 32-bit halves the identifier is the obvious number. *)
Lemma make_pingid_eq high low :
  is_u32 high -> is_u32 low -> make_pingid high low = high * 2 ^ 32 + low.
Proof.
  unfold is_u32, make_pingid. intros Hh Hl.
  rewrite Z.shiftl_mul_pow2, u64_small by (unfold is_u64; lia).
  rewrite Z.lor_comm, <- Z.lxor_lor, Z.add_comm, <- Z.add_nocarry_lxor; [done|..];
    apply Z.bits_inj'; intros n Hn; rewrite Z.land_spec, Z.bits_0;
    rewrite <- (Z.shiftl_mul_pow2 high 32) by lia;
    (destruct (decide (n < 32));
     [rewrite (Z.shiftl_spec_low high 32 n) by lia; apply andb_false_r|]);
    replace (Z.testbit low n) with false; try done;
    symmetry; apply (Z.testbit_false low n Hn);
    rewrite Z.div_small; try done; split; try lia;
    apply Z.lt_le_trans with (2 ^ 32); try lia; apply Z.pow_le_mono_r; lia.
Qed.

Lemma make_pingid_u64 high low :
  is_u32 high -> is_u32 low -> is_u64 (make_pingid high low).
Proof. intros Hh Hl. rewrite make_pingid_eq by done. unfold is_u32, is_u64 in *. lia. Qed.

Lemma parse_pingid_eq value :
  is_u64 value -> parse_pingid value = (value `div` 2 ^ 32, value `mod` 2 ^ 32).
Proof.
  unfold is_u64, parse_pingid. intros Hv.
  replace 4294967295 with (Z.ones 32) by done. rewrite Z.land_ones, Z.shiftr_div_pow2 by lia.
  f_equal; apply u32_small; unfold is_u32; zmod.
Qed.
End PingId.
#[export] Hint Resolve PingId.make_pingid_u64 : pw.

(** ** Clocks (common.cpp, the [get_current_timestamp_*] family)

    A [steady_clock] or [system_clock] time point is the count of nanoseconds
    since the clock's epoch, a signed 64-bit integer. Reading a clock is an
    input of the model: every function that calls [now()] takes the reading. *)
Module Clock.
(** [duration_cast] truncates towards zero. *)
Definition to_seconds (d : Z) : Z := Z.quot d 1000000000.
Definition to_milliseconds (d : Z) : Z := Z.quot d 1000000.
Definition to_microseconds (d : Z) : Z := Z.quot d 1000.

(** [static_cast<uint64_t>(epoch_ns)]. *)
Definition convert_clock_to_ns (val : Z) : Z := u64 val.
Definition get_current_timestamp_system_ns (now : Z) : Z := convert_clock_to_ns now.
Definition get_current_timestamp_steady_ns (now : Z) : Z := convert_clock_to_ns now.

Section timestamp_text.
(** [strftime(..., "%Y-%m-%d %H:%M:%S", localtime(t))]: the calendar and
    the host's time zone are the C library's and the environment's. *)
Variable strftime_localtime : Z -> string.

Definition get_current_timestamp_system_str (now : Z) : string :=
  strftime_localtime (to_seconds now).

Definition timestamp_ns_to_string (timestamp_ns : Z) : string :=
  let seconds := timestamp_ns `div` 1000000000 in
  let nanoseconds_part := timestamp_ns `mod` 1000000000 in
  let time_buffer := strftime_localtime seconds in
  (* snprintf into result_buffer[64] keeps 63 characters *)
  of_bytes (take 63 (bytes_of
    (time_buffer +:+ "." +:+ pad0 9 (dec_string nanoseconds_part)))).
End timestamp_text.

Definition calc_time_delta_with_bitwrap (t1 t2 mask : Z) : Z :=
  if t1 <=? t2 then u64 (t2 - t1) else u64 (u64 (u64 (mask - t1) + 1) + t2).

Definition calc_time_delta_with_modulo (t1 t2 modulo : Z) : Z :=
  let t1_modulo := t1 `mod` modulo in
  let t2_modulo := t2 `mod` modulo in
  u64 (u64 (t2_modulo + modulo) - t1_modulo) `mod` modulo.

(** Both agree with subtraction modulo the counter's period. *)
Lemma modulo_delta_eq t1 t2 modulo :
  0 < modulo <= 2 ^ 63 ->
  calc_time_delta_with_modulo t1 t2 modulo = (t2 - t1) `mod` modulo.
Proof.
  intros Hm. unfold calc_time_delta_with_modulo.
  pose proof (Z.mod_pos_bound t1 modulo). pose proof (Z.mod_pos_bound t2 modulo).
  rewrite (u64_small (_ + _)) by (unfold is_u64; lia).
  rewrite u64_small by (unfold is_u64; lia).
  replace (t2 `mod` modulo + modulo - t1 `mod` modulo)
    with (t2 `mod` modulo - t1 `mod` modulo + 1 * modulo) by lia.
  rewrite Z.mod_add by lia. symmetry. apply Zminus_mod.
Qed.

Lemma modulo_delta_elapsed start elapsed :
  0 <= elapsed < 2 ^ 32 ->
  calc_time_delta_with_modulo (u64 start) (u64 (start + elapsed)) PINGWEAVE_TIME_CALC_MODULO = elapsed.
Proof.
  intros He. unfold PINGWEAVE_TIME_CALC_MODULO. rewrite Z.shiftl_1_l.
  rewrite modulo_delta_eq by lia. unfold u64. zmod.
Qed.

Lemma modulo_delta_range t1 t2 modulo :
  0 < modulo <= 2 ^ 63 -> 0 <= calc_time_delta_with_modulo t1 t2 modulo < modulo.
Proof. intros Hm. rewrite modulo_delta_eq by done. apply Z.mod_pos_bound. lia. Qed.

Lemma bitwrap_delta_eq t1 t2 k :
  0 < k <= 64 -> 0 <= t1 < 2 ^ k -> 0 <= t2 < 2 ^ k ->
  calc_time_delta_with_bitwrap t1 t2 (2 ^ k - 1) = (t2 - t1) `mod` 2 ^ k.
Proof.
  intros Hk H1 H2. unfold calc_time_delta_with_bitwrap.
  assert (2 ^ k <= 2 ^ 64) by (apply Z.pow_le_mono_r; lia).
  destruct (Z.leb_spec t1 t2).
  - rewrite u64_small by (unfold is_u64; lia). by rewrite Z.mod_small by lia.
  - rewrite (u64_small (2 ^ k - 1 - t1)) by (unfold is_u64; lia).
    replace ((t2 - t1) `mod` 2 ^ k) with (t2 - t1 + 2 ^ k).
    2:{ rewrite <- (Z.mod_add _ 1) by lia. rewrite Z.mod_small by lia. lia. }
    destruct (decide (t1 = 0)) as [->|]; [lia|].
    rewrite !u64_small by (unfold is_u64; rewrite ?u64_small; unfold is_u64; lia). lia.
Qed.
End Clock.

(** ** Statistics of a report (common.cpp: [calc_result_stats]) *)
Module Stats.
(** [std::accumulate(begin, end, uint64_t(0))]. *)
Definition accumulate (l : list Z) : Z := foldl (fun sum x => u64 (sum + x)) 0 l.

(** [*std::max_element(begin, end)]; an empty range has no element. *)
Definition max_element (l : list Z) : outcome Z :=
  match l with
  | [] => Undef
  | x :: l' => Ret (foldl Z.max x l')
  end.

(** [v[i]] on a [std::vector]: undefined out of range. *)
Definition vec_at (l : list Z) (i : Z) : outcome Z :=
  match l !! Z.to_nat i with Some x => Ret x | None => Undef end.

(** [sorted.size() * p / 100] in [size_t]. *)
Definition percentile_index (n p : Z) : Z := u64 (n * p) `div` 100.

Definition calc_result_stats (delays : list Z) : outcome result_stat_t :=
  match delays with
  | [] => Ret (ResultStat 0 0 0 0 0)
  | _ =>
      let n := Z.of_nat (length delays) in
      let sum := accumulate delays in
      let mean := sum `div` n in
      max ← max_element delays;
      let sorted_delays := merge_sort Z.le delays in
      percentile_50 ← vec_at sorted_delays (percentile_index n 50);
      percentile_95 ← vec_at sorted_delays (percentile_index n 95);
      percentile_99 ← vec_at sorted_delays (percentile_index n 99);
      Ret (ResultStat mean max percentile_50 percentile_95 percentile_99)
  end.

(** The vector sizes for which [size * 99] does not wrap. *)
Definition size_ok (l : list Z) : Prop := Z.of_nat (length l) * 99 < 2 ^ 64.

(** [v] is the [i]-th smallest element: at least [i+1] elements are at most
    [v], and at least [n-i] are at least [v]. *)
Definition order_statistic (l : list Z) (i : Z) (v : Z) : Prop :=
  v ∈ l /\
  i + 1 <= Z.of_nat (length (filter (fun x => x <= v) l)) /\
  Z.of_nat (length l) - i <= Z.of_nat (length (filter (fun x => v <= x) l)).

Lemma accumulate_u64 l : is_u64 (accumulate l).
Proof.
  unfold accumulate. destruct l as [|x l] using rev_ind; [unfold is_u64; simpl; lia|].
  rewrite foldl_app. apply u64_range.
Qed.

Lemma accumulate_eq l : accumulate l = u64 (foldr Z.add 0 l).
Proof.
  unfold accumulate. assert (forall s, is_u64 s ->
    foldl (fun sum x => u64 (sum + x)) s l = u64 (s + foldr Z.add 0 l)) as Hgen.
  { induction l as [|x l IH]; intros s Hs; simpl.
    - by rewrite Z.add_0_r, u64_small.
    - rewrite IH by apply u64_range. unfold u64. rewrite Zplus_mod_idemp_l. f_equal. lia. }
  by rewrite Hgen by (unfold is_u64; lia).
Qed.

Lemma max_element_spec x l :
  exists m, max_element (x :: l) = Ret m /\ m ∈ x :: l /\ Forall (fun y => y <= m) (x :: l).
Proof.
  simpl. eexists. split; [done|]. revert x. induction l as [|y l IH]; intros x; simpl.
  - split; [by left|]. apply Forall_singleton. lia.
  - destruct (IH (Z.max x y)) as [Hin Hall]. apply list.Forall_cons in Hall as [Hm Hall]. split.
    + apply elem_of_cons in Hin as [Hin|Hin]; [|by right; right].
      rewrite Hin. destruct (Z.max_spec x y) as [[_ ->]|[_ ->]]; [right; left|left].
    + rewrite !list.Forall_cons. split_and!; [lia|lia|done].
Qed.

Lemma percentile_index_range n p :
  0 < n -> 0 <= p < 100 -> n * p < 2 ^ 64 -> 0 <= percentile_index n p < n.
Proof.
  intros Hn Hp Hlt. unfold percentile_index. rewrite u64_small by (unfold is_u64; nia).
  split; [apply Z.div_pos; nia|]. apply Z.div_lt_upper_bound; nia.
Qed.

Lemma percentile_index_mono n p q :
  0 <= n -> 0 <= p <= q -> n * q < 2 ^ 64 -> percentile_index n p <= percentile_index n q.
Proof.
  intros Hn Hp Hlt. unfold percentile_index.
  rewrite !u64_small by (unfold is_u64; nia). apply Z.div_le_mono; nia.
Qed.

#[export] Instance Zle_total : Total Z.le.
Proof. intros x y. lia. Qed.

Lemma sorted_delays_sorted l : StronglySorted Z.le (merge_sort Z.le l).
Proof. apply Sorted_StronglySorted; [intros x y z; lia|]. apply (Sorted_merge_sort Z.le). Qed.

Lemma sorted_delays_perm l : merge_sort Z.le l ≡ₚ l.
Proof. apply merge_sort_Permutation. Qed.

Lemma sorted_lookup_mono l i j x y :
  StronglySorted Z.le l -> l !! i = Some x -> l !! j = Some y -> (i <= j)%nat -> x <= y.
Proof.
  intros Hs. revert i j. induction Hs as [|a l Hs IH Hall]; intros i j; [done|].
  destruct i, j; simpl; intros; simplify_eq; try lia.
  - by eapply Forall_lookup_1.
  - eapply IH; eauto. lia.
Qed.

(** The element at index [i] of the sorted vector is the [i]-th smallest. *)
Lemma sorted_order_statistic l i v :
  merge_sort Z.le l !! i = Some v -> order_statistic l (Z.of_nat i) v.
Proof.
  intros Hv. pose proof (sorted_delays_perm l) as Hp.
  pose proof (sorted_delays_sorted l) as Hs. set (s := merge_sort Z.le l) in *.
  pose proof (lookup_lt_Some _ _ _ Hv) as Hlt. unfold order_statistic.
  rewrite <- Hp. split; [by eapply list_elem_of_lookup_2|].
  rewrite <- (take_drop i s), <- (take_drop 1 (drop i s)), !list.filter_app, !length_app.
  assert (take 1 (drop i s) = [v]) as Hone.
  { rewrite (drop_S _ _ _ Hv). done. }
  rewrite Hone, drop_drop.
  rewrite (filter_all (fun x => x <= v) (take i s)).
  2:{ apply Forall_lookup_2. intros j x Hx. apply lookup_take_Some in Hx as [Hx Hj].
      eapply sorted_lookup_mono; eauto. lia. }
  rewrite (filter_all (fun x => v <= x) (drop (i + 1) s)).
  2:{ apply Forall_lookup_2. intros j x Hx. rewrite lookup_drop in Hx.
      eapply sorted_lookup_mono; eauto. lia. }
  rewrite !filter_cons_True by lia. rewrite !length_cons, length_take, length_drop.
  rewrite (Nat.min_l i) by lia. cbn [length]. split; lia.
Qed.

(** The percentiles are read inside the sorted vector. *)
Lemma percentile_lookup l : l <> [] ->
  let n := Z.of_nat (length l) in
  forall p, 0 <= p < 100 -> n * p < 2 ^ 64 -> exists v,
    merge_sort Z.le l !! Z.to_nat (percentile_index n p) = Some v /\
    percentile_index n p = (n * p) `div` 100 /\ order_statistic l ((n * p) `div` 100) v.
Proof.
  intros Hne n p Hp Hlt. assert (0 < n) as Hn by (destruct l; [done|]; subst n; simpl; lia).
  pose proof (percentile_index_range n p Hn Hp Hlt) as Hr.
  assert (percentile_index n p = (n * p) `div` 100) as Hidx.
  { unfold percentile_index. rewrite u64_small; [done|]. unfold is_u64. nia. }
  destruct (lookup_lt_is_Some_2 (merge_sort Z.le l) (Z.to_nat (percentile_index n p))) as [v Hv].
  { rewrite (Permutation_length (sorted_delays_perm l)). subst n. lia. }
  exists v. split_and!; [done|done|]. rewrite <- Hidx.
  rewrite <- (Z2Nat.id (percentile_index n p)) by lia. by apply sorted_order_statistic.
Qed.

(** The statistics of a history of a realistic size always exist. *)
Lemma calc_result_stats_ret l : size_ok l -> exists s, calc_result_stats l = Ret s.
Proof.
  intros Hsz. unfold size_ok in Hsz. destruct l as [|x l]; [by eexists|].
  set (d := x :: l) in *. pose proof (percentile_lookup d ltac:(done)) as Hat. cbv zeta in Hat.
  destruct (Hat 50) as (v50 & H50 & _); [lia|lia|].
  destruct (Hat 95) as (v95 & H95 & _); [lia|lia|].
  destruct (Hat 99) as (v99 & H99 & _); [lia|lia|].
  eexists. unfold calc_result_stats. fold d. cbn [max_element d mbind outcome_bind].
  unfold vec_at. by rewrite H50, H95, H99.
Qed.
End Stats.

(** ** Properties *)

(** [parse_pingid] inverts [make_pingid] on 32-bit halves and
    [make_pingid] inverts [parse_pingid] on 64-bit identifiers: an identifier
    carries the client address and the ping counter without loss. *)
Theorem pingid_roundtrip high low value :
  is_u32 high -> is_u32 low -> is_u64 value ->
  PingId.parse_pingid (PingId.make_pingid high low) = (high, low) /\
  (let '(h, l) := PingId.parse_pingid value in PingId.make_pingid h l) = value.
Proof.
  intros Hh Hl Hv. split.
  - rewrite PingId.parse_pingid_eq by auto with pw. rewrite PingId.make_pingid_eq by done.
    unfold is_u32 in *. f_equal; zmod.
  - rewrite PingId.parse_pingid_eq by done. unfold is_u64 in Hv.
    rewrite PingId.make_pingid_eq by (unfold is_u32; zmod). zmod.
Qed.

Lemma pingid_roundtrip_witness :
  PingId.parse_pingid (PingId.make_pingid 50440202 7) = (50440202, 7) /\
  (let '(h, l) := PingId.parse_pingid 18446744073709551615 in PingId.make_pingid h l)
    = 18446744073709551615.
Proof. apply pingid_roundtrip; unfold is_u32, is_u64; lia. Defined.

(** The 32-bit form of an address and its text determine each other: a
    valid dotted quad survives [ip2uint] then [uint2ip] whatever the
    uninitialised result held, and every 32-bit value survives the converse. *)
Theorem ip_text_roundtrip indet ip n :
  NetAddr.valid_ipv4 ip -> is_u32 n ->
  NetAddr.uint2ip (NetAddr.ip2uint indet ip) = c_str ip /\
  NetAddr.ip2uint indet (NetAddr.uint2ip n) = n.
Proof.
  intros [l Hl] Hn. split.
  - unfold NetAddr.ip2uint, NetAddr.uint2ip. rewrite Hl.
    destruct (inet_ntop4_pton _ _ Hl) as (Htext & Hb & Hlen).
    rewrite <- Htext, <- Hlen. by rewrite le_bytes_val.
  - unfold NetAddr.ip2uint, NetAddr.uint2ip.
    destruct (NetAddr.uint2ip_bytes n Hn) as (a & b & c & d & Hle & Hall).
    rewrite Hle, inet_pton4_ntop, <- Hle by done. by apply le_val_bytes.
Qed.

Lemma ip_text_roundtrip_witness :
  NetAddr.uint2ip (NetAddr.ip2uint 0 "172.26.190.142") = "172.26.190.142" /\
  NetAddr.ip2uint 0 (NetAddr.uint2ip 2394823340) = 2394823340.
Proof.
  apply (ip_text_roundtrip 0 "172.26.190.142" 2394823340);
    [by eexists|unfold is_u32; lia].
Defined.

(** [calc_time_delta_with_modulo] and [calc_time_delta_with_bitwrap]
    recover the elapsed time of a counter that wraps: when the real time that
    passed is below the counter's period, the difference of the two readings
    is that time, however often the counter wrapped before the first one. *)
Theorem time_delta_recovers_elapsed start elapsed :
  0 <= start -> 0 <= elapsed ->
  (elapsed < PINGWEAVE_TIME_CALC_MODULO ->
   Clock.calc_time_delta_with_modulo (u64 start) (u64 (start + elapsed))
     PINGWEAVE_TIME_CALC_MODULO = elapsed) /\
  (elapsed < 2 ^ 64 ->
   Clock.calc_time_delta_with_bitwrap (u64 start) (u64 (start + elapsed)) (2 ^ 64 - 1)
     = elapsed).
Proof.
  intros Hs He. split; intros Hlt.
  - apply Clock.modulo_delta_elapsed. unfold PINGWEAVE_TIME_CALC_MODULO in *. rewrite Z.shiftl_1_l in *. lia.
  - pose proof (u64_range start). pose proof (u64_range (start + elapsed)).
    rewrite (Clock.bitwrap_delta_eq _ _ 64) by (unfold is_u64 in *; lia).
    unfold u64. zmod.
Qed.

Lemma time_delta_recovers_elapsed_witness :
  0 <= 18446744073709551000 /\ 0 <= 2000 /\
  Clock.calc_time_delta_with_modulo 18446744073709551000 1384 PINGWEAVE_TIME_CALC_MODULO
    = 2000.
Proof.
  split; [lia|split; [lia|]].
  apply (time_delta_recovers_elapsed 18446744073709551000 2000); [lia|lia|reflexivity].
Defined.

(** C40: on a non-empty history whose size stays far below 2^64 (the bound of
    the index computation), [calc_result_stats] reads inside the sorted
    vector and reports the truncated mean of the 64-bit sum, the maximum, and
    the order statistics at ranks n/2, 95n/100 and 99n/100, in that order. *)
Theorem calc_result_stats_spec delays :
  delays <> [] -> Stats.size_ok delays ->
  exists s, Stats.calc_result_stats delays = Ret s /\
    let n := Z.of_nat (length delays) in
    mean s = u64 (foldr Z.add 0 delays) `div` n /\
    max s ∈ delays /\ Forall (fun d => d <= max s) delays /\
    Stats.order_statistic delays ((n * 50) `div` 100) (percentile_50 s) /\
    Stats.order_statistic delays ((n * 95) `div` 100) (percentile_95 s) /\
    Stats.order_statistic delays ((n * 99) `div` 100) (percentile_99 s) /\
    percentile_50 s <= percentile_95 s <= percentile_99 s /\ percentile_99 s <= max s.
Proof.
  intros Hne Hsz. destruct delays as [|d0 ds]; [done|]. set (l := d0 :: ds) in *.
  unfold Stats.size_ok in Hsz. set (n := Z.of_nat (length l)) in *.
  assert (0 < n) as Hn by (subst n l; simpl; lia).
  destruct (Stats.max_element_spec d0 ds) as (m & Hm & Hin & Hall). fold l in Hm, Hin, Hall.
  pose proof (Stats.sorted_delays_sorted l) as Hs.
  pose proof (Stats.percentile_lookup l ltac:(done)) as Hat. cbv zeta in Hat. fold n in Hat.
  destruct (Hat 50) as (v50 & Hv50 & Hi50 & Ho50); [lia|lia|].
  destruct (Hat 95) as (v95 & Hv95 & Hi95 & Ho95); [lia|lia|].
  destruct (Hat 99) as (v99 & Hv99 & Hi99 & Ho99); [lia|lia|].
  exists (ResultStat (Stats.accumulate l `div` n) m v50 v95 v99). split.
  { unfold Stats.calc_result_stats. fold l n. rewrite Hm. cbn [mbind outcome_bind].
    unfold Stats.vec_at. by rewrite Hv50, Hv95, Hv99. }
  cbn [mean max percentile_50 percentile_95 percentile_99].
  rewrite Stats.accumulate_eq. split_and!; try done.
  - eapply Stats.sorted_lookup_mono; [done..|]. rewrite Hi50, Hi95.
    apply Z2Nat.inj_le; [zmod|zmod|]. apply Z.div_le_mono; lia.
  - eapply Stats.sorted_lookup_mono; [done..|]. rewrite Hi95, Hi99.
    apply Z2Nat.inj_le; [zmod|zmod|]. apply Z.div_le_mono; lia.
  - destruct Ho99 as [Hmem _]. by rewrite list.Forall_forall in Hall; apply Hall.
Qed.

Lemma calc_result_stats_spec_witness :
  exists s, Stats.calc_result_stats [30; 10; 20] = Ret s /\ max s ∈ [30; 10; 20].
Proof.
  destruct (calc_result_stats_spec [30; 10; 20]) as (s & Hs & _ & Hmax & _);
    [done|unfold Stats.size_ok; simpl; lia|]. exists s. by split.
Defined.
