(* ===== verification/Cleanup.v ===== *)
(** * Cleanup: the removal of old files ([delete_files_in_directory],
    src/src/common.cpp).

    A directory is what [readdir] returns for it, each entry with what [stat] says
    of it and whether it can be opened and removed: a link to a directory is a
    directory that [rmdir] does not remove. An entry is returned once and is not
    reached in two ways. *)
From S2P Require Import Prelude.
From Stdlib Require String.

(** ** The tree *)
Inductive file_entry :=
  | Unstatable
  | File (removable : bool)
  | Directory (opens removable : bool) (l : list (string * file_entry)).

(** What is written to the log. *)
Inductive cleanup_log :=
  | OpenFailed (path : string)
  | StatFailed (path : string)
  | Deleted (path : string).

Definition is_dots (d_name : string) : bool := String.eqb d_name "." || String.eqb d_name "..".

(** [rmdir] removes an empty directory: [l] is what is left in it. *)
Definition rmdir (opens removable : bool) (l : list (string * file_entry)) : option file_entry :=
  if removable && forallb (fun e => is_dots e.1) l then None else Some (Directory opens removable l).

(** What the loop does with one entry: what is left of it. [inner] is the
    recursive call. *)
Definition delete_entry (inner : string -> file_entry -> option file_entry * list cleanup_log)
  (directoryPath d_name : string) (e : file_entry) : list (string * file_entry) * list cleanup_log :=
  if is_dots d_name then ([(d_name, e)], [])
  else let '(e, log) := inner (directoryPath +:+ "/" +:+ d_name) e in (match e with Some e => [(d_name, e)] | None => [] end, log).

(** The loop over the directory. *)
Definition delete_loop (inner : string -> file_entry -> option file_entry * list cleanup_log) (directoryPath : string) :
  list (string * file_entry) -> list (string * file_entry) * list cleanup_log :=
  fix loop l :=
    match l with
    | [] => ([], [])
    | (d_name, e) :: l =>
        let '(kept, log) := delete_entry inner directoryPath d_name e in
        let '(kept', log') := loop l in
        (kept ++ kept', log ++ log')
    end.

(** The two branches on [stat], the recursion within that for directories. *)
Fixpoint delete_file (filePath : string) (e : file_entry) : option file_entry * list cleanup_log :=
  match e with
  | Unstatable => (Some Unstatable, [StatFailed filePath])
  | File removable => (if removable then None else Some e, [Deleted filePath])
  | Directory opens removable l =>
      let '(kept, log) := if opens then delete_loop delete_file filePath l else (l, [OpenFailed filePath]) in
      (rmdir opens removable kept, log ++ [Deleted filePath])
  end.

Definition delete_files_in_directory (directoryPath : string) (opens : bool) (l : list (string * file_entry)) :
  list (string * file_entry) * list cleanup_log :=
  if opens then delete_loop delete_file directoryPath l else (l, [OpenFailed directoryPath]).

(** ** What is left *)
Section file_entry_induction.
Context (P : file_entry -> Prop).
Context (HU : P Unstatable) (HF : forall r, P (File r)).
Context (HD : forall o r l, Forall (fun e => P e.2) l -> P (Directory o r l)).
Fixpoint file_entry_induction (e : file_entry) : P e :=
  match e with
  | Unstatable => HU
  | File r => HF r
  | Directory o r l =>
      HD o r l ((fix go l : Forall (fun e => P e.2) l :=
        match l with [] => List.Forall_nil _ | e :: l => List.Forall_cons _ e l (file_entry_induction e.2) (go l) end) l)
  end.
End file_entry_induction.

(** Everything in the tree can be opened and removed. *)
Inductive clearable : file_entry -> Prop :=
  | clearable_file : clearable (File true)
  | clearable_directory l : Forall (fun e => is_dots e.1 = true \/ clearable e.2) l -> clearable (Directory true true l).

Lemma delete_loop_clears path l :
  Forall (fun e => forall path, clearable e.2 -> (delete_file path e.2).1 = None) l ->
  Forall (fun e => is_dots e.1 = true \/ clearable e.2) l ->
  Forall (fun e => is_dots e.1 = true) (delete_loop delete_file path l).1.
Proof.
  intros H1 H2. induction l as [|[n e] l IH]; [constructor|]. cbn [delete_loop].
  apply list.Forall_cons in H1 as [He H1], H2 as [Hc H2]. specialize (IH H1 H2). cbn [fst snd] in *.
  unfold delete_entry. destruct (is_dots n) eqn:Hn.
  - destruct (delete_loop delete_file path l) as [kept log]. cbn in *. by constructor.
  - destruct Hc as [Hc|Hc]; [done|]. specialize (He (path +:+ "/" +:+ n) Hc).
    destruct (delete_file _ e) as [e' log']. cbn in He. subst e'.
    by destruct (delete_loop delete_file path l) as [kept log].
Qed.

Lemma delete_file_clears e path : clearable e -> (delete_file path e).1 = None.
Proof.
  revert path. induction e as [|r|o r l IH] using file_entry_induction; intros path Hc; inversion Hc as [|l' Hl]; subst; [done|].
  cbn [delete_file]. pose proof (delete_loop_clears path l IH Hl) as Hleft.
  destruct (delete_loop delete_file path l) as [kept log]. cbn in *. unfold rmdir. cbn [andb].
  assert (forallb (fun e => is_dots e.1) kept = true) as ->; [|done].
  induction Hleft as [|x kept Hx Hleft IHl]; [done|]. cbn. by rewrite Hx.
Qed.

(** When every call succeeds nothing is left but the two entries of the directory
    itself. *)
Theorem delete_files_clears path l :
  Forall (fun e => is_dots e.1 = true \/ clearable e.2) l ->
  Forall (fun e => is_dots e.1 = true) (delete_files_in_directory path true l).1.
Proof.
  apply delete_loop_clears. rewrite list.Forall_forall. intros e _ path'. apply delete_file_clears.
Qed.

(** Nothing is added: what is left is an entry that was there, with at most fewer
    entries in it; a directory that cannot be opened stays as it was. *)
Inductive within : file_entry -> file_entry -> Prop :=
  | within_refl e : within e e
  | within_directory o r l l' :
      Forall (fun e' => exists e, (e'.1, e) ∈ l /\ within e'.2 e) l' -> within (Directory o r l') (Directory o r l).

Lemma delete_loop_within path l :
  Forall (fun e => forall path e', (delete_file path e.2).1 = Some e' -> within e' e.2) l ->
  Forall (fun e' => exists e, (e'.1, e) ∈ l /\ within e'.2 e) (delete_loop delete_file path l).1.
Proof.
  induction l as [|[n e] l IH]; intros Hl; [constructor|]. apply list.Forall_cons in Hl as [He Hl]. specialize (IH Hl).
  cbn [delete_loop]. unfold delete_entry. cbn [snd] in He.
  assert (forall kept, Forall (fun e' : string * file_entry => exists e, (e'.1, e) ∈ l /\ within e'.2 e) kept ->
    Forall (fun e' : string * file_entry => exists e0, (e'.1, e0) ∈ (n, e) :: l /\ within e'.2 e0) kept) as Hmore.
  { intros kept Hk. eapply Forall_impl; [exact Hk|]. intros x (e0 & Hin & Hw). exists e0. split; [by right|done]. }
  apply Hmore in IH. destruct (is_dots n).
  - destruct (delete_loop delete_file path l) as [kept log]. cbn in *. constructor; [|done].
    exists e. split; [by left|constructor].
  - specialize (He (path +:+ "/" +:+ n)). destruct (delete_file _ e) as [[e'|] log'];
      destruct (delete_loop delete_file path l) as [kept log]; cbn in *; [|done].
    constructor; [|done]. exists e. split; [by left|by apply He].
Qed.

Lemma delete_file_within e path e' : (delete_file path e).1 = Some e' -> within e' e.
Proof.
  revert path e'. induction e as [|r|o r l IH] using file_entry_induction; intros path e' He; cbn in He.
  - injection He as <-. constructor.
  - destruct r; [done|]. injection He as <-. constructor.
  - destruct o.
    + pose proof (delete_loop_within path l IH) as Hw. destruct (delete_loop delete_file path l) as [kept log].
      unfold rmdir in He. cbn in *. destruct (_ && _); [done|]. injection He as <-. by constructor.
    + unfold rmdir in He. cbn in He. destruct (_ && _); [done|]. injection He as <-. constructor.
Qed.

Theorem delete_files_within path opens l :
  Forall (fun e' => exists e, (e'.1, e) ∈ l /\ within e'.2 e) (delete_files_in_directory path opens l).1.
Proof.
  unfold delete_files_in_directory. destruct opens.
  - apply delete_loop_within. rewrite list.Forall_forall. intros e _ path'. apply delete_file_within.
  - rewrite list.Forall_forall. intros [n e] Hin. exists e. split; [done|constructor].
Qed.

(** A failure is not noticed: the file stays, and the log says that it was
    deleted. *)
Example failed_removal :
  delete_files_in_directory "/upload" true
    [(".", Unstatable); ("..", Unstatable); ("a", File true); ("d", Directory true true [("b", File false)]); ("l", Unstatable)]
  = ([(".", Unstatable); ("..", Unstatable); ("d", Directory true true [("b", File false)]); ("l", Unstatable)],
     [Deleted "/upload/a"; Deleted "/upload/d/b"; Deleted "/upload/d"; StatFailed "/upload/l"]).
Proof. reflexivity. Qed.
