(* ===== verification/Ini.v ===== *)
(** * Ini: the configuration parser (ini.hpp) and the getters of common.cpp.

    A file is its characters, or [None] when it cannot be opened. The getters
    open pingweave.ini anew at each call, so that its contents are an argument
    of each. Lines are lists of characters; the names and values stored in the
    parser are strings. *)
From S2P Require Import Prelude Text CxxString.
From Stdlib Require Import Ascii.
From Stdlib Require String.
Local Open Scope Z_scope.

(** [config_]: values by section and key. *)
Abbreviation config := (gmap string (gmap string string)).

Module IniParser.
Definition whitespace (c : ascii) : bool :=
  bool_decide (c ∈ [" "; "009"; newline; "013"; "012"; "011"])%char.

(** The positions are those of the source's two searches. *)
Definition trim (str : chars) : chars :=
  let start := find_first (fun c => negb (whitespace c)) str in
  let end_ := find_last (fun c => negb (whitespace c)) str in
  match start, end_ with
  | Some start, Some end_ => substr start (end_ - start + 1) str
  | _, _ => []
  end.

Definition comment_char (c : ascii) : bool := Ascii.eqb c ";" || Ascii.eqb c "#".

(** The value part of a line, with its comment cut off. *)
Definition cut_comment (value : chars) : chars :=
  match find_first comment_char value with
  | Some commentPos => trim (substr 0 commentPos value)
  | None => value
  end.

(** One line of [load]; the state is the current section and the map. *)
Definition load_line (st : string * config) (line : chars) : string * config :=
  let '(section, config_) := st in
  let line := trim line in
  match line with
  | [] => st
  | c0 :: _ =>
      if comment_char c0 then st
      else if Ascii.eqb c0 "[" && bool_decide (last line = Some "]"%char) then
        (of_bytes (substr 1 (length line - 2) line), config_)
      else
        match find_first (fun c => Ascii.eqb c "=") line with
        | None => st
        | Some delimiterPos =>
            let key := trim (substr 0 delimiterPos line) in
            let value := trim (drop (delimiterPos + 1) line) in
            let value := cut_comment value in
            (section,
             <[section := <[of_bytes key := of_bytes value]> (default ∅ (config_ !! section))]>
               config_)
        end
  end.

Definition load (file : option chars) (config_ : config) : bool * config :=
  match file with
  | None => (false, config_)
  | Some text => (true, (foldl load_line ("", config_) (getlines text)).2)
  end.

(** A missing section or key gives the empty string. *)
Definition get (section key : string) (config_ : config) : string :=
  default "" (config_ !! section ≫= fun m => m !! key).

Definition getInt (section key : string) (config_ : config) : Z :=
  match stoi (bytes_of (get section key config_)) with
  | Ret n => n
  | _ => -1
  end.
End IniParser.
Import IniParser.

(** ** The getters of common.cpp

    Out parameters are returned with the status; they keep their value where
    the code does not assign them. *)
Definition get_controller_info_from_ini (ini : option chars) (ip : string) (port : Z)
  : Z * string * Z :=
  let '(ok, parser) := load ini ∅ in
  if negb ok then (PINGWEAVE_FAILURE, ip, port)
  else
    let ip := get "controller" "host" parser in
    if String.eqb ip "" then (PINGWEAVE_FAILURE, ip, port)
    else
      let port := getInt "controller" "collect_port_http" parser in
      if port <? 0 then (PINGWEAVE_FAILURE, ip, port) else (PINGWEAVE_SUCCESS, ip, port).

Definition get_int_value_from_ini (parser : config) (section key : string) : outcome Z :=
  let value := getInt section key parser in
  if value =? -1 then Throw (RuntimeError key) else Ret value.

Definition get_str_value_from_ini (parser : config) (section key : string) : outcome string :=
  let value := get section key parser in
  if String.eqb value "" then Throw (RuntimeError key) else Ret value.

(** [catch (const std::runtime_error &)]: other exceptions go through. *)
Definition catch_runtime_error {A} (o : outcome A) (handler : outcome A) : outcome A :=
  match o with
  | Throw (RuntimeError _) => handler
  | _ => o
  end.

Definition get_int_param_from_ini (ini : option chars) (ret : Z) (key : string)
  : outcome (Z * Z) :=
  let '(ok, parser) := load ini ∅ in
  if negb ok then Ret (PINGWEAVE_FAILURE, ret)
  else
    catch_runtime_error
      (v ← get_int_value_from_ini parser "param" key; Ret (PINGWEAVE_SUCCESS, v))
      (Ret (PINGWEAVE_FAILURE, ret)).

Definition get_str_param_from_ini (ini : option chars) (ret : string) (key : string)
  : outcome (Z * string) :=
  let '(ok, parser) := load ini ∅ in
  if negb ok then Ret (PINGWEAVE_FAILURE, ret)
  else
    catch_runtime_error
      (v ← get_str_value_from_ini parser "param" key; Ret (PINGWEAVE_SUCCESS, v))
      (Ret (PINGWEAVE_FAILURE, ret)).

(** The levels of spdlog that [logLevelMap] names. *)
Inductive level_enum := level_trace | level_debug | level_info | level_warn | level_err
  | level_critical.

Definition logLevelMap : gmap string level_enum :=
  list_to_map [("trace", level_trace); ("TRACE", level_trace); ("debug", level_debug);
    ("DEBUG", level_debug); ("info", level_info); ("INFO", level_info); ("warn", level_warn);
    ("WARN", level_warn); ("error", level_err); ("ERROR", level_err);
    ("critical", level_critical); ("CRITICAL", level_critical)].

Definition get_log_config_from_ini (ini : option chars) (log_level : level_enum) (key : string)
  : outcome (Z * level_enum) :=
  let '(ok, parser) := load ini ∅ in
  if negb ok then Ret (PINGWEAVE_FAILURE, log_level)
  else
    catch_runtime_error
      (ret ← get_str_value_from_ini parser "logging" key;
       match logLevelMap !! ret with
       | Some l => Ret (PINGWEAVE_SUCCESS, l)
       | None => Ret (PINGWEAVE_FAILURE, log_level)
       end)
      (Ret (PINGWEAVE_FAILURE, log_level)).

(** ** The text of a configuration

    What the file means, independently of the parser: a list of items, printed
    one per line with an optional comment after a value. *)
Inductive item :=
  | ISection (s : chars)
  | IAssign (k v : chars) (comment : option chars)
  | IComment (c : chars)
  | IBlank.

Definition print_item (i : item) : chars :=
  match i with
  | ISection s => "["%char :: (s ++ ["]"%char])
  | IAssign k v None => k ++ (" " :: "=" :: " " :: v)%char
  | IAssign k v (Some c) => k ++ (" " :: "=" :: " " :: (v ++ (" " :: ";" :: c)))%char
  | IComment c => ";"%char :: c
  | IBlank => []
  end.

Definition print_items (its : list item) : chars :=
  mjoin ((fun l => l ++ [newline]) <$> (print_item <$> its)).

(** What the printed form of an item must avoid: newlines, blanks at the ends of
    a name or value, a name that looks like a comment or a section or holds an
    equal sign, a value that holds a comment mark. *)
Definition item_ok (i : item) : Prop :=
  (newline ∉ print_item i) /\
  match i with
  | ISection s => True
  | IAssign k v _ =>
      trim k = k /\ trim v = v /\
      match k with c :: _ => comment_char c = false /\ c <> "["%char | [] => False end /\
      Forall (fun c => Ascii.eqb c "=" = false) k /\
      Forall (fun c => comment_char c = false) v
  | IComment _ | IBlank => True
  end.

#[export] Instance item_ok_dec i : Decision (item_ok i).
Proof. unfold item_ok. destruct i as [s|[|c k] v cm|c|]; apply _. Defined.

(** The value that the last assignment of [key] in [section] gives. *)
Fixpoint last_value (section key : string) (cur : string) (its : list item)
  (acc : option string) : option string :=
  match its with
  | [] => acc
  | ISection s :: its => last_value section key (of_bytes s) its acc
  | IAssign k v _ :: its =>
      last_value section key cur its
        (if bool_decide (cur = section /\ of_bytes k = key) then Some (of_bytes v) else acc)
  | _ :: its => last_value section key cur its acc
  end.

(** The effect of an item. *)
Definition item_step (st : string * config) (i : item) : string * config :=
  let '(section, config_) := st in
  match i with
  | ISection s => (of_bytes s, config_)
  | IAssign k v _ =>
      (section, <[section := <[of_bytes k := of_bytes v]> (default ∅ (config_ !! section))]> config_)
  | IComment _ | IBlank => st
  end.

(** ** Lemmas *)

(** No blank at either end. *)
Definition trimmed (s : chars) : Prop :=
  s = [] \/ ((exists c s', s = c :: s' /\ whitespace c = false) /\
             (exists s' c, s = s' ++ [c] /\ whitespace c = false)).

Lemma trim_spaced w1 m w2 :
  Forall (fun c => whitespace c = true) w1 -> Forall (fun c => whitespace c = true) w2 ->
  trimmed m -> trim (w1 ++ m ++ w2) = m.
Proof.
  intros H1 H2 Hm.
  assert (forall w, Forall (fun c => whitespace c = true) w ->
    Forall (fun c => negb (whitespace c) = false) w) as Hneg.
  { intros w Hw. eapply list.Forall_impl; [exact Hw|]. intros c Hc. cbn in Hc. by rewrite Hc. }
  unfold trim. destruct Hm as [->|[(c & s & Hm & Hc) (s' & c' & Hm' & Hc')]].
  - rewrite find_first_none; [done|]. apply Hneg, Forall_app_2; [done|]. by apply Forall_app_2.
  - rewrite Hm at 1. cbn [app]. rewrite find_first_app by (rewrite ?Hc; auto).
    replace (w1 ++ m ++ w2) with ((w1 ++ s') ++ c' :: w2) at 1
      by (rewrite Hm', <- !app_assoc; done).
    rewrite find_last_app by (rewrite ?Hc'; auto). unfold substr.
    rewrite drop_app_length. rewrite length_app.
    replace (length w1 + length s' - length w1 + 1)%nat with (length m).
    + by rewrite take_app_length.
    + rewrite Hm', length_app. cbn. lia.
Qed.

Lemma trim_trimmed m : trimmed m -> trim m = m.
Proof.
  intros Hm. pose proof (trim_spaced [] m [] (Forall_nil_2 _) (Forall_nil_2 _) Hm) as H.
  cbn in H. by rewrite app_nil_r in H.
Qed.

Lemma trim_right m w :
  Forall (fun c => whitespace c = true) w -> trimmed m -> trim (m ++ w) = m.
Proof. intros Hw Hm. apply (trim_spaced [] m w); [constructor|done|done]. Qed.

Lemma trim_left m w :
  Forall (fun c => whitespace c = true) w -> trimmed m -> trim (w ++ m) = m.
Proof.
  intros Hw Hm. pose proof (trim_spaced w m [] Hw (Forall_nil_2 _) Hm) as H.
  by rewrite app_nil_r in H.
Qed.

Lemma strip_right s :
  exists m w, s = m ++ w /\ Forall (fun c => whitespace c = true) w /\
    (m = [] \/ exists s' c, m = s' ++ [c] /\ whitespace c = false).
Proof.
  induction s as [|c s IH] using rev_ind; [by exists [], []; repeat constructor|].
  destruct (whitespace c) eqn:Hc.
  - destruct IH as (m & w & -> & Hw & Hm). exists m, (w ++ [c]). rewrite <- app_assoc.
    split_and!; [done| |done]. apply Forall_app_2; [done|]. by repeat constructor.
  - exists (s ++ [c]), []. rewrite app_nil_r. split_and!; [done|constructor|].
    right. by exists s, c.
Qed.

Lemma strip_left s :
  exists w m, s = w ++ m /\ Forall (fun c => whitespace c = true) w /\
    (m = [] \/ exists c s', m = c :: s' /\ whitespace c = false).
Proof.
  induction s as [|c s IH]; [by exists [], []; repeat constructor; left|].
  destruct (whitespace c) eqn:Hc.
  - destruct IH as (w & m & -> & Hw & Hm). exists (c :: w), m. split_and!; [done|by constructor|done].
  - exists [], (c :: s). split_and!; [done|constructor|]. right. by exists c, s.
Qed.

(** Every string is a trimmed one between blanks. *)
Lemma trim_decompose s :
  exists w1 m w2, s = w1 ++ m ++ w2 /\ Forall (fun c => whitespace c = true) w1 /\
    Forall (fun c => whitespace c = true) w2 /\ trimmed m.
Proof.
  destruct (strip_left s) as (w1 & m1 & -> & Hw1 & Hm1).
  destruct (strip_right m1) as (m & w2 & -> & Hw2 & Hm). exists w1, m, w2.
  split_and!; [done|done|done|]. destruct m as [|c m]; [by left|]. right.
  destruct Hm as [|Hm]; [done|]. split; [|done].
  destruct Hm1 as [|(c' & s' & [= <- _] & Hc)]; [done|]. by exists c, m.
Qed.

Lemma trim_app_blank s w : Forall (fun c => whitespace c = true) w -> trim (s ++ w) = trim s.
Proof.
  intros Hw. destruct (trim_decompose s) as (w1 & m & w2 & -> & H1 & H2 & Hm).
  rewrite (trim_spaced w1 m w2) by done. rewrite <- !app_assoc.
  apply trim_spaced; [done|by apply Forall_app_2|done].
Qed.

Lemma trim_blank_app s w : Forall (fun c => whitespace c = true) w -> trim (w ++ s) = trim s.
Proof.
  intros Hw. destruct (trim_decompose s) as (w1 & m & w2 & -> & H1 & H2 & Hm).
  rewrite (trim_spaced w1 m w2) by done. rewrite (app_assoc w).
  apply trim_spaced; [by apply Forall_app_2|done|done].
Qed.

Lemma trim_is_trimmed s : trimmed (trim s).
Proof.
  destruct (trim_decompose s) as (w1 & m & w2 & -> & H1 & H2 & Hm). by rewrite trim_spaced.
Qed.

Lemma trimmed_eq s : trim s = s -> trimmed s.
Proof. intros <-. apply trim_is_trimmed. Qed.

(** A line with a plain character before its first mark keeps the mark. *)
Lemma trim_keeps a c r :
  (a = [] \/ exists c0 a', a = c0 :: a' /\ whitespace c0 = false) -> whitespace c = false ->
  exists r' w, r = r' ++ w /\ Forall (fun c => whitespace c = true) w /\
    trim (a ++ c :: r) = a ++ c :: r'.
Proof.
  intros Ha Hc. destruct (strip_right r) as (m & w & -> & Hw & Hm).
  exists m, w. split_and!; [done|done|].
  change (a ++ c :: m ++ w) with (a ++ (c :: m) ++ w). rewrite app_assoc.
  apply trim_right; [done|]. right. split.
  - destruct Ha as [->|(c0 & a' & -> & Hc0)]; [by exists c, m|by exists c0, (a' ++ c :: m)].
  - destruct Hm as [->|(s' & c' & -> & Hc')]; [by exists a, c|].
    exists (a ++ c :: s'), c'. by rewrite <- app_assoc.
Qed.

Lemma cut_comment_value v comment :
  trimmed v -> Forall (fun c => comment_char c = false) v ->
  cut_comment (trim (" "%char :: v ++
    match comment with Some c => (" " :: ";" :: c)%char | None => [] end)) = v.
Proof.
  intros Hv Hc.
  assert (Forall (fun c => whitespace c = true) [" "%char]) as Hsp by by repeat constructor.
  change (" "%char :: ?x) with ([" "%char] ++ x). rewrite (trim_blank_app _ [" "%char] Hsp). unfold cut_comment. destruct comment as [c|].
  - assert (exists sp r, trim (v ++ (" " :: ";" :: c)%char) = v ++ sp ++ ";"%char :: r /\
      Forall (fun c => whitespace c = true) sp /\ Forall (fun c => comment_char c = false) sp)
      as (sp & r & -> & Hw & Hn).
    { destruct v as [|c0 v'].
      - change ([] ++ (" " :: ";" :: c)%char) with ([" "%char] ++ ";"%char :: c).
        rewrite trim_blank_app by done.
        destruct (trim_keeps [] ";"%char c) as (r & w & _ & _ & Heq); [by left|done|].
        cbn [app] in Heq. exists [], r. rewrite Heq. by repeat constructor.
      - destruct Hv as [|[(c1 & v1 & [= <- <-] & Hc1) _]]; [done|].
        destruct (trim_keeps ((c0 :: v') ++ [" "%char]) ";"%char c) as (r & w & _ & _ & Heq);
          [right; by exists c0, (v' ++ [" "%char])|done|].
        rewrite <- app_assoc in Heq. exists [" "%char], r.
        change (" "%char :: ";"%char :: c) with ([" "%char] ++ ";"%char :: c).
        rewrite Heq, <- app_assoc.
        by repeat constructor. }
    rewrite app_assoc, find_first_app by (try apply Forall_app_2; done).
    unfold substr. rewrite drop_0, take_app_length. by apply trim_right.
  - rewrite app_nil_r, trim_trimmed by done. by rewrite find_first_none.
Qed.

Lemma print_assign k v comment :
  print_item (IAssign k v comment) = (k ++ [" "%char]) ++ "="%char :: " "%char :: v ++
    match comment with Some c => (" " :: ";" :: c)%char | None => [] end.
Proof. destruct comment; cbn; by rewrite <- app_assoc, ?app_nil_r. Qed.

Lemma load_line_print st i : item_ok i -> load_line st (print_item i) = item_step st i.
Proof.
  destruct st as [section config_]. intros [_ Hok]. unfold load_line.
  destruct i as [s|k v comment|c|]; [| | |done].
  - cbn [print_item]. rewrite trim_trimmed.
    2:{ right. split; [by exists "["%char, (s ++ ["]"%char])|].
        exists ("["%char :: s), "]"%char. done. }
    change (comment_char "[") with false. change (Ascii.eqb "[" "[") with true. cbv iota beta.
    rewrite bool_decide_eq_true_2 by (change ("["%char :: s ++ ["]"%char]) with
      (("["%char :: s) ++ ["]"%char]); by rewrite last_snoc). cbn [andb item_step].
    unfold substr. simpl length. rewrite length_app. simpl.
    replace (length s + 1 - 1)%nat with (length s) by lia. by rewrite drop_0, take_app_length.
  - destruct Hok as (Hk%trimmed_eq & Hv%trimmed_eq & Hhd & Heq & Hvc).
    destruct k as [|c0 k'] eqn:Hk0; [done|]. rewrite <- Hk0 in *. destruct Hhd as [Hcc Hbr].
    assert (whitespace c0 = false) as Hws.
    { destruct Hk as [->|[(c1 & k1 & Hk1 & Hc1) _]]; [done|]. rewrite Hk1 in Hk0. by simplify_eq. }
    rewrite print_assign. destruct (trim_keeps (k ++ [" "%char]) "="%char
      (" "%char :: v ++ match comment with Some c => (" " :: ";" :: c)%char | None => [] end))
      as (r & w & Hr & Hw & ->);
      [right; rewrite Hk0; by exists c0, (k' ++ [" "%char])|done|].
    rewrite Hk0 at 1. cbn [app]. rewrite Hcc. apply Ascii.eqb_neq in Hbr. rewrite Hbr.
    cbn [andb]. rewrite find_first_app by
      (try (apply Forall_app_2; [done|]; repeat constructor); done).
    unfold substr at 1. rewrite drop_0, take_app_length. rewrite (trim_right k [" "%char]) by (done || by repeat constructor).
    rewrite drop_mark.
    rewrite <- (trim_app_blank r w Hw), <- Hr.
    by rewrite cut_comment_value.
  - cbn [print_item item_step]. destruct (trim_keeps [] ";"%char c) as (r & w & _ & _ & Heq);
      [by left|done|]. cbn [app] in Heq. by rewrite Heq.
Qed.

Lemma load_print its config_ :
  Forall item_ok its ->
  load (Some (print_items its)) config_ = (true, (foldl item_step ("", config_) its).2).
Proof.
  intros Hok. unfold load, print_items.
  rewrite getlines_concat by (rewrite list.Forall_fmap; eapply list.Forall_impl; [exact Hok|];
    intros i [Hn _]; exact Hn).
  do 2 f_equal. generalize ("", config_). induction Hok as [|i its Hi Hok IH]; intros st; [done|].
  cbn [foldl fmap list_fmap]. rewrite load_line_print by done. apply IH.
Qed.

Lemma item_steps_lookup section key its cur config_ :
  ((foldl item_step (cur, config_) its).2 !! section ≫= fun m => m !! key)
  = last_value section key cur its (config_ !! section ≫= fun m => m !! key).
Proof.
  revert cur config_. induction its as [|i its IH]; intros cur config_; [done|].
  destruct i as [s|k v c|c|]; cbn [foldl item_step last_value]; rewrite IH; try done.
  f_equal. destruct (decide (cur = section)) as [->|Hne].
  - rewrite lookup_insert_eq. cbn [mbind option_bind]. destruct (decide (of_bytes k = key)) as [->|Hk].
    + by rewrite lookup_insert_eq, bool_decide_eq_true_2.
    + rewrite lookup_insert_ne, bool_decide_eq_false_2 by (done || tauto).
      destruct (config_ !! section); [done|]. cbn. by rewrite lookup_empty.
  - rewrite lookup_insert_ne, bool_decide_eq_false_2 by (done || tauto). done.
Qed.

Lemma get_print section key its :
  Forall item_ok its ->
  exists parser, load (Some (print_items its)) ∅ = (true, parser) /\
    get section key parser = default "" (last_value section key "" its None).
Proof.
  intros Hok. rewrite load_print by done. eexists. split; [done|]. unfold get.
  rewrite item_steps_lookup. by rewrite lookup_empty.
Qed.

(** The getter of an [int] parameter returns on every file; on failure the out
    parameter keeps its value. *)
Lemma get_int_param_total ini ret key :
  exists r v, get_int_param_from_ini ini ret key = Ret (r, v) /\
    (r = PINGWEAVE_SUCCESS \/ r = PINGWEAVE_FAILURE /\ v = ret).
Proof.
  unfold get_int_param_from_ini, get_int_value_from_ini. destruct (load ini ∅) as [[] parser]; cbn [negb].
  - destruct (_ =? -1); cbn; do 2 eexists; (split; [done|]); auto.
  - do 2 eexists. split; [done|]. auto.
Qed.

(** ** Properties *)

(** C34: the parser reads back a printed configuration: whatever the blank
    lines, comment lines, comments after values and repeated sections, [load]
    succeeds and [get] gives the value of the last assignment of the key in
    its section, and the empty string when there is none. *)
Theorem ini_load_print its section key :
  Forall item_ok its ->
  exists parser, load (Some (print_items its)) ∅ = (true, parser) /\
    get section key parser = default "" (last_value section key "" its None).
Proof. apply get_print. Qed.

Definition ini_example : list item :=
  [IComment (bytes_of " config"); ISection (bytes_of "param"); IBlank;
   IAssign (bytes_of "interval_sync_pinglist_sec") (bytes_of "10") (Some (bytes_of " s "));
   IAssign (bytes_of "traffic_class_ib") (bytes_of "0") None;
   ISection (bytes_of "controller"); IAssign (bytes_of "host") (bytes_of "10.0.0.1") None;
   ISection (bytes_of "param");
   IAssign (bytes_of "interval_sync_pinglist_sec") (bytes_of "-7") None].

Lemma ini_example_ok : Forall item_ok ini_example.
Proof. apply (bool_decide_unpack (Forall item_ok ini_example)). vm_compute. exact I. Qed.

Lemma ini_load_print_witness :
  Forall item_ok ini_example /\
  (exists parser, load (Some (print_items ini_example)) ∅ = (true, parser) /\
    get "param" "interval_sync_pinglist_sec" parser = "-7") /\
  (exists parser, load (Some (print_items ini_example)) ∅ = (true, parser) /\
    get "param" "host" parser = "").
Proof.
  split; [exact ini_example_ok|]. split.
  - exact (ini_load_print ini_example "param" "interval_sync_pinglist_sec" ini_example_ok).
  - exact (ini_load_print ini_example "param" "host" ini_example_ok).
Defined.

(** An integer parameter written in decimal is read back exactly, unless
    it is -1, which the getter cannot tell from a conversion error; a missing
    parameter, -1, or a file that cannot be opened give FAILURE and leave the
    out parameter as it was. No exception leaves the getter. *)
Theorem ini_int_param_roundtrip its key ret n comment :
  Forall item_ok its -> - 2 ^ 31 <= n < 2 ^ 31 ->
  item_ok (IAssign (bytes_of key) (bytes_of (dec_int n)) comment) ->
  let its' := its ++ [ISection (bytes_of "param");
                      IAssign (bytes_of key) (bytes_of (dec_int n)) comment] in
  get_int_param_from_ini (Some (print_items its')) ret key
    = Ret (if n =? -1 then (PINGWEAVE_FAILURE, ret) else (PINGWEAVE_SUCCESS, n)) /\
  (last_value "param" key "" its None = None ->
   get_int_param_from_ini (Some (print_items its)) ret key = Ret (PINGWEAVE_FAILURE, ret)) /\
  get_int_param_from_ini None ret key = Ret (PINGWEAVE_FAILURE, ret).
Proof.
  intros Hok Hn Hi its'.
  assert (Forall item_ok its') as Hok'.
  { apply Forall_app_2; [done|]. repeat constructor; [|apply Hi..].
    apply (bool_decide_unpack (newline ∉ _)). by vm_compute. }
  assert (forall cur acc, last_value "param" key cur its' acc = Some (dec_int n)) as Hlv.
  { intros cur acc. unfold its'. revert cur acc. clear -Hi.
    induction its as [|i its IH]; intros cur acc.
    - cbn. rewrite bool_decide_eq_true_2 by
        (by rewrite String.string_of_list_ascii_of_string).
      by rewrite String.string_of_list_ascii_of_string.
    - destruct i; apply IH. }
  unfold get_int_param_from_ini. split_and!; [| |done].
  - destruct (get_print "param" key its' Hok') as (parser & -> & Hg). rewrite Hlv in Hg.
    unfold get_int_value_from_ini, getInt. cbn [negb]. rewrite Hg. cbn [default].
    unfold from_option, id. rewrite stoi_dec_int by done. by destruct (n =? -1).
  - intros Hnone. destruct (get_print "param" key its Hok) as (parser & -> & Hg).
    rewrite Hnone in Hg. unfold get_int_value_from_ini, getInt. cbn [negb]. by rewrite Hg.
Qed.

Lemma ini_int_param_roundtrip_witness :
  get_int_param_from_ini (Some (print_items (ini_example ++ [ISection (bytes_of "param");
      IAssign (bytes_of "traffic_class_roce") (bytes_of (dec_int 106)) None])))
    0 "traffic_class_roce" = Ret (PINGWEAVE_SUCCESS, 106).
Proof.
  apply (ini_int_param_roundtrip ini_example "traffic_class_roce" 0 106 None
    ini_example_ok); [lia|].
  apply (bool_decide_unpack (item_ok _)). vm_compute. exact I.
Defined.
