(* ===== verification/Http.v ===== *)
(** * Http: alarms to the controller (common.cpp: [send_message_to_http_server],
    [message_to_http_server]).

    One request over one connection, without reading the answer. The results
    of the system calls are inputs; the open descriptors and what was sent are
    outputs. [close] frees the descriptor even when it reports an error. *)
From S2P Require Import Prelude Text CxxString Common Ini.
From Stdlib Require Import Ascii.
From Stdlib Require String.
Local Open Scope Z_scope.

Definition CR : ascii := "013".
Definition LF : ascii := "010".
Definition CRLF : string := String CR (String LF "").

Record http_env := HttpEnv {
  he_socket : Z; he_setsockopt : Z; he_connect : Z; he_send : string -> Z }.

(** The address and port connected to, and the bytes that [send] took. *)
Record http_sent := HttpSent { hs_addr : list Z; hs_port : Z; hs_bytes : string }.

Definition http_request (server_ip : string) (server_port : Z) (message req_api : string) : string :=
  "POST " +:+ req_api +:+ " HTTP/1.1" +:+ CRLF +:+
  "Host: " +:+ server_ip +:+ ":" +:+ dec_int server_port +:+ CRLF +:+
  "Content-Type: text/plain" +:+ CRLF +:+
  "Content-Length: " +:+ dec_string (Z.of_nat (String.length message)) +:+ CRLF +:+ CRLF +:+ message.

Definition send_message_to_http_server (env : http_env) (server_ip : string) (server_port : Z)
  (message req_api : string) (fds : gset Z) : Z * gset Z * option http_sent :=
  let sock := he_socket env in
  if sock <? 0 then (PINGWEAVE_FAILURE, fds, None)
  else
    let fds := {[sock]} ∪ fds in
    if he_setsockopt env <? 0 then (PINGWEAVE_FAILURE, fds ∖ {[sock]}, None)
    else
      match inet_pton4 server_ip with
      | None => (PINGWEAVE_FAILURE, fds ∖ {[sock]}, None)
      | Some sin_addr =>
          if he_connect env <? 0 then (PINGWEAVE_FAILURE, fds ∖ {[sock]}, None)
          else
            let request := http_request server_ip server_port message req_api in
            let bytes_sent := he_send env request in
            if bytes_sent <? 0 then (PINGWEAVE_FAILURE, fds ∖ {[sock]}, None)
            else (PINGWEAVE_SUCCESS, fds ∖ {[sock]},
                  Some (HttpSent sin_addr (u16 server_port) (String.substring 0 (Z.to_nat bytes_sent) request)))
      end.

(** [indet]: the port before it is read. *)
Definition message_to_http_server (ini : option chars) (indet : Z) (env : http_env)
  (message req_api : string) (fds : gset Z) : Z * gset Z * option http_sent :=
  if String.eqb message "" then (PINGWEAVE_FAILURE, fds, None)
  else
    let '(r, controller_host, controller_port) := get_controller_info_from_ini ini "" indet in
    if IS_FAILURE r then (PINGWEAVE_FAILURE, fds, None)
    else
      let '(r, fds, sent) := send_message_to_http_server env controller_host controller_port message req_api fds in
      if IS_FAILURE r then (PINGWEAVE_FAILURE, fds, sent) else (PINGWEAVE_SUCCESS, fds, sent).

(** ** The controller's side: a reader of HTTP requests *)

(** A line, up to its CR LF, and the rest. *)
Fixpoint take_line (s : string) : option (string * string) :=
  match s with
  | "" => None
  | String c s =>
      match (if Ascii.eqb c CR then match s with String d s => if Ascii.eqb d LF then Some s else None | _ => None end else None) with
      | Some rest => Some ("", rest)
      | None => '(l, rest) ← take_line s; Some (String c l, rest)
      end
  end%string.

Fixpoint strip (name line : string) : option string :=
  match name, line with
  | "", l => Some l
  | String c name, String d line => if Ascii.eqb c d then strip name line else None
  | _, "" => None
  end%string.

(** The header lines, up to an empty one: the content length, and the rest. *)
Fixpoint read_headers (fuel : nat) (len : option Z) (s : string) : option (option Z * string) :=
  match fuel with
  | O => None
  | S fuel =>
      '(line, rest) ← take_line s;
      if String.eqb line "" then Some (len, rest)
      else read_headers fuel (match strip "Content-Length: " line with Some v => dec_val v 0 | None => len end) rest
  end.

(** The request line and the body. *)
Definition read_request (s : string) : option (string * string) :=
  '(line, rest) ← take_line s;
  '(len, body) ← read_headers (String.length s) None rest;
  n ← len;
  if (String.length body <? Z.to_nat n)%nat then None else Some (line, String.substring 0 (Z.to_nat n) body).

(** ** Lemmas *)
Fixpoint no_cr (s : string) : bool :=
  match s with "" => true | String c s => negb (Ascii.eqb c CR) && no_cr s end%string.

Lemma no_cr_app a b : no_cr (a +:+ b) = no_cr a && no_cr b.
Proof. induction a as [|c a IH]; [done|]. rewrite string_app_cons. cbn [no_cr]. by rewrite IH, andb_assoc. Qed.

Lemma take_line_app l r : no_cr l = true -> take_line (l +:+ CRLF +:+ r) = Some (l, r).
Proof.
  induction l as [|c l IH]; [done|]. cbn [no_cr]. intros [Hc Hl]%andb_true_iff. apply negb_true_iff in Hc.
  rewrite string_app_cons. cbn [take_line]. by rewrite Hc, IH.
Qed.

Lemma strip_app name v : strip name (name +:+ v) = Some v.
Proof. induction name as [|c name IH]; [by destruct v|]. rewrite string_app_cons. cbn [strip]. by rewrite Ascii.eqb_refl. Qed.

Lemma dec_val_no_cr s acc n : dec_val s acc = Some n -> no_cr s = true.
Proof.
  revert acc. induction s as [|c s IH]; intros acc; [done|]. cbn [dec_val no_cr].
  destruct (digit_val c) eqn:Hd; [|done]. intros H. rewrite (IH _ H), andb_true_r.
  apply negb_true_iff, Ascii.eqb_neq. by intros ->.
Qed.

Lemma dec_int_no_cr n : no_cr (dec_int n) = true.
Proof.
  unfold dec_int. destruct (Z.ltb_spec n 0); [cbn [no_cr]; apply andb_true_iff; split; [done|]|];
    eapply dec_val_no_cr, dec_val_string; lia.
Qed.

Lemma substring_all s : String.substring 0 (String.length s) s = s.
Proof. induction s as [|c s IH]; [done|]. cbn. by rewrite IH. Qed.

Lemma read_headers_line fuel len l r : no_cr l = true -> l <> "" ->
  read_headers (S fuel) len (l +:+ CRLF +:+ r)
    = read_headers fuel (match strip "Content-Length: " l with Some v => dec_val v 0 | None => len end) r.
Proof.
  intros Hc Hl. cbn [read_headers]. rewrite take_line_app by done. cbn [mbind option_bind].
  by rewrite (proj2 (String.eqb_neq _ _) Hl).
Qed.

(** The controller reads what was sent. *)
Lemma read_http_request ip port message api : no_cr ip = true -> no_cr api = true ->
  read_request (http_request ip port message api) = Some ("POST " +:+ api +:+ " HTTP/1.1", message).
Proof.
  intros Hip Hapi. unfold read_request. set (s := http_request _ _ _ _).
  assert (exists m, String.length s = S (S (S (S m)))) as [m ->] by (by eexists).
  set (n := Z.of_nat (String.length message)).
  assert (s = ("POST " +:+ api +:+ " HTTP/1.1") +:+ CRLF +:+ ("Host: " +:+ ip +:+ ":" +:+ dec_int port) +:+ CRLF +:+
    "Content-Type: text/plain" +:+ CRLF +:+ ("Content-Length: " +:+ dec_string n) +:+ CRLF +:+ "" +:+ CRLF +:+ message) as ->.
  { unfold s, http_request. rewrite !string_app_assoc. done. }
  rewrite take_line_app by (rewrite !no_cr_app, Hapi; done). cbn [mbind option_bind].
  rewrite read_headers_line; [|by rewrite !no_cr_app, Hip, dec_int_no_cr|done].
  rewrite read_headers_line by done.
  rewrite read_headers_line; [|rewrite no_cr_app; eapply dec_val_no_cr, dec_val_string; lia|done].
  rewrite strip_app, dec_val_string by lia. cbn [read_headers]. rewrite take_line_app by done.
  cbn [mbind option_bind String.eqb]. unfold n. rewrite Nat2Z.id, Nat.ltb_irrefl. by rewrite substring_all.
Qed.

Lemma send_message_outcome env ip port message api fds : he_socket env ∉ fds ->
  let '(r, fds', sent) := send_message_to_http_server env ip port message api fds in
  let request := http_request ip port message api in
  fds' = fds /\ (r = PINGWEAVE_SUCCESS <-> is_Some sent) /\ (r <> PINGWEAVE_SUCCESS -> r = PINGWEAVE_FAILURE) /\
  (r = PINGWEAVE_SUCCESS <->
     0 <= he_socket env /\ 0 <= he_setsockopt env /\ is_Some (inet_pton4 ip) /\ 0 <= he_connect env /\
     0 <= he_send env request) /\
  (forall m, sent = Some m -> hs_bytes m = String.substring 0 (Z.to_nat (he_send env request)) request).
Proof.
  intros Hfd. unfold send_message_to_http_server. cbv zeta. set (request := http_request _ _ _ _).
  assert (({[he_socket env]} ∪ fds) ∖ {[he_socket env]} = fds) as Hset by set_solver.
  assert (forall (P : Prop), ~ P -> (PINGWEAVE_FAILURE = PINGWEAVE_SUCCESS <-> is_Some (None : option http_sent)) /\
    (PINGWEAVE_FAILURE <> PINGWEAVE_SUCCESS -> PINGWEAVE_FAILURE = PINGWEAVE_FAILURE) /\
    (PINGWEAVE_FAILURE = PINGWEAVE_SUCCESS <-> P) /\
    (forall m, None = Some m -> hs_bytes m = String.substring 0 (Z.to_nat (he_send env request)) request)) as Hfail.
  { intros P HP. split_and!; try done; split; done. }
  destruct (Z.ltb_spec (he_socket env) 0); [split; [done|apply Hfail; lia]|].
  destruct (Z.ltb_spec (he_setsockopt env) 0); [split; [done|apply Hfail; lia]|].
  destruct (inet_pton4 ip) as [addr|]; [|split; [done|apply Hfail; intros (_ & _ & Hx & _); by destruct Hx]].
  destruct (Z.ltb_spec (he_connect env) 0); [split; [done|apply Hfail; lia]|].
  destruct (Z.ltb_spec (he_send env request) 0); [split; [done|apply Hfail; lia]|].
  split_and!; try done; by intros m [= <-].
Qed.

(** C21: an alarm or a result posted to the controller. Whatever the system
    calls answer, every descriptor opened is closed; success is reported just
    when the message is not empty, the controller is configured and each call
    succeeds; a prefix of one request is sent, and when all of it is, the
    controller reads the request line and, by the content length, exactly the
    message, whatever it contains. *)
Theorem http_message_posted ini indet env message api fds : he_socket env ∉ fds ->
  let '(c, host, port) := get_controller_info_from_ini ini "" indet in
  let '(r, fds', sent) := message_to_http_server ini indet env message api fds in
  let request := http_request host port message api in
  fds' = fds /\
  (r = PINGWEAVE_SUCCESS <->
     message <> "" /\ IS_FAILURE c = false /\ 0 <= he_socket env /\ 0 <= he_setsockopt env /\
     is_Some (inet_pton4 host) /\ 0 <= he_connect env /\ 0 <= he_send env request) /\
  (forall m, sent = Some m ->
     hs_bytes m = String.substring 0 (Z.to_nat (he_send env request)) request /\
     (no_cr host = true -> no_cr api = true -> Z.to_nat (he_send env request) = String.length request ->
      read_request (hs_bytes m) = Some ("POST " +:+ api +:+ " HTTP/1.1", message))).
Proof.
  intros Hfd. destruct (get_controller_info_from_ini ini "" indet) as [[c host] port] eqn:Hinfo.
  unfold message_to_http_server. rewrite Hinfo.
  destruct (String.eqb_spec message "") as [->|Hne]; [split_and!; [done|split; [done|by intros [? _]]|done]|].
  destruct (IS_FAILURE c) eqn:Hc; [split_and!; [done|split; [done|by intros (_ & ? & _)]|done]|].
  pose proof (send_message_outcome env host port message api fds Hfd) as Hs.
  destruct (send_message_to_http_server _ _ _ _ _ _) as [[r fds'] sent].
  destruct Hs as (-> & Hsome & Hr & Hok & Hbytes).
  assert (IS_FAILURE r = false <-> r = PINGWEAVE_SUCCESS) as Hr'.
  { unfold IS_FAILURE. destruct (Z.eqb_spec r PINGWEAVE_FAILURE) as [->|Hn]; [done|].
    split; [|done]. intros _. destruct (decide (r = PINGWEAVE_SUCCESS)) as [|Hs]; [done|]. by destruct Hn, (Hr Hs). }
  assert (forall m, sent = Some m ->
    hs_bytes m = String.substring 0 (Z.to_nat (he_send env (http_request host port message api))) (http_request host port message api) /\
    (no_cr host = true -> no_cr api = true ->
     Z.to_nat (he_send env (http_request host port message api)) = String.length (http_request host port message api) ->
     read_request (hs_bytes m) = Some ("POST " +:+ api +:+ " HTTP/1.1", message))) as Hread.
  { intros m Hm. rewrite (Hbytes m Hm). split; [done|]. intros Hh Ha Hall. rewrite Hall, substring_all.
    by apply read_http_request. }
  destruct (IS_FAILURE r); (split; [done|split; [|exact Hread]]).
  - split; [done|]. intros (_ & _ & HP). apply Hok in HP. by apply Hr' in HP.
  - split; [|done]. intros _. split; [done|]. split; [done|]. apply Hok. by apply Hr'.
Qed.

Definition sample_ini : option chars := Some (String.list_ascii_of_string
  ("[controller]" +:+ String LF "host = 10.0.0.9" +:+ String LF "collect_port_http = 8080" +:+ String LF "")).
Definition sample_env : http_env := HttpEnv 7 0 0 (fun s => Z.of_nat (String.length s)).

Lemma http_message_posted_witness :
  let '(r, fds, sent) := message_to_http_server sample_ini 0 sample_env "Restarted: x" "/alarm" {[3]} in
  r = PINGWEAVE_SUCCESS /\ fds = {[3]} /\
  (hs_bytes <$> sent) ≫= read_request = Some ("POST /alarm HTTP/1.1"%string, "Restarted: x"%string).
Proof.
  assert (he_socket sample_env ∉ ({[3]} : gset Z)) as Hfd by (cbn; set_solver).
  pose proof (http_message_posted sample_ini 0 sample_env "Restarted: x" "/alarm" {[3]} Hfd) as H.
  assert (get_controller_info_from_ini sample_ini "" 0 = (PINGWEAVE_SUCCESS, "10.0.0.9"%string, 8080)) as E1
    by (vm_compute; reflexivity).
  rewrite E1 in H.
  assert (is_Some (message_to_http_server sample_ini 0 sample_env "Restarted: x" "/alarm" {[3]}).2) as Hs
    by (vm_compute; eexists; reflexivity).
  destruct (message_to_http_server sample_ini 0 sample_env "Restarted: x" "/alarm" {[3]}) as [[r fds] sent].
  destruct H as (Hf & Hr & Hm). destruct Hs as [m Hs]. cbn [snd] in Hs. subst sent.
  split; [|split; [exact Hf|]].
  - apply Hr. split; [discriminate|]. split; [reflexivity|].
    split; [cbn; lia|]. split; [cbn; lia|]. split; [vm_compute; eexists; reflexivity|].
    split; [cbn; lia|]. apply Zle_0_nat.
  - apply (Hm m eq_refl); [reflexivity|reflexivity|]. apply Nat2Z.id.
Defined.
