(* ===== verification/Queue.v ===== *)
(** * Queue: what the program relies on of the queue between two threads.

    The program uses two operations. [try_enqueue] appends when there is room
    and reports whether it did; [wait_dequeue_timed] takes the oldest element,
    or times out. The clients are proved against the interface [SpscQueue];
    [bounded_queue] and lists are small instances, and BlockingQueue.v gives the
    one of the library the program links. *)
From S2P Require Import Prelude.

Class SpscQueue (Q A : Type) := {
  try_enqueue : A -> Q -> bool * Q;
  wait_dequeue_timed : Q -> option (A * Q);
  q_contents : Q -> list A;
  try_enqueue_room a q q' :
    try_enqueue a q = (true, q') -> q_contents q' = q_contents q ++ [a];
  try_enqueue_full a q q' :
    try_enqueue a q = (false, q') -> q_contents q' = q_contents q;
  wait_dequeue_some a q q' :
    wait_dequeue_timed q = Some (a, q') -> q_contents q = a :: q_contents q';
}.

Section spsc.
Context `{SpscQueue Q A}.

(** The queue after an enqueue whose success flag the caller only logs. *)
Definition enqueued (a : A) (q : Q) : Q := snd (try_enqueue a q).

(** There is room for [a]. *)
Definition has_room (a : A) (q : Q) : Prop := fst (try_enqueue a q) = true.

Lemma enqueued_contents a q :
  has_room a q -> q_contents (enqueued a q) = q_contents q ++ [a].
Proof.
  unfold has_room, enqueued. destruct (try_enqueue a q) as [b q'] eqn:E. simpl. intros ->.
  by apply try_enqueue_room.
Qed.

Lemma enqueued_contents_cases a q :
  q_contents (enqueued a q) = q_contents q ++ [a] \/
  q_contents (enqueued a q) = q_contents q.
Proof.
  unfold enqueued. destruct (try_enqueue a q) as [[] q'] eqn:E; simpl.
  - left. by apply try_enqueue_room.
  - right. by eapply try_enqueue_full.
Qed.
End spsc.

(** A list with a capacity. *)
Record bounded_queue (A : Type) := BoundedQueue { capacity : nat; items : list A }.
Arguments BoundedQueue {A} capacity items.
Arguments capacity {A} b.
Arguments items {A} b.

#[export] Program Instance bounded_spsc A : SpscQueue (bounded_queue A) A := {|
  try_enqueue a q :=
    if (length (items q) <? capacity q)%nat
    then (true, BoundedQueue (capacity q) (items q ++ [a]))
    else (false, q);
  wait_dequeue_timed q :=
    match items q with
    | [] => None
    | a :: l => Some (a, BoundedQueue (capacity q) l)
    end;
  q_contents := items;
|}.
Next Obligation. intros A a q q'. simpl. case_match; by intros [= <-]. Qed.
Next Obligation. intros A a q q'. simpl. case_match; by intros [= <-]. Qed.
Next Obligation. intros A a q q'. simpl. case_match; by intros [= <- <-]. Qed.

(** A queue without bound: the oldest element first. *)
#[export] Program Instance list_spsc A : SpscQueue (list A) A := {|
  try_enqueue a q := (true, q ++ [a]);
  wait_dequeue_timed q := match q with [] => None | a :: l => Some (a, l) end;
  q_contents q := q;
|}.
Next Obligation. by intros A a q q' [= <-]. Qed.
Next Obligation. by intros A a q q' [=]. Qed.
Next Obligation. intros A a q q'. simpl. case_match; by intros [= <- <-]. Qed.
