(* ===== verification/Block.v ===== *)
(** * Block: the circular buffers of the lock-free queue
    (libs/readerwriterqueue/readerwriterqueue.h: [Block], [make_block],
    [ceilToPow2]).

    Indices stay below the size of a block, so that they are naturals; a slot
    that holds no object yet is [None]. The messages of the program are
    trivially destructible: a slot keeps its bytes when its object is moved
    out. *)
From S2P Require Import Prelude.

(** ** Going round a ring of [n] places *)
Section ring.
Context (n : nat).

(** [k] places after [i]. *)
Definition place (i k : nat) : nat := if (i + k <? n)%nat then i + k else i + k - n.

(** From [i] to [j], going up. *)
Definition dist (i j : nat) : nat := if (i <=? j)%nat then j - i else j + n - i.

Lemma dist_lt i j : (i < n)%nat -> (j < n)%nat -> (dist i j < n)%nat.
Proof. intros. unfold dist. destruct (Nat.leb_spec i j); lia. Qed.

Lemma place_lt i k : (i < n)%nat -> (k <= n)%nat -> (place i k < n)%nat.
Proof. intros. unfold place. destruct (Nat.ltb_spec (i + k) n); lia. Qed.

Lemma place_succ i k : (i < n)%nat -> (k < n)%nat ->
  place (place i 1) k = place i (S k).
Proof.
  intros. unfold place.
  repeat match goal with |- context [Nat.ltb ?x ?y] => destruct (Nat.ltb_spec x y) end; lia.
Qed.

Lemma place_inj i k k' : (i < n)%nat -> (k < n)%nat -> (k' < n)%nat ->
  place i k = place i k' -> k = k'.
Proof.
  intros ???. unfold place.
  repeat match goal with |- context [Nat.ltb ?x ?y] => destruct (Nat.ltb_spec x y) end; lia.
Qed.

Lemma place_dist i j : (i < n)%nat -> (j < n)%nat -> place i (dist i j) = j.
Proof.
  intros. unfold place, dist. destruct (Nat.leb_spec i j);
    match goal with |- context [Nat.ltb ?x ?y] => destruct (Nat.ltb_spec x y) end; lia.
Qed.

Lemma place_0 i : (i < n)%nat -> place i 0 = i.
Proof. intros. unfold place. rewrite (proj2 (Nat.ltb_lt _ _)) by lia. lia. Qed.

(** Going one place further from the end, or starting one place later. *)
Lemma dist_succ_r i j : (i < n)%nat -> (j < n)%nat -> place j 1 <> i ->
  dist i (place j 1) = S (dist i j).
Proof.
  intros ??. unfold place, dist. destruct (Nat.ltb_spec (j + 1) n);
    repeat match goal with |- context [Nat.leb ?x ?y] => destruct (Nat.leb_spec x y) end; lia.
Qed.

Lemma dist_succ_l i j : (i < n)%nat -> (j < n)%nat -> i <> j ->
  dist i j = S (dist (place i 1) j).
Proof.
  intros ??. unfold place, dist. destruct (Nat.ltb_spec (i + 1) n);
    repeat match goal with |- context [Nat.leb ?x ?y] => destruct (Nat.leb_spec x y) end; lia.
Qed.

Lemma dist_0 i j : (i < n)%nat -> (j < n)%nat -> dist i j = 0%nat <-> i = j.
Proof. intros. unfold dist. destruct (Nat.leb_spec i j); lia. Qed.

Lemma dist_full i j : (i < n)%nat -> (j < n)%nat -> place j 1 = i ->
  dist i j = n - 1.
Proof.
  intros ??. unfold place, dist. destruct (Nat.ltb_spec (j + 1) n);
    destruct (Nat.leb_spec i j); lia.
Qed.

End ring.

(** [ceilToPow2] on 64 bits: the bits below the highest one are filled. *)
Definition ceilToPow2 (x : Z) : Z :=
  let x := u64 (x - 1) in
  let x := Z.lor x (Z.shiftr x 1) in
  let x := Z.lor x (Z.shiftr x 2) in
  let x := Z.lor x (Z.shiftr x 4) in
  let x := Z.lor x (Z.shiftr x 8) in
  let x := Z.lor x (Z.shiftr x 16) in
  let x := Z.lor x (Z.shiftr x 32) in
  u64 (x + 1).

(** [F] has every bit that is less than [s] places below a bit of [y]. *)
Definition smeared (s F y : Z) : Prop :=
  forall i, (0 <= i)%Z -> Z.testbit F i = true <-> exists j, (i <= j < i + s)%Z /\ Z.testbit y j = true.

Lemma smeared_1 y : smeared 1 y y.
Proof.
  intros i Hi. split; [intros; exists i; split; [lia|done]|].
  intros (j & Hj & Hb). by replace i with j by lia.
Qed.

Lemma smeared_double s F y : (0 < s)%Z -> smeared s F y -> smeared (2 * s) (Z.lor F (Z.shiftr F s)) y.
Proof.
  intros Hs HF i Hi. rewrite Z.lor_spec, Z.shiftr_spec, orb_true_iff by lia.
  rewrite (HF i), (HF (i + s)%Z) by lia. split.
  - intros [(j & Hj & Hb)|(j & Hj & Hb)]; exists j; (split; [lia|done]).
  - intros (j & Hj & Hb). destruct (Z_lt_dec j (i + s)); [left|right]; exists j; (split; [lia|done]).
Qed.

Lemma smeared_ones F y : (0 < y < 2 ^ 63)%Z -> smeared 64 F y -> F = Z.ones (Z.log2 y + 1).
Proof.
  intros Hy HF. pose proof (Z.log2_nonneg y) as Hl.
  assert (Z.log2 y < 63)%Z by (apply Z.log2_lt_pow2; lia).
  apply Z.bits_inj'. intros i Hi. rewrite Z.testbit_ones_nonneg by lia. apply eq_true_iff_eq.
  rewrite (HF i Hi), Z.ltb_lt. split.
  - intros (j & Hj & Hb). destruct (Z_lt_dec (Z.log2 y) j); [|lia].
    rewrite Z.bits_above_log2 in Hb by lia. done.
  - intros. exists (Z.log2 y). split; [lia|]. apply Z.bit_log2. lia.
Qed.

(** The least power of two that is not less. *)
Lemma ceilToPow2_spec x : (1 <= x <= 2 ^ 63)%Z -> ceilToPow2 x = (2 ^ Z.log2_up x)%Z.
Proof.
  intros Hx. destruct (decide (x = 1)%Z) as [->|Hne]; [done|].
  unfold ceilToPow2. rewrite (u64_small (x - 1)) by (unfold is_u64; lia). cbv zeta.
  set (y := (x - 1)%Z). assert (0 < y < 2 ^ 63)%Z as Hy by (unfold y; lia).
  match goal with |- u64 (?F + 1) = _ => assert (F = Z.ones (Z.log2 y + 1)) as -> end.
  { apply smeared_ones; [done|].
    apply (smeared_double 32), (smeared_double 16), (smeared_double 8), (smeared_double 4),
      (smeared_double 2), (smeared_double 1), smeared_1; lia. }
  pose proof (Z.log2_nonneg y). assert (Z.log2 y < 63)%Z by (apply Z.log2_lt_pow2; lia).
  rewrite Z.log2_up_eqn by lia. replace (Z.pred x) with y by (unfold y; lia).
  rewrite Z.ones_equiv. replace (Z.pred _ + 1)%Z with (2 ^ (Z.log2 y + 1))%Z by lia. rewrite u64_small; [done|].
  split; [apply Z.pow_nonneg; lia|]. apply Z.pow_lt_mono_r; lia.
Qed.

(** The producer owns [b_tail] and [b_localFront], the consumer [b_front] and
    [b_localTail]; [b_next]: the next block's place in the list of blocks. *)
Record block (T : Type) := Block {
  b_front : nat; b_localTail : nat; b_tail : nat; b_localFront : nat;
  b_next : nat; b_data : list (option T); b_sizeMask : nat }.
Arguments Block {T}.
Arguments b_front {T} _.
Arguments b_localTail {T} _.
Arguments b_tail {T} _.
Arguments b_localFront {T} _.
Arguments b_next {T} _.
Arguments b_data {T} _.
Arguments b_sizeMask {T} _.

Section block.
Context {T : Type}.
Implicit Types (b : block T).

Definition make_block (capacity : nat) : block T :=
  Block 0 0 0 0 0 (replicate capacity None) (capacity - 1).

(** The index after [i]. *)
Definition succ_idx b (i : nat) : nat := Nat.land (i + 1) (b_sizeMask b).

Definition with_front (i : nat) b : block T :=
  Block i (b_localTail b) (b_tail b) (b_localFront b) (b_next b) (b_data b) (b_sizeMask b).
Definition with_localTail (i : nat) b : block T :=
  Block (b_front b) i (b_tail b) (b_localFront b) (b_next b) (b_data b) (b_sizeMask b).
Definition with_tail (i : nat) b : block T :=
  Block (b_front b) (b_localTail b) i (b_localFront b) (b_next b) (b_data b) (b_sizeMask b).
Definition with_localFront (i : nat) b : block T :=
  Block (b_front b) (b_localTail b) (b_tail b) i (b_next b) (b_data b) (b_sizeMask b).
Definition with_next (i : nat) b : block T :=
  Block (b_front b) (b_localTail b) (b_tail b) (b_localFront b) i (b_data b) (b_sizeMask b).
Definition with_slot (i : nat) (a : T) b : block T :=
  Block (b_front b) (b_localTail b) (b_tail b) (b_localFront b) (b_next b)
    (<[i := Some a]> (b_data b)) (b_sizeMask b).

(** ** What a block holds *)
Definition b_size b : nat := S (b_sizeMask b).

(** The number of objects, and the objects. *)
Definition used b : nat := dist (b_size b) (b_front b) (b_tail b).
Definition slots b : list (option T) := (fun k => mjoin (b_data b !! place (b_size b) (b_front b) k)) <$> seq 0 (used b).
Definition items b : list T := omap id (slots b).

(** A block at rest: a size that is a power of two, indices in range, every
    slot in use filled, the shadow indices behind the real ones. *)
Record block_ok b : Prop := {
  ok_size : exists k, (0 < k)%nat /\ b_size b = (2 ^ k)%nat;
  ok_data : length (b_data b) = b_size b;
  ok_front : (b_front b < b_size b)%nat;
  ok_tail : (b_tail b < b_size b)%nat;
  ok_localFront : (b_localFront b < b_size b)%nat;
  ok_localTail : (b_localTail b < b_size b)%nat;
  ok_filled : Forall is_Some (slots b);
  ok_behind_tail : (dist (b_size b) (b_front b) (b_localTail b) <= used b)%nat;
  ok_behind_front : (used b <= dist (b_size b) (b_localFront b) (b_tail b))%nat;
}.

Lemma size_pos b : (0 < b_size b)%nat.
Proof. unfold b_size. lia. Qed.

Lemma succ_idx_spec b i : block_ok b -> (i < b_size b)%nat ->
  succ_idx b i = place (b_size b) i 1.
Proof.
  intros Hb Hi. destruct (ok_size b Hb) as (k & _ & Hk). unfold succ_idx, place.
  assert (b_sizeMask b = Nat.ones k) as ->.
  { rewrite Nat.ones_equiv, <- Hk. unfold b_size. lia. }
  rewrite Nat.land_ones, <- Hk. destruct (Nat.ltb_spec (i + 1) (b_size b)).
  - by rewrite Nat.mod_small.
  - replace (i + 1) with (b_size b) by lia. rewrite Nat.Div0.mod_same. lia.
Qed.

Lemma used_items b : block_ok b -> length (items b) = used b.
Proof.
  intros Hb. assert (length (slots b) = used b) as <- by (unfold slots; by rewrite length_fmap, length_seq).
  pose proof (ok_filled b Hb) as Hf. unfold items. induction Hf as [|x l [a ->] Hl IH]; [done|].
  cbn. by rewrite IH.
Qed.

Lemma items_empty b : block_ok b -> items b = [] <-> b_front b = b_tail b.
Proof.
  intros Hb. rewrite <- length_zero_iff_nil, used_items by done. unfold used.
  apply dist_0; [by apply ok_front|by apply ok_tail].
Qed.

(** *** The producer's changes *)
Lemma reload_front_ok b : block_ok b -> block_ok (with_localFront (b_front b) b).
Proof. intros [H1 H2 H3 H4 H5 H6 H7 H8 H9]. split; try done. Qed.

Lemma reload_tail_ok b : block_ok b -> block_ok (with_localTail (b_tail b) b).
Proof. intros [H1 H2 H3 H4 H5 H6 H7 H8 H9]. split; try done. Qed.

Lemma with_next_ok i b : block_ok b -> block_ok (with_next i b).
Proof. intros [H1 H2 H3 H4 H5 H6 H7 H8 H9]. by split. Qed.

(** The slot at the tail is not in use. *)
Lemma with_slot_slots b a : block_ok b -> slots (with_slot (b_tail b) a b) = slots b.
Proof.
  intros Hb. unfold slots. cbn [b_front b_data with_slot].
  change (used (with_slot (b_tail b) a b)) with (used b).
  change (b_size (with_slot (b_tail b) a b)) with (b_size b).
  apply list_fmap_ext. intros i k Hk. apply lookup_seq in Hk as [-> Hk]. cbn [Nat.add].
  rewrite list_lookup_insert_ne; [done|]. intros He.
  pose proof (ok_front b Hb). pose proof (ok_tail b Hb). pose proof (dist_lt (b_size b) (b_front b) (b_tail b)).
  rewrite <- (place_dist (b_size b) (b_front b) (b_tail b)) in He by done.
  apply place_inj in He; unfold used in *; lia.
Qed.

Lemma with_slot_ok b a : block_ok b -> block_ok (with_slot (b_tail b) a b).
Proof.
  intros Hb. pose proof Hb as [H1 H2 H3 H4 H5 H6 H7 H8 H9].
  split; try done; [by cbn; rewrite length_insert|]. by rewrite with_slot_slots.
Qed.

Lemma with_slot_items b a : block_ok b -> items (with_slot (b_tail b) a b) = items b.
Proof. intros Hb. unfold items. by rewrite with_slot_slots. Qed.

Lemma with_slot_lookup b a : block_ok b -> b_data (with_slot (b_tail b) a b) !! b_tail b = Some (Some a).
Proof. intros Hb. cbn. apply list_lookup_insert_eq. rewrite (ok_data b Hb). by apply ok_tail. Qed.

(** Publishing the slot at the tail. *)
Lemma push_slots b a :
  block_ok b -> b_data b !! b_tail b = Some (Some a) -> place (b_size b) (b_tail b) 1 <> b_front b ->
  slots (with_tail (place (b_size b) (b_tail b) 1) b) = slots b ++ [Some a].
Proof.
  intros Hb Ha Hne. pose proof (ok_front b Hb). pose proof (ok_tail b Hb).
  unfold slots. cbn [b_front b_data with_tail].
  assert (used (with_tail (place (b_size b) (b_tail b) 1) b) = S (used b)) as ->
    by (by apply (dist_succ_r (b_size b))).
  change (b_size (with_tail (place (b_size b) (b_tail b) 1) b)) with (b_size b).
  rewrite seq_S, fmap_app. f_equal. cbn. unfold used. by rewrite place_dist, Ha.
Qed.

Lemma push_ok b a :
  block_ok b -> b_data b !! b_tail b = Some (Some a) -> place (b_size b) (b_tail b) 1 <> b_localFront b ->
  block_ok (with_tail (place (b_size b) (b_tail b) 1) b) /\
  items (with_tail (place (b_size b) (b_tail b) 1) b) = items b ++ [a].
Proof.
  intros Hb Ha Hne. pose proof Hb as [H1 H2 H3 H4 H5 H6 H7 H8 H9].
  assert (place (b_size b) (b_tail b) 1 <> b_front b) as Hne'.
  { intros He. apply dist_full in He; [|done..]. fold (used b) in He.
    assert (dist (b_size b) (b_localFront b) (b_tail b) < b_size b - 1)%nat; [|lia].
    pose proof (dist_succ_r (b_size b) (b_localFront b) (b_tail b) H5 H4 Hne).
    pose proof (dist_lt (b_size b) (b_localFront b) (place (b_size b) (b_tail b) 1) H5 (place_lt (b_size b) _ 1 H4 ltac:(unfold b_size; lia))).
    lia. }
  pose proof (push_slots b a Hb Ha Hne') as Hs.
  assert (used (with_tail (place (b_size b) (b_tail b) 1) b) = S (used b)) as Hu by (by apply (dist_succ_r (b_size b))).
  split; [|unfold items; by rewrite Hs, omap_app].
  split; try done.
  - apply (place_lt (b_size b)); [done|]. unfold b_size. lia.
  - rewrite Hs. apply Forall_app. split; [done|]. by repeat constructor.
  - rewrite Hu. cbn [b_front b_localTail with_tail]. change (b_size (with_tail _ b)) with (b_size b). lia.
  - rewrite Hu. cbn [b_localFront b_tail with_tail]. change (b_size (with_tail _ b)) with (b_size b).
    rewrite dist_succ_r by done. lia.
Qed.

(** *** The consumer's change *)
Lemma front_slot b : block_ok b -> b_front b <> b_tail b ->
  exists a, b_data b !! b_front b = Some (Some a) /\ hd_error (items b) = Some a.
Proof.
  intros Hb Hne. pose proof (ok_filled b Hb) as Hf. unfold items, slots in *.
  pose proof (ok_front b Hb) as H1. pose proof (ok_tail b Hb) as H2.
  assert (used b = S (dist (b_size b) (place (b_size b) (b_front b) 1) (b_tail b))) as Hu by (by apply dist_succ_l).
  rewrite Hu in Hf |- *. cbn [seq fmap list_fmap] in *. rewrite place_0 in * by done.
  inversion Hf as [|x l [a Hx] Hl]; subst.
  exists a. rewrite Hx. cbn. split; [|done]. by destruct (b_data b !! b_front b) as [[]|]; inversion Hx.
Qed.

Lemma pop_slots b : block_ok b -> b_front b <> b_tail b ->
  slots b = mjoin (b_data b !! b_front b) :: slots (with_front (place (b_size b) (b_front b) 1) b).
Proof.
  intros Hb Hne. pose proof (ok_front b Hb) as H1. pose proof (ok_tail b Hb) as H2.
  unfold slots. cbn [b_front b_data with_front].
  assert (used b = S (used (with_front (place (b_size b) (b_front b) 1) b))) as -> by (by apply dist_succ_l).
  change (b_size (with_front (place (b_size b) (b_front b) 1) b)) with (b_size b).
  cbn [seq fmap list_fmap]. rewrite place_0 by done. f_equal.
  rewrite <- seq_shift, <- list_fmap_compose. apply list_fmap_ext. intros i k Hk.
  apply lookup_seq in Hk as [-> Hk]. cbn [compose Nat.add]. rewrite place_succ; [done|done|].
  pose proof (dist_lt (b_size b) (place (b_size b) (b_front b) 1) (b_tail b) (place_lt (b_size b) _ 1 H1 ltac:(unfold b_size; lia)) H2).
  unfold used in Hk. cbn in Hk. change (b_size (with_front _ b)) with (b_size b) in Hk. lia.
Qed.

Lemma pop_ok b : block_ok b -> b_front b <> b_localTail b ->
  exists a, b_data b !! b_front b = Some (Some a) /\
    block_ok (with_front (place (b_size b) (b_front b) 1) b) /\
    items b = a :: items (with_front (place (b_size b) (b_front b) 1) b).
Proof.
  intros Hb Hne. pose proof Hb as [H1 H2 H3 H4 H5 H6 H7 H8 H9].
  assert (dist (b_size b) (b_front b) (b_localTail b) <> 0%nat) as Hd by (rewrite dist_0 by done; done).
  assert (b_front b <> b_tail b) as Hne' by (rewrite <- (dist_0 (b_size b)) by done; unfold used in *; lia).
  destruct (front_slot b Hb Hne') as (a & Ha & _). exists a. split; [done|].
  pose proof (pop_slots b Hb Hne') as Hs. rewrite Ha in Hs. cbn in Hs.
  split; [|unfold items; by rewrite Hs].
  pose proof (dist_succ_l (b_size b) (b_front b) (b_localTail b) H3 H6 Hne) as Hl.
  pose proof (dist_succ_l (b_size b) (b_front b) (b_tail b) H3 H4 Hne') as Ht.
  split; try done.
  - apply (place_lt (b_size b)); [done|]. unfold b_size. lia.
  - rewrite Hs in H7. by inversion H7.
  - unfold used in *. cbn [b_front b_localTail b_tail with_front].
    change (b_size (with_front _ b)) with (b_size b). lia.
  - unfold used in *. cbn [b_front b_localFront b_tail with_front].
    change (b_size (with_front _ b)) with (b_size b). lia.
Qed.

(** A new block is empty and well formed. *)
Lemma make_block_ok k : (0 < k)%nat ->
  block_ok (make_block (2 ^ k)) /\ items (make_block (2 ^ k)) = [] /\ b_size (make_block (2 ^ k)) = (2 ^ k)%nat.
Proof.
  intros Hk. assert (0 < 2 ^ k)%nat by (apply Nat.neq_0_lt_0, Nat.pow_nonzero; lia).
  assert (b_size (make_block (2 ^ k)) = (2 ^ k)%nat) as Hs by (unfold b_size; cbn; lia).
  split; [|done]. split; rewrite ?Hs; cbn; try done; try lia.
  - by exists k.
  - by rewrite length_replicate.
Qed.
End block.
