(* ===== verification/RwQueue.v ===== *)
(** * RwQueue: the lock-free queue of one producer and one consumer
    (libs/readerwriterqueue/readerwriterqueue.h: [ReaderWriterQueue]).

    A ring of circular buffers. The program only calls [try_enqueue] on the
    producer's side, which never allocates: the ring of blocks is that of the
    constructor. Each call is cut into steps that touch at most one variable
    that the other thread writes; threads interleave by such steps, in a
    sequentially consistent order (the fences of the code are there to give
    the weaker orders of the machine this effect). A failed [assert] is an
    exception here. *)
From S2P Require Import Prelude Block.

Record rwqueue (T : Type) := RwQueue {
  blocks : list (block T); frontBlock : nat; tailBlock : nat; largestBlockSize : Z }.
Arguments RwQueue {T}.
Arguments blocks {T} _.
Arguments frontBlock {T} _.
Arguments tailBlock {T} _.
Arguments largestBlockSize {T} _.

(** Where a thread is in its call: the variables that are live there. *)
Inductive enq_pc (T : Type) :=
  | EnqStart (element : T)
  | EnqReload (element : T) (tailBlock_ blockTail nextBlockTail : nat)
  | EnqWrite (element : T) (tailBlock_ blockTail nextBlockTail : nat)
  | EnqPublish (element : T) (tailBlock_ nextBlockTail : nat)
  | EnqFull (element : T) (tailBlock_ : nat)
  | EnqNext (element : T) (tailBlockNext : nat)
  | EnqWriteNext (element : T) (tailBlockNext nextBlockTail : nat)
  | EnqTailNext (element : T) (tailBlockNext nextBlockTail : nat)
  | EnqAdvance (element : T) (tailBlockNext : nat)
  | EnqDone (result : bool).
Arguments EnqStart {T}.
Arguments EnqReload {T}.
Arguments EnqWrite {T}.
Arguments EnqPublish {T}.
Arguments EnqFull {T}.
Arguments EnqNext {T}.
Arguments EnqWriteNext {T}.
Arguments EnqTailNext {T}.
Arguments EnqAdvance {T}.
Arguments EnqDone {T}.

Inductive deq_pc (T : Type) :=
  | DeqStart
  | DeqReload (frontBlock_ blockFront : nat)
  | DeqTailBlock (frontBlock_ : nat)
  | DeqAgain
  | DeqNext (frontBlock_ : nat)
  | DeqMove (nextBlock nextBlockFront : nat)
  | DeqRead (frontBlock_ blockFront : nat)
  | DeqPublish (result : T) (frontBlock_ blockFront : nat)
  | DeqDone (result : option T).
Arguments DeqStart {T}.
Arguments DeqReload {T}.
Arguments DeqTailBlock {T}.
Arguments DeqAgain {T}.
Arguments DeqNext {T}.
Arguments DeqMove {T}.
Arguments DeqRead {T}.
Arguments DeqPublish {T}.
Arguments DeqDone {T}.

Section rwqueue.
Context {T : Type}.
Implicit Types (q : rwqueue T) (b : block T).

Definition with_blocks (l : list (block T)) q : rwqueue T :=
  RwQueue l (frontBlock q) (tailBlock q) (largestBlockSize q).
Definition get_block q (i : nat) : outcome (block T) :=
  match blocks q !! i with Some b => Ret b | None => Undef end.
Definition set_block (i : nat) b q : rwqueue T := with_blocks (<[i := b]> (blocks q)) q.

(** ** The constructor *)

(** The loop over the blocks: the last block points to the new one, and the
    new one to the first. [mem i]: the [i]-th allocation succeeds. *)
Fixpoint make_blocks (mem : nat -> bool) (size : nat) (count : nat) (l : list (block T)) : outcome (list (block T)) :=
  match count with
  | O => Ret l
  | S count =>
      if mem (length l)
      then make_blocks mem size count
             (alter (with_next (length l)) (pred (length l)) l ++ [with_next 0 (make_block size)])
      else Throw (RuntimeError "std::bad_alloc")
  end.

Definition ReaderWriterQueue (MAX_BLOCK_SIZE size : Z) (mem : nat -> bool) : outcome (rwqueue T) :=
  if negb (MAX_BLOCK_SIZE =? ceilToPow2 MAX_BLOCK_SIZE)%Z || (MAX_BLOCK_SIZE <? 2)%Z
  then Throw (RuntimeError "assertion failed")
  else
  let largestBlockSize := ceilToPow2 (u64 (size + 1)) in
  if (u64 (MAX_BLOCK_SIZE * 2) <? largestBlockSize)%Z
  then
    let initialBlockCount := (u64 (size + MAX_BLOCK_SIZE * 2 - 3) `div` (MAX_BLOCK_SIZE - 1))%Z in
    l ← make_blocks mem (Z.to_nat MAX_BLOCK_SIZE) (Z.to_nat initialBlockCount) [];
    Ret (RwQueue l 0 0 MAX_BLOCK_SIZE)
  else
    l ← make_blocks mem (Z.to_nat largestBlockSize) 1 [];
    Ret (RwQueue l 0 0 largestBlockSize).

(** ** [inner_enqueue<CannotAlloc>] *)
Definition enq_step (pc : enq_pc T) q : outcome (enq_pc T * rwqueue T) :=
  match pc with
  | EnqStart a =>
      b ← get_block q (tailBlock q);
      let blockTail := b_tail b in
      let nextBlockTail := succ_idx b blockTail in
      Ret (if negb (nextBlockTail =? b_localFront b)%nat
           then EnqWrite a (tailBlock q) blockTail nextBlockTail
           else EnqReload a (tailBlock q) blockTail nextBlockTail, q)
  | EnqReload a tb blockTail nextBlockTail =>
      b ← get_block q tb;
      Ret (if negb (nextBlockTail =? b_front b)%nat
           then EnqWrite a tb blockTail nextBlockTail else EnqFull a tb,
           set_block tb (with_localFront (b_front b) b) q)
  | EnqWrite a tb blockTail nextBlockTail =>
      b ← get_block q tb;
      if (blockTail <? length (b_data b))%nat
      then Ret (EnqPublish a tb nextBlockTail, set_block tb (with_slot blockTail a b) q)
      else Undef
  | EnqPublish a tb nextBlockTail =>
      b ← get_block q tb;
      Ret (EnqDone true, set_block tb (with_tail nextBlockTail b) q)
  | EnqFull a tb =>
      b ← get_block q tb;
      Ret (if negb (b_next b =? frontBlock q)%nat then EnqNext a (b_next b) else EnqDone false, q)
  | EnqNext a nb =>
      b ← get_block q nb;
      if (b_front b =? b_tail b)%nat
      then Ret (EnqWriteNext a nb (b_tail b), set_block nb (with_localFront (b_front b) b) q)
      else Throw (RuntimeError "assertion failed")
  | EnqWriteNext a nb nextBlockTail =>
      b ← get_block q nb;
      if (nextBlockTail <? length (b_data b))%nat
      then Ret (EnqTailNext a nb nextBlockTail, set_block nb (with_slot nextBlockTail a b) q)
      else Undef
  | EnqTailNext a nb nextBlockTail =>
      b ← get_block q nb;
      Ret (EnqAdvance a nb, set_block nb (with_tail (succ_idx b nextBlockTail) b) q)
  | EnqAdvance a nb => Ret (EnqDone true, RwQueue (blocks q) (frontBlock q) nb (largestBlockSize q))
  | EnqDone r => Ret (EnqDone r, q)
  end.

(** ** [try_dequeue] *)
Definition deq_step (pc : deq_pc T) q : outcome (deq_pc T * rwqueue T) :=
  match pc with
  | DeqStart =>
      b ← get_block q (frontBlock q);
      Ret (if negb (b_front b =? b_localTail b)%nat then DeqRead (frontBlock q) (b_front b)
           else DeqReload (frontBlock q) (b_front b), q)
  | DeqReload fb blockFront =>
      b ← get_block q fb;
      Ret (if negb (blockFront =? b_tail b)%nat then DeqRead fb blockFront else DeqTailBlock fb,
           set_block fb (with_localTail (b_tail b) b) q)
  | DeqTailBlock fb =>
      Ret (if negb (fb =? tailBlock q)%nat then DeqAgain else DeqDone None, q)
  | DeqAgain =>
      b ← get_block q (frontBlock q);
      Ret (if negb (b_front b =? b_tail b)%nat then DeqRead (frontBlock q) (b_front b)
           else DeqNext (frontBlock q),
           set_block (frontBlock q) (with_localTail (b_tail b) b) q)
  | DeqNext fb =>
      b ← get_block q fb;
      let nextBlock := b_next b in
      nb ← get_block q nextBlock;
      if negb (b_front nb =? b_tail nb)%nat
      then Ret (DeqMove nextBlock (b_front nb), set_block nextBlock (with_localTail (b_tail nb) nb) q)
      else Throw (RuntimeError "assertion failed")
  | DeqMove nb nextBlockFront =>
      Ret (DeqRead nb nextBlockFront, RwQueue (blocks q) nb (tailBlock q) (largestBlockSize q))
  | DeqRead fb blockFront =>
      b ← get_block q fb;
      match mjoin (b_data b !! blockFront) with
      | Some element => Ret (DeqPublish element fb (succ_idx b blockFront), q)
      | None => Undef
      end
  | DeqPublish element fb blockFront =>
      b ← get_block q fb;
      Ret (DeqDone (Some element), set_block fb (with_front blockFront b) q)
  | DeqDone r => Ret (DeqDone r, q)
  end.

(** A call alone: at most eight steps. *)
Fixpoint enq_run (fuel : nat) (pc : enq_pc T) q : outcome (bool * rwqueue T) :=
  match pc with
  | EnqDone r => Ret (r, q)
  | _ => match fuel with
         | O => Undef
         | S fuel => '(pc, q) ← enq_step pc q; enq_run fuel pc q
         end
  end.
Fixpoint deq_run (fuel : nat) (pc : deq_pc T) q : outcome (option T * rwqueue T) :=
  match pc with
  | DeqDone r => Ret (r, q)
  | _ => match fuel with
         | O => Undef
         | S fuel => '(pc, q) ← deq_step pc q; deq_run fuel pc q
         end
  end.
Definition inner_try_enqueue (a : T) q := enq_run 8 (EnqStart a) q.
Definition inner_try_dequeue q := deq_run 8 DeqStart q.

(** ** What the queue holds *)
Definition block_at q (i : nat) : block T := default (make_block 0) (blocks q !! i).
Definition items_at q (i : nat) : list T := items (block_at q i).
Definition n_blocks q : nat := length (blocks q).

(** The objects of the blocks from [f] to [t] of a ring of [n]. *)
Definition span_items (it : nat -> list T) (n f t : nat) : list T :=
  mjoin ((fun k => it (place n f k)) <$> seq 0 (S (dist n f t))).
Definition contents q : list T := span_items (items_at q) (n_blocks q) (frontBlock q) (tailBlock q).
End rwqueue.

(** *** Spans *)
Section spans.
Context {T : Type} (n : nat).
Implicit Types (it : nat -> list T).

Lemma span_ext it it' f t :
  (forall k, (k <= dist n f t)%nat -> it (place n f k) = it' (place n f k)) ->
  span_items it n f t = span_items it' n f t.
Proof.
  intros He. unfold span_items. f_equal. apply list_fmap_ext. intros i k Hk.
  apply lookup_seq in Hk as [-> Hk]. apply He. lia.
Qed.

(** The first block, and the last block, of a span. *)
Lemma span_first it f t : (f < n)%nat -> (t < n)%nat ->
  span_items it n f t = it f ++ (if (f =? t)%nat then [] else span_items it n (place n f 1) t).
Proof.
  intros Hf Ht. unfold span_items. rewrite <- cons_seq, fmap_cons.
  rewrite mjoin_cons, place_0 by done. f_equal.
  destruct (Nat.eqb_spec f t) as [->|Hne].
  - by rewrite (proj2 (dist_0 n t t Ht Ht) eq_refl).
  - rewrite (dist_succ_l n f t) by done. rewrite <- seq_shift, <- list_fmap_compose. f_equal.
    apply list_fmap_ext. intros i k Hk. apply lookup_seq in Hk as [-> Hk]. cbn [compose Nat.add].
    rewrite place_succ; [done|done|].
    pose proof (dist_lt n (place n f 1) t (place_lt n f 1 Hf ltac:(lia)) Ht). lia.
Qed.

Lemma span_last it f t : (f < n)%nat -> (t < n)%nat -> place n t 1 <> f ->
  span_items it n f (place n t 1) = span_items it n f t ++ it (place n t 1).
Proof.
  intros Hf Ht Hne. unfold span_items. rewrite (dist_succ_r n f t) by done.
  rewrite (seq_S (S (dist n f t))), fmap_app. change (0 + S (dist n f t))%nat with (S (dist n f t)).
  rewrite mjoin_app. f_equal. cbn [fmap list_fmap]. rewrite mjoin_cons, app_nil_r. f_equal.
  rewrite <- (place_dist n f t) at 2 by done.
  unfold place. pose proof (dist_lt n f t Hf Ht). pose proof (place_dist n f t Hf Ht) as Hp. unfold place in *.
  repeat match goal with |- context [Nat.ltb ?x ?y] => destruct (Nat.ltb_spec x y) end; lia.
Qed.

(** An object added to the last block, or taken from the first. *)
Lemma span_snoc it it' f t a : (f < n)%nat -> (t < n)%nat ->
  it' t = it t ++ [a] -> (forall j, j <> t -> it' j = it j) ->
  span_items it' n f t = span_items it n f t ++ [a].
Proof.
  intros Hf Ht Hl Ho. unfold span_items. rewrite !seq_S, !fmap_app.
  rewrite !mjoin_app. cbn [fmap list_fmap Nat.add]. rewrite !mjoin_cons, !app_nil_r, !place_dist, Hl by done. rewrite <- app_assoc. f_equal.
  f_equal. apply list_fmap_ext. intros i k Hk. apply lookup_seq in Hk as [-> Hk]. apply Ho. cbn [Nat.add].
  pose proof (dist_lt n f t Hf Ht) as Hd. intros He. rewrite <- (place_dist n f t) in He by done.
  apply place_inj in He; lia.
Qed.

Lemma span_uncons it it' f t a : (f < n)%nat -> (t < n)%nat ->
  it f = a :: it' f -> (forall j, j <> f -> it' j = it j) ->
  span_items it n f t = a :: span_items it' n f t.
Proof.
  intros Hf Ht Hl Ho. unfold span_items. cbn [seq fmap list_fmap].
  rewrite !mjoin_cons, !place_0, Hl by done. cbn [app]. do 3 f_equal.
  apply list_fmap_ext. intros i k Hk. apply lookup_seq in Hk as [-> Hk]. symmetry. apply Ho.
  pose proof (dist_lt n f t Hf Ht) as Hd. intros He. rewrite <- (place_0 n f) in He at 2 by done.
  apply place_inj in He; lia.
Qed.

(** The length of a span whose blocks after the first hold [c] each. *)
Lemma span_length it f t c : (f < n)%nat -> (t < n)%nat ->
  (forall i, (i < n)%nat -> (0 < dist n f i <= dist n f t)%nat -> length (it i) = c) ->
  (dist n f t * c <= length (span_items it n f t))%nat.
Proof.
  intros Hf Ht Hc. unfold span_items. cbn [seq fmap list_fmap].
  rewrite mjoin_cons, length_app.
  pose proof (dist_lt n f t Hf Ht) as Hlt.
  assert (forall m, (m <= dist n f t)%nat ->
    length (mjoin ((fun k => it (place n f k)) <$> seq 1 m)) = (m * c)%nat) as Hm.
  { induction m as [|m IH]; intros Hm; [done|]. rewrite seq_S, fmap_app.
    rewrite mjoin_app, length_app, IH by lia. cbn [fmap list_fmap]. rewrite mjoin_cons, app_nil_r, Hc; [lia|apply place_lt; lia|].
    assert (dist n f (place n f (1 + m)) = 1 + m)%nat as ->; [|lia].
    pose proof (place_lt n f (1 + m) Hf ltac:(lia)) as Hp.
    eapply (place_inj n f); [done|by apply dist_lt|lia|]. by rewrite place_dist. }
  rewrite Hm by lia. lia.
Qed.

Lemma span_length_le it f t c : (f < n)%nat -> (t < n)%nat ->
  (forall i, (i < n)%nat -> (length (it i) <= c)%nat) -> (length (span_items it n f t) <= n * c)%nat.
Proof.
  intros Hf Ht Hc. unfold span_items. pose proof (dist_lt n f t Hf Ht) as Hd.
  assert (forall m, (m <= n)%nat -> (length (mjoin ((fun k => it (place n f k)) <$> seq 0 m)) <= m * c)%nat) as H.
  { induction m as [|m IH]; intros Hm; [done|]. rewrite seq_S, fmap_app, mjoin_app, length_app.
    cbn [fmap list_fmap]. rewrite mjoin_cons, app_nil_r.
    pose proof (Hc (place n f (0 + m)) ltac:(apply place_lt; lia)). lia. }
  pose proof (H (S (dist n f t)) ltac:(lia)). nia.
Qed.
End spans.

(** ** The invariant *)
Section invariant.
Context {T : Type} (B : nat).
Implicit Types (q : rwqueue T) (b : block T).

(** From the front block to the tail block: the ones strictly between are
    full, all but the first are not empty. The others are empty, but for
    [skip]: the one the producer has filled and not announced yet. *)
Record shape q (skip : option nat) : Prop := {
  sh_front : (frontBlock q < n_blocks q)%nat;
  sh_tail : (tailBlock q < n_blocks q)%nat;
  sh_block i b : blocks q !! i = Some b ->
    block_ok b /\ b_size b = B /\ b_next b = place (n_blocks q) i 1;
  sh_empty i : (i < n_blocks q)%nat -> skip <> Some i ->
    (dist (n_blocks q) (frontBlock q) (tailBlock q) < dist (n_blocks q) (frontBlock q) i)%nat ->
    items_at q i = [];
  sh_nonempty i : (i < n_blocks q)%nat ->
    (0 < dist (n_blocks q) (frontBlock q) i <= dist (n_blocks q) (frontBlock q) (tailBlock q))%nat ->
    items_at q i <> [];
  sh_full i : (i < n_blocks q)%nat ->
    (0 < dist (n_blocks q) (frontBlock q) i < dist (n_blocks q) (frontBlock q) (tailBlock q))%nat ->
    length (items_at q i) = B - 1;
}.

Definition at_block q (i : nat) (P : block T -> Prop) : Prop := exists b, blocks q !! i = Some b /\ P b.

(** The producer found its block full: it still is, or the consumer is in it. *)
Definition left_full q : Prop :=
  frontBlock q = tailBlock q \/ length (items_at q (tailBlock q)) = B - 1.
Definition ahead q (nb : nat) : Prop :=
  nb = place (n_blocks q) (tailBlock q) 1 /\ nb <> frontBlock q /\ left_full q.

Definition prod_ok q (pc : enq_pc T) : Prop :=
  match pc with
  | EnqStart _ | EnqDone _ => True
  | EnqReload _ tb bt nt =>
      tb = tailBlock q /\ at_block q tb (fun b => bt = b_tail b /\ nt = succ_idx b bt)
  | EnqWrite _ tb bt nt =>
      tb = tailBlock q /\
      at_block q tb (fun b => bt = b_tail b /\ nt = succ_idx b bt /\ nt <> b_localFront b)
  | EnqPublish a tb nt =>
      tb = tailBlock q /\
      at_block q tb (fun b => nt = succ_idx b (b_tail b) /\ nt <> b_localFront b /\
                              b_data b !! b_tail b = Some (Some a))
  | EnqFull _ tb => tb = tailBlock q /\ left_full q
  | EnqNext _ nb => ahead q nb
  | EnqWriteNext _ nb nt => ahead q nb /\ at_block q nb (fun b => nt = b_tail b /\ b_localFront b = b_tail b)
  | EnqTailNext a nb nt =>
      ahead q nb /\ at_block q nb (fun b => nt = b_tail b /\ b_localFront b = b_tail b /\
                                            b_data b !! b_tail b = Some (Some a))
  | EnqAdvance a nb => ahead q nb /\ items_at q nb = [a]
  end.

Definition skip_of (pc : enq_pc T) : option nat :=
  match pc with EnqAdvance _ nb => Some nb | _ => None end.

(** [empty_seen]: the queue was empty at some moment of the call. *)
Definition cons_ok q (pc : deq_pc T) (empty_seen : bool) : Prop :=
  match pc with
  | DeqStart => True
  | DeqDone r => r = None -> empty_seen = true
  | DeqReload fb bf => fb = frontBlock q /\ at_block q fb (fun b => bf = b_front b)
  | DeqTailBlock fb => fb = frontBlock q /\ (frontBlock q = tailBlock q -> empty_seen = true)
  | DeqAgain => frontBlock q <> tailBlock q
  | DeqNext fb => fb = frontBlock q /\ frontBlock q <> tailBlock q /\ items_at q fb = []
  | DeqMove nb nf =>
      nb = place (n_blocks q) (frontBlock q) 1 /\ frontBlock q <> tailBlock q /\
      items_at q (frontBlock q) = [] /\
      at_block q nb (fun b => nf = b_front b /\ b_front b <> b_localTail b)
  | DeqRead fb bf =>
      fb = frontBlock q /\ at_block q fb (fun b => bf = b_front b /\ b_front b <> b_localTail b)
  | DeqPublish a fb nf =>
      fb = frontBlock q /\
      at_block q fb (fun b => nf = succ_idx b (b_front b) /\ b_front b <> b_localTail b /\
                              b_data b !! b_front b = Some (Some a))
  end.

(** *** Blocks of a well-formed queue *)
Lemma block_lookup q skip i : shape q skip -> (i < n_blocks q)%nat ->
  exists b, blocks q !! i = Some b /\ get_block q i = Ret b /\ items_at q i = items b /\
    block_ok b /\ b_size b = B /\ b_next b = place (n_blocks q) i 1.
Proof.
  intros Hs Hi. destruct (lookup_lt_is_Some_2 (blocks q) i Hi) as [b Hb]. exists b.
  unfold get_block, items_at, block_at. rewrite Hb. split_and!; try done; by apply (sh_block q skip Hs i b).
Qed.

Lemma set_block_items q i b j : (i < n_blocks q)%nat ->
  items_at (set_block i b q) j = if decide (i = j) then items b else items_at q j.
Proof.
  intros Hi. unfold items_at, block_at, set_block. cbn [blocks with_blocks]. case_decide as Hd.
  - subst j. by rewrite list_lookup_insert_eq.
  - by rewrite list_lookup_insert_ne.
Qed.

Lemma set_block_n q i b : n_blocks (set_block i b q) = n_blocks q.
Proof. unfold n_blocks. cbn. by rewrite length_insert. Qed.

Lemma set_block_at q i b j : (i < n_blocks q)%nat ->
  blocks (set_block i b q) !! j = if decide (i = j) then Some b else blocks q !! j.
Proof.
  intros Hi. cbn. case_decide as Hd; [subst j; by rewrite list_lookup_insert_eq|by rewrite list_lookup_insert_ne].
Qed.

Lemma contents_bound q skip : shape q skip -> (length (contents q) <= n_blocks q * (B - 1))%nat.
Proof.
  intros Hs. apply span_length_le; [by apply (sh_front q skip)|by apply (sh_tail q skip)|].
  intros i Hi. destruct (block_lookup q skip i Hs Hi) as (b & _ & _ & -> & Hok & Hsz & _).
  rewrite used_items by done. unfold used.
  pose proof (dist_lt _ _ _ (ok_front b Hok) (ok_tail b Hok)). lia.
Qed.

(** A change of a block that keeps its items. *)
Lemma quiet_update q skip i b b' :
  shape q skip -> blocks q !! i = Some b -> block_ok b' -> b_size b' = b_size b ->
  b_next b' = b_next b -> items b' = items b ->
  shape (set_block i b' q) skip /\ contents (set_block i b' q) = contents q /\
  forall j, items_at (set_block i b' q) j = items_at q j.
Proof.
  intros Hs Hb Hok Hsz Hnx Hit. pose proof (lookup_lt_Some _ _ _ Hb) as Hi.
  assert (forall j, items_at (set_block i b' q) j = items_at q j) as He.
  { intros j. rewrite set_block_items by done. case_decide as Hd; [|done]. subst j.
    unfold items_at, block_at. by rewrite Hb. }
  split; [|split; [|done]].
  - destruct Hs as [H1 H2 H3 H4 H5 H6].
    split; rewrite ?set_block_n; try done; intros j; try (rewrite He; by auto).
    intros b''. rewrite set_block_at by done. case_decide as Hd; [|by apply H3].
    intros [= <-]. subst j. rewrite Hsz, Hnx. destruct (H3 i b Hb) as (_ & ? & ?). by split_and!.
  - unfold contents. rewrite set_block_n. apply span_ext. intros k _. apply He.
Qed.

(** *** What each thread relies on

    The consumer, when the producer changes [q] into [q']. *)
Record cons_view q q' : Prop := {
  cv_front : frontBlock q' = frontBlock q;
  cv_n : n_blocks q' = n_blocks q;
  cv_tail : frontBlock q <> tailBlock q -> frontBlock q <> tailBlock q';
  cv_items : frontBlock q <> tailBlock q -> items_at q' (frontBlock q) = items_at q (frontBlock q);
  cv_block i b : blocks q !! i = Some b -> exists b', blocks q' !! i = Some b' /\
    b_front b' = b_front b /\ b_localTail b' = b_localTail b /\ b_sizeMask b' = b_sizeMask b /\
    (b_front b <> b_tail b -> b_data b' !! b_front b = b_data b !! b_front b);
}.

(** The producer, when the consumer changes [q] into [q']. *)
Record prod_view q q' : Prop := {
  pv_tail : tailBlock q' = tailBlock q;
  pv_n : n_blocks q' = n_blocks q;
  pv_full : left_full q -> left_full q';
  pv_ahead : place (n_blocks q) (tailBlock q) 1 <> frontBlock q ->
    place (n_blocks q) (tailBlock q) 1 <> frontBlock q';
  pv_items i : i <> frontBlock q -> items_at q' i = items_at q i;
  pv_block i b : blocks q !! i = Some b -> exists b', blocks q' !! i = Some b' /\
    b_tail b' = b_tail b /\ b_localFront b' = b_localFront b /\ b_sizeMask b' = b_sizeMask b /\
    b_data b' = b_data b;
}.

Lemma behind_nonempty b : block_ok b -> b_front b <> b_localTail b -> b_front b <> b_tail b.
Proof.
  intros Hb Hne. pose proof (ok_behind_tail b Hb). pose proof (ok_front b Hb).
  pose proof (ok_tail b Hb). pose proof (ok_localTail b Hb). unfold used in *.
  rewrite <- (dist_0 (b_size b)) in Hne |- * by done. lia.
Qed.

Lemma cons_ok_view q q' skip pc e :
  shape q skip -> cons_view q q' -> cons_ok q pc e -> cons_ok q' pc e.
Proof.
  intros Hs Hv. assert (forall i (P P' : block T -> Prop), at_block q i P ->
    (forall b b', block_ok b -> b_front b' = b_front b -> b_localTail b' = b_localTail b ->
       b_sizeMask b' = b_sizeMask b ->
       (b_front b <> b_tail b -> b_data b' !! b_front b = b_data b !! b_front b) -> P b -> P' b') ->
    at_block q' i P') as Hat.
  { intros i P P' (b & Hb & HP) H. destruct (cv_block _ _ Hv i b Hb) as (b' & Hb' & H1 & H2 & H3 & H4).
    exists b'. split; [done|]. eapply H; try done. by apply (sh_block q skip Hs i b). }
  pose proof (cv_front _ _ Hv) as Hf. pose proof (cv_n _ _ Hv) as Hn.
  destruct pc; cbn [cons_ok]; rewrite ?Hf, ?Hn; try done.
  - intros [-> Ha]. split; [done|]. eapply Hat; [exact Ha|]. intros b b' _ -> _ _ _. done.
  - intros [-> He]. split; [done|]. intros Ht. apply He.
    destruct (decide (frontBlock q = tailBlock q)) as [|Hne]; [done|]. by destruct (cv_tail _ _ Hv Hne).
  - apply (cv_tail _ _ Hv).
  - intros (-> & Ht & Hi). split_and!; [done|by apply (cv_tail _ _ Hv)|]. by rewrite (cv_items _ _ Hv).
  - intros (-> & Ht & Hi & Ha). split_and!; [done|by apply (cv_tail _ _ Hv)|by rewrite (cv_items _ _ Hv)|].
    eapply Hat; [exact Ha|]. intros b b' _ -> -> _ _. done.
  - intros [-> Ha]. split; [done|]. eapply Hat; [exact Ha|]. intros b b' _ -> -> _ _. done.
  - intros [-> Ha]. split; [done|]. eapply Hat; [exact Ha|]. intros b b' Hb H1 H2 H3 H4 (-> & H5 & H6).
    unfold succ_idx. rewrite H1, H2, H3. split_and!; [done|done|].
    by rewrite H4 by (by apply behind_nonempty).
Qed.

Lemma prod_ok_view q q' pc : prod_view q q' -> prod_ok q pc -> prod_ok q' pc.
Proof.
  intros Hv. assert (forall i (P P' : block T -> Prop), at_block q i P ->
    (forall b b', b_tail b' = b_tail b -> b_localFront b' = b_localFront b ->
       b_sizeMask b' = b_sizeMask b -> b_data b' = b_data b -> P b -> P' b') -> at_block q' i P') as Hat.
  { intros i P P' (b & Hb & HP) H. destruct (pv_block _ _ Hv i b Hb) as (b' & Hb' & H1 & H2 & H3 & H4).
    exists b'. split; [done|]. by eapply H. }
  pose proof (pv_tail _ _ Hv) as Ht. pose proof (pv_n _ _ Hv) as Hn.
  assert (forall nb, ahead q nb -> ahead q' nb) as Hahead.
  { intros nb (-> & Hne & Hf). unfold ahead. rewrite Ht, Hn. split_and!; [done| |].
    - by apply (pv_ahead _ _ Hv).
    - by apply (pv_full _ _ Hv). }
  destruct pc; cbn [prod_ok]; rewrite ?Ht; try done.
  - intros [-> Ha]. split; [done|]. eapply Hat; [exact Ha|]. intros b b' H1 H2 H3 H4. unfold succ_idx.
    by rewrite H1, H3.
  - intros [-> Ha]. split; [done|]. eapply Hat; [exact Ha|]. intros b b' H1 H2 H3 H4. unfold succ_idx.
    by rewrite H1, H2, H3.
  - intros [-> Ha]. split; [done|]. eapply Hat; [exact Ha|]. intros b b' H1 H2 H3 H4. unfold succ_idx.
    by rewrite H1, H2, H3, H4.
  - intros [-> Hf]. split; [done|]. by apply (pv_full _ _ Hv).
  - apply Hahead.
  - intros [Hh Ha]. split; [by apply Hahead|]. eapply Hat; [exact Ha|]. intros b b' H1 H2 H3 H4.
    by rewrite H1, H2.
  - intros [Hh Ha]. split; [by apply Hahead|]. eapply Hat; [exact Ha|]. intros b b' H1 H2 H3 H4.
    by rewrite H1, H2, H4.
  - intros [Hh Hi]. split; [by apply Hahead|]. rewrite (pv_items _ _ Hv); [done|].
    destruct Hh as (-> & Hne & _). done.
Qed.

(** *** The producer's steps *)
Definition published (pc : enq_pc T) : list T :=
  match pc with EnqPublish a _ _ | EnqAdvance a _ => [a] | _ => [] end.

Lemma prod_quiet q skip i b b' :
  shape q skip -> blocks q !! i = Some b -> block_ok b' -> b_sizeMask b' = b_sizeMask b ->
  b_next b' = b_next b -> items b' = items b -> b_front b' = b_front b ->
  b_localTail b' = b_localTail b ->
  (b_front b <> b_tail b -> b_data b' !! b_front b = b_data b !! b_front b) ->
  shape (set_block i b' q) skip /\ contents (set_block i b' q) = contents q ++ [] /\
  cons_view q (set_block i b' q) /\
  forall j, items_at (set_block i b' q) j = items_at q j.
Proof.
  intros Hs Hb Hok Hm Hnx Hit Hf Hlt Hd. pose proof (lookup_lt_Some _ _ _ Hb) as Hi.
  destruct (quiet_update q skip i b b') as (Hs' & Hc & He); [done..| | | |].
  { unfold b_size. by rewrite Hm. } { done. } { done. }
  rewrite app_nil_r. split_and!; [done|done| |done].
  split; rewrite ?set_block_n; try done.
  intros j b0. rewrite set_block_at by done. case_decide as Hj.
  - subst j. rewrite Hb. intros [= <-]. by exists b'.
  - intros Hb0. by exists b0.
Qed.

Lemma at_set_block q i b P : (i < n_blocks q)%nat -> P b -> at_block (set_block i b q) i P.
Proof. intros Hi HP. exists b. split; [|done]. rewrite set_block_at by done. by rewrite decide_True. Qed.

Lemma left_full_items q q' : frontBlock q' = frontBlock q -> tailBlock q' = tailBlock q ->
  (forall j, items_at q' j = items_at q j) -> left_full q -> left_full q'.
Proof. unfold left_full. intros -> -> Hi. by rewrite Hi. Qed.

(** The publication of an element in the tail block. *)
Lemma publish_ok q b a nt :
  shape q None -> blocks q !! tailBlock q = Some b -> nt = succ_idx b (b_tail b) ->
  nt <> b_localFront b -> b_data b !! b_tail b = Some (Some a) ->
  let q' := set_block (tailBlock q) (with_tail nt b) q in
  shape q' None /\ cons_view q q' /\ contents q' = contents q ++ [a].
Proof.
  intros Hs Hb -> Hne Ha. pose proof Hs as [H1 H2 H3 H4 H5 H6]. destruct (H3 _ _ Hb) as (Hok & Hsz & Hnx).
  rewrite succ_idx_spec in * by (done || by apply ok_tail).
  destruct (push_ok b a Hok Ha Hne) as [Hok' Hit].
  set (b' := with_tail _ b) in *. cbv zeta.
  assert (forall j, items_at (set_block (tailBlock q) b' q) j
    = if decide (tailBlock q = j) then items_at q j ++ [a] else items_at q j) as He.
  { intros j. rewrite set_block_items by done. case_decide; [|done]. subst j. rewrite Hit.
    unfold items_at, block_at. by rewrite Hb. }
  split_and!.
  - split; rewrite ?set_block_n; try done.
    + intros i b0. rewrite set_block_at by done. case_decide; [|apply H3]. intros [= <-]. by subst i.
    + intros i Hi Hsk Hd. cbn [frontBlock tailBlock set_block with_blocks] in Hd.
      rewrite He. rewrite decide_False by (intros <-; lia). by apply H4.
    + intros i Hi Hd. cbn [frontBlock tailBlock set_block with_blocks] in Hd.
      rewrite He. case_decide; [by destruct (items_at q i)|]. by apply H5.
    + intros i Hi Hd. cbn [frontBlock tailBlock set_block with_blocks] in Hd.
      rewrite He. rewrite decide_False by (intros <-; lia). by apply H6.
  - split; rewrite ?set_block_n; try done.
    + intros Hft. rewrite He, decide_False by done. done.
    + intros i b0. rewrite set_block_at by done. case_decide as Hi.
      * subst i. rewrite Hb. intros [= <-]. by exists b'.
      * intros Hb0. by exists b0.
  - unfold contents. rewrite set_block_n. cbn [frontBlock tailBlock set_block with_blocks].
    apply span_snoc; [done|done|by rewrite He, decide_True|].
    intros j Hj. by rewrite He, decide_False by done.
Qed.

Lemma place_one_ne n i : (1 < n)%nat -> (i < n)%nat -> place n i 1 <> i.
Proof. intros. unfold place. destruct (Nat.ltb_spec (i + 1) n); lia. Qed.

(** The first element of the block ahead. *)
Lemma fill_next_ok q b a nb :
  (1 < B)%nat -> shape q None -> ahead q nb -> blocks q !! nb = Some b ->
  b_localFront b = b_tail b -> b_data b !! b_tail b = Some (Some a) ->
  let q' := set_block nb (with_tail (succ_idx b (b_tail b)) b) q in
  shape q' (Some nb) /\ prod_ok q' (EnqAdvance a nb) /\ cons_view q q' /\ contents q' = contents q.
Proof.
  intros HB Hs (Hnb & Hnf & Hfull) Hb Hlf Ha. pose proof Hs as [H1 H2 H3 H4 H5 H6].
  destruct (H3 _ _ Hb) as (Hok & Hsz & Hnx). pose proof (lookup_lt_Some _ _ _ Hb) as Hi.
  assert (dist (n_blocks q) (frontBlock q) nb = S (dist (n_blocks q) (frontBlock q) (tailBlock q))) as Hdist.
  { subst nb. by apply dist_succ_r. }
  assert (items b = []) as Hempty.
  { assert (items_at q nb = []) as <-; [apply H4; [done|done|lia]|]. unfold items_at, block_at. by rewrite Hb. }
  rewrite succ_idx_spec by (done || by apply ok_tail).
  destruct (push_ok b a Hok Ha) as [Hok' Hit].
  { rewrite Hlf. apply place_one_ne; [by rewrite Hsz|by apply ok_tail]. }
  rewrite Hempty in Hit. set (b' := with_tail _ b) in *. cbv zeta.
  assert (forall j, items_at (set_block nb b' q) j = if decide (nb = j) then [a] else items_at q j) as He.
  { intros j. rewrite set_block_items by done. by rewrite Hit. }
  assert (tailBlock q <> nb) as Hnt by (intros <-; lia).
  split_and!.
  - split; rewrite ?set_block_n; cbn [frontBlock tailBlock set_block with_blocks]; try done.
    + intros i b0. rewrite set_block_at by done. case_decide; [|apply H3]. intros [= <-]. by subst i.
    + intros i Hi' Hsk Hd. rewrite He. rewrite decide_False by (intros <-; done). by apply H4.
    + intros i Hi' Hd. rewrite He. rewrite decide_False by (intros <-; lia). by apply H5.
    + intros i Hi' Hd. rewrite He. rewrite decide_False by (intros <-; lia). by apply H6.
  - split; [|by rewrite He, decide_True]. unfold ahead, left_full.
    rewrite set_block_n, He, decide_False by done. by split_and!.
  - split; rewrite ?set_block_n; try done.
    + intros Hft. rewrite He, decide_False by done. done.
    + intros i b0. rewrite set_block_at by done. case_decide as Hj.
      * subst i. rewrite Hb. intros [= <-]. by exists b'.
      * intros Hb0. by exists b0.
  - unfold contents. rewrite set_block_n. cbn [frontBlock tailBlock set_block with_blocks].
    apply span_ext. intros k Hk. rewrite He. apply decide_False. intros Hp.
    pose proof (dist_lt (n_blocks q) (frontBlock q) nb H1 Hi).
    rewrite <- (place_dist (n_blocks q) (frontBlock q) nb) in Hp by done.
    apply place_inj in Hp; lia.
Qed.

(** The tail moves to the block that was filled. *)
Lemma advance_ok q a nb :
  shape q (Some nb) -> ahead q nb -> items_at q nb = [a] ->
  let q' := RwQueue (blocks q) (frontBlock q) nb (largestBlockSize q) in
  shape q' None /\ cons_view q q' /\ contents q' = contents q ++ [a].
Proof.
  intros Hs (Hnb & Hnf & Hfull) Ha. pose proof Hs as [H1 H2 H3 H4 H5 H6].
  assert (nb < n_blocks q)%nat as Hi by (subst nb; apply place_lt; lia).
  assert (dist (n_blocks q) (frontBlock q) nb = S (dist (n_blocks q) (frontBlock q) (tailBlock q))) as Hdist.
  { subst nb. by apply dist_succ_r. }
  assert (forall i, (i < n_blocks q)%nat -> dist (n_blocks q) (frontBlock q) i
    = dist (n_blocks q) (frontBlock q) (tailBlock q) -> i = tailBlock q) as Hinj.
  { intros i Hi' He. rewrite <- (place_dist (n_blocks q) (frontBlock q) i), He by done. by apply place_dist. }
  assert (forall i, (i < n_blocks q)%nat -> dist (n_blocks q) (frontBlock q) i
    = dist (n_blocks q) (frontBlock q) nb -> i = nb) as Hinj'.
  { intros i Hi' He. rewrite <- (place_dist (n_blocks q) (frontBlock q) i), He by done. by apply place_dist. }
  cbv zeta. set (q' := RwQueue _ _ _ _). change (items_at q') with (items_at q).
  split_and!.
  - split; change (n_blocks q') with (n_blocks q); cbn [frontBlock tailBlock q']; try done.
    + intros i Hi' _ Hd. apply H4; [done| |lia]. intros [= <-]. lia.
    + intros i Hi' Hd. destruct (decide (i = nb)) as [->|Hne]; [by change (items_at q' nb) with (items_at q nb); rewrite Ha|].
      apply H5; [done|]. split; [lia|].
      destruct (decide (dist (n_blocks q) (frontBlock q) i = dist (n_blocks q) (frontBlock q) nb)); [|lia].
      destruct Hne. by apply Hinj'.
    + intros i Hi' Hd. destruct (decide (i = tailBlock q)) as [->|Hne].
      * destruct Hfull as [Hft|Hl]; [|done]. rewrite <- Hft, (proj2 (dist_0 _ _ _ H1 H1) eq_refl) in Hd. lia.
      * apply H6; [done|]. split; [lia|].
        destruct (decide (dist (n_blocks q) (frontBlock q) i
          = dist (n_blocks q) (frontBlock q) (tailBlock q))); [|lia].
        destruct Hne. by apply Hinj.
  - split; change (n_blocks q') with (n_blocks q); try done.
    intros i b Hb. by exists b.
  - unfold contents. change (n_blocks q') with (n_blocks q). cbn [frontBlock tailBlock q']. subst nb.
    rewrite span_last by done. change (items_at q') with (items_at q). by rewrite Ha.
Qed.

(** A step of a producer that has what it relies on: it neither fails nor
    disturbs the consumer, and only the steps that publish add an object. *)
Definition enq_good q (pc : enq_pc T) : Prop :=
  exists pc' q', enq_step pc q = Ret (pc', q') /\ shape q' (skip_of pc') /\ prod_ok q' pc' /\
    cons_view q q' /\ contents q' = contents q ++ published pc.

Lemma cons_view_refl q : cons_view q q.
Proof. split; try done. intros i b Hb. by exists b. Qed.

(** A step that changes nothing, and one that changes a block without
    touching its objects. *)
Lemma good_same q pc pc' :
  shape q (skip_of pc) -> skip_of pc' = skip_of pc -> published pc = [] -> prod_ok q pc' ->
  enq_step pc q = Ret (pc', q) -> enq_good q pc.
Proof.
  intros Hs Hk Hp Hok He. exists pc', q. rewrite Hk, Hp, app_nil_r. split_and!; try done. apply cons_view_refl.
Qed.

Lemma good_quiet q pc pc' i b b' :
  shape q (skip_of pc) -> skip_of pc' = skip_of pc -> published pc = [] ->
  blocks q !! i = Some b -> block_ok b' -> b_sizeMask b' = b_sizeMask b ->
  b_next b' = b_next b -> items b' = items b -> b_front b' = b_front b ->
  b_localTail b' = b_localTail b ->
  (b_front b <> b_tail b -> b_data b' !! b_front b = b_data b !! b_front b) ->
  ((forall j, items_at (set_block i b' q) j = items_at q j) -> prod_ok (set_block i b' q) pc') ->
  enq_step pc q = Ret (pc', set_block i b' q) -> enq_good q pc.
Proof.
  intros Hs Hk Hp Hb Hok Hm Hnx Hit Hf Hl Hd Hpc He.
  destruct (prod_quiet q (skip_of pc) i b b') as (H1 & H2 & H3 & H4); [done..|].
  exists pc', (set_block i b' q). rewrite Hk, Hp. by split_and!; [done|done|apply Hpc|done|].
Qed.

Lemma tail_view q skip : shape q skip ->
  exists b, blocks q !! tailBlock q = Some b /\ get_block q (tailBlock q) = Ret b /\
    items_at q (tailBlock q) = items b /\ block_ok b /\ b_size b = B /\
    b_next b = place (n_blocks q) (tailBlock q) 1.
Proof. intros Hs. eapply block_lookup; [done|]. by apply (sh_tail q skip). Qed.

(** The tail block has room. *)
Lemma enq_start_ok q a : shape q None -> enq_good q (EnqStart a).
Proof.
  intros Hs. destruct (tail_view q None Hs) as (b & Hb & Hg & _).
  set (nt := succ_idx b (b_tail b)).
  destruct (Nat.eqb_spec nt (b_localFront b)) as [He|Hne].
  - eapply (good_same q _ (EnqReload a (tailBlock q) (b_tail b) nt)); try done.
    + split; [done|]. by exists b.
    + cbn. rewrite Hg. cbn. fold nt. by rewrite He, Nat.eqb_refl.
  - eapply (good_same q _ (EnqWrite a (tailBlock q) (b_tail b) nt)); try done.
    + split; [done|]. by exists b.
    + cbn. rewrite Hg. cbn. fold nt. by rewrite (proj2 (Nat.eqb_neq _ _) Hne).
Qed.

Lemma left_full_intro q b : shape q None -> blocks q !! tailBlock q = Some b ->
  succ_idx b (b_tail b) = b_front b -> length (items b) = B - 1.
Proof.
  intros Hs Hb He. destruct (sh_block q None Hs _ _ Hb) as (Hok & Hsz & _).
  rewrite succ_idx_spec in He by (done || by apply ok_tail). rewrite used_items by done.
  unfold used. rewrite <- Hsz. apply dist_full; [by apply ok_front|by apply ok_tail|done].
Qed.

Lemma enq_reload_ok q a tb bt nt : shape q None -> prod_ok q (EnqReload a tb bt nt) -> enq_good q (EnqReload a tb bt nt).
Proof.
  intros Hs [-> (b & Hb & -> & ->)]. destruct (tail_view q None Hs) as (b0 & Hb0 & Hg & Hi & Hok & _).
  rewrite Hb in Hb0. injection Hb0 as <-. pose proof (lookup_lt_Some _ _ _ Hb) as Hlt.
  destruct (Nat.eqb_spec (succ_idx b (b_tail b)) (b_front b)) as [He|Hne].
  - eapply (good_quiet q _ (EnqFull a (tailBlock q)) (tailBlock q) b (with_localFront (b_front b) b)); try done.
    + by apply reload_front_ok.
    + intros Hit. split; [done|]. right. cbn [tailBlock set_block with_blocks]. rewrite Hit, Hi.
      by apply (left_full_intro q).
    + cbn. rewrite Hg. cbn. by rewrite He, Nat.eqb_refl.
  - eapply (good_quiet q _ (EnqWrite a (tailBlock q) (b_tail b) (succ_idx b (b_tail b))) (tailBlock q) b
      (with_localFront (b_front b) b)); try done.
    + by apply reload_front_ok.
    + intros _. split; [done|]. by apply at_set_block.
    + cbn. rewrite Hg. cbn. by rewrite (proj2 (Nat.eqb_neq _ _) Hne).
Qed.

Lemma data_room b : block_ok b -> (b_tail b <? length (b_data b))%nat = true.
Proof. intros Hok. apply Nat.ltb_lt. rewrite (ok_data b Hok). by apply ok_tail. Qed.

Lemma with_slot_front b a : b_front b <> b_tail b ->
  b_data (with_slot (b_tail b) a b) !! b_front b = b_data b !! b_front b.
Proof. intros. cbn. by rewrite list_lookup_insert_ne. Qed.

Lemma enq_write_ok q a tb bt nt : shape q None -> prod_ok q (EnqWrite a tb bt nt) -> enq_good q (EnqWrite a tb bt nt).
Proof.
  intros Hs [-> (b & Hb & -> & -> & Hne)]. destruct (tail_view q None Hs) as (b0 & Hb0 & Hg & Hi & Hok & _).
  rewrite Hb in Hb0. injection Hb0 as <-. pose proof (lookup_lt_Some _ _ _ Hb) as Hlt.
  eapply (good_quiet q _ (EnqPublish a (tailBlock q) (succ_idx b (b_tail b))) (tailBlock q) b
    (with_slot (b_tail b) a b)); try done.
  - by apply with_slot_ok.
  - by apply with_slot_items.
  - by apply with_slot_front.
  - intros _. split; [done|]. apply at_set_block; [done|]. split_and!; [done|done|exact (with_slot_lookup b a Hok)].
  - cbn -[Nat.ltb]. rewrite Hg. cbn -[Nat.ltb]. by rewrite data_room.
Qed.

Lemma enq_publish_ok q a tb nt : shape q None -> prod_ok q (EnqPublish a tb nt) -> enq_good q (EnqPublish a tb nt).
Proof.
  intros Hs [-> (b & Hb & -> & Hne & Ha)].
  destruct (publish_ok q b a _ Hs Hb eq_refl Hne Ha) as (H1 & H2 & H3).
  eexists (EnqDone true), _. split_and!; [|exact H1|done|exact H2|exact H3].
  cbn. unfold get_block. by rewrite Hb.
Qed.

(** It has none, and there is a block ahead. *)
Lemma enq_full_ok q a tb : shape q None -> prod_ok q (EnqFull a tb) -> enq_good q (EnqFull a tb).
Proof.
  intros Hs [-> Hf]. destruct (tail_view q None Hs) as (b & Hb & Hg & _ & _ & _ & Hn).
  destruct (Nat.eqb_spec (b_next b) (frontBlock q)) as [He|Hne].
  - eapply (good_same q _ (EnqDone false)); try done. cbn. rewrite Hg. cbn. by rewrite He, Nat.eqb_refl.
  - eapply (good_same q _ (EnqNext a (b_next b))); try done.
    cbn. rewrite Hg. cbn. by rewrite (proj2 (Nat.eqb_neq _ _) Hne).
Qed.

(** The block ahead. *)
Lemma ahead_view q nb : shape q None -> ahead q nb ->
  exists b, blocks q !! nb = Some b /\ get_block q nb = Ret b /\ block_ok b /\ b_front b = b_tail b.
Proof.
  intros Hs (-> & Hnf & Hfull). pose proof Hs as [H1 H2 H3 H4 H5 H6].
  pose proof (place_lt (n_blocks q) (tailBlock q) 1 H2 ltac:(lia)) as Hlt.
  destruct (block_lookup q None _ Hs Hlt) as (b & Hb & Hg & Hi & Hok & _). exists b.
  split_and!; try done. apply items_empty; [done|]. rewrite <- Hi. apply H4; [done|done|].
  rewrite dist_succ_r by done. lia.
Qed.

Lemma ahead_set q nb b : (forall j, items_at (set_block nb b q) j = items_at q j) -> ahead q nb -> ahead (set_block nb b q) nb.
Proof.
  intros Hit (H1 & H2 & H3). split_and!; [by rewrite set_block_n|done|]. exact (left_full_items q (set_block nb b q) eq_refl eq_refl Hit H3).
Qed.

Lemma enq_next_ok q a nb : shape q None -> prod_ok q (EnqNext a nb) -> enq_good q (EnqNext a nb).
Proof.
  intros Hs Ha. destruct (ahead_view q nb Hs Ha) as (b & Hb & Hg & Hok & He).
  eapply (good_quiet q _ (EnqWriteNext a nb (b_tail b)) nb b (with_localFront (b_front b) b)); try done.
  - by apply reload_front_ok.
  - intros Hit. split; [by apply ahead_set|]. apply at_set_block; [by eapply lookup_lt_Some|]. done.
  - cbn. rewrite Hg. cbn. by rewrite He, Nat.eqb_refl.
Qed.

Lemma enq_write_next_ok q a nb nt : shape q None -> prod_ok q (EnqWriteNext a nb nt) -> enq_good q (EnqWriteNext a nb nt).
Proof.
  intros Hs [Ha (b & Hb & -> & Hl)]. destruct (ahead_view q nb Hs Ha) as (b0 & Hb0 & Hg & Hok & He).
  rewrite Hb in Hb0. injection Hb0 as <-.
  eapply (good_quiet q _ (EnqTailNext a nb (b_tail b)) nb b (with_slot (b_tail b) a b)); try done.
  - by apply with_slot_ok.
  - by apply with_slot_items.
  - intros Hit. split; [by apply ahead_set|]. apply at_set_block; [by eapply lookup_lt_Some|].
    split_and!; [done|done|exact (with_slot_lookup b a Hok)].
  - cbn -[Nat.ltb]. rewrite Hg. cbn -[Nat.ltb]. by rewrite data_room.
Qed.

Lemma enq_tail_next_ok q a nb nt : (1 < B)%nat -> shape q None -> prod_ok q (EnqTailNext a nb nt) -> enq_good q (EnqTailNext a nb nt).
Proof.
  intros HB Hs [Ha (b & Hb & -> & Hl & Hd)].
  destruct (fill_next_ok q b a nb HB Hs Ha Hb Hl Hd) as (H1 & H2 & H3 & H4).
  eexists (EnqAdvance a nb), _. rewrite app_nil_r. split_and!; [|exact H1|exact H2|exact H3|exact H4].
  cbn. unfold get_block. by rewrite Hb.
Qed.

Lemma enq_advance_ok q a nb : shape q (Some nb) -> prod_ok q (EnqAdvance a nb) -> enq_good q (EnqAdvance a nb).
Proof.
  intros Hs [Ha Hi]. destruct (advance_ok q a nb Hs Ha Hi) as (H1 & H2 & H3).
  by eexists (EnqDone true), _; split_and!; [done|exact H1|done|exact H2|exact H3].
Qed.

Lemma enq_step_ok q pc : (1 < B)%nat -> shape q (skip_of pc) -> prod_ok q pc -> enq_good q pc.
Proof.
  intros HB Hs Hp. destruct pc.
  - by apply enq_start_ok.
  - by apply enq_reload_ok.
  - by apply enq_write_ok.
  - by apply enq_publish_ok.
  - by apply enq_full_ok.
  - by apply enq_next_ok.
  - by apply enq_write_next_ok.
  - by apply enq_tail_next_ok.
  - by apply enq_advance_ok.
  - by eapply (good_same q _ (EnqDone result)).
Qed.

(** The queue refuses an object only with every block but one full. *)
Lemma enq_refused q a tb q' : shape q None -> prod_ok q (EnqFull a tb) ->
  enq_step (EnqFull a tb) q = Ret (EnqDone false, q') ->
  ((n_blocks q - 1) * (B - 1) <= length (contents q))%nat.
Proof.
  intros Hs [-> Hf]. pose proof Hs as [H1 H2 H3 H4 H5 H6].
  destruct (tail_view q None Hs) as (b & Hb & Hg & _ & _ & _ & Hn). cbn. rewrite Hg. cbn.
  destruct (Nat.eqb_spec (b_next b) (frontBlock q)) as [He|Hne]; [|done]. intros _.
  rewrite Hn in He. pose proof (dist_full _ _ _ H1 H2 He) as Hd. rewrite <- Hd at 1.
  apply span_length; [done|done|]. intros i Hi Hdi.
  destruct (decide (dist (n_blocks q) (frontBlock q) i = dist (n_blocks q) (frontBlock q) (tailBlock q))) as [Heq|Hneq].
  - assert (i = tailBlock q) as ->.
    { rewrite <- (place_dist (n_blocks q) (frontBlock q) i), Heq by done. by apply place_dist. }
    destruct Hf as [Hft|]; [|done]. rewrite Hft, (proj2 (dist_0 _ _ _ H2 H2) eq_refl) in Hdi. lia.
  - apply H6; [done|lia].
Qed.

(** *** The consumer's steps *)
Definition taken (pc : deq_pc T) : list T :=
  match pc with DeqPublish a _ _ => [a] | _ => [] end.
Definition empty_now q : bool := match contents q with [] => true | _ => false end.

(** A step of a consumer that has what it relies on: it neither fails nor
    disturbs the producer, and only its last step takes the first object. *)
Definition deq_good q skip (pc : deq_pc T) (e : bool) : Prop :=
  exists pc' q', deq_step pc q = Ret (pc', q') /\ shape q' skip /\ cons_ok q' pc' (e || empty_now q) /\
    prod_view q q' /\ contents q = taken pc ++ contents q'.

Lemma prod_view_refl q : prod_view q q.
Proof. split; try done. intros i b Hb. by exists b. Qed.

Lemma deq_same q skip pc pc' e :
  shape q skip -> taken pc = [] -> cons_ok q pc' (e || empty_now q) ->
  deq_step pc q = Ret (pc', q) -> deq_good q skip pc e.
Proof. intros Hs Hp Hok He. exists pc', q. rewrite Hp. split_and!; try done. apply prod_view_refl. Qed.

(** The shadow copy of a block's tail is read again. *)
Lemma deq_reload q skip pc pc' e i b :
  shape q skip -> taken pc = [] -> blocks q !! i = Some b ->
  ((forall j, items_at (set_block i (with_localTail (b_tail b) b) q) j = items_at q j) ->
   cons_ok (set_block i (with_localTail (b_tail b) b) q) pc' (e || empty_now q)) ->
  deq_step pc q = Ret (pc', set_block i (with_localTail (b_tail b) b) q) -> deq_good q skip pc e.
Proof.
  intros Hs Hp Hb Hpc He. pose proof (lookup_lt_Some _ _ _ Hb) as Hi.
  destruct (sh_block q skip Hs _ _ Hb) as (Hok & _ & _).
  destruct (quiet_update q skip i b (with_localTail (b_tail b) b)) as (Hs' & Hc & Hit);
    [done|done|by apply reload_tail_ok|done..|].
  exists pc', (set_block i (with_localTail (b_tail b) b) q). rewrite Hp, Hc.
  split_and!; [done|done|by apply Hpc| |done].
  split; rewrite ?set_block_n; try done; [by apply left_full_items|].
  intros j b0. rewrite set_block_at by done. case_decide as Hj.
  - subst j. rewrite Hb. intros [= <-]. by eexists.
  - intros Hb0. by exists b0.
Qed.

Lemma front_view q skip : shape q skip ->
  exists b, blocks q !! frontBlock q = Some b /\ get_block q (frontBlock q) = Ret b /\
    items_at q (frontBlock q) = items b /\ block_ok b /\ b_size b = B /\
    b_next b = place (n_blocks q) (frontBlock q) 1.
Proof. intros Hs. eapply block_lookup; [done|]. by apply (sh_front q skip). Qed.

(** The front block, read from the cache of its tail or from its tail. *)
Lemma deq_start_ok q skip e : shape q skip -> deq_good q skip DeqStart e.
Proof.
  intros Hs. destruct (front_view q skip Hs) as (b & Hb & Hg & _).
  destruct (Nat.eqb_spec (b_front b) (b_localTail b)) as [He|Hne].
  - eapply (deq_same q skip _ (DeqReload (frontBlock q) (b_front b))); try done.
    + split; [done|]. by exists b.
    + cbn -[Nat.eqb]. rewrite Hg. cbn -[Nat.eqb]. by rewrite He, Nat.eqb_refl.
  - eapply (deq_same q skip _ (DeqRead (frontBlock q) (b_front b))); try done.
    + split; [done|]. by exists b.
    + cbn -[Nat.eqb]. rewrite Hg. cbn -[Nat.eqb]. by rewrite (proj2 (Nat.eqb_neq _ _) Hne).
Qed.

Lemma front_empty q skip b : shape q skip -> blocks q !! frontBlock q = Some b ->
  b_front b = b_tail b -> frontBlock q = tailBlock q -> empty_now q = true.
Proof.
  intros Hs Hb He Hft. destruct (sh_block q skip Hs _ _ Hb) as (Hok & _ & _).
  pose proof (sh_front q skip Hs) as Hf. pose proof (sh_tail q skip Hs) as Ht.
  unfold empty_now, contents. rewrite span_first by done. rewrite Hft, Nat.eqb_refl, app_nil_r, <- Hft.
  unfold items_at, block_at. rewrite Hb. cbn [default id]. by rewrite (proj2 (items_empty b Hok) He).
Qed.

Lemma deq_reload_ok q skip fb bf e : shape q skip -> cons_ok q (DeqReload fb bf) e -> deq_good q skip (DeqReload fb bf) e.
Proof.
  intros Hs [-> (b & Hb & ->)]. destruct (front_view q skip Hs) as (b0 & Hb0 & Hg & Hi & Hok & _).
  rewrite Hb in Hb0. injection Hb0 as <-. pose proof (lookup_lt_Some _ _ _ Hb) as Hlt.
  destruct (Nat.eqb_spec (b_front b) (b_tail b)) as [He|Hne].
  - eapply (deq_reload q skip _ (DeqTailBlock (frontBlock q)) e _ b); try done.
    + intros _. split; [done|]. cbn [frontBlock tailBlock set_block with_blocks]. intros Hft.
      rewrite (front_empty q skip b Hs Hb He Hft). apply orb_true_r.
    + cbn -[Nat.eqb]. rewrite Hg. cbn -[Nat.eqb]. by rewrite He, Nat.eqb_refl.
  - eapply (deq_reload q skip _ (DeqRead (frontBlock q) (b_front b)) e _ b); try done.
    + intros _. split; [done|]. by apply at_set_block.
    + cbn -[Nat.eqb]. rewrite Hg. cbn -[Nat.eqb]. by rewrite (proj2 (Nat.eqb_neq _ _) Hne).
Qed.

Lemma deq_tail_block_ok q skip fb e : shape q skip -> cons_ok q (DeqTailBlock fb) e -> deq_good q skip (DeqTailBlock fb) e.
Proof.
  intros Hs [-> He]. destruct (Nat.eqb_spec (frontBlock q) (tailBlock q)) as [Hft|Hne].
  - eapply (deq_same q skip _ (DeqDone None)); try done; [intros _; by rewrite He|].
    cbn -[Nat.eqb]. by rewrite Hft, Nat.eqb_refl.
  - eapply (deq_same q skip _ DeqAgain); try done.
    cbn -[Nat.eqb]. by rewrite (proj2 (Nat.eqb_neq _ _) Hne).
Qed.

Lemma deq_again_ok q skip e : shape q skip -> cons_ok q DeqAgain e -> deq_good q skip DeqAgain e.
Proof.
  intros Hs Hft. destruct (front_view q skip Hs) as (b & Hb & Hg & Hi & Hok & _).
  pose proof (lookup_lt_Some _ _ _ Hb) as Hlt.
  destruct (Nat.eqb_spec (b_front b) (b_tail b)) as [He|Hne].
  - eapply (deq_reload q skip _ (DeqNext (frontBlock q)) e _ b); try done.
    + intros Hit. split_and!; [done|done|]. rewrite Hit, Hi. by apply items_empty.
    + cbn -[Nat.eqb]. rewrite Hg. cbn -[Nat.eqb]. by rewrite He, Nat.eqb_refl.
  - eapply (deq_reload q skip _ (DeqRead (frontBlock q) (b_front b)) e _ b); try done.
    + intros _. split; [done|]. by apply at_set_block.
    + cbn -[Nat.eqb]. rewrite Hg. cbn -[Nat.eqb]. by rewrite (proj2 (Nat.eqb_neq _ _) Hne).
Qed.

(** The next block is never empty. *)
Lemma deq_next_ok q skip fb e : shape q skip -> cons_ok q (DeqNext fb) e -> deq_good q skip (DeqNext fb) e.
Proof.
  intros Hs (-> & Hft & Hempty). pose proof Hs as [H1 H2 H3 H4 H5 H6].
  destruct (front_view q skip Hs) as (b & Hb & Hg & _ & _ & _ & Hn).
  pose proof (place_lt (n_blocks q) (frontBlock q) 1 H1 ltac:(lia)) as Hlt.
  destruct (block_lookup q skip _ Hs Hlt) as (nb & Hnb & Hgn & Hi & Hok & _).
  assert (b_front nb <> b_tail nb) as Hne.
  { rewrite <- (items_empty nb Hok), <- Hi. apply H5; [done|].
    pose proof (dist_succ_l _ _ _ H1 H2 Hft) as Hd.
    destruct (decide (place (n_blocks q) (frontBlock q) 1 = frontBlock q)) as [Hp|Hp].
    - rewrite Hp in Hd. lia.
    - pose proof (dist_succ_r (n_blocks q) (frontBlock q) (frontBlock q) H1 H1 Hp) as Hr.
      rewrite (proj2 (dist_0 _ _ _ H1 H1) eq_refl) in Hr. lia. }
  eapply (deq_reload q skip _ (DeqMove (place (n_blocks q) (frontBlock q) 1) (b_front nb)) e _ nb); try done.
  - intros Hit. split_and!; [by rewrite set_block_n|done|by rewrite Hit|]. by apply at_set_block.
  - cbn -[Nat.eqb]. rewrite Hg. cbn -[Nat.eqb]. rewrite Hn, Hgn. cbn -[Nat.eqb].
    by rewrite (proj2 (Nat.eqb_neq _ _) Hne).
Qed.

(** The front moves to the next block. *)
Lemma move_dist q i : (i < n_blocks q)%nat -> (frontBlock q < n_blocks q)%nat -> i <> frontBlock q ->
  dist (n_blocks q) (frontBlock q) i = S (dist (n_blocks q) (place (n_blocks q) (frontBlock q) 1) i).
Proof. intros Hi Hf Hne. by apply dist_succ_l. Qed.

Lemma move_shape q skip : shape q skip -> frontBlock q <> tailBlock q -> items_at q (frontBlock q) = [] ->
  let q' := RwQueue (blocks q) (place (n_blocks q) (frontBlock q) 1) (tailBlock q) (largestBlockSize q) in
  shape q' skip.
Proof.
  intros [H1 H2 H3 H4 H5 H6] Hft He. cbv zeta. set (q' := RwQueue _ _ _ _).
  pose proof (place_lt (n_blocks q) (frontBlock q) 1 H1 ltac:(lia)) as Hlt.
  pose proof (move_dist q _ H2 H1 (not_eq_sym Hft)) as Hdt.
  pose proof (dist_full _ _ _ Hlt H1 eq_refl) as Hlast. pose proof (dist_lt _ _ _ H1 H2) as Hbound.
  split; change (n_blocks q') with (n_blocks q); change (items_at q') with (items_at q);
    cbn [frontBlock tailBlock q']; try done; intros i Hi.
  - intros Hsk Hd. destruct (decide (i = frontBlock q)) as [->|Hne]; [done|].
    apply H4; [done|done|]. rewrite Hdt, (move_dist q i) by done. lia.
  - intros Hd. destruct (decide (i = frontBlock q)) as [->|Hne]; [lia|].
    apply H5; [done|]. rewrite Hdt, (move_dist q i) by done. lia.
  - intros Hd. destruct (decide (i = frontBlock q)) as [->|Hne]; [lia|].
    apply H6; [done|]. rewrite Hdt, (move_dist q i) by done. lia.
Qed.

Lemma deq_move_ok q skip nb nf e : shape q skip -> cons_ok q (DeqMove nb nf) e -> deq_good q skip (DeqMove nb nf) e.
Proof.
  intros Hs (-> & Hft & He & Hnb). pose proof (move_shape q skip Hs Hft He) as Hs'. cbv zeta in Hs'.
  pose proof Hs as [H1 H2 H3 H4 H5 H6].
  eexists (DeqRead _ nf), _. split_and!; [done|exact Hs'|by split| |].
  - split; try done.
    + intros [|Hl]; [done|by right].
    + intros _. cbn. intros Hp. apply Hft. unfold place in Hp.
      repeat match goal with H : context [Nat.ltb ?x ?y] |- _ => destruct (Nat.ltb_spec x y) end; lia.
    + intros i b Hb. by exists b.
  - unfold contents. rewrite span_first by done. rewrite He, (proj2 (Nat.eqb_neq _ _) Hft). done.
Qed.

Lemma deq_read_ok q skip fb bf e : shape q skip -> cons_ok q (DeqRead fb bf) e -> deq_good q skip (DeqRead fb bf) e.
Proof.
  intros Hs [-> (b & Hb & -> & Hne)]. destruct (sh_block q skip Hs _ _ Hb) as (Hok & _ & _).
  destruct (front_slot b Hok (behind_nonempty b Hok Hne)) as (a & Ha & _).
  eapply (deq_same q skip _ (DeqPublish a (frontBlock q) (succ_idx b (b_front b)))); try done.
  - split; [done|]. by exists b.
  - cbn. unfold get_block. rewrite Hb. cbn. by rewrite Ha.
Qed.

(** The object at the front is given back to the producer. *)
Lemma take_ok q skip b a : shape q skip -> blocks q !! frontBlock q = Some b ->
  b_front b <> b_localTail b -> b_data b !! b_front b = Some (Some a) ->
  let q' := set_block (frontBlock q) (with_front (succ_idx b (b_front b)) b) q in
  shape q' skip /\ prod_view q q' /\ contents q = a :: contents q'.
Proof.
  intros Hs Hb Hne Ha. pose proof Hs as [H1 H2 H3 H4 H5 H6]. destruct (H3 _ _ Hb) as (Hok & Hsz & Hnx).
  rewrite succ_idx_spec by (done || by apply ok_front).
  destruct (pop_ok b Hok Hne) as (a' & Ha' & Hok' & Hit).
  assert (a' = a) as -> by congruence. set (b' := with_front _ b) in *. cbv zeta.
  assert (forall j, j <> frontBlock q -> items_at (set_block (frontBlock q) b' q) j = items_at q j) as He.
  { intros j Hj. by rewrite set_block_items, decide_False by done. }
  assert (dist (n_blocks q) (frontBlock q) (frontBlock q) = 0)%nat as H0 by (by apply dist_0).
  split_and!.
  - split; rewrite ?set_block_n; cbn [frontBlock tailBlock set_block with_blocks]; try done.
    + intros i b0. rewrite set_block_at by done. case_decide; [|apply H3]. intros [= <-]. by subst i.
    + intros i Hi Hsk Hd. rewrite He by (intros ->; lia). by apply H4.
    + intros i Hi Hd. rewrite He by (intros ->; lia). by apply H5.
    + intros i Hi Hd. rewrite He by (intros ->; lia). by apply H6.
  - split; rewrite ?set_block_n; try done.
    + intros Hf. unfold left_full. cbn [frontBlock tailBlock set_block with_blocks].
      destruct (decide (tailBlock q = frontBlock q)) as [Hx|Hx]; [by left|].
      rewrite He by done. exact Hf.
    + intros i b0. rewrite set_block_at by done. case_decide as Hi.
      * subst i. rewrite Hb. intros [= <-]. by exists b'.
      * intros Hb0. by exists b0.
  - unfold contents. rewrite set_block_n. cbn [frontBlock tailBlock set_block with_blocks].
    apply span_uncons; [done|done| |by apply He].
    rewrite set_block_items, decide_True by done. unfold items_at, block_at. by rewrite Hb.
Qed.

Lemma deq_publish_ok q skip a fb nf e : shape q skip -> cons_ok q (DeqPublish a fb nf) e -> deq_good q skip (DeqPublish a fb nf) e.
Proof.
  intros Hs [-> (b & Hb & -> & Hne & Ha)].
  destruct (take_ok q skip b a Hs Hb Hne Ha) as (H1 & H2 & H3).
  eexists (DeqDone (Some a)), _. split_and!; [|exact H1|done|exact H2|exact H3].
  cbn. unfold get_block. by rewrite Hb.
Qed.

Lemma deq_step_ok q skip pc e : shape q skip -> cons_ok q pc e -> deq_good q skip pc e.
Proof.
  intros Hs Hp. destruct pc.
  - by apply deq_start_ok.
  - by apply deq_reload_ok.
  - by apply deq_tail_block_ok.
  - by apply deq_again_ok.
  - by apply deq_next_ok.
  - by apply deq_move_ok.
  - by apply deq_read_ok.
  - by apply deq_publish_ok.
  - eapply (deq_same q skip _ (DeqDone result)); try done. intros Hr. by rewrite (Hp Hr).
Qed.
End invariant.
