(* ===== verification/RwQueueSys.v ===== *)
(** * RwQueueSys: runs of the lock-free queue

    A producer and a consumer that interleave, a call that runs alone, the
    ring that the constructor builds, and what holds in every run
    (libs/readerwriterqueue/readerwriterqueue.h: [ReaderWriterQueue]). *)
From S2P Require Import Prelude Block RwQueue.

(** ** A producer and a consumer that run at the same time

    [sent]: what the calls of [try_enqueue] that returned true enqueued;
    [got]: what those of [try_dequeue] that returned true gave. [was_empty]: the queue was
    empty during the consumer's current call. [e_steps], [d_steps]: the steps
    each call has made. *)
Record queue_sys (T : Type) := QueueSys {
  sq : rwqueue T; s_enq : enq_pc T; s_deq : deq_pc T;
  sent : list T; got : list T; was_empty : bool; e_steps : nat; d_steps : nat }.
Arguments QueueSys {T}.
Arguments sq {T} _.
Arguments s_enq {T} _.
Arguments s_deq {T} _.
Arguments sent {T} _.
Arguments got {T} _.
Arguments was_empty {T} _.
Arguments e_steps {T} _.
Arguments d_steps {T} _.

(** A step, case by case. *)
Ltac step_cases E :=
  cbn -[Nat.eqb Nat.ltb] in E;
  repeat match type of E with
  | context [get_block ?q ?i] => destruct (get_block q i) eqn:?; cbn -[Nat.eqb Nat.ltb] in E
  | context [mjoin ?o] => destruct (mjoin o) eqn:?; cbn -[Nat.eqb Nat.ltb] in E
  end; simplify_eq;
  repeat (case_match; simplify_eq/=); try done; try lia.

Section system.
Context {T : Type}.
Implicit Types (q : rwqueue T) (s : queue_sys T).

Definition element_of (pc : enq_pc T) : list T :=
  match pc with
  | EnqStart a | EnqReload a _ _ _ | EnqWrite a _ _ _ | EnqPublish a _ _ | EnqFull a _
  | EnqNext a _ | EnqWriteNext a _ _ | EnqTailNext a _ _ | EnqAdvance a _ => [a]
  | EnqDone _ => []
  end.
Definition accepted (pc pc' : enq_pc T) : list T :=
  match pc' with EnqDone true => element_of pc | _ => [] end.
Definition returned (pc' : deq_pc T) : list T :=
  match pc' with DeqDone (Some a) => [a] | _ => [] end.
Definition enq_done (pc : enq_pc T) : bool := match pc with EnqDone _ => true | _ => false end.
Definition deq_done (pc : deq_pc T) : bool := match pc with DeqDone _ => true | _ => false end.

Inductive sys_step : queue_sys T -> queue_sys T -> Prop :=
  | call_try_enqueue q r c l g w n m a :
      sys_step (QueueSys q (EnqDone r) c l g w n m) (QueueSys q (EnqStart a) c l g w 0 m)
  | step_try_enqueue q pc pc' q' c l g w n m :
      enq_done pc = false -> enq_step pc q = Ret (pc', q') ->
      sys_step (QueueSys q pc c l g w n m) (QueueSys q' pc' c (l ++ accepted pc pc') g w (S n) m)
  | call_try_dequeue q e r l g w n m :
      sys_step (QueueSys q e (DeqDone r) l g w n m) (QueueSys q e DeqStart l g false n 0)
  | step_try_dequeue q e pc pc' q' l g w n m :
      deq_done pc = false -> deq_step pc q = Ret (pc', q') ->
      sys_step (QueueSys q e pc l g w n m)
        (QueueSys q' e pc' l (g ++ returned pc') (w || empty_now q) n (S m)).

Definition sys_init q : queue_sys T := QueueSys q (EnqDone true) (DeqDone None) [] [] true 0 0.

(** The most steps a call can still make. *)
Definition enq_left (pc : enq_pc T) : nat :=
  match pc with
  | EnqStart _ => 7 | EnqReload _ _ _ _ => 6 | EnqFull _ _ => 5 | EnqNext _ _ => 4
  | EnqWriteNext _ _ _ => 3 | EnqTailNext _ _ _ => 2 | EnqWrite _ _ _ _ => 2
  | EnqAdvance _ _ => 1 | EnqPublish _ _ _ => 1 | EnqDone _ => 0
  end.
Definition deq_left (pc : deq_pc T) : nat :=
  match pc with
  | DeqStart => 8 | DeqReload _ _ => 7 | DeqTailBlock _ => 6 | DeqAgain => 5 | DeqNext _ => 4
  | DeqMove _ _ => 3 | DeqRead _ _ => 2 | DeqPublish _ _ _ => 1 | DeqDone _ => 0
  end.

Lemma enq_step_left pc q pc' q' : enq_done pc = false -> enq_step pc q = Ret (pc', q') ->
  (enq_left pc' < enq_left pc)%nat /\ accepted pc pc' = published pc.
Proof. intros Hd E. destruct pc; try done; step_cases E; split; try done; cbn; lia. Qed.

Lemma deq_step_left pc q pc' q' : deq_done pc = false -> deq_step pc q = Ret (pc', q') ->
  (deq_left pc' < deq_left pc)%nat /\ returned pc' = taken pc.
Proof. intros Hd E. destruct pc; try done; step_cases E; split; try done; cbn; lia. Qed.

End system.

Ltac sys_fields := cbn [sq s_enq s_deq sent got was_empty e_steps d_steps sys_init] in *.

Section system_invariant.
Context {T : Type}.
Implicit Types (q : rwqueue T) (s : queue_sys T).

Record sys_ok (B N : nat) s : Prop := {
  so_shape : shape B (sq s) (skip_of (s_enq s));
  so_prod : prod_ok B (sq s) (s_enq s);
  so_cons : cons_ok (sq s) (s_deq s) (was_empty s);
  so_blocks : n_blocks (sq s) = N;
  so_history : sent s = got s ++ contents (sq s);
  so_enq : (e_steps s + enq_left (s_enq s) <= 7)%nat;
  so_deq : (d_steps s + deq_left (s_deq s) <= 8)%nat;
}.

Lemma sys_step_ok B N s s' : (1 < B)%nat -> sys_step s s' -> sys_ok B N s -> sys_ok B N s'.
Proof.
  intros HB Hstep [H1 H2 H3 H4 H5 H6 H7]. destruct Hstep as
    [q r c l g w n m a | q pc pc' q' c l g w n m Hd E | q e r l g w n m | q e pc pc' q' l g w n m Hd E];
    sys_fields.
  - split; sys_fields; try done; lia.
  - destruct (enq_step_left _ _ _ _ Hd E) as [Hl ->].
    destruct (enq_step_ok B q pc HB H1 H2) as (pc1 & q1 & E1 & Hs & Hp & Hv & Hc).
    rewrite E in E1. injection E1 as <- <-. split; sys_fields; try done; try lia.
    + exact (cons_ok_view B _ _ _ _ _ H1 Hv H3).
    + by rewrite (cv_n _ _ Hv).
    + by rewrite Hc, H5, app_assoc.
  - split; sys_fields; try done; lia.
  - destruct (deq_step_left _ _ _ _ Hd E) as [Hl ->].
    destruct (deq_step_ok B q (skip_of e) pc w H1 H3) as (pc1 & q1 & E1 & Hs & Hp & Hv & Hc).
    rewrite E in E1. injection E1 as <- <-. split; sys_fields; try done; try lia.
    + exact (prod_ok_view B _ _ _ Hv H2).
    + by rewrite (pv_n B _ _ Hv).
    + by rewrite <- app_assoc, <- Hc.
Qed.

Lemma sys_reachable_ok B N q0 s : (1 < B)%nat -> shape B q0 None -> n_blocks q0 = N -> contents q0 = [] ->
  rtc sys_step (sys_init q0) s -> sys_ok B N s.
Proof.
  intros HB Hs HN Hc. revert s. apply (rtc_ind_r (fun s => sys_ok B N s)).
  - split; sys_fields; try done; cbn; lia.
  - intros s s' _ Hstep IH. by eapply sys_step_ok.
Qed.
End system_invariant.

(** ** A call that runs alone *)
Section alone.
Context {T : Type} (B : nat) (HB : (1 < B)%nat).
Implicit Types (q : rwqueue T).

Lemma enq_run_ok fuel pc q : (enq_left pc <= fuel)%nat -> shape B q (skip_of pc) -> prod_ok B q pc ->
  exists r q', enq_run fuel pc q = Ret (r, q') /\ shape B q' None /\ n_blocks q' = n_blocks q /\
    contents q' = contents q ++ (if r then element_of pc else []) /\
    (enq_done pc = false -> r = false -> ((n_blocks q - 1) * (B - 1) <= length (contents q))%nat).
Proof.
  revert pc q. induction fuel as [|fuel IH]; intros pc q Hf Hs Hp.
  { destruct pc; cbn in Hf; try lia. exists result, q.
    split_and!; [done|done|done|destruct result; by rewrite app_nil_r|done]. }
  destruct (enq_done pc) eqn:Hd.
  { destruct pc; try done. exists result, q.
    split_and!; [done|done|done|destruct result; by rewrite app_nil_r|done]. }
  destruct (enq_step_ok B q pc HB Hs Hp) as (pc' & q' & E & Hs' & Hp' & Hv & Hc).
  destruct (enq_step_left _ _ _ _ Hd E) as [Hl Ha].
  destruct (IH pc' q') as (r & q2 & E2 & Hs2 & Hn2 & Hc2 & Hr2); [lia|done|done|].
  pose proof (cv_n _ _ Hv) as Hn. exists r, q2. rewrite <- Ha in Hc.
  assert (enq_run (S fuel) pc q = enq_run fuel pc' q') as -> by (destruct pc; try done; cbn [enq_run]; by rewrite E).
  split_and!; [done|done|by rewrite Hn2|..].
  - rewrite Hc2, Hc, <- app_assoc. f_equal. clear IH Hr2 Hc2 Hc Ha Hs Hs' Hp Hp' Hv.
    destruct (enq_done pc') eqn:Hd'.
    + destruct pc'; try done. destruct fuel; injection E2 as <- <-;
        destruct result; cbn [accepted element_of]; by rewrite ?app_nil_r.
    + destruct pc; try done; step_cases E.
  - intros _ ->. destruct (enq_done pc') eqn:Hd'.
    + destruct pc'; try done. assert (result = false) as -> by (destruct fuel; by injection E2).
      assert (exists a tb, pc = EnqFull a tb) as (a & tb & ->).
      { clear - E Hd. destruct pc; try done; step_cases E. by eexists _, _. }
      by eapply enq_refused.
    + rewrite <- Hn. assert (contents q = contents q') as ->; [|by apply Hr2].
      rewrite Hc. by destruct pc'; try done; rewrite app_nil_r.
Qed.

Lemma deq_run_ok fuel pc q e : (deq_left pc <= fuel)%nat -> shape B q None -> cons_ok q pc e -> deq_done pc = false ->
  exists r q', deq_run fuel pc q = Ret (r, q') /\ shape B q' None /\ n_blocks q' = n_blocks q /\
    contents q = option_list r ++ contents q' /\ (r = None -> e = true \/ contents q = []).
Proof.
  revert pc q e. induction fuel as [|fuel IH]; intros pc q e Hf Hs Hp Hd.
  { destruct pc; cbn in Hf; try lia. done. }
  destruct (deq_step_ok B q None pc e Hs Hp) as (pc' & q' & E & Hs' & Hp' & Hv & Hc).
  destruct (deq_step_left _ _ _ _ Hd E) as [Hl Ha]. pose proof (pv_n _ _ _ Hv) as Hn.
  assert (deq_run (S fuel) pc q = deq_run fuel pc' q') as -> by (destruct pc; try done; cbn [deq_run]; by rewrite E).
  assert (forall b : bool, b || empty_now q = true -> b = true \/ contents q = []) as Hempty.
  { intros []; [by left|]. unfold empty_now. destruct (contents q); [by right|done]. }
  rewrite <- Ha in Hc. destruct (deq_done pc') eqn:Hd'.
  - destruct pc'; try done. exists result, q'.
    assert (deq_run fuel (DeqDone result) q' = Ret (result, q')) as -> by (by destruct fuel).
    split_and!; [done|done|done|by rewrite Hc; destruct result|]. intros ->. by apply Hempty, Hp'.
  - destruct (IH pc' q' (e || empty_now q)) as (r & q2 & E2 & Hs2 & Hn2 & Hc2 & Hr2); [lia|done..|].
    assert (contents q = contents q') as Hcq by (rewrite Hc; by destruct pc').
    exists r, q2. rewrite Hcq. split_and!; [done|done|congruence|done|].
    intros Hr. rewrite <- Hcq in Hr2 |- *. destruct (Hr2 Hr) as [Ht|]; [by apply Hempty|by right].
Qed.

(** The calls of [BlockingReaderWriterQueue] on a queue at rest. *)
Lemma inner_try_enqueue_ok a q : shape B q None ->
  exists r q', inner_try_enqueue a q = Ret (r, q') /\ shape B q' None /\ n_blocks q' = n_blocks q /\
    contents q' = contents q ++ (if r then [a] else []) /\
    (r = false -> ((n_blocks q - 1) * (B - 1) <= length (contents q))%nat).
Proof.
  intros Hs. destruct (enq_run_ok 8 (EnqStart a) q) as (r & q' & H1 & H2 & H3 & H4 & H5); [cbn; lia|done..|].
  exists r, q'. split_and!; try done. by apply H5.
Qed.

Lemma inner_try_dequeue_ok q : shape B q None ->
  exists r q', inner_try_dequeue q = Ret (r, q') /\ shape B q' None /\ n_blocks q' = n_blocks q /\
    contents q = option_list r ++ contents q' /\ (r = None -> contents q = []).
Proof.
  intros Hs. destruct (deq_run_ok 8 DeqStart q false) as (r & q' & H1 & H2 & H3 & H4 & H5); [cbn; lia|done..|].
  exists r, q'. split_and!; try done. intros Hr. by destruct (H5 Hr).
Qed.
End alone.

(** ** Schedules

    The steps of a run, one after the other. *)
Inductive action (T : Type) := CallEnqueue (a : T) | StepEnqueue | CallDequeue | StepDequeue.
Arguments CallEnqueue {T}.
Arguments StepEnqueue {T}.
Arguments CallDequeue {T}.
Arguments StepDequeue {T}.

Section schedule.
Context {T : Type}.
Implicit Types (s : queue_sys T).

Definition act (x : action T) s : option (queue_sys T) :=
  match x, s with
  | CallEnqueue a, QueueSys q (EnqDone _) c l g w n m => Some (QueueSys q (EnqStart a) c l g w 0 m)
  | CallEnqueue _, _ => None
  | StepEnqueue, QueueSys q pc c l g w n m =>
      if enq_done pc then None else
      match enq_step pc q with
      | Ret (pc', q') => Some (QueueSys q' pc' c (l ++ accepted pc pc') g w (S n) m)
      | _ => None
      end
  | CallDequeue, QueueSys q e (DeqDone _) l g w n m => Some (QueueSys q e DeqStart l g false n 0)
  | CallDequeue, _ => None
  | StepDequeue, QueueSys q e pc l g w n m =>
      if deq_done pc then None else
      match deq_step pc q with
      | Ret (pc', q') => Some (QueueSys q' e pc' l (g ++ returned pc') (w || empty_now q) n (S m))
      | _ => None
      end
  end.

Fixpoint acts (l : list (action T)) s : option (queue_sys T) :=
  match l with [] => Some s | x :: l => s' ← act x s; acts l s' end.

Lemma act_step x s s' : act x s = Some s' -> sys_step s s'.
Proof.
  destruct s as [q e d l g w n m], x; cbn -[enq_step deq_step].
  - destruct e; try done. intros [= <-]. constructor.
  - destruct (enq_done e) eqn:?; [done|]. destruct (enq_step e q) as [[pc' q']| |] eqn:?; try done.
    intros [= <-]. by constructor.
  - destruct d; try done. intros [= <-]. constructor.
  - destruct (deq_done d) eqn:?; [done|]. destruct (deq_step d q) as [[pc' q']| |] eqn:?; try done.
    intros [= <-]. by constructor.
Qed.

Lemma acts_reachable l s s' : acts l s = Some s' -> rtc sys_step s s'.
Proof.
  revert s. induction l as [|x l IH]; intros s; cbn; [by intros [= ->]|].
  destruct (act x s) eqn:E; [|done]. intros. eapply rtc_l; [by eapply act_step|]. by apply IH.
Qed.
End schedule.

(** ** The ring the constructor builds *)
Section constructor.
Context {T : Type}.
Implicit Types (q : rwqueue T).

(** The blocks of a ring of [n]. *)
Definition link_blocks (n : nat) (size : nat) : list (block T) :=
  (fun i => with_next (place n i 1) (make_block size)) <$> seq 0 n.

Lemma link_blocks_lookup n size i (b : block T) : link_blocks n size !! i = Some b ->
  (i < n)%nat /\ b = with_next (place n i 1) (make_block size).
Proof.
  unfold link_blocks. rewrite list_lookup_fmap, fmap_Some. intros (j & Hj & ->).
  by apply lookup_seq in Hj as [-> Hj].
Qed.

Lemma link_blocks_length n size : length (link_blocks n size) = n.
Proof. unfold link_blocks. by rewrite length_fmap, length_seq. Qed.

Lemma link_blocks_snoc n size :
  alter (with_next n) (pred n) (link_blocks n size) ++ [with_next 0 (make_block size)] = link_blocks (S n) size.
Proof.
  unfold link_blocks. rewrite seq_S, fmap_app. cbn [fmap list_fmap Nat.add].
  assert (place (S n) n 1 = 0%nat) as -> by (unfold place; destruct (Nat.ltb_spec (n + 1) (S n)); lia).
  f_equal. apply list_eq. intros i. destruct (decide (i = pred n)) as [->|Hne].
  - rewrite list_lookup_alter_eq, !list_lookup_fmap. destruct n as [|n]; [done|].
    cbn [pred]. rewrite lookup_seq_lt by lia. cbn [fmap option_fmap option_map Nat.add]. f_equal.
    transitivity (with_next (S n) (make_block size : block T)); [done|]. f_equal.
    unfold place. destruct (Nat.ltb_spec (n + 1) (S (S n))); lia.
  - rewrite list_lookup_alter_ne, !list_lookup_fmap by done.
    destruct (seq 0 n !! i) as [k|] eqn:E; [|done]. apply lookup_seq in E as [-> E].
    cbn [fmap option_fmap option_map Nat.add]. do 2 f_equal. unfold place.
    destruct (Nat.ltb_spec (i + 1) n), (Nat.ltb_spec (i + 1) (S n)); lia.
Qed.

Lemma make_blocks_ok mem size count n l :
  make_blocks mem size count (link_blocks n size) = Ret l -> l = link_blocks (n + count) size.
Proof.
  revert n. induction count as [|count IH]; intros n; cbn [make_blocks].
  - intros [= <-]. by rewrite Nat.add_0_r.
  - rewrite link_blocks_length, link_blocks_snoc. destruct (mem n); [|done].
    intros H. apply IH in H as ->. f_equal. lia.
Qed.

Lemma link_blocks_ok n k L : (0 < n)%nat -> (0 < k)%nat ->
  let q := RwQueue (link_blocks n (2 ^ k) : list (block T)) 0 0 L in
  shape (2 ^ k) q None /\ n_blocks q = n /\ contents q = [].
Proof.
  intros Hn Hk. cbv zeta. set (q := RwQueue _ _ _ _).
  assert (n_blocks q = n) as HN by apply link_blocks_length.
  destruct (make_block_ok (T := T) k Hk) as (H1 & H2 & H3).
  assert (forall i, items_at q i = []) as Hi.
  { intros i. unfold items_at, block_at. cbn [blocks q].
    destruct (link_blocks n (2 ^ k) !! i) as [b|] eqn:E; [|done].
    by apply link_blocks_lookup in E as [_ ->]. }
  split_and!; [|done|].
  - split; rewrite ?HN; cbn [frontBlock tailBlock q]; try done.
    + intros i b Hb. apply link_blocks_lookup in Hb as [Hb ->].
      split_and!; [by apply with_next_ok|done|done].
    + intros i _ Hd. unfold dist in Hd. cbn in Hd. lia.
    + intros i _ Hd. unfold dist in Hd. cbn in Hd. lia.
  - unfold contents, span_items. cbn [frontBlock tailBlock q]. cbn. by rewrite Hi.
Qed.

(** The queue is empty, and has room for [size] objects: in one block, unless
    that is too large. *)
Definition constructed (M size : Z) q : Prop :=
  exists k, (0 < k)%nat /\ shape (2 ^ k) q None /\ contents q = [] /\
    (Z.of_nat (n_blocks q * 2 ^ k) < 2 ^ 62)%Z /\
    (n_blocks q = 1%nat /\ (size < M * 2)%Z /\ (size < 2 ^ Z.of_nat k)%Z \/
     (size <= Z.of_nat ((n_blocks q - 1) * (2 ^ k - 1)))%Z).

Lemma ReaderWriterQueue_ok j size mem q :
  (0 < j < 31)%Z -> (1 <= size < 2 ^ 60)%Z ->
  ReaderWriterQueue (2 ^ j) size mem = Ret q -> constructed (2 ^ j) size q.
Proof.
  intros Hj Hsz. unfold ReaderWriterQueue. rewrite (u64_small (size + 1)) by (unfold is_u64; lia).
  rewrite (ceilToPow2_spec (size + 1)) by lia. set (l := Z.log2_up (size + 1)).
  assert (0 < l)%Z by (apply Z.log2_up_pos; lia).
  pose proof (Z.log2_up_spec (size + 1) ltac:(lia)) as Hl. fold l in Hl.
  assert (2 <= 2 ^ j < 2 ^ 31)%Z as Hp.
  { split; [apply (Z.pow_le_mono_r 2 1 j); lia|apply Z.pow_lt_mono_r; lia]. }
  assert (forall m, (0 <= m)%Z -> Z.to_nat (2 ^ m) = (2 ^ Z.to_nat m)%nat) as Hnat
    by (intros; apply Nat2Z.inj; rewrite Nat2Z.inj_pow, !Z2Nat.id; lia).
  rewrite ceilToPow2_spec, Z.log2_up_pow2, Z.eqb_refl, (proj2 (Z.ltb_ge _ _)), u64_small by (unfold is_u64; lia).
  cbn [negb orb]. destruct (Z.ltb_spec (2 ^ j * 2) (2 ^ l)) as [Hm|Hm].
  - rewrite u64_small by (unfold is_u64; lia).
    set (c := ((size + 2 ^ j * 2 - 3) `div` (2 ^ j - 1))%Z).
    assert (size <= (c - 1) * (2 ^ j - 1))%Z as Hc by (unfold c; zmod).
    assert (1 < c)%Z by nia. rewrite Hnat by lia.
    destruct (make_blocks _ _ _ _) as [bl| |] eqn:Hbl; [|done..]. apply (make_blocks_ok _ _ _ 0) in Hbl as ->.
    intros [= <-]. exists (Z.to_nat j).
    destruct (link_blocks_ok (Z.to_nat c) (Z.to_nat j) (2 ^ j)) as (H1 & H2 & H3); [lia..|].
    assert (Z.of_nat (2 ^ Z.to_nat j) = 2 ^ j)%Z as Hpow by (rewrite <- Hnat; lia).
    assert (c * (2 ^ j - 1) <= size + 2 ^ j * 2 - 3)%Z as Hc' by (unfold c; zmod).
    split_and!; [lia|exact H1|exact H3|rewrite H2, Nat2Z.inj_mul, Hpow; nia|]. right. rewrite H2.
    rewrite Nat2Z.inj_mul, !Nat2Z.inj_sub, Hpow; [|apply Nat.neq_0_lt_0, Nat.pow_nonzero; lia|lia]. lia.
  - rewrite Hnat by lia. destruct (make_blocks _ _ _ _) as [bl| |] eqn:Hbl; [|done..].
    apply (make_blocks_ok _ _ _ 0) in Hbl as ->. intros [= <-]. exists (Z.to_nat l). destruct (link_blocks_ok 1 (Z.to_nat l) (2 ^ l)) as (H1 & H2 & H3); [lia..|].
    assert (Z.of_nat (2 ^ Z.to_nat l) = 2 ^ l)%Z as Hpow by (rewrite <- Hnat; lia).
    assert (2 ^ l = 2 * 2 ^ Z.pred l)%Z as Hhalf by (rewrite <- Z.pow_succ_r; [f_equal|]; lia).
    split_and!; [lia|exact H1|exact H3|rewrite H2, Nat2Z.inj_mul, Hpow; lia|]. left. rewrite Z2Nat.id by lia. split_and!; [done|lia|lia].
Qed.
End constructor.

(** ** Properties *)

Lemma pow2_gt_1 k : (0 < k)%nat -> (1 < 2 ^ k)%nat.
Proof. intros. apply (Nat.pow_gt_1 2 k); lia. Qed.

Section running.
Context {T : Type} (j size : Z) (mem : nat -> bool) (q0 : rwqueue T) (s : queue_sys T).
Hypothesis Hj : (0 < j < 31)%Z.
Hypothesis Hsize : (1 <= size < 2 ^ 60)%Z.
Hypothesis Hq0 : ReaderWriterQueue (2 ^ j) size mem = Ret q0.
Hypothesis Hs : rtc sys_step (sys_init q0) s.

Lemma running_ok : exists k, (0 < k)%nat /\ sys_ok (2 ^ k) (n_blocks q0) s /\
  (n_blocks q0 = 1%nat /\ (size < 2 ^ j * 2)%Z /\ (size < 2 ^ Z.of_nat k)%Z \/
   (size <= Z.of_nat ((n_blocks q0 - 1) * (2 ^ k - 1)))%Z).
Proof.
  destruct (ReaderWriterQueue_ok j size mem q0 Hj Hsize Hq0) as (k & Hk & Hsh & Hc & _ & Hroom).
  exists k. split_and!; [done| |done]. eapply sys_reachable_ok; try done. by apply pow2_gt_1.
Qed.

Lemma running_steps :
  (exists r, enq_step (s_enq s) (sq s) = Ret r) /\ (exists r, deq_step (s_deq s) (sq s) = Ret r).
Proof.
  destruct running_ok as (k & Hk & [H1 H2 H3 H4 H5 H6 H7] & _).
  destruct (enq_step_ok (2 ^ k) _ _ (pow2_gt_1 k Hk) H1 H2) as (pc1 & q1 & E1 & _).
  destruct (deq_step_ok (2 ^ k) _ _ _ _ H1 H3) as (pc2 & q2 & E2 & _). split; by eexists.
Qed.

(** C16: however the steps of a producer and of a consumer interleave, what
    was enqueued is what was dequeued, in the same order, and then what the
    blocks hold; no step fails an assertion or reads a slot without an object;
    and [try_dequeue] gives up only if the queue was empty during the call. *)
Theorem rwqueue_fifo :
  sent s = got s ++ contents (sq s) /\
  (exists r, enq_step (s_enq s) (sq s) = Ret r) /\
  (exists r, deq_step (s_deq s) (sq s) = Ret r) /\
  (s_deq s = DeqDone None -> was_empty s = true).
Proof.
  destruct running_steps as [HE HD]. destruct running_ok as (k & Hk & [H1 H2 H3 H4 H5 H6 H7] & _).
  split_and!; [done..|]. intros Hd. rewrite Hd in H3. by apply H3.
Qed.

(** C17: each call ends after at most seven steps of the producer, eight of
    the consumer, whatever the other thread does meanwhile, and it can always
    make its next step. *)
Theorem rwqueue_wait_free :
  (e_steps s <= 7)%nat /\ (d_steps s <= 8)%nat /\
  (enq_done (s_enq s) = false -> exists s', sys_step s s' /\ e_steps s' = S (e_steps s)) /\
  (deq_done (s_deq s) = false -> exists s', sys_step s s' /\ d_steps s' = S (d_steps s)).
Proof.
  destruct running_steps as [[[pc1 q1] E1] [[pc2 q2] E2]].
  destruct running_ok as (k & Hk & [H1 H2 H3 H4 H5 H6 H7] & _).
  clear Hs. destruct s as [q e d l g w n m]. sys_fields.
  split_and!; [lia|lia| |]; intros Hd; eexists; (split; [by constructor|done]).
Qed.

(** A queue made for [size] objects, too many for one block, refuses an
    object only while it holds [size] others, however the consumer
    interleaves. *)
Theorem rwqueue_capacity s' :
  (2 ^ j * 2 <= size)%Z -> sys_step s s' -> enq_done (s_enq s) = false -> s_enq s' = EnqDone false ->
  (size <= Z.of_nat (length (contents (sq s))))%Z.
Proof.
  intros Hbig Hstep Hd Hd'.
  destruct running_ok as (k & Hk & [H1 H2 H3 H4 H5 H6 H7] & Hroom).
  destruct Hroom as [(_ & ? & _)|Hroom]; [lia|].
  destruct Hstep as [|q pc pc' q' c l g w n m Hpc E|q e r l g w n m|q e pc pc' q' l g w n m Hpc E]; sys_fields; try done.
  - subst pc'. assert (exists a tb, pc = EnqFull a tb) as (a & tb & ->).
    { destruct pc; try done; step_cases E. by eexists _, _. }
    pose proof (enq_refused (2 ^ k) q a tb q' H1 H2 E) as Hl. rewrite H4 in Hl. lia.
  - by rewrite Hd' in Hd.
  - by rewrite Hd' in Hd.
Qed.
End running.

(** ** Witnesses: five blocks of two places *)
Definition tiny : rwqueue Z := RwQueue (link_blocks 5 2) 0 0 2.
Definition tiny_schedule : list (action Z) :=
  [CallEnqueue 11%Z; StepEnqueue; CallDequeue; StepDequeue; StepEnqueue; StepDequeue; StepEnqueue;
   StepDequeue; CallDequeue; CallEnqueue 12%Z; StepDequeue; StepEnqueue; StepEnqueue; StepEnqueue;
   StepDequeue; StepEnqueue; StepDequeue].

(** Every block has its object; the producer is about to see it. *)
Definition filling (steps : nat) (a : Z) : list (action Z) := CallEnqueue a :: replicate steps StepEnqueue.
Definition full_schedule : list (action Z) :=
  filling 3 1 ++ filling 7 2 ++ filling 7 3 ++ filling 7 4 ++ filling 7 5 ++ filling 2 6.

Definition tiny_state : queue_sys Z := default (sys_init tiny) (acts tiny_schedule (sys_init tiny)).
Definition full_state : queue_sys Z := default (sys_init tiny) (acts full_schedule (sys_init tiny)).
Definition refused_state : queue_sys Z := default full_state (act StepEnqueue full_state).

Lemma rwqueue_fifo_witness :
  sent tiny_state = [11%Z] /\ sent tiny_state = got tiny_state ++ contents (sq tiny_state).
Proof.
  split; [reflexivity|].
  refine (proj1 (rwqueue_fifo 1 4 (fun _ => true) tiny tiny_state _ _ _ _)); [lia|lia|reflexivity|].
  apply (acts_reachable tiny_schedule). vm_compute. reflexivity.
Defined.

Lemma rwqueue_wait_free_witness : exists s', sys_step tiny_state s' /\ e_steps s' = 5.
Proof.
  destruct (rwqueue_wait_free 1 4 (fun _ => true) tiny tiny_state) as (_ & _ & H & _);
    [lia|lia|reflexivity|apply (acts_reachable tiny_schedule); vm_compute; reflexivity|].
  destruct H as (s' & H1 & H2); [reflexivity|]. exists s'. split; [exact H1|]. rewrite H2. reflexivity.
Defined.

Lemma rwqueue_capacity_witness : (4 <= Z.of_nat (length (contents (sq full_state))))%Z.
Proof.
  apply (rwqueue_capacity 1 4 (fun _ => true) tiny full_state) with (s' := refused_state);
    [lia|lia|reflexivity|apply (acts_reachable full_schedule); vm_compute; reflexivity|lia| | |];
    [apply (act_step StepEnqueue)| |]; vm_compute; reflexivity.
Defined.
