(* ===== verification/BlockingQueue.v ===== *)
(** * BlockingQueue: the queue with a semaphore that the threads share
    (libs/readerwriterqueue: [BlockingReaderWriterQueue],
    [LightweightSemaphore], the Linux [Semaphore]).

    The kernel's semaphore is a count: [sem_post] raises it, a wait that
    succeeds lowers it, and a wait with a deadline gives up, when it does, only
    while the count is zero. Each access to [m_count] or to the kernel is one
    step. *)
From S2P Require Import Prelude Queue Block RwQueue RwQueueSys.

(** [Semaphore::timed_wait]: the deadline, from the clock and the timeout. *)
Definition timed_wait_deadline (usecs : Z) (now : Z * Z) : Z * Z :=
  let '(tv_sec, tv_nsec) := now in
  let usecs_in_1_sec := 1000000%Z in
  let nsecs_in_1_sec := 1000000000%Z in
  let tv_sec := (tv_sec + usecs `div` usecs_in_1_sec)%Z in
  let tv_nsec := (tv_nsec + (usecs `mod` usecs_in_1_sec) * 1000)%Z in
  if (nsecs_in_1_sec <=? tv_nsec)%Z then (tv_sec + 1, tv_nsec - nsecs_in_1_sec)%Z else (tv_sec, tv_nsec).

(** The deadline is the timeout away, and well formed. *)
Lemma timed_wait_deadline_spec usecs sec nsec :
  (0 <= usecs)%Z -> (0 <= nsec < 1000000000)%Z ->
  let '(sec', nsec') := timed_wait_deadline usecs (sec, nsec) in
  (sec' * 1000000000 + nsec' = sec * 1000000000 + nsec + usecs * 1000)%Z /\ (0 <= nsec' < 1000000000)%Z.
Proof.
  intros Hu Hn. unfold timed_wait_deadline.
  destruct (Z.leb_spec 1000000000 (nsec + (usecs `mod` 1000000) * 1000)); split; zmod.
Qed.

Record bqueue (T : Type) := BQueue { inner : rwqueue T; m_count : Z; m_sema : nat }.
Arguments BQueue {T}.
Arguments inner {T} _.
Arguments m_count {T} _.
Arguments m_sema {T} _.

(** Where a thread is: [ProdInner] and [ConsInner] are inside the inner
    queue's call. *)
Inductive prod_pc (T : Type) :=
  | ProdInner (pc : enq_pc T)
  | ProdSignal
  | ProdPost
  | ProdDone (result : bool).
Arguments ProdInner {T}.
Arguments ProdSignal {T}.
Arguments ProdPost {T}.
Arguments ProdDone {T}.

Inductive cons_pc (T : Type) :=
  | ConsTry
  | ConsSpin (spin : nat)
  | ConsTake
  | ConsSema
  | ConsRestore
  | ConsRetry
  | ConsTryWait
  | ConsInner (pc : deq_pc T)
  | ConsDone (result : option T).
Arguments ConsTry {T}.
Arguments ConsSpin {T}.
Arguments ConsTake {T}.
Arguments ConsSema {T}.
Arguments ConsRestore {T}.
Arguments ConsRetry {T}.
Arguments ConsTryWait {T}.
Arguments ConsInner {T}.
Arguments ConsDone {T}.

Section bqueue.
Context {T : Type}.
Implicit Types (s : bqueue T).

Definition with_inner (q : rwqueue T) s : bqueue T := BQueue q (m_count s) (m_sema s).

(** [m_count.fetch_add]. *)
Definition fetch_add (n : Z) s : bqueue T := BQueue (inner s) (s64 (m_count s + n)) (m_sema s).
Definition sem_post s : bqueue T := BQueue (inner s) (m_count s) (S (m_sema s)).
Definition sem_take s : bqueue T := BQueue (inner s) (m_count s) (pred (m_sema s)).

Definition BlockingReaderWriterQueue (MAX_BLOCK_SIZE size : Z) (mem : nat -> bool) : outcome (bqueue T) :=
  inner ← ReaderWriterQueue MAX_BLOCK_SIZE size mem; Ret (BQueue inner 0 0).

(** [LightweightSemaphore::signal(1)], up to the kernel's part. *)
Definition signal s : outcome (prod_pc T * bqueue T) :=
  if (-1 <=? m_count s)%Z
  then Ret (if (m_count s <? 0)%Z then ProdPost else ProdDone true, fetch_add 1 s)
  else Throw (RuntimeError "assertion failed").

(** ** [try_enqueue] *)
Definition prod_step (pc : prod_pc T) s : outcome (prod_pc T * bqueue T) :=
  match pc with
  | ProdInner pc =>
      '(pc, q) ← enq_step pc (inner s);
      Ret (match pc with
           | EnqDone true => ProdSignal
           | EnqDone false => ProdDone false
           | _ => ProdInner pc
           end, with_inner q s)
  | ProdSignal => signal s
  | ProdPost => Ret (ProdDone true, sem_post s)
  | ProdDone r => Ret (ProdDone r, s)
  end.

(** ** [wait_dequeue_timed], with [wait] and [waitWithPartialSpinning]

    [timed_out]: the deadline has passed. A consumer that sleeps on the
    semaphore stays where it is. *)
Definition cons_step (timeout_usecs : Z) (timed_out : bool) (pc : cons_pc T) s : outcome (cons_pc T * bqueue T) :=
  match pc with
  | ConsTry => Ret (if (0 <? m_count s)%Z then ConsTake else ConsSpin 1024, s)
  | ConsSpin (S spin) => Ret (if (0 <? m_count s)%Z then ConsTake else ConsSpin spin, s)
  | ConsTake => Ret (ConsInner DeqStart, fetch_add (-1) s)
  | ConsSpin O =>
      Ret (if (0 <? m_count s)%Z then ConsInner DeqStart
           else if (timeout_usecs =? 0)%Z then ConsRestore else ConsSema, fetch_add (-1) s)
  | ConsSema =>
      match m_sema s with
      | S _ => Ret (ConsInner DeqStart, sem_take s)
      | O => Ret (if (0 <? timeout_usecs)%Z && timed_out then ConsRestore else ConsSema, s)
      end
  | ConsRestore => Ret (if (m_count s <? 0)%Z then ConsDone None else ConsRetry, fetch_add 1 s)
  | ConsRetry => Ret (if (0 <? m_count s)%Z then ConsTryWait else ConsRestore, fetch_add (-1) s)
  | ConsTryWait =>
      match m_sema s with
      | S _ => Ret (ConsInner DeqStart, sem_take s)
      | O => Ret (ConsRestore, s)
      end
  | ConsInner pc =>
      '(pc, q) ← deq_step pc (inner s);
      match pc with
      | DeqDone None => Throw (RuntimeError "assertion failed")
      | DeqDone r => Ret (ConsDone r, with_inner q s)
      | _ => Ret (ConsInner pc, with_inner q s)
      end
  | ConsDone r => Ret (ConsDone r, s)
  end.
End bqueue.

(** ** A producer and a consumer that run at the same time

    [b_sent]: what the inner queue accepted; [b_got]: what the calls of
    [wait_dequeue_timed] that returned true gave. *)
Record bq_sys (T : Type) := BqSys {
  bq : bqueue T; b_prod : prod_pc T; b_cons : cons_pc T; b_timeout : Z; b_sent : list T; b_got : list T }.
Arguments BqSys {T}.
Arguments bq {T} _.
Arguments b_prod {T} _.
Arguments b_cons {T} _.
Arguments b_timeout {T} _.
Arguments b_sent {T} _.
Arguments b_got {T} _.

Section bq_sys.
Context {T : Type}.
Implicit Types (s : bq_sys T).

Definition prod_accepted (pc pc' : prod_pc T) : list T :=
  match pc, pc' with ProdInner pc, ProdSignal => element_of pc | _, _ => [] end.
Definition cons_returned (pc' : cons_pc T) : list T :=
  match pc' with ConsDone (Some a) => [a] | _ => [] end.
Definition prod_done (pc : prod_pc T) : bool := match pc with ProdDone _ => true | _ => false end.
Definition cons_done (pc : cons_pc T) : bool := match pc with ConsDone _ => true | _ => false end.

(** The consumer's part of the steps. *)
Inductive cons_sys_step : bq_sys T -> bq_sys T -> Prop :=
  | step_wait_dequeue st p pc pc' st' t l g timed_out :
      cons_done pc = false -> cons_step t timed_out pc st = Ret (pc', st') ->
      cons_sys_step (BqSys st p pc t l g) (BqSys st' p pc' t l (g ++ cons_returned pc')).

Inductive bq_step : bq_sys T -> bq_sys T -> Prop :=
  | call_bq_try_enqueue st r c t l g a :
      bq_step (BqSys st (ProdDone r) c t l g) (BqSys st (ProdInner (EnqStart a)) c t l g)
  | step_bq_try_enqueue st pc pc' st' c t l g :
      prod_done pc = false -> prod_step pc st = Ret (pc', st') ->
      bq_step (BqSys st pc c t l g) (BqSys st' pc' c t (l ++ prod_accepted pc pc') g)
  | call_wait_dequeue st p r t t' l g :
      bq_step (BqSys st p (ConsDone r) t l g) (BqSys st p ConsTry t' l g)
  | step_consumer s s' : cons_sys_step s s' -> bq_step s s'.

Definition bq_init (st : bqueue T) : bq_sys T := BqSys st (ProdDone true) (ConsDone None) 0 [] [].
End bq_sys.

(** ** The invariant

    What the semaphore counts: the objects in the queue, less the one just
    enqueued and not signalled yet, the one the consumer has been granted and
    not taken yet, and the one it waits for. *)
Section invariant.
Context {T : Type} (B N : nat).
Implicit Types (s : bq_sys T).

Definition unsignalled (pc : prod_pc T) : Z := match pc with ProdSignal => 1 | _ => 0 end.
Definition unposted (pc : prod_pc T) : nat := match pc with ProdPost => 1 | _ => 0 end.
Definition granted (pc : cons_pc T) : Z := match pc with ConsInner _ => 1 | _ => 0 end.
Definition waiting (pc : cons_pc T) : Z :=
  match pc with ConsSema | ConsRestore | ConsTryWait => 1 | _ => 0 end.

(** The wake-up that is on its way to the consumer. *)
Definition owed (pc : cons_pc T) (count : Z) : nat :=
  match pc with
  | ConsSema | ConsRestore | ConsTryWait => if (0 <=? count)%Z then 1 else 0
  | ConsRetry => 1
  | _ => 0
  end.
Definition least_count (pc : cons_pc T) : Z :=
  match pc with
  | ConsSema | ConsRestore => -1
  | ConsTake | ConsRetry => 1
  | _ => 0
  end.

Definition inner_skip (pc : prod_pc T) : option nat := match pc with ProdInner pc => skip_of pc | _ => None end.
Definition inner_prod_ok (q : rwqueue T) (pc : prod_pc T) : Prop :=
  match pc with ProdInner pc => prod_ok B q pc /\ enq_done pc = false | _ => True end.
Definition inner_cons_ok (q : rwqueue T) (pc : cons_pc T) : Prop :=
  match pc with ConsInner pc => cons_ok q pc false /\ deq_done pc = false | _ => True end.

Record bq_ok s : Prop := {
  bo_shape : shape B (inner (bq s)) (inner_skip (b_prod s));
  bo_blocks : n_blocks (inner (bq s)) = N;
  bo_prod : inner_prod_ok (inner (bq s)) (b_prod s);
  bo_cons : inner_cons_ok (inner (bq s)) (b_cons s);
  bo_history : b_sent s = b_got s ++ contents (inner (bq s));
  bo_count : (m_count (bq s) = Z.of_nat (length (contents (inner (bq s))))
    - unsignalled (b_prod s) - granted (b_cons s) - waiting (b_cons s))%Z;
  bo_least : (least_count (b_cons s) <= m_count (bq s))%Z;
  bo_sema : (m_sema (bq s) + unposted (b_prod s) = owed (b_cons s) (m_count (bq s)))%nat;
}.

Hypothesis HB : (1 < B)%nat.
Hypothesis Hsmall : (Z.of_nat (N * B) < 2 ^ 62)%Z.

Lemma count_bound s : bq_ok s -> (-1 <= m_count (bq s) < 2 ^ 62)%Z.
Proof.
  intros [H1 H2 _ _ _ H6 H7 _]. pose proof (contents_bound B _ _ H1) as Hc. rewrite H2 in Hc.
  split; [|destruct (b_prod s), (b_cons s); cbn -[Z.pow] in *; nia].
  destruct (b_cons s); cbn -[Z.pow] in *; lia.
Qed.

Ltac bq_fields := cbn [bq b_prod b_cons b_timeout b_sent b_got inner m_count m_sema with_inner fetch_add sem_post
  sem_take unsignalled unposted granted waiting owed least_count inner_skip inner_prod_ok inner_cons_ok
  prod_accepted cons_returned bq_init] in *.

(** A step that keeps the inner queue, its call and the histories. *)
Lemma bq_ok_sema q c k p pc t l g c' k' p' pc' t' :
  bq_ok (BqSys (BQueue q c k) p pc t l g) ->
  inner_skip p' = inner_skip p -> inner_prod_ok q p' -> inner_cons_ok q pc' ->
  (c' + unsignalled p' + granted pc' + waiting pc' = c + unsignalled p + granted pc + waiting pc)%Z ->
  (least_count pc' <= c')%Z -> (k' + unposted p' = owed pc' c')%nat ->
  bq_ok (BqSys (BQueue q c' k') p' pc' t' l g).
Proof.
  clear HB Hsmall.
  intros [H1 H2 H3 H4 H5 H6 H7 H8] Hsk Hp Hc Hn Hl Hk. bq_fields.
  split; bq_fields; try done; [by rewrite Hsk|lia].
Qed.

(** The producer's steps. *)
Lemma prod_inner_ok q c k e pc t l g :
  bq_ok (BqSys (BQueue q c k) (ProdInner e) pc t l g) ->
  exists pc' st', prod_step (ProdInner e) (BQueue q c k) = Ret (pc', st') /\
    bq_ok (BqSys st' pc' pc t (l ++ prod_accepted (ProdInner e) pc') g).
Proof.
  intros Hok. pose proof (count_bound _ Hok) as Hb. destruct Hok as [H1 H2 [H3 Hd] H4 H5 H6 H7 H8]. bq_fields.
  destruct (enq_step_ok B q e HB H1 H3) as (e' & q' & E & Hs & Hp & Hv & Hc).
  destruct (enq_step_left _ _ _ _ Hd E) as [_ Ha].
  cbn [prod_step inner]. rewrite E. cbn [mbind outcome_bind]. eexists _, _. split; [done|].
  assert (inner_cons_ok q' pc) as Hcons.
  { destruct pc; try done. destruct H4 as [H4 Hd4]. split; [|done]. exact (cons_ok_view B _ _ _ _ _ H1 Hv H4). }
  rewrite <- Ha in Hc. destruct (enq_done e') eqn:He'.
  - destruct e' as [| | | | | | | | |[]]; try done; cbn [accepted] in Hc; split; bq_fields; try done.
    + by rewrite (cv_n _ _ Hv).
    + by rewrite Hc, H5, app_assoc.
    + rewrite Hc, length_app. destruct e; try done; cbn [element_of length]; lia.
    + by rewrite (cv_n _ _ Hv).
    + by rewrite app_nil_r in *; rewrite Hc.
    + by rewrite Hc, app_nil_r.
  - assert (contents q' = contents q) as Hcq by (rewrite Hc; destruct e'; try done; by rewrite app_nil_r).
    assert (forall pc', pc' = ProdInner e' -> bq_ok (BqSys (with_inner q' (BQueue q c k)) pc' pc t (l ++ prod_accepted (ProdInner e) pc') g)) as H.
    { intros ? ->. split; bq_fields; try done; [by rewrite (cv_n _ _ Hv)|by rewrite app_nil_r, Hcq|by rewrite Hcq]. }
    apply H. by destruct e'.
Qed.

Lemma prod_step_ok st p pc t l g : bq_ok (BqSys st p pc t l g) ->
  exists p' st', prod_step p st = Ret (p', st') /\ bq_ok (BqSys st' p' pc t (l ++ prod_accepted p p') g).
Proof.
  intros Hok. destruct st as [q c k]. destruct p as [e| | |r]; [by apply prod_inner_ok|..]; cbn [prod_step prod_accepted]; unfold signal;
    rewrite app_nil_r; pose proof (count_bound _ Hok) as Hb; pose proof (bo_least _ Hok) as Hl;
    pose proof (bo_sema _ Hok) as Hk; pose proof (bo_cons _ Hok) as Hc; bq_fields.
  - rewrite (proj2 (Z.leb_le (-1) c)) by lia. eexists _, _. split; [done|].
    unfold fetch_add. bq_fields. rewrite s64_small by lia.
    destruct (Z.ltb_spec c 0); eapply bq_ok_sema; try done; bq_fields; try lia;
      destruct pc; bq_fields; try lia; repeat case_match; lia.
  - eexists _, _. split; [done|]. unfold sem_post. bq_fields. eapply bq_ok_sema; try done; bq_fields; lia.
  - eexists _, _. split; [done|]. done.
Qed.

(** A refusal: every block but one is full. *)
Lemma prod_refused st p pc t l g st' :
  bq_ok (BqSys st p pc t l g) -> prod_done p = false -> prod_step p st = Ret (ProdDone false, st') ->
  ((N - 1) * (B - 1) <= length (contents (inner st)))%nat.
Proof.
  clear HB Hsmall. intros Hok Hd E. destruct p as [e| | |]; cbn in E; unfold signal in *; simplify_eq; try (by repeat case_match).
  destruct (enq_step e (inner st)) as [[e' q']| |] eqn:Ee; try done. cbn in E.
  destruct e' as [| | | | | | | | |[]]; simplify_eq.
  destruct Hok as [H1 H2 [H3 H3'] _ _ _ _ _]. cbn [bq b_prod inner_skip inner_prod_ok] in *.
  assert (exists a tb, e = EnqFull a tb) as (a & tb & ->).
  { destruct e; try done; step_cases Ee. by eexists _, _. }
  rewrite <- H2. exact (enq_refused B _ a tb q' H1 H3 Ee).
Qed.

(** The consumer's steps. *)
Lemma granted_nonempty q c k p pc t l g :
  bq_ok (BqSys (BQueue q c k) p (ConsInner pc) t l g) -> contents q <> [].
Proof.
  intros [_ _ _ _ _ H6 H7 _] Hc. bq_fields. rewrite Hc in H6. destruct p; cbn in *; lia.
Qed.

Lemma cons_inner_ok q c k p pc t l g timed_out :
  bq_ok (BqSys (BQueue q c k) p (ConsInner pc) t l g) ->
  exists pc' st', cons_step t timed_out (ConsInner pc) (BQueue q c k) = Ret (pc', st') /\
    bq_ok (BqSys st' p pc' t l (g ++ cons_returned pc')) /\
    contents q = cons_returned pc' ++ contents (inner st') /\
    match pc' with ConsInner pc' => (deq_left pc' < deq_left pc)%nat | ConsDone r => is_Some r | _ => False end.
Proof.
  intros Hok. pose proof (granted_nonempty _ _ _ _ _ _ _ _ Hok) as Hne.
  pose proof (count_bound _ Hok) as Hb. destruct Hok as [H1 H2 H3 [H4 Hd] H5 H6 H7 H8]. bq_fields.
  destruct (deq_step_ok B q _ pc false H1 H4) as (pc' & q' & E & Hs & Hp & Hv & Hc).
  destruct (deq_step_left _ _ _ _ Hd E) as [Hl Ha].
  assert (false || empty_now q = false) as He by (unfold empty_now; by destruct (contents q)).
  rewrite He in Hp. rewrite <- Ha in Hc. cbn [cons_step inner]. rewrite E. cbn [mbind outcome_bind].
  assert (inner_prod_ok q' p) as Hprod.
  { destruct p; try done. destruct H3 as [H3 He3]. split; [|done]. exact (prod_ok_view B _ _ _ Hv H3). }
  destruct (deq_done pc') eqn:Hd'.
  - destruct pc' as [| | | | | | | |[a|]]; try done; [|by specialize (Hp eq_refl)].
    eexists _, _. split_and!; [done| |done|by eexists]. cbn [returned app] in Hc.
    split; bq_fields; try done.
    + by rewrite (pv_n B _ _ Hv).
    + by rewrite <- app_assoc, H5, Hc.
    + rewrite Hc in H6. cbn [length] in H6. lia.
  - assert (contents q' = contents q) as Hcq by (rewrite Hc; by destruct pc').
    assert (forall x, x = ConsInner pc' -> bq_ok (BqSys (with_inner q' (BQueue q c k)) p x t l (g ++ cons_returned x))
      /\ contents q = cons_returned x ++ contents q' /\
      match x with ConsInner pc' => (deq_left pc' < deq_left pc)%nat | ConsDone r => is_Some r | _ => False end) as H.
    { intros ? ->. split_and!; [|done|done]. split; bq_fields; try done;
        [by rewrite (pv_n B _ _ Hv)|by rewrite app_nil_r, Hcq|by rewrite Hcq]. }
    exists (ConsInner pc'), (with_inner q' (BQueue q c k)). split; [by destruct pc'|]. by apply H.
Qed.

(** A consumer that is not inside the inner queue. *)
Lemma cons_sema_ok q c k p pc t l g timed_out :
  bq_ok (BqSys (BQueue q c k) p pc t l g) -> (forall pc', pc <> ConsInner pc') ->
  exists pc' st', cons_step t timed_out pc (BQueue q c k) = Ret (pc', st') /\
    bq_ok (BqSys st' p pc' t l g) /\ inner st' = q /\ (cons_done pc = false -> cons_returned pc' = []).
Proof.
  intros Hok Hpc. pose proof (count_bound _ Hok) as Hb. pose proof (bo_least _ Hok) as Hl.
  pose proof (bo_sema _ Hok) as Hk. pose proof (bo_prod _ Hok) as Hp. bq_fields.
  destruct pc as [|[|spin]| | | | | |pc|r]; cbn [cons_step]; unfold fetch_add, sem_take; bq_fields;
    rewrite ?s64_small by lia; [..|by destruct (Hpc pc)|by eexists _, _].
  all: repeat match goal with |- context [match ?n with O => _ | S _ => _ end] => is_var n; destruct n end.
  all: eexists _, _; (split; [done|]).
  all: split; [|split; [done|by repeat case_match]].
  all: repeat case_match; (eapply bq_ok_sema; [done|done|done|done|..]); bq_fields;
    repeat case_match; rewrite ?Z.ltb_lt, ?Z.ltb_ge, ?Z.leb_le, ?Z.leb_gt in *; lia.
Qed.

Lemma cons_inner_dec (pc : cons_pc T) : (exists e, pc = ConsInner e) \/ forall e, pc <> ConsInner e.
Proof. destruct pc; try (right; discriminate). left. by eexists. Qed.

(** How far a consumer is from its object, when there is one and the producer
    has nothing left to do. *)
Definition cons_left (pc : cons_pc T) : nat :=
  match pc with
  | ConsInner pc => deq_left pc
  | ConsTake | ConsSema | ConsTryWait => 9
  | ConsTry | ConsSpin _ | ConsRetry => 10
  | ConsRestore => 11
  | ConsDone _ => 0
  end.

Lemma cons_step_ok st p pc t l g timed_out :
  bq_ok (BqSys st p pc t l g) ->
  exists pc' st', cons_step t timed_out pc st = Ret (pc', st') /\
    (cons_done pc = false -> bq_ok (BqSys st' p pc' t l (g ++ cons_returned pc')) /\
       contents (inner st) = cons_returned pc' ++ contents (inner st')).
Proof.
  intros Hok. destruct st as [q c k]. destruct (cons_inner_dec pc) as [[e ->]|Hne].
  - destruct (cons_inner_ok q c k p e t l g timed_out Hok) as (pc' & st' & H1 & H2 & H3 & _). by exists pc', st'.
  - destruct (cons_sema_ok q c k p pc t l g timed_out Hok Hne) as (pc' & st' & H1 & H2 & H3 & H4).
    exists pc', st'. split; [done|]. intros Hd. rewrite H4, app_nil_r by done. by rewrite H3.
Qed.

Lemma cons_sys_step_ok s s' : cons_sys_step s s' -> bq_ok s -> bq_ok s'.
Proof.
  intros [st p pc pc' st' t l g b Hd E] Hok. destruct (cons_step_ok st p pc t l g b Hok) as (pc1 & st1 & E1 & H).
  rewrite E in E1. injection E1 as <- <-. by apply H.
Qed.

Lemma bq_step_ok s s' : bq_step s s' -> bq_ok s -> bq_ok s'.
Proof.
  intros [st r c t l g a|st pc pc' st' c t l g Hd E|st p r t t' l g|? ? Hc] Hok.
  - destruct st as [q n k]. eapply bq_ok_sema; try done; try (destruct Hok; bq_fields; lia). by destruct Hok.
  - destruct (prod_step_ok st pc c t l g Hok) as (pc1 & st1 & E1 & H). rewrite E in E1. by injection E1 as <- <-.
  - destruct st as [q n k]. eapply bq_ok_sema; try done; try (destruct Hok; bq_fields; lia). by destruct Hok.
  - by eapply cons_sys_step_ok.
Qed.

(** A consumer alone, with an object to take. *)
Lemma cons_progress st p pc pc' t b st' l g :
  bq_ok (BqSys st p pc t l g) -> prod_done p = true -> contents (inner st) <> [] ->
  cons_done pc = false -> cons_step t b pc st = Ret (pc', st') ->
  (cons_left pc' < cons_left pc)%nat /\ (cons_done pc' = true -> cons_returned pc' <> []).
Proof.
  intros Hok Hp Hne Hd E. destruct st as [q c k]. destruct (cons_inner_dec pc) as [[e ->]|Hpc].
  - destruct (cons_inner_ok q c k p e t l g b Hok) as (pc1 & st1 & E1 & _ & _ & Hm).
    rewrite E in E1. injection E1 as <- <-. destruct pc'; try done. destruct Hm as [a ->]. split; [|done].
    pose proof (bo_cons _ Hok) as [_ He]. bq_fields. destruct e; try done; cbn; lia.
  - pose proof (bo_count _ Hok) as Hc. pose proof (bo_sema _ Hok) as Hk. bq_fields.
    assert (0 < Z.of_nat (length (contents q)))%Z as Hlen by (destruct (contents q); [done|cbn; lia]).
    destruct p; try done. bq_fields.
    destruct pc as [|[|n]| | | | | |e|r]; bq_fields; try done; try (by destruct (Hpc e)); cbn [cons_step m_count m_sema] in E; simplify_eq;
      repeat case_match; simplify_eq; rewrite ?Z.ltb_lt, ?Z.ltb_ge, ?Z.leb_le, ?Z.leb_gt in *; cbn [cons_left deq_left] in *;
      try lia; (split; [lia|done]).
Qed.

Definition held s : list T := contents (inner (bq s)).

Lemma cons_run_ok n s s' :
  bq_ok s -> prod_done (b_prod s) = true -> held s <> [] -> cons_done (b_cons s) = false ->
  nsteps cons_sys_step n s s' ->
  (n + cons_left (b_cons s') <= cons_left (b_cons s))%nat /\ bq_ok s' /\
  (cons_done (b_cons s') = false \/ exists a, b_cons s' = ConsDone (Some a) /\ held s = a :: held s').
Proof.
  intros Hok Hp Hne Hd Hn. revert Hok Hp Hne Hd. induction Hn as [s|n s s1 s' Hstep Hn IH]; intros Hok Hp Hne Hd.
  { split_and!; [lia|done|by left]. }
  pose proof (cons_sys_step_ok _ _ Hstep Hok) as Hok1.
  destruct Hstep as [st p pc pc' st' t l g b Hd' E].
  destruct (cons_progress st p pc pc' t b st' l g) as [Hl Hr]; try done.
  destruct (cons_step_ok st p pc t l g b Hok) as (pc1 & st1 & E1 & H).
  rewrite E in E1. injection E1 as <- <-. destruct (H Hd) as [_ Hc]. clear H.
  unfold held in *. cbn [bq b_prod b_cons inner] in *. destruct (cons_done pc') eqn:Hpc'.
  - assert (n = 0)%nat as -> by (inversion Hn as [|? ? ? ? Hs]; [done|]; inversion Hs; congruence).
    inversion Hn; subst. cbn [b_cons bq]. destruct pc' as [| | | | | | | |[a|]]; try done; [|by destruct (Hr eq_refl)].
    split_and!; [cbn [cons_left] in *; lia|done|]. right. by exists a.
  - assert (contents (inner st) = contents (inner st')) as Hcc by (rewrite Hc; by destruct pc').
    destruct IH as (H1 & H2 & H3); try done; [by rewrite <- Hcc|].
    split_and!; [lia|done|]. by rewrite Hcc.
Qed.
End invariant.

(** ** Calls that run alone *)
Section alone.
Context {T : Type}.
Implicit Types (st : bqueue T).

Fixpoint prod_run (fuel : nat) (pc : prod_pc T) st : outcome (bool * bqueue T) :=
  match pc with
  | ProdDone r => Ret (r, st)
  | _ => match fuel with
         | O => Undef
         | S fuel => '(pc, st) ← prod_step pc st; prod_run fuel pc st
         end
  end.

(** Time passes: a consumer that sleeps is at its deadline. *)
Fixpoint cons_run (fuel : nat) (timeout_usecs : Z) (pc : cons_pc T) st : outcome (option T * bqueue T) :=
  match pc with
  | ConsDone r => Ret (r, st)
  | _ => match fuel with
         | O => Undef
         | S fuel => '(pc, st) ← cons_step timeout_usecs true pc st; cons_run fuel timeout_usecs pc st
         end
  end.

Definition bq_try_enqueue (a : T) st := prod_run 9 (ProdInner (EnqStart a)) st.
Definition bq_wait_dequeue_timed (timeout_usecs : Z) st := cons_run 1040 timeout_usecs ConsTry st.

Definition prod_left (pc : prod_pc T) : nat :=
  match pc with ProdInner e => enq_left e + 2 | ProdSignal => 2 | ProdPost => 1 | ProdDone _ => 0 end.
Definition prod_element (pc : prod_pc T) : list T :=
  match pc with ProdInner e => element_of e | _ => [] end.

Context (B N : nat) (HB : (1 < B)%nat) (Hsmall : (Z.of_nat (N * B) < 2 ^ 62)%Z).

Definition at_rest st : Prop := bq_ok B N (BqSys st (ProdDone true) (ConsDone None) 0 (contents (inner st)) []).

Lemma at_rest_intro st t l g r x : bq_ok B N (BqSys st (ProdDone r) (ConsDone x) t l g) -> at_rest st.
Proof. intros [H1 H2 H3 H4 H5 H6 H7 H8]. by split. Qed.

Lemma prod_step_left p st p' st' : inner_prod_ok B (inner st) p -> prod_done p = false ->
  prod_step p st = Ret (p', st') ->
  (prod_left p' < prod_left p)%nat /\
  match p' with
  | ProdInner e => prod_element p = element_of e
  | ProdSignal => prod_accepted p p' = prod_element p
  | ProdPost => prod_element p = []
  | ProdDone r => r = true -> prod_element p = []
  end.
Proof.
  intros Hp Hd E. destruct p as [e| | |]; try done; cbn [prod_step] in E; unfold signal in E.
  - destruct Hp as [_ Hd']. destruct (enq_step e (inner st)) as [[e' q']| |] eqn:Ee; try done.
    destruct (enq_step_left _ _ _ _ Hd' Ee) as [Hl _]. cbn [mbind outcome_bind] in E.
    destruct e'; simplify_eq; try (cbn [prod_left enq_left] in *; split; [lia|]; by destruct e; try done; step_cases Ee).
    destruct result; simplify_eq; (split; [cbn [prod_left]; lia|done]).
  - repeat case_match; simplify_eq; (split; [cbn; lia|done]).
  - simplify_eq. split; [cbn; lia|done].
Qed.

Lemma signal_run fuel st r st' : prod_run fuel ProdSignal st = Ret (r, st') -> r = true.
Proof.
  destruct fuel as [|fuel]; [done|]. cbn [prod_run prod_step]. unfold signal.
  destruct (-1 <=? m_count st)%Z; [|done]. cbn [mbind outcome_bind]. destruct (m_count st <? 0)%Z.
  - destruct fuel as [|[|fuel]]; cbn [prod_run prod_step mbind outcome_bind]; congruence.
  - destruct fuel as [|fuel]; cbn [prod_run]; congruence.
Qed.

Lemma prod_run_ok fuel p st pc t l g :
  bq_ok B N (BqSys st p pc t l g) -> (prod_left p <= fuel)%nat ->
  exists r st', prod_run fuel p st = Ret (r, st') /\
    bq_ok B N (BqSys st' (ProdDone r) pc t (l ++ (if r then prod_element p else [])) g) /\
    (prod_done p = false -> r = false -> ((N - 1) * (B - 1) <= length (contents (inner st)))%nat).
Proof.
  revert p st l. induction fuel as [|fuel IH]; intros p st l Hok Hf;
    (destruct (prod_done p) eqn:Hd;
     [destruct p; try done; exists result, st; destruct result; rewrite app_nil_r; done|]).
  { destruct p; cbn in Hf; try lia; done. }
  destruct (prod_step_ok B N HB Hsmall st p pc t l g Hok) as (p' & st' & E & Hok').
  destruct (prod_step_left p st p' st' (bo_prod _ _ _ Hok) Hd E) as [Hl Hm].
  destruct (IH p' st' _ Hok') as (r & st2 & E2 & Hok2 & Hfull); [lia|]. exists r, st2.
  assert (prod_run (S fuel) p st = prod_run fuel p' st') as -> by (destruct p; try done; cbn [prod_run]; by rewrite E).
  split; [done|]. rewrite <- app_assoc in Hok2. split; cycle 1.
  { intros _ ->. destruct (prod_done p') eqn:Hd'.
    - destruct p'; try done. assert (result = false) as -> by (destruct fuel; cbn [prod_run] in E2; congruence).
      by eapply prod_refused.
    - assert (prod_accepted p p' = []) as Ha.
      { destruct p'; try done; [by destruct p|by apply signal_run in E2|by destruct p]. }
      pose proof (bo_history _ _ _ Hok) as Hh. pose proof (bo_history _ _ _ Hok') as Hh'.
      rewrite Ha, app_nil_r in Hh'. cbn [b_sent b_got bq] in Hh, Hh'. rewrite Hh in Hh'. simplify_list_eq.
      rewrite Hh'. by apply Hfull. }
  assert (prod_accepted p p' ++ (if r then prod_element p' else []) = if r then prod_element p else []) as <-; [|done].
  destruct p' as [e| | |r']; cbn [prod_element] in *.
  - rewrite Hm. by destruct p, r.
  - apply signal_run in E2 as ->. by rewrite app_nil_r.
  - rewrite Hm. by destruct p, r.
  - assert (r' = r) as -> by (destruct fuel; cbn [prod_run] in E2; congruence).
    assert (prod_accepted p (ProdDone r) = []) as -> by (by destruct p).
    destruct r; [by rewrite Hm|done].
Qed.

Lemma cons_run_step fuel t pc st : cons_done pc = false ->
  cons_run (S fuel) t pc st = ('(pc, st) ← cons_step t true pc st; cons_run fuel t pc st).
Proof. by destruct pc. Qed.

Lemma cons_run_some fuel p pc st t l g :
  bq_ok B N (BqSys st p pc t l g) -> prod_done p = true -> contents (inner st) <> [] ->
  cons_done pc = false -> (cons_left pc <= fuel)%nat ->
  exists a st', cons_run fuel t pc st = Ret (Some a, st') /\
    contents (inner st) = a :: contents (inner st') /\
    bq_ok B N (BqSys st' p (ConsDone (Some a)) t l (g ++ [a])).
Proof.
  revert pc st. induction fuel as [|fuel IH]; intros pc st Hok Hp Hne Hd Hf.
  { destruct pc as [| | | | | | |[]|]; cbn in Hf; try lia; try done. by destruct (bo_cons _ _ _ Hok). }
  destruct (cons_step_ok B N HB Hsmall st p pc t l g true Hok) as (pc' & st' & E & H). destruct (H Hd) as [Hok' Hc].
  destruct (cons_progress B N HB Hsmall st p pc pc' t true st' l g Hok Hp Hne Hd E) as [Hl Hr].
  rewrite cons_run_step, E by done. cbn [mbind outcome_bind]. destruct (cons_done pc') eqn:Hd'.
  - destruct pc' as [| | | | | | | |[a|]]; try done; [|by destruct (Hr eq_refl)]. exists a, st'.
    by destruct fuel.
  - assert (cons_returned pc' = []) as Hret by (by destruct pc'). rewrite Hret in *. rewrite app_nil_r in Hok'.
    cbn [app] in Hc. rewrite Hc. apply IH; try done; [by rewrite <- Hc|lia].
Qed.

(** An empty queue: the spin and the sleep come to nothing, the count is
    restored. *)
Lemma cons_run_empty n q t fuel : (0 < t)%Z -> (n + 3 <= fuel)%nat ->
  cons_run fuel t (ConsSpin n) (BQueue q 0 0) = Ret (None, BQueue q 0 0).
Proof.
  intros Ht. revert fuel. induction n as [|n IH]; intros [|fuel] Hf; try lia; rewrite cons_run_step by done.
  - cbn [cons_step mbind outcome_bind m_count]. rewrite (proj2 (Z.eqb_neq t 0)) by lia. unfold fetch_add at 1.
    cbn [inner m_count m_sema Z.ltb Z.compare]. destruct fuel as [|fuel]; [lia|]. rewrite cons_run_step by done.
    cbn [cons_step mbind outcome_bind m_sema]. rewrite (proj2 (Z.ltb_lt 0 t)) by lia. cbn [andb].
    destruct fuel as [|fuel]; [lia|]. rewrite cons_run_step by done. by destruct fuel.
  - cbn [cons_step mbind outcome_bind m_count Z.ltb Z.compare]. apply IH. lia.
Qed.

(** [try_enqueue] appends, or refuses; [wait_dequeue_timed] takes the oldest
    object, or times out on an empty queue. *)
Lemma bq_try_enqueue_ok a st : at_rest st ->
  exists r st', bq_try_enqueue a st = Ret (r, st') /\ at_rest st' /\
    contents (inner st') = contents (inner st) ++ (if r then [a] else []) /\
    (r = false -> ((N - 1) * (B - 1) <= length (contents (inner st)))%nat).
Proof.
  intros Hok. destruct st as [q c k].
  assert (bq_ok B N (BqSys (BQueue q c k) (ProdInner (EnqStart a)) (ConsDone None) 0 (contents q) [])) as Hok1.
  { eapply bq_ok_sema; [exact Hok|done|done|done|done| |]; destruct Hok; cbn in *; lia. }
  destruct (prod_run_ok 9 _ _ _ _ _ _ Hok1) as (r & st' & E & Hok2 & Hfull); [cbn; lia|].
  exists r, st'. split_and!; [done|by eapply at_rest_intro| |by apply Hfull].
  symmetry. exact (bo_history _ _ _ Hok2).
Qed.

Lemma bq_wait_dequeue_ok t st : (0 < t)%Z -> at_rest st ->
  exists r st', bq_wait_dequeue_timed t st = Ret (r, st') /\ at_rest st' /\
    contents (inner st) = option_list r ++ contents (inner st') /\ (r = None -> contents (inner st) = []).
Proof.
  intros Ht Hok. destruct st as [q c k].
  assert (bq_ok B N (BqSys (BQueue q c k) (ProdDone true) ConsTry t (contents q) [])) as Hok1.
  { eapply bq_ok_sema; [exact Hok|done|done|done|done| |]; destruct Hok; cbn in *; lia. }
  unfold bq_wait_dequeue_timed. destruct (contents q) as [|a l] eqn:Hq.
  - pose proof (bo_count _ _ _ Hok) as Hc. pose proof (bo_sema _ _ _ Hok) as Hk.
    cbn [bq m_count m_sema inner b_prod b_cons unsignalled granted waiting unposted owed] in Hc, Hk.
    rewrite Hq in Hc. cbn in Hc. assert (k = 0%nat) as -> by lia. subst c.
    exists None, (BQueue q 0 0). split_and!; [|done|done|done].
    rewrite (cons_run_step 1039) by done. cbn [cons_step mbind outcome_bind m_count Z.ltb Z.compare].
    apply cons_run_empty; [done|lia].
  - destruct (cons_run_some 1040 _ _ _ _ _ _ Hok1) as (b & st' & E & Hc & Hok2); try done; [cbn [inner]; by rewrite Hq|cbn; lia|].
    exists (Some b), st'. split_and!; [done|by eapply at_rest_intro|exact Hc|done].
Qed.
End alone.

(** ** Properties *)
Section running.
Context {T : Type} (j size : Z) (mem : nat -> bool) (st0 : bqueue T) (s : bq_sys T).
Hypothesis Hj : (0 < j < 31)%Z.
Hypothesis Hsize : (1 <= size < 2 ^ 60)%Z.
Hypothesis Hst0 : BlockingReaderWriterQueue (2 ^ j) size mem = Ret st0.
Hypothesis Hs : rtc bq_step (bq_init st0) s.

Lemma bq_running_ok : exists k N, (0 < k)%nat /\ (Z.of_nat (N * 2 ^ k) < 2 ^ 62)%Z /\ bq_ok (2 ^ k) N s /\
  (N = 1%nat /\ (size < 2 ^ j * 2)%Z \/ (size <= Z.of_nat ((N - 1) * (2 ^ k - 1)))%Z).
Proof.
  unfold BlockingReaderWriterQueue in Hst0.
  destruct (ReaderWriterQueue (2 ^ j) size mem) as [q0| |] eqn:Hq0; try done. injection Hst0 as <-.
  destruct (ReaderWriterQueue_ok j size mem q0 Hj Hsize Hq0) as (k & Hk & Hsh & Hc & Hsm & Hroom).
  exists k, (n_blocks q0). split_and!; [done|done| |by destruct Hroom as [(? & ? & _)|]; auto].
  revert Hs. revert s. apply (rtc_ind_r (fun s => bq_ok (2 ^ k) (n_blocks q0) s)).
  - split; cbn [bq_init bq b_prod b_cons b_sent b_got inner m_count m_sema]; try done; by rewrite Hc.
  - intros s1 s2 _ Hstep IH. eapply bq_step_ok; try done. by apply pow2_gt_1.
Qed.

(** C14: in every interleaving, what the queue accepted is what the calls of
    [wait_dequeue_timed] gave, in the same order, and then what it holds; no
    assertion of the queue or of the semaphore fails (an object is there
    whenever the semaphore grants one); and the counts stay in their range. *)
Theorem bqueue_safe :
  b_sent s = b_got s ++ held s /\
  (exists r, prod_step (b_prod s) (bq s) = Ret r) /\
  (forall timed_out, exists r, cons_step (b_timeout s) timed_out (b_cons s) (bq s) = Ret r) /\
  (-1 <= m_count (bq s) <= Z.of_nat (length (held s)))%Z /\ (m_sema (bq s) <= 1)%nat.
Proof.
  destruct bq_running_ok as (k & N & Hk & Hsm & Hok & _). pose proof (pow2_gt_1 k Hk) as HB.
  split_and!.
  - by apply (bo_history _ _ _ Hok).
  - clear Hs. destruct s as [st p pc t l g]. destruct (prod_step_ok _ _ HB Hsm _ _ _ _ _ _ Hok) as (? & ? & H & _).
    cbn [b_prod bq]. rewrite H. by eexists.
  - intros b. clear Hs. destruct s as [st p pc t l g].
    destruct (cons_step_ok _ _ HB Hsm _ _ _ _ _ _ b Hok) as (? & ? & H & _). cbn [b_timeout b_cons bq]. rewrite H. by eexists.
  - by apply (count_bound _ _ HB Hsm).
  - rewrite (bo_count _ _ _ Hok). unfold held. destruct (b_prod s), (b_cons s); cbn [unsignalled granted waiting]; lia.
  - pose proof (bo_sema _ _ _ Hok) as H. destruct (b_cons s); cbn [owed] in H; repeat case_match; lia.
Qed.

(** C15: no wake-up is lost: when an object is held and the producer is not
    in the middle of a call, a consumer that waits, sleeps or has just run out
    of time ends its call within eleven of its own steps, with the oldest
    object, whatever the clock says. *)
Theorem bqueue_wakes n s' :
  prod_done (b_prod s) = true -> held s <> [] -> cons_done (b_cons s) = false -> nsteps cons_sys_step n s s' ->
  (n <= 11)%nat /\
  (if cons_done (b_cons s') then exists a, b_cons s' = ConsDone (Some a) /\ held s = a :: held s'
   else exists s'', cons_sys_step s' s'').
Proof.
  intros Hp Hne Hd Hn. destruct bq_running_ok as (k & N & Hk & Hsm & Hok & _). pose proof (pow2_gt_1 k Hk) as HB.
  destruct (cons_run_ok _ _ HB Hsm n s s' Hok Hp Hne Hd Hn) as (H1 & H2 & H3).
  assert (cons_left (b_cons s) <= 11)%nat by (destruct (b_cons s) as [| | | | | | |[]|]; cbn; lia).
  split; [lia|]. destruct (cons_done (b_cons s')) eqn:Hd'; [by destruct H3|]. clear H1 H3 Hn.
  destruct s' as [st p pc t l g]. destruct (cons_step_ok _ _ HB Hsm _ _ _ _ _ _ false H2) as (x & x0 & Hst & _).
  eexists. by eapply (step_wait_dequeue st p pc x x0 t l g false).
Qed.

(** [wait_dequeue_timed] times out only when every object whose
    [try_enqueue] has returned is out of the queue. *)
Theorem bqueue_timeout_empty s' :
  cons_sys_step s s' -> b_cons s' = ConsDone None ->
  held s = [] \/ (b_prod s = ProdSignal /\ length (held s) = 1%nat).
Proof.
  intros Hstep Hnone. destruct bq_running_ok as (k & N & Hk & Hsm & Hok & _). pose proof (pow2_gt_1 k Hk) as HB.
  destruct Hstep as [st p pc pc' st' t l g b Hd E]. cbn [b_cons] in Hnone. subst pc'.
  pose proof (bo_count _ _ _ Hok) as Hc. pose proof (count_bound _ _ HB Hsm _ Hok) as Hb.
  unfold held. cbn [bq b_prod b_cons inner] in *.
  assert (pc = ConsRestore /\ (m_count st < 0)%Z) as [-> Hneg].
  { destruct pc as [|[]| | | | | |e|]; cbn in E; simplify_eq; repeat case_match; simplify_eq; try done.
    - split; [done|lia].
    - destruct (deq_step e (inner st)) as [[pc' q']| |]; try done. cbn in E. by destruct pc' as [| | | | | | | |[]]. }
  cbn [granted waiting] in Hc. destruct p; cbn [unsignalled] in Hc;
    [left|right; split; [done|lia]|left|left]; apply length_zero_iff_nil; lia.
Qed.

(** [try_enqueue] reports a full queue only while at least the [size]
    objects the queue was made for are pending (for a size that needs more
    than one block, as [MSG_QUEUE_SIZE] does). *)
Theorem bqueue_capacity s' :
  (2 ^ j * 2 <= size)%Z -> bq_step s s' -> prod_done (b_prod s) = false -> b_prod s' = ProdDone false ->
  (size <= Z.of_nat (length (held s)))%Z.
Proof.
  intros Hbig Hstep Hd Hd'. destruct bq_running_ok as (k & N & Hk & Hsm & Hok & Hroom).
  destruct Hroom as [[_ ?]|Hroom]; [lia|].
  destruct Hstep as [|st p pc' st' c t l g Hp E| |? ? [st p pc pc' st' t l g b Hc E]];
    cbn [b_prod] in *; try done; [|by subst|by subst].
  subst pc'. pose proof (prod_refused _ _ _ _ _ _ _ _ _ Hok Hp E) as Hl. unfold held. cbn [bq]. lia.
Qed.
End running.

(** ** Calls one after the other, and a bounded list *)
Inductive call (T : Type) := TryEnqueue (a : T) | WaitDequeue.
Inductive call_result (T : Type) := Enqueued (r : bool) | Dequeued (r : option T).
Arguments TryEnqueue {T}.
Arguments WaitDequeue {T}.
Arguments Enqueued {T}.
Arguments Dequeued {T}.

Section calls.
Context {T : Type} (timeout_usecs : Z).
Implicit Types (st : bqueue T).

Definition run_call (c : call T) st : outcome (call_result T * bqueue T) :=
  match c with
  | TryEnqueue a => '(r, st) ← bq_try_enqueue a st; Ret (Enqueued r, st)
  | WaitDequeue => '(r, st) ← bq_wait_dequeue_timed timeout_usecs st; Ret (Dequeued r, st)
  end.
Fixpoint run_calls (cs : list (call T)) st : outcome (list (call_result T) * bqueue T) :=
  match cs with
  | [] => Ret ([], st)
  | c :: cs => '(r, st) ← run_call c st; '(rs, st) ← run_calls cs st; Ret (r :: rs, st)
  end.

Inductive spec_call (size : Z) : list T -> call T -> call_result T -> list T -> Prop :=
  | spec_enqueue l a : spec_call size l (TryEnqueue a) (Enqueued true) (l ++ [a])
  | spec_refuse l a : (size <= Z.of_nat (length l))%Z -> spec_call size l (TryEnqueue a) (Enqueued false) l
  | spec_dequeue a l : spec_call size (a :: l) WaitDequeue (Dequeued (Some a)) l
  | spec_timeout : spec_call size [] WaitDequeue (Dequeued None) [].
Inductive spec_calls (size : Z) : list T -> list (call T) -> list (call_result T) -> list T -> Prop :=
  | spec_nil l : spec_calls size l [] [] l
  | spec_cons l c r l' cs rs l'' : spec_call size l c r l' -> spec_calls size l' cs rs l'' ->
      spec_calls size l (c :: cs) (r :: rs) l''.

Context (B N : nat) (HB : (1 < B)%nat) (Hsmall : (Z.of_nat (N * B) < 2 ^ 62)%Z) (Ht : (0 < timeout_usecs)%Z).

Lemma run_call_ok size c st : (size <= Z.of_nat ((N - 1) * (B - 1)))%Z -> at_rest B N st ->
  exists r st', run_call c st = Ret (r, st') /\ at_rest B N st' /\
    spec_call size (contents (inner st)) c r (contents (inner st')).
Proof.
  intros Hroom Hok. destruct c as [a|]; cbn [run_call].
  - destruct (bq_try_enqueue_ok B N HB Hsmall a st Hok) as (r & st' & E & Hok' & Hc & Hf). rewrite E.
    eexists _, _. split_and!; [done|done|]. rewrite Hc. destruct r; [constructor|]. rewrite app_nil_r. constructor.
    specialize (Hf eq_refl). lia.
  - destruct (bq_wait_dequeue_ok B N HB Hsmall _ st Ht Hok) as (r & st' & E & Hok' & Hc & Hn). rewrite E.
    eexists _, _. split_and!; [done|done|]. destruct r as [a|].
    + rewrite Hc. constructor.
    + assert (contents (inner st') = []) as Hc' by (rewrite <- (Hn eq_refl); symmetry; exact Hc).
      rewrite Hc', (Hn eq_refl). constructor.
Qed.

Lemma run_calls_ok size cs st : (size <= Z.of_nat ((N - 1) * (B - 1)))%Z -> at_rest B N st ->
  exists rs st', run_calls cs st = Ret (rs, st') /\ spec_calls size (contents (inner st)) cs rs (contents (inner st')).
Proof.
  intros Hroom. revert st. induction cs as [|c cs IH]; intros st Hok.
  { exists [], st. split; [done|constructor]. }
  destruct (run_call_ok size c st Hroom Hok) as (r & st1 & E1 & Hok1 & H1).
  destruct (IH st1 Hok1) as (rs & st2 & E2 & H2). exists (r :: rs), st2. split; [|by econstructor].
  cbn [run_calls]. rewrite E1. cbn [mbind outcome_bind]. by rewrite E2.
Qed.
End calls.

(** ** The interface of the clients *)
Section interface.
Context (T : Type) (timeout_usecs : Z) (Ht : (0 < timeout_usecs)%Z).

Definition rested (st : bqueue T) : Prop :=
  exists B N, (1 < B)%nat /\ (Z.of_nat (N * B) < 2 ^ 62)%Z /\ at_rest B N st.
Definition resting : Type := { st : bqueue T | rested st }.

Definition returned_or {A} (d : A) (o : outcome A) : A := match o with Ret a => a | _ => d end.
Definition call_enqueue (a : T) (st : bqueue T) : bool * bqueue T := returned_or (false, st) (bq_try_enqueue a st).
Definition call_dequeue (st : bqueue T) : option T * bqueue T :=
  returned_or (None, st) (bq_wait_dequeue_timed timeout_usecs st).

Lemma call_enqueue_ok a st : rested st -> rested (snd (call_enqueue a st)) /\
  contents (inner (snd (call_enqueue a st))) = contents (inner st) ++ (if fst (call_enqueue a st) then [a] else []).
Proof.
  intros (B & N & HB & Hsm & Hok). destruct (bq_try_enqueue_ok B N HB Hsm a st Hok) as (r & st' & E & Hok' & Hc & _).
  unfold call_enqueue. rewrite E. split; [by exists B, N|done].
Qed.

Lemma call_dequeue_ok st : rested st -> rested (snd (call_dequeue st)) /\
  contents (inner st) = option_list (fst (call_dequeue st)) ++ contents (inner (snd (call_dequeue st))).
Proof.
  intros (B & N & HB & Hsm & Hok).
  destruct (bq_wait_dequeue_ok B N HB Hsm _ st Ht Hok) as (r & st' & E & Hok' & Hc & _).
  unfold call_dequeue. rewrite E. split; [by exists B, N|done].
Qed.

Lemma call_dequeue_rest st : rested st -> rested (snd (call_dequeue st)).
Proof. intros H. by apply call_dequeue_ok. Qed.

(** The queue of the library has the interface the clients are proved
    against. *)
#[export] Program Instance blocking_spsc : SpscQueue resting T := {|
  try_enqueue a q := (fst (call_enqueue a (`q)), exist _ (snd (call_enqueue a (`q))) (proj1 (call_enqueue_ok a (`q) (proj2_sig q))));
  wait_dequeue_timed q :=
    (fun a => (a, exist _ (snd (call_dequeue (`q))) (call_dequeue_rest (`q) (proj2_sig q))))
      <$> fst (call_dequeue (`q));
  q_contents q := contents (inner (`q));
|}.
Next Obligation.
  intros a q q' [= Hr <-]. etrans; [exact (proj2 (call_enqueue_ok a (`q) (proj2_sig q)))|]. by rewrite Hr.
Qed.
Next Obligation.
  intros a q q' [= Hr <-]. etrans; [exact (proj2 (call_enqueue_ok a (`q) (proj2_sig q)))|]. by rewrite Hr, app_nil_r.
Qed.
Next Obligation.
  intros a q q' (x & Hx & Heq)%fmap_Some. injection Heq as -> ->. etrans; [exact (proj2 (call_dequeue_ok (`q) (proj2_sig q)))|].
  rewrite Hx. cbn [proj1_sig]. reflexivity.
Qed.
End interface.

(** C18: calls that do not overlap answer as a bounded list does: every object
    goes in, unless the [size] objects the queue was made for are pending;
    the oldest comes out; a timeout means an empty queue. *)
Theorem bqueue_refines {T} j size mem (st0 : bqueue T) timeout_usecs cs :
  (0 < j < 31)%Z -> (2 ^ j * 2 <= size < 2 ^ 60)%Z -> (0 < timeout_usecs)%Z ->
  BlockingReaderWriterQueue (2 ^ j) size mem = Ret st0 ->
  exists rs st', run_calls timeout_usecs cs st0 = Ret (rs, st') /\
    spec_calls size [] cs rs (contents (inner st')).
Proof.
  intros Hj Hsize Ht Hst0.
  assert (0 < 2 ^ j)%Z by (apply Z.pow_pos_nonneg; lia).
  destruct (bq_running_ok j size mem st0 (bq_init st0) Hj ltac:(lia) Hst0 ltac:(done)) as (k & N & Hk & Hsm & Hok & Hroom).
  destruct Hroom as [[_ ?]|Hroom]; [lia|].
  assert (contents (inner st0) = []) as Hc by (symmetry; exact (bo_history _ _ _ Hok)).
  assert (at_rest (2 ^ k) N st0) as Hrest by (by eapply at_rest_intro).
  destruct (run_calls_ok timeout_usecs (2 ^ k) N (pow2_gt_1 k Hk) Hsm Ht size cs st0 Hroom Hrest) as (rs & st' & E & Hspec).
  exists rs, st'. split; [done|]. by rewrite Hc in Hspec.
Qed.

(** ** Schedules and witnesses *)
Inductive bq_action (T : Type) := BqCallEnqueue (a : T) | BqStepEnqueue | BqCallDequeue (t : Z) | BqStepDequeue (timed_out : bool).
Arguments BqCallEnqueue {T}.
Arguments BqStepEnqueue {T}.
Arguments BqCallDequeue {T}.
Arguments BqStepDequeue {T}.

Section schedule.
Context {T : Type}.
Implicit Types (s : bq_sys T).

Definition bq_act (x : bq_action T) s : option (bq_sys T) :=
  match x, s with
  | BqCallEnqueue a, BqSys st (ProdDone _) c t l g => Some (BqSys st (ProdInner (EnqStart a)) c t l g)
  | BqCallEnqueue _, _ => None
  | BqStepEnqueue, BqSys st pc c t l g =>
      if prod_done pc then None else
      match prod_step pc st with
      | Ret (pc', st') => Some (BqSys st' pc' c t (l ++ prod_accepted pc pc') g)
      | _ => None
      end
  | BqCallDequeue t', BqSys st p (ConsDone _) t l g => Some (BqSys st p ConsTry t' l g)
  | BqCallDequeue _, _ => None
  | BqStepDequeue b, BqSys st p pc t l g =>
      if cons_done pc then None else
      match cons_step t b pc st with
      | Ret (pc', st') => Some (BqSys st' p pc' t l (g ++ cons_returned pc'))
      | _ => None
      end
  end.
Fixpoint bq_acts (l : list (bq_action T)) s : option (bq_sys T) :=
  match l with [] => Some s | x :: l => s' ← bq_act x s; bq_acts l s' end.

Lemma bq_act_consumer b s s' : bq_act (BqStepDequeue b) s = Some s' -> cons_sys_step s s'.
Proof.
  destruct s as [st p pc t l g]. cbn [bq_act]. destruct (cons_done pc) eqn:Hd; [done|].
  destruct (cons_step t b pc st) as [[pc' st']| |] eqn:E; try done. intros [= <-]. by eapply step_wait_dequeue.
Qed.

Lemma bq_act_step x s s' : bq_act x s = Some s' -> bq_step s s'.
Proof.
  destruct x as [a| |t'|b]; [..|intros; constructor; by eapply bq_act_consumer];
    destruct s as [st p pc t l g]; cbn [bq_act].
  - destruct p; try done. intros [= <-]. constructor.
  - destruct (prod_done p) eqn:Hd; [done|]. destruct (prod_step p st) as [[p' st']| |] eqn:E; try done.
    intros [= <-]. by constructor.
  - destruct pc; try done. intros [= <-]. constructor.
Qed.

Lemma bq_acts_reachable l s s' : bq_acts l s = Some s' -> rtc bq_step s s'.
Proof.
  revert s. induction l as [|x l IH]; intros s; cbn [bq_acts]; [by intros [= ->]|].
  destruct (bq_act x s) eqn:E; [|done]. intros. eapply rtc_l; [by eapply bq_act_step|]. by apply IH.
Qed.
End schedule.

(** The consumer sleeps, its deadline passes, and an object arrives before
    it has restored the count. *)
Definition asleep : list (bq_action Z) := BqCallDequeue 10000 :: replicate 1026 (BqStepDequeue false).
Definition late_schedule : list (bq_action Z) :=
  asleep ++ BqStepDequeue true :: BqCallEnqueue 11%Z :: replicate 5 BqStepEnqueue.
Definition tiny_bq : bqueue Z := BQueue tiny 0 0.
Definition late_state : bq_sys Z := default (bq_init tiny_bq) (bq_acts late_schedule (bq_init tiny_bq)).

Definition timed_out_state : bq_sys Z :=
  default (bq_init tiny_bq) (bq_acts (asleep ++ [BqStepDequeue true]) (bq_init tiny_bq)).
Definition restored_state : bq_sys Z := default timed_out_state (bq_act (BqStepDequeue true) timed_out_state).
Definition bq_filling (steps : nat) (a : Z) : list (bq_action Z) := BqCallEnqueue a :: replicate steps BqStepEnqueue.
Definition bq_full_schedule : list (bq_action Z) :=
  bq_filling 4 1 ++ bq_filling 8 2 ++ bq_filling 8 3 ++ bq_filling 8 4 ++ bq_filling 8 5 ++ bq_filling 2 6.
Definition bq_full_state : bq_sys Z := default (bq_init tiny_bq) (bq_acts bq_full_schedule (bq_init tiny_bq)).
Definition bq_refused_state : bq_sys Z := default bq_full_state (bq_act BqStepEnqueue bq_full_state).

Lemma bqueue_safe_witness : b_sent late_state = [11%Z] /\ b_sent late_state = b_got late_state ++ held late_state.
Proof.
  split; [vm_compute; reflexivity|].
  refine (proj1 (bqueue_safe 1 4 (fun _ => true) tiny_bq late_state _ _ _ _)); [lia|lia|reflexivity|].
  apply (bq_acts_reachable late_schedule). vm_compute. reflexivity.
Defined.

Lemma bqueue_wakes_witness : exists s', nsteps cons_sys_step 1 late_state s' /\ exists s'', cons_sys_step s' s''.
Proof.
  exists (default late_state (bq_act (BqStepDequeue true) late_state)).
  assert (nsteps cons_sys_step 1 late_state (default late_state (bq_act (BqStepDequeue true) late_state))) as Hn.
  { econstructor; [|constructor]. apply (bq_act_consumer true). vm_compute. reflexivity. }
  split; [exact Hn|].
  refine (proj2 (bqueue_wakes 1 4 (fun _ => true) tiny_bq late_state _ _ _ _ 1 _ _ _ _ Hn));
    [lia|lia|reflexivity|apply (bq_acts_reachable late_schedule); vm_compute; reflexivity|reflexivity| |reflexivity].
  vm_compute. discriminate.
Defined.

Lemma bqueue_timeout_empty_witness : b_cons restored_state = ConsDone None /\
  (held timed_out_state = [] \/ b_prod timed_out_state = ProdSignal /\ length (held timed_out_state) = 1%nat).
Proof.
  split; [vm_compute; reflexivity|].
  apply (bqueue_timeout_empty 1 4 (fun _ => true) tiny_bq timed_out_state) with (s' := restored_state);
    [lia|lia|reflexivity| | |].
  - apply (bq_acts_reachable (asleep ++ [BqStepDequeue true])). vm_compute. reflexivity.
  - apply (bq_act_consumer true). vm_compute. reflexivity.
  - vm_compute. reflexivity.
Defined.

Lemma bqueue_capacity_witness : (4 <= Z.of_nat (length (held bq_full_state)))%Z.
Proof.
  apply (bqueue_capacity 1 4 (fun _ => true) tiny_bq bq_full_state) with (s' := bq_refused_state);
    [lia|lia|reflexivity| |lia| | |].
  - apply (bq_acts_reachable bq_full_schedule). vm_compute. reflexivity.
  - apply (bq_act_step BqStepEnqueue). vm_compute. reflexivity.
  - vm_compute. reflexivity.
  - vm_compute. reflexivity.
Defined.

Lemma bqueue_refines_witness : exists rs st',
  run_calls 10000 [TryEnqueue 7%Z; WaitDequeue; WaitDequeue] tiny_bq = Ret (rs, st') /\
  spec_calls 4 [] [TryEnqueue 7%Z; WaitDequeue; WaitDequeue] rs (contents (inner st')).
Proof. apply (bqueue_refines 1 4 (fun _ => true) tiny_bq 10000); [lia|lia|lia|reflexivity]. Defined.
