(* ===== verification/RwQueueCalls.v ===== *)
(** * RwQueueCalls: the other calls of the queue
    (libs/readerwriterqueue/readerwriterqueue.h: the destructor, [peek], [pop],
    [size_approx], [max_capacity], and the non-blocking ones of
    [BlockingReaderWriterQueue]).

    They are run alone, on a queue at rest; those that go round the ring of
    blocks take a unit of fuel for each block. *)
From S2P Require Import Prelude Block RwQueue RwQueueSys BlockingQueue.

Section calls.
Context {T : Type}.
Implicit Types (q : rwqueue T) (b : block T).

(** ** Round the ring

    [do { ... block = block->next; } while (block != frontBlock_);] *)
Section ring_loop.
Context {A : Type} (visit : nat -> block T -> A -> outcome A).
Fixpoint ring_loop (fuel : nat) q (frontBlock_ i : nat) (acc : A) : outcome A :=
  match fuel with
  | O => Undef
  | S fuel =>
      b ← get_block q i;
      acc ← visit i b acc;
      if (b_next b =? frontBlock_)%nat then Ret acc else ring_loop fuel q frontBlock_ (b_next b) acc
  end.
End ring_loop.

(** [(blockTail - blockFront) & block->sizeMask], on 64 bits. *)
Definition size_approx q : outcome Z :=
  ring_loop (fun _ b result =>
    Ret (u64 (result + Z.land (u64 (Z.of_nat (b_tail b) - Z.of_nat (b_front b))) (Z.of_nat (b_sizeMask b)))))
    (n_blocks q) q (frontBlock q) (frontBlock q) 0%Z.

Definition max_capacity q : outcome Z :=
  ring_loop (fun _ b result => Ret (u64 (result + Z.of_nat (b_sizeMask b)))) (n_blocks q) q (frontBlock q) (frontBlock q) 0%Z.

(** The objects of a block are destroyed from [i] to the tail. *)
Fixpoint destroy_elements (fuel : nat) b (i : nat) (destroyed : list T) : outcome (list T) :=
  if (i =? b_tail b)%nat then Ret destroyed
  else match fuel with
  | O => Undef
  | S fuel =>
      match mjoin (b_data b !! i) with
      | Some element => destroy_elements fuel b (succ_idx b i) (destroyed ++ [element])
      | None => Undef
      end
  end.

(** The destructor: the objects destroyed and the blocks freed, in their order. A
    block that has been freed is not read again. *)
Definition destroy_block (i : nat) b (acc : list T * list nat) : outcome (list T * list nat) :=
  let '(destroyed, freed) := acc in
  if bool_decide (i ∈ freed) then Undef
  else destroyed ← destroy_elements (length (b_data b)) b (b_front b) destroyed; Ret (destroyed, freed ++ [i]).
Definition destroy_queue q : outcome (list T * list nat) :=
  ring_loop destroy_block (n_blocks q) q (frontBlock q) (frontBlock q) ([], []).

(** ** [peek] and [pop]

    Both go the way of [try_dequeue]. [peek] does not move to the next block
    and leaves the object where it is. *)
Definition peek_step (pc : deq_pc T) q : outcome (deq_pc T * rwqueue T) :=
  match pc with
  | DeqNext fb =>
      b ← get_block q fb;
      let nextBlock := b_next b in
      nb ← get_block q nextBlock;
      if negb (b_front nb =? b_tail nb)%nat then Ret (DeqRead nextBlock (b_front nb), q)
      else Throw (RuntimeError "assertion failed")
  | DeqRead fb blockFront =>
      b ← get_block q fb;
      match mjoin (b_data b !! blockFront) with
      | Some element => Ret (DeqDone (Some element), q)
      | None => Undef
      end
  | _ => deq_step pc q
  end.
Fixpoint peek_run (fuel : nat) (pc : deq_pc T) q : outcome (option T * rwqueue T) :=
  match pc with
  | DeqDone r => Ret (r, q)
  | _ => match fuel with
         | O => Undef
         | S fuel => '(pc, q) ← peek_step pc q; peek_run fuel pc q
         end
  end.
Definition peek q : outcome (option T * rwqueue T) := peek_run 6 DeqStart q.

Definition pop q : outcome (bool * rwqueue T) :=
  '(r, q) ← inner_try_dequeue q; Ret (match r with Some _ => true | None => false end, q).

(** ** [inner_enqueue<CanAlloc>]

    Where [try_enqueue] refuses an object, a new block with it goes behind the
    tail block. [mem]: [malloc] succeeds. *)
Definition next_size (MAX_BLOCK_SIZE : Z) q : Z :=
  if (MAX_BLOCK_SIZE <=? largestBlockSize q)%Z then largestBlockSize q else u64 (largestBlockSize q * 2).
Definition one_object (capacity : nat) (a : T) (next : nat) : block T :=
  with_localTail 1 (with_tail 1 (with_slot 0 a (with_next next (make_block capacity)))).
Definition inner_enqueue (MAX_BLOCK_SIZE : Z) (mem : bool) (a : T) q : outcome (bool * rwqueue T) :=
  r ← inner_try_enqueue a q;
  let q := r.2 in
  if (r.1 : bool) then Ret (true, q)
  else if negb mem then Ret (false, q)
  else
    let newBlockSize := next_size MAX_BLOCK_SIZE q in
    let newBlock := n_blocks q in
    tb ← get_block q (tailBlock q);
    Ret (true, RwQueue (blocks (set_block (tailBlock q) (with_next newBlock tb) q) ++ [one_object (Z.to_nat newBlockSize) a (b_next tb)])
                 (frontBlock q) newBlock newBlockSize).

(** ** Moves

    The queue that is moved from starts again with one block. *)
Definition move_queue (mem : bool) q : outcome (rwqueue T * rwqueue T) :=
  if mem then Ret (q, RwQueue [with_next 0 (make_block 32)] 0 0 32) else Throw (RuntimeError "std::bad_alloc").

(** ** [BlockingReaderWriterQueue] *)
Definition bq_enqueue (MAX_BLOCK_SIZE : Z) (mem : bool) (a : T) (s : bqueue T) : outcome (prod_pc T * bqueue T) :=
  r ← inner_enqueue MAX_BLOCK_SIZE mem a (inner s);
  let s := with_inner r.2 s in
  if (r.1 : bool) then signal s else Ret (ProdDone false, s).

Definition tryWait (s : bqueue T) : bool * bqueue T :=
  if (0 <? m_count s)%Z then (true, fetch_add (-1) s) else (false, s).

Definition bq_try_dequeue (s : bqueue T) : outcome (option T * bqueue T) :=
  let '(granted, s) := tryWait s in
  if granted then
    '(result, q) ← inner_try_dequeue (inner s);
    match result with
    | Some a => Ret (Some a, with_inner q s)
    | None => Throw (RuntimeError "assertion failed")
    end
  else Ret (None, s).

Definition bq_peek (s : bqueue T) : outcome (option T * bqueue T) :=
  '(r, q) ← peek (inner s); Ret (r, with_inner q s).

Definition bq_pop (s : bqueue T) : outcome (bool * bqueue T) :=
  let '(granted, s) := tryWait s in
  if granted then
    r ← pop (inner s);
    if (r.1 : bool) then Ret (true, with_inner r.2 s) else Throw (RuntimeError "assertion failed")
  else Ret (false, s).

Definition availableApprox (s : bqueue T) : Z := if (0 <? m_count s)%Z then m_count s else 0%Z.
Definition bq_max_capacity (s : bqueue T) : outcome Z := max_capacity (inner s).
End calls.

(** ** The ring from the front *)
Section walk.
Context {T : Type} (B : nat) (q : rwqueue T) (Hs : shape B q None).

Abbreviation n := (n_blocks q).
Abbreviation front := (frontBlock q).

Lemma next_place i : (front < n)%nat -> (i < n)%nat ->
  place n (place n front i) 1 = if (S i =? n)%nat then front else place n front (S i).
Proof.
  intros Hf Hi. unfold place.
  repeat match goal with
    | |- context [Nat.ltb ?x ?y] => destruct (Nat.ltb_spec x y)
    | |- context [Nat.eqb ?x ?y] => destruct (Nat.eqb_spec x y)
    end; lia.
Qed.

(** The places in the order of the loop. *)
Definition ring_places : list nat := place n front <$> seq 0 n.

Fixpoint visit_all {A} (visit : nat -> block T -> A -> outcome A) (l : list nat) (acc : A) : outcome A :=
  match l with
  | [] => Ret acc
  | i :: l => acc ← visit i (block_at q i) acc; visit_all visit l acc
  end.

Lemma ring_loop_visits {A} (visit : nat -> block T -> A -> outcome A) acc :
  ring_loop visit n q front front acc = visit_all visit ring_places acc.
Proof.
  pose proof (sh_front B q None Hs) as Hf. unfold ring_places.
  assert (forall fuel i acc, (0 < fuel)%nat -> (i + fuel = n)%nat ->
    ring_loop visit fuel q front (place n front i) acc = visit_all visit (place n front <$> seq i fuel) acc) as H.
  { induction fuel as [|fuel IH]; intros i acc' Hpos Hi; [lia|].
    destruct (block_lookup B q None (place n front i) Hs) as (b & Hb & Hg & _ & _ & _ & Hn); [by apply place_lt; lia|].
    cbn [ring_loop seq fmap list_fmap visit_all]. rewrite Hg. unfold block_at. rewrite Hb. cbn [default id mbind outcome_bind].
    destruct (visit (place n front i) b acc') as [a|e|]; [|done..]. cbn [mbind outcome_bind].
    rewrite Hn, next_place by lia. destruct (Nat.eqb_spec (S i) n) as [He|He].
    - rewrite Nat.eqb_refl. destruct fuel; [done|lia].
    - destruct (Nat.eqb_spec (place n front (S i)) front) as [Hp|Hp].
      + rewrite <- (place_0 n front) in Hp at 2 by done. apply place_inj in Hp; lia.
      + apply IH; lia. }
  rewrite <- H by lia. by rewrite place_0.
Qed.

Lemma ring_places_nodup : NoDup ring_places.
Proof.
  pose proof (sh_front B q None Hs) as Hf. apply NoDup_fmap_2_strong; [|apply NoDup_seq].
  intros i j Hi%elem_of_seq Hj%elem_of_seq He. apply (place_inj n front i j); [done|lia|lia|done].
Qed.
Lemma ring_places_all i : i ∈ ring_places <-> (i < n)%nat.
Proof.
  pose proof (sh_front B q None Hs) as Hf. unfold ring_places. rewrite list_elem_of_fmap. split.
  - intros (k & -> & Hk%elem_of_seq). apply place_lt; lia.
  - intros Hi. exists (dist n front i). rewrite place_dist by done. split; [done|].
    apply elem_of_seq. pose proof (dist_lt n front i Hf Hi). lia.
Qed.

(** The whole ring holds the contents: past the tail the blocks are empty. *)
Lemma ring_contents : mjoin (items_at q <$> ring_places) = contents q.
Proof.
  pose proof (sh_front B q None Hs) as Hf. pose proof (sh_tail B q None Hs) as Ht.
  unfold contents, span_items, ring_places. pose proof (dist_lt n front (tailBlock q) Hf Ht) as Hd.
  rewrite <- list_fmap_compose. replace (seq 0 n) with (seq 0 (S (dist n front (tailBlock q)) + (n - S (dist n front (tailBlock q))))) by (f_equal; lia).
  rewrite seq_app, fmap_app, mjoin_app.
  assert (mjoin ((items_at q ∘ place n front) <$> seq (0 + S (dist n front (tailBlock q))) (n - S (dist n front (tailBlock q)))) = []) as ->;
    [|by rewrite app_nil_r].
  assert (forall l, (forall k, k ∈ l -> (dist n front (tailBlock q) < k < n)%nat) -> mjoin ((items_at q ∘ place n front) <$> l) = []) as He.
  { induction l as [|k l IH]; intros Hl; [done|]. cbn [fmap list_fmap]. rewrite mjoin_cons, IH, app_nil_r by (intros; apply Hl; by right).
    assert (k ∈ k :: l) as Hk%Hl by left. cbn [compose].
    pose proof (place_lt n front k Hf ltac:(lia)) as Hp. apply (sh_empty B q None Hs); [done|done|].
    assert (dist n front (place n front k) = k) as ->; [|lia].
    apply (place_inj n front); [done|by apply dist_lt|lia|]. by rewrite place_dist. }
  apply He. intros k Hk%elem_of_seq. lia.
Qed.

Lemma place_block i : i ∈ ring_places -> block_ok (block_at q i) /\ b_size (block_at q i) = B.
Proof.
  intros Hi%ring_places_all. destruct (block_lookup B q None i Hs Hi) as (b & Hb & _ & _ & Hok & Hsz & _).
  unfold block_at. by rewrite Hb.
Qed.
End walk.

(** ** Counting *)
Section counts.
Context {T : Type} (B : nat) (q : rwqueue T) (Hs : shape B q None).
Context (Hsmall : (Z.of_nat (n_blocks q * B) < 2 ^ 62)%Z).

Lemma visit_sum (f : block T -> Z) (g : nat -> nat) l acc :
  (forall i, i ∈ l -> forall r, u64 (r + f (block_at q i)) = u64 (r + Z.of_nat (g i))) ->
  (0 <= acc)%Z -> (acc + Z.of_nat (list_sum (g <$> l)) < 2 ^ 64)%Z ->
  visit_all q (fun _ b result => Ret (u64 (result + f b))) l acc = Ret (acc + Z.of_nat (list_sum (g <$> l)))%Z.
Proof.
  revert acc. induction l as [|i l IH]; intros acc Hf Ha Hb; cbn [visit_all fmap list_fmap list_sum foldr] in *.
  { f_equal. cbn. lia. }
  rewrite Hf by left. fold (list_sum (g <$> l)) in Hb. cbn [mbind outcome_bind]. rewrite u64_small by (unfold is_u64; lia).
  rewrite IH; [|by intros j Hj; apply Hf; right|lia|lia]. f_equal. fold (list_sum (g <$> l)). lia.
Qed.

Lemma visit_count (f : block T -> Z) (g : nat -> nat) l :
  (forall i, i ∈ l -> forall r, u64 (r + f (block_at q i)) = u64 (r + Z.of_nat (g i))) ->
  (Z.of_nat (list_sum (g <$> l)) < 2 ^ 64)%Z ->
  visit_all q (fun _ b result => Ret (u64 (result + f b))) l 0%Z = Ret (Z.of_nat (list_sum (g <$> l))).
Proof. intros Hf Hb. rewrite (visit_sum f g l 0) by (done || lia). done. Qed.

Lemma block_used (b : block T) : block_ok b -> (Z.of_nat (b_size b) < 2 ^ 62)%Z ->
  Z.land (u64 (Z.of_nat (b_tail b) - Z.of_nat (b_front b))) (Z.of_nat (b_sizeMask b)) = Z.of_nat (length (items b)).
Proof.
  intros Hb Hsz. rewrite used_items by done. destruct (ok_size b Hb) as (k & Hk & Hp). pose proof (ok_front b Hb). pose proof (ok_tail b Hb).
  assert (Z.of_nat (b_size b) = 2 ^ Z.of_nat k)%Z as Hz by (rewrite Hp, Nat2Z.inj_pow; done).
  assert (Z.of_nat (b_sizeMask b) = Z.ones (Z.of_nat k)) as ->.
  { rewrite Z.ones_equiv, <- Hz. unfold b_size. lia. }
  assert (Z.of_nat k < 64)%Z as Hk64.
  { apply (Z.pow_lt_mono_r_iff 2); [lia|lia|]. rewrite <- Hz. lia. }
  rewrite Z.land_ones by lia. unfold u64, used, dist.
  assert ((2 ^ 64)%Z = 2 ^ Z.of_nat k * 2 ^ (64 - Z.of_nat k))%Z as Hsplit.
  { rewrite <- Z.pow_add_r by lia. f_equal. lia. }
  assert (forall x, (x `mod` 2 ^ 64) `mod` 2 ^ Z.of_nat k = x `mod` 2 ^ Z.of_nat k)%Z as ->.
  { intros x. rewrite Hsplit. rewrite Z.rem_mul_r by (apply Z.pow_nonzero || apply Z.pow_pos_nonneg; lia).
    rewrite Z.mul_comm, Z.mod_add by (apply Z.pow_nonzero; lia). apply Z.mod_mod, Z.pow_nonzero; lia. }
  rewrite <- Hz. destruct (Nat.leb_spec (b_front b) (b_tail b)).
  - rewrite Z.mod_small by lia. lia.
  - rewrite <- (Z.mod_add _ 1) by lia. rewrite Z.mod_small by lia. lia.
Qed.

Lemma ring_sum (g : nat -> nat) c : (forall i, (i < n_blocks q)%nat -> g i = c) ->
  list_sum (g <$> ring_places q) = (n_blocks q * c)%nat.
Proof.
  intros Hg. assert (forall l, (forall i, i ∈ l -> (i < n_blocks q)%nat) -> list_sum (g <$> l) = (length l * c)%nat) as H.
  { induction l as [|i l IH]; intros Hl; [done|]. cbn [fmap list_fmap list_sum foldr length]. fold (list_sum (g <$> l)).
    rewrite Hg by (apply Hl; left). rewrite IH by (intros; apply Hl; by right). lia. }
  rewrite H by (intros i; apply (ring_places_all B q Hs)). unfold ring_places. by rewrite length_fmap, length_seq.
Qed.

Lemma length_mjoin {A} (l : list (list A)) : length (mjoin l) = list_sum (@length A <$> l).
Proof. induction l as [|x l IH]; [done|]. rewrite mjoin_cons, length_app, IH. done. Qed.

(** The number of objects is what [size_approx] counts when nobody is at work. *)
Theorem size_approx_exact : size_approx q = Ret (Z.of_nat (length (contents q))).
Proof.
  pose proof (contents_bound B q None Hs) as Hc. unfold size_approx. rewrite (ring_loop_visits B q Hs).
  rewrite <- (ring_contents B q Hs) in Hc |- *. rewrite length_mjoin, <- list_fmap_compose in *.
  apply visit_count; [|nia]. intros i Hi r. do 2 f_equal. destruct (place_block B q Hs i Hi) as [Hok Hsz].
  apply block_used; [done|]. rewrite Hsz. apply (ring_places_all B q Hs) in Hi. nia.
Qed.

(** One slot of each block stays free. *)
Theorem max_capacity_exact : max_capacity q = Ret (Z.of_nat (n_blocks q * (B - 1))).
Proof.
  unfold max_capacity. rewrite (ring_loop_visits B q Hs).
  rewrite <- (ring_sum (fun i => b_sizeMask (block_at q i)) (B - 1)).
  - apply visit_count; [done|]. rewrite (ring_sum _ (B - 1)); [nia|].
    intros i Hi%(ring_places_all B q Hs). apply (place_block B q Hs) in Hi as [_ <-]. unfold b_size. lia.
  - intros i Hi%(ring_places_all B q Hs). apply (place_block B q Hs) in Hi as [_ <-]. unfold b_size. lia.
Qed.
End counts.

(** ** The end of a queue *)
Section destruction.
Context {T : Type}.
Implicit Types (b : block T).

Lemma destroy_elements_view fuel b b' i acc :
  b_tail b' = b_tail b -> b_data b' = b_data b -> b_sizeMask b' = b_sizeMask b ->
  destroy_elements fuel b' i acc = destroy_elements fuel b i acc.
Proof.
  intros Ht Hd Hm. revert i acc. induction fuel as [|fuel IH]; intros i acc; cbn [destroy_elements]; rewrite Ht; [done|].
  rewrite Hd. unfold succ_idx. rewrite Hm. destruct (i =? b_tail b)%nat; [done|]. destruct (mjoin _); [apply IH|done].
Qed.

Lemma destroy_elements_run fuel b acc : block_ok b -> b_localTail b = b_tail b -> (used b <= fuel)%nat ->
  destroy_elements fuel b (b_front b) acc = Ret (acc ++ items b).
Proof.
  revert b acc. induction fuel as [|fuel IH]; intros b acc Hb Hlt Hu.
  - assert (b_front b = b_tail b) as He by (apply (dist_0 (b_size b)); [by apply ok_front|by apply ok_tail|unfold used in Hu; lia]).
    cbn [destroy_elements]. rewrite He, Nat.eqb_refl, (proj2 (items_empty b Hb) He). by rewrite app_nil_r.
  - cbn [destroy_elements]. destruct (Nat.eqb_spec (b_front b) (b_tail b)) as [He|Hne].
    + rewrite (proj2 (items_empty b Hb) He). by rewrite app_nil_r.
    + destruct (pop_ok b Hb) as (a & Ha & Hb' & Hi); [by rewrite Hlt|]. rewrite Ha. cbn [mjoin option_join].
      rewrite (succ_idx_spec b _ Hb (ok_front b Hb)).
      set (b' := with_front _ b) in *. rewrite <- (destroy_elements_view fuel b b') by done.
      change (place (b_size b) (b_front b) 1) with (b_front b'). rewrite IH; [|done|done|].
      * rewrite Hi, <- app_assoc. done.
      * pose proof (used_items b Hb) as H1. pose proof (used_items b' Hb') as H2. rewrite Hi in H1. cbn [length] in H1. lia.
Qed.

Lemma destroy_elements_ok b acc : block_ok b -> destroy_elements (length (b_data b)) b (b_front b) acc = Ret (acc ++ items b).
Proof.
  intros Hb. pose proof (reload_tail_ok b Hb) as Hb'. set (b' := with_localTail (b_tail b) b) in *.
  rewrite <- (destroy_elements_view _ b b') by done. change (b_front b) with (b_front b'). rewrite destroy_elements_run; [done|done|done|].
  rewrite (ok_data b Hb). apply Nat.lt_le_incl, dist_lt; [apply (ok_front b Hb)|apply (ok_tail b Hb)].
Qed.

Lemma destroy_block_ok i b ds freed : block_ok b -> i ∉ freed ->
  destroy_block i b (ds, freed) = Ret (ds ++ items b, freed ++ [i]).
Proof. intros Hb Hi. unfold destroy_block. rewrite bool_decide_eq_false_2 by done. by rewrite destroy_elements_ok. Qed.

(** The destructor destroys each object once, in the order in which they would have
    been taken, and frees each block once. *)
Theorem destroy_queue_exact B (q : rwqueue T) : shape B q None ->
  exists freed, destroy_queue q = Ret (contents q, freed) /\ freed ≡ₚ seq 0 (n_blocks q).
Proof.
  intros Hs. exists (ring_places q). split.
  - unfold destroy_queue. rewrite (ring_loop_visits B q Hs), <- (ring_contents B q Hs).
    pose proof (ring_places_nodup B q Hs) as Hnd.
    assert (forall l, l ⊆ ring_places q -> NoDup l -> forall ds freed, (forall i, i ∈ l -> i ∉ freed) ->
      visit_all q destroy_block l (ds, freed) = Ret (ds ++ mjoin (items_at q <$> l), freed ++ l)) as H.
    { induction l as [|i l IH]; intros Hl Hnl ds freed Hf; cbn [visit_all fmap list_fmap]; [by rewrite !app_nil_r|].
      apply NoDup_cons in Hnl as [Hi Hnl].
      destruct (place_block B q Hs i) as [Hok _]; [apply Hl; left|].
      rewrite destroy_block_ok by (done || (apply Hf; left)). cbn [mbind outcome_bind]. rewrite IH.
      - rewrite mjoin_cons, <- !app_assoc. done.
      - intros j Hj. apply Hl. by right.
      - done.
      - intros j Hj [Hin|Hin%list_elem_of_singleton]%elem_of_app; [by apply (Hf j); [right|]|by subst j]. }
    rewrite H; [done|done|done|]. intros i _. apply not_elem_of_nil.
  - apply NoDup_Permutation; [by apply (ring_places_nodup B)|apply NoDup_seq|]. intros i.
    rewrite (ring_places_all B q Hs), elem_of_seq. lia.
Qed.
End destruction.

(** ** Looking and taking *)
Section peeking.
Context {T : Type} (B : nat).
Implicit Types (q : rwqueue T).

Lemma front_contents q b a l : shape B q None -> blocks q !! frontBlock q = Some b -> items b = a :: l ->
  head (contents q) = Some a.
Proof.
  intros Hs Hb Hi. unfold contents. rewrite span_first by (apply (sh_front B q None Hs) || apply (sh_tail B q None Hs)).
  unfold items_at at 1, block_at. rewrite Hb. cbn [default id]. by rewrite Hi.
Qed.

Lemma peek_read_ok q fb bf e : shape B q None -> cons_ok q (DeqRead fb bf) e ->
  peek_step (DeqRead fb bf) q = Ret (DeqDone (head (contents q)), q).
Proof.
  intros Hs [-> (b & Hb & -> & Hne)]. destruct (sh_block B q None Hs _ _ Hb) as (Hok & _ & _).
  destruct (pop_ok b Hok Hne) as (a & Ha & _ & Hi). rewrite (front_contents q b a _ Hs Hb Hi).
  cbn [peek_step]. unfold get_block. rewrite Hb. cbn [mbind outcome_bind]. by rewrite Ha.
Qed.

Lemma next_first q : shape B q None -> frontBlock q <> tailBlock q -> items_at q (frontBlock q) = [] ->
  exists nb a, blocks q !! place (n_blocks q) (frontBlock q) 1 = Some nb /\ b_front nb <> b_tail nb /\
    b_data nb !! b_front nb = Some (Some a) /\ head (contents q) = Some a.
Proof.
  intros Hs Hft He. pose proof (sh_front B q None Hs) as Hf. pose proof (sh_tail B q None Hs) as Ht.
  pose proof (place_lt (n_blocks q) (frontBlock q) 1 Hf ltac:(lia)) as Hlt.
  destruct (block_lookup B q None _ Hs Hlt) as (nb & Hnb & _ & Hi & Hok & _). exists nb.
  assert (b_front nb <> b_tail nb) as Hne.
  { rewrite <- (items_empty nb Hok), <- Hi. apply (sh_nonempty B q None Hs); [done|].
    pose proof (move_dist q _ Ht Hf (not_eq_sym Hft)) as Hd.
    destruct (decide (place (n_blocks q) (frontBlock q) 1 = frontBlock q)) as [Hp|Hp]; [rewrite Hp in Hd; lia|].
    rewrite (dist_succ_r _ _ _ Hf Hf Hp), (proj2 (dist_0 _ _ _ Hf Hf) eq_refl). lia. }
  destruct (front_slot nb Hok Hne) as (a & Ha & Hhd). exists a. split_and!; [done|done|done|].
  unfold contents. rewrite span_first by done. rewrite He, (proj2 (Nat.eqb_neq _ _) Hft). cbn [app].
  rewrite span_first, Hi by done. by destruct (items nb).
Qed.

Lemma peek_next_ok q fb e : shape B q None -> cons_ok q (DeqNext fb) e ->
  exists nb bf, peek_step (DeqNext fb) q = Ret (DeqRead nb bf, q) /\
    peek_step (DeqRead nb bf) q = Ret (DeqDone (head (contents q)), q).
Proof.
  intros Hs (-> & Hft & He). destruct (next_first q Hs Hft He) as (nb & a & Hnb & Hne & Ha & ->).
  destruct (front_view B q None Hs) as (b & Hb & Hg & _ & _ & _ & Hn).
  exists (place (n_blocks q) (frontBlock q) 1), (b_front nb). split.
  - cbn [peek_step]. rewrite Hg. cbn [mbind outcome_bind]. rewrite Hn. unfold get_block. rewrite Hnb. cbn [mbind outcome_bind].
    by rewrite (proj2 (Nat.eqb_neq _ _) Hne).
  - cbn [peek_step]. unfold get_block. rewrite Hnb. cbn [mbind outcome_bind]. by rewrite Ha.
Qed.

(** The steps that are left, and where a peeking thread can be. *)
Definition peek_left (pc : deq_pc T) : option nat :=
  match pc with
  | DeqStart => Some 6 | DeqReload _ _ => Some 5 | DeqTailBlock _ => Some 4 | DeqAgain => Some 3
  | DeqNext _ => Some 2 | DeqRead _ _ => Some 1 | DeqDone None => Some 0 | _ => None
  end.

Lemma peek_early pc q e k : shape B q None -> cons_ok q pc e -> peek_left pc = Some (S (S (S k))) ->
  exists pc' q' k', peek_step pc q = Ret (pc', q') /\ shape B q' None /\ cons_ok q' pc' (e || empty_now q) /\
    contents q' = contents q /\ n_blocks q' = n_blocks q /\ peek_left pc' = Some k' /\ (k' < S (S (S k)))%nat.
Proof.
  intros Hs Hp Hk. destruct (deq_step_ok B q None pc e Hs Hp) as (pc' & q' & E & Hs' & Hp' & Hv & Hc).
  assert (peek_step pc q = deq_step pc q) as E' by (by destruct pc as [| | | | | | | |[]]).
  assert (taken pc = []) as Ht by (by destruct pc as [| | | | | | | |[]]). rewrite Ht in Hc. pose proof (pv_n _ _ _ Hv) as Hn.
  assert (exists k', peek_left pc' = Some k' /\ k' < S (S (S k)))%nat as (k' & Hk' & Hl).
  { clear - E Hk. destruct pc as [| | | | | | | |[]]; try done; injection Hk as <-; step_cases E; eexists; (split; [reflexivity|lia]). }
  exists pc', q', k'. by rewrite E'.
Qed.

Lemma peek_run_ok fuel pc q e k : shape B q None -> cons_ok q pc e -> (e = true -> contents q = []) ->
  peek_left pc = Some k -> (k <= fuel)%nat ->
  exists q', peek_run fuel pc q = Ret (head (contents q), q') /\ shape B q' None /\
    contents q' = contents q /\ n_blocks q' = n_blocks q.
Proof.
  assert (forall fuel r q, peek_run fuel (DeqDone r) q = Ret (r, q)) as Hdone by (by intros []).
  revert pc q e k. induction fuel as [|fuel IH]; intros pc q e k Hs Hp He Hk Hf;
    (destruct k as [|[|[|k]]]; [destruct pc as [| | | | | | | |[]]; try done; exists q; rewrite Hdone; by rewrite (He (Hp eq_refl))|try lia..]).
  - destruct pc as [| | | | | |fb bf| |[]]; try done. exists q. cbn [peek_run].
    rewrite (peek_read_ok q fb bf e Hs Hp). cbn [mbind outcome_bind]. by rewrite Hdone.
  - destruct pc as [| | | |fb| | | |[]]; try done. destruct (peek_next_ok q fb e Hs Hp) as (nb & bf & H1 & H2). exists q.
    destruct fuel as [|fuel]; [lia|]. cbn [peek_run]. rewrite H1. cbn [mbind outcome_bind peek_run]. rewrite H2.
    cbn [mbind outcome_bind]. by rewrite Hdone.
  - destruct (peek_early pc q e k Hs Hp Hk) as (pc' & q' & k' & E & Hs' & Hp' & Hc & Hn & Hk' & Hl).
    assert (peek_run (S fuel) pc q = peek_run fuel pc' q') as ->.
    { destruct pc as [| | | | | | | |[]]; try done; cbn [peek_run]; by rewrite E. }
    rewrite <- Hc, <- Hn. apply (IH pc' q' (e || empty_now q) k'); [done|done| |done|lia].
    rewrite Hc. intros [|H]%orb_true_iff; [by apply He|]. unfold empty_now in H. by destruct (contents q).
Qed.

(** [peek] shows the object that [try_dequeue] would take, and leaves it. *)
Theorem peek_exact q : shape B q None ->
  exists q', peek q = Ret (head (contents q), q') /\ shape B q' None /\ contents q' = contents q /\ n_blocks q' = n_blocks q.
Proof. intros Hs. by apply (peek_run_ok 6 DeqStart q false 6). Qed.

Theorem pop_exact q : (1 < B)%nat -> shape B q None ->
  exists r q', pop q = Ret (r, q') /\ shape B q' None /\ contents q' = tail (contents q) /\
    (r = true <-> contents q <> []) /\ n_blocks q' = n_blocks q.
Proof.
  intros HB Hs. destruct (inner_try_dequeue_ok B HB q Hs) as (r & q' & E & Hs' & Hn & Hc & Hr).
  unfold pop. rewrite E. cbn [mbind outcome_bind]. eexists _, q'. split; [done|]. split; [done|].
  destruct r as [a|].
  - change (contents q = a :: contents q') in Hc. rewrite Hc. by split_and!.
  - change (contents q = contents q') in Hc. rewrite <- Hc, (Hr eq_refl). by split_and!.
Qed.
End peeking.

(** ** Growing *)
Section growing.
Context {T : Type}.
Implicit Types (q : rwqueue T).

(** The objects from block [i] to the tail block, by the pointers. *)
Fixpoint walk (fuel : nat) q (i : nat) : list T :=
  match fuel with
  | O => []
  | S fuel => items_at q i ++ (if (i =? tailBlock q)%nat then [] else walk fuel q (b_next (block_at q i)))
  end.

Lemma walk_shape B q : shape B q None -> walk (n_blocks q) q (frontBlock q) = contents q.
Proof.
  intros Hs. pose proof (sh_front B q None Hs) as Hf. pose proof (sh_tail B q None Hs) as Ht.
  assert (forall fuel i, (i < n_blocks q)%nat -> (dist (n_blocks q) i (tailBlock q) < fuel)%nat ->
    walk fuel q i = span_items (items_at q) (n_blocks q) i (tailBlock q)) as H.
  { induction fuel as [|fuel IH]; intros i Hi Hd; [lia|]. cbn [walk]. rewrite span_first by done. f_equal.
    destruct (Nat.eqb_spec i (tailBlock q)) as [|Hne]; [done|].
    destruct (block_lookup B q None i Hs Hi) as (b & Hb & _ & _ & _ & _ & Hn). unfold block_at. rewrite Hb. cbn [default id]. rewrite Hn.
    apply IH; [apply place_lt; lia|]. rewrite (dist_succ_l _ _ _ Hi Ht Hne) in Hd. lia. }
  apply H; [done|]. by apply dist_lt.
Qed.

Lemma one_object_items k (a : T) next : (0 < k)%nat -> items (one_object (2 ^ k) a next) = [a].
Proof.
  intros Hk. pose proof (pow2_gt_1 k Hk) as Hp. unfold items, slots, used, one_object, b_size, place, dist. cbn -[Nat.pow].
  destruct (2 ^ k)%nat as [|[|m]]; [lia..|]. done.
Qed.

(** A block behind the old tail that holds one object. *)
Definition grown q (b new : block T) (size : Z) : rwqueue T :=
  RwQueue (blocks (set_block (tailBlock q) (with_next (n_blocks q) b) q) ++ [new]) (frontBlock q) (n_blocks q) size.

Lemma walk_grown B q a b (new : block T) size :
  shape B q None -> blocks q !! tailBlock q = Some b -> items new = [a] ->
  walk (n_blocks (grown q b new size)) (grown q b new size) (frontBlock q) = contents q ++ [a].
Proof.
  intros Hs Hb Hnew. pose proof (sh_front B q None Hs) as Hf. pose proof (sh_tail B q None Hs) as Ht. set (q' := grown q b new size).
  assert (length (blocks (set_block (tailBlock q) (with_next (n_blocks q) b) q)) = n_blocks q) as Hlen by apply set_block_n.
  assert (n_blocks q' = S (n_blocks q)) as Hn by (unfold q', grown, n_blocks in *; cbn [blocks]; rewrite length_app, Hlen; cbn; lia).
  assert (block_at q' (n_blocks q) = new) as Hlast.
  { unfold block_at, q', grown. cbn [blocks]. rewrite lookup_app_r by lia. by rewrite Hlen, Nat.sub_diag. }
  assert (forall i, (i < n_blocks q)%nat -> block_at q' i = if decide (tailBlock q = i) then with_next (n_blocks q) b else block_at q i) as Hold.
  { intros i Hi. unfold block_at, q', grown. cbn [blocks]. rewrite lookup_app_l, set_block_at by lia. by case_decide. }
  assert (forall i, (i < n_blocks q)%nat -> items_at q' i = items_at q i) as Hitems.
  { intros i Hi. unfold items_at. rewrite Hold by done. case_decide; [|done]. subst i. unfold block_at. by rewrite Hb. }
  assert (forall fuel i, (i < n_blocks q)%nat -> (dist (n_blocks q) i (tailBlock q) < fuel)%nat ->
    walk (S fuel) q' i = span_items (items_at q) (n_blocks q) i (tailBlock q) ++ [a]) as H.
  { induction fuel as [|fuel IH]; intros i Hi Hd; [lia|].
    change (walk (S (S fuel)) q' i) with (items_at q' i ++ (if (i =? n_blocks q)%nat then [] else walk (S fuel) q' (b_next (block_at q' i)))).
    rewrite (Hitems i Hi), (proj2 (Nat.eqb_neq i (n_blocks q))), (Hold i Hi), span_first, <- app_assoc by lia. f_equal.
    destruct (Nat.eqb_spec i (tailBlock q)) as [He|Hne].
    - rewrite decide_True by done. cbn [with_next b_next walk app]. unfold items_at. rewrite Hlast, Hnew.
      change (tailBlock q') with (n_blocks q). by rewrite Nat.eqb_refl.
    - rewrite decide_False by done. destruct (block_lookup B q None i Hs Hi) as (b0 & Hb0 & _ & _ & _ & _ & Hnx).
      unfold block_at. rewrite Hb0. cbn [default id]. rewrite Hnx. apply IH; [apply place_lt; lia|].
      rewrite (dist_succ_l _ _ _ Hi Ht Hne) in Hd. lia. }
  rewrite Hn. apply H; [done|]. by apply dist_lt.
Qed.

Lemma enq_step_size pc q pc' q' : enq_step pc q = Ret (pc', q') -> largestBlockSize q' = largestBlockSize q.
Proof. intros E. destruct pc; step_cases E; done. Qed.
Lemma enq_run_size fuel pc q r q' : enq_run fuel pc q = Ret (r, q') -> largestBlockSize q' = largestBlockSize q.
Proof.
  revert pc q. induction fuel as [|fuel IH]; intros pc q E.
  { destruct pc; try done. by injection E as <- <-. }
  destruct (enq_done pc) eqn:Hd; [destruct pc; try done; by injection E as <- <-|].
  assert (exists p, enq_step pc q = Ret p /\ enq_run fuel p.1 p.2 = Ret (r, q')) as ([pc1 q1] & E1 & E2).
  { destruct pc; try done; cbn [enq_run] in E; (destruct (enq_step _ q) as [p|e|]; [|done..]); exists p; (split; [done|]); by destruct p. }
  rewrite (IH _ _ E2). by apply enq_step_size in E1.
Qed.

Lemma inner_try_enqueue_size a q r q' : inner_try_enqueue a q = Ret (r, q') -> largestBlockSize q' = largestBlockSize q.
Proof. apply enq_run_size. Qed.

Lemma inner_enqueue_room M mem a q q1 : inner_try_enqueue a q = Ret (true, q1) -> inner_enqueue M mem a q = Ret (true, q1).
Proof. intros E. unfold inner_enqueue. rewrite E. reflexivity. Qed.
Lemma inner_enqueue_grown M a q q1 b :
  inner_try_enqueue a q = Ret (false, q1) -> get_block q1 (tailBlock q1) = Ret b ->
  inner_enqueue M true a q
  = Ret (true, grown q1 b (one_object (Z.to_nat (next_size M q1)) a (b_next b)) (next_size M q1)).
Proof. intros E Hb. unfold inner_enqueue. rewrite E. cbn [mbind outcome_bind fst snd negb]. rewrite Hb. reflexivity. Qed.

Lemma to_nat_pow2 j : Z.to_nat (2 ^ Z.of_nat j) = (2 ^ j)%nat.
Proof. rewrite <- (Nat2Z.id (2 ^ j)), Nat2Z.inj_pow. done. Qed.

Lemma next_size_pow2 MAX_BLOCK_SIZE q k : largestBlockSize q = (2 ^ Z.of_nat k)%Z -> (0 < k < 63)%nat ->
  exists m, (0 < m)%nat /\ Z.to_nat (next_size MAX_BLOCK_SIZE q) = (2 ^ m)%nat.
Proof.
  intros Hk Hk63. unfold next_size. rewrite Hk. destruct (_ <=? _)%Z; [exists k; split; [lia|apply to_nat_pow2]|].
  exists (S k). split; [lia|]. rewrite <- to_nat_pow2.
  replace (2 ^ Z.of_nat k * 2)%Z with (2 ^ Z.of_nat (S k))%Z by (rewrite Nat2Z.inj_succ, Z.pow_succ_r; lia).
  rewrite u64_small; [reflexivity|]. split; [apply Z.pow_nonneg; lia|]. apply Z.pow_lt_mono_r; lia.
Qed.

(** [enqueue] never refuses an object while there is memory; the blocks then hold it
    behind the others. *)
Theorem inner_enqueue_exact B MAX_BLOCK_SIZE a q k : (1 < B)%nat -> shape B q None ->
  largestBlockSize q = (2 ^ Z.of_nat k)%Z -> (0 < k < 63)%nat ->
  exists q', inner_enqueue MAX_BLOCK_SIZE true a q = Ret (true, q') /\
    walk (n_blocks q') q' (frontBlock q') = contents q ++ [a].
Proof.
  intros HB Hs Hk Hk63. destruct (inner_try_enqueue_ok B HB a q Hs) as (r & q1 & E & Hs1 & Hn1 & Hc1 & _).
  pose proof (inner_try_enqueue_size _ _ _ _ E) as Hz1. destruct r.
  - exists q1. split; [by apply inner_enqueue_room|]. by rewrite (walk_shape B q1 Hs1).
  - destruct (block_lookup B q1 None _ Hs1 (sh_tail B q1 None Hs1)) as (b & Hb & Hg & _).
    destruct (next_size_pow2 MAX_BLOCK_SIZE q1 k) as (m & Hm & Hsz); [by rewrite Hz1|done|].
    eexists. split; [by apply inner_enqueue_grown|]. rewrite app_nil_r in Hc1. rewrite <- Hc1.
    apply (walk_grown B q1 a b); [done|done|]. rewrite Hsz. by apply one_object_items.
Qed.

(** The queue that is moved to has the objects, and the other is empty. *)
Theorem move_queue_exact B q : shape B q None ->
  exists q1 q2, move_queue true q = Ret (q1, q2) /\ contents q1 = contents q /\ shape B q1 None /\
    contents q2 = [] /\ shape 32 q2 None.
Proof.
  intros Hs. eexists _, _. split; [done|]. split; [done|]. split; [done|]. split; [done|].
  destruct (link_blocks_ok (T := T) 1 5 32) as [H1 _]; [lia|lia|]. exact H1.
Qed.
End growing.

(** ** The blocking queue, when nobody is at work *)
Section blocking.
Context {T : Type} (B N : nat) (HB : (1 < B)%nat) (Hsmall : (Z.of_nat (N * B) < 2 ^ 62)%Z).
Implicit Types (s : bqueue T).

Lemma rest_shape s : at_rest B N s -> shape B (inner s) None /\ n_blocks (inner s) = N /\
  m_count s = Z.of_nat (length (contents (inner s))) /\ m_sema s = 0%nat.
Proof.
  intros [H1 H2 _ _ _ H6 _ H8].
  cbn [bq b_prod b_cons inner_skip unsignalled unposted granted waiting owed] in *. split_and!; [done|done|lia|lia].
Qed.

Lemma rest_intro s : shape B (inner s) None -> n_blocks (inner s) = N ->
  m_count s = Z.of_nat (length (contents (inner s))) -> m_sema s = 0%nat -> at_rest B N s.
Proof.
  intros H1 H2 H3 H4. split; cbn [bq b_prod b_cons b_sent b_got inner_skip unsignalled unposted granted waiting owed least_count app];
    try done; lia.
Qed.

Lemma count_fits s : at_rest B N s -> (0 <= m_count s < 2 ^ 62)%Z.
Proof.
  intros Hr. destruct (rest_shape s Hr) as (Hs & Hn & -> & _). pose proof (contents_bound B _ _ Hs) as Hc.
  rewrite Hn in Hc. nia.
Qed.

(** [tryWait] succeeds when there is an object. *)
Lemma tryWait_ok s : at_rest B N s ->
  tryWait s = match contents (inner s) with
              | [] => (false, s)
              | _ :: l => (true, BQueue (inner s) (Z.of_nat (length l)) (m_sema s))
              end.
Proof.
  intros Hr. destruct (rest_shape s Hr) as (_ & _ & Hc & _). pose proof (count_fits s Hr) as Hf. unfold tryWait. rewrite Hc in *.
  destruct (contents (inner s)) as [|a l]; [done|]. cbn [length] in *. rewrite (proj2 (Z.ltb_lt _ _)) by lia.
  unfold fetch_add. rewrite Hc. cbn [length]. do 2 f_equal. rewrite s64_small by lia. lia.
Qed.

Theorem bq_try_dequeue_exact s : at_rest B N s ->
  exists s', bq_try_dequeue s = Ret (head (contents (inner s)), s') /\ at_rest B N s' /\
    contents (inner s') = tail (contents (inner s)).
Proof.
  intros Hr. destruct (rest_shape s Hr) as (Hs & Hn & Hc & Hm). unfold bq_try_dequeue. rewrite (tryWait_ok s Hr).
  destruct (inner_try_dequeue_ok B HB (inner s) Hs) as (r & q' & E & Hs' & Hn' & Hcq & Hre).
  destruct (contents (inner s)) as [|a l] eqn:Hq; [exists s; by rewrite Hq|]. cbn [inner]. rewrite E. cbn [mbind outcome_bind].
  destruct r as [a'|]; [|by specialize (Hre eq_refl)]. change (a :: l = a' :: contents q') in Hcq. injection Hcq as <- Hl.
  eexists. split; [done|]. split; [|by cbn].
  apply rest_intro; cbn [inner m_count m_sema with_inner]; [done|congruence|by rewrite Hl|done].
Qed.

Theorem bq_pop_exact s : at_rest B N s ->
  exists r s', bq_pop s = Ret (r, s') /\ at_rest B N s' /\ contents (inner s') = tail (contents (inner s)) /\
    (r = true <-> contents (inner s) <> []).
Proof.
  intros Hr. destruct (rest_shape s Hr) as (Hs & Hn & Hc & Hm). unfold bq_pop. rewrite (tryWait_ok s Hr).
  destruct (pop_exact B (inner s) HB Hs) as (r & q' & E & Hs' & Hcq & Hre & Hn').
  destruct (contents (inner s)) as [|a l] eqn:Hq; [exists false, s; by rewrite Hq|]. cbn [inner]. rewrite E. cbn [mbind outcome_bind fst snd].
  assert (r = true) as -> by (by apply Hre). eexists true, _. split; [done|]. split; [|by cbn].
  apply rest_intro; cbn [inner m_count m_sema with_inner]; [done|congruence|by rewrite Hcq|done].
Qed.

Theorem bq_peek_exact s : at_rest B N s ->
  exists s', bq_peek s = Ret (head (contents (inner s)), s') /\ at_rest B N s' /\ contents (inner s') = contents (inner s).
Proof.
  intros Hr. destruct (rest_shape s Hr) as (Hs & Hn & Hc & Hm). unfold bq_peek.
  destruct (peek_exact B (inner s) Hs) as (q' & E & Hs' & Hcq & Hn'). rewrite E. cbn [mbind outcome_bind].
  eexists. split; [done|]. split; [|done]. apply rest_intro; cbn [inner m_count m_sema with_inner]; [done|congruence|by rewrite Hcq|done].
Qed.

(** The two counts of a queue at rest are its length: the one by the semaphore
    and the one round the blocks. *)
Theorem bq_size_exact s : at_rest B N s ->
  availableApprox s = Z.of_nat (length (contents (inner s))) /\
  size_approx (inner s) = Ret (availableApprox s) /\
  bq_max_capacity s = Ret (Z.of_nat (N * (B - 1))).
Proof.
  intros Hr. destruct (rest_shape s Hr) as (Hs & Hn & Hc & Hm). unfold availableApprox, bq_max_capacity. rewrite <- Hn.
  assert (Z.of_nat (n_blocks (inner s) * B) < 2 ^ 62)%Z as Hsz by (by rewrite Hn).
  rewrite (size_approx_exact B (inner s) Hs Hsz), (max_capacity_exact B (inner s) Hs Hsz), Hc.
  destruct (contents (inner s)); [done|]. rewrite (proj2 (Z.ltb_lt _ _)) by (cbn; lia). done.
Qed.
End blocking.
