(* ===== verification/KeyTable.v ===== *)
(** * KeyTable: the timestamped table that the three ping tables share.

    [PingMsgMap], [RdmaPinginfoMap] and [TcpUdpPinginfoMap] all keep a
    [std::unordered_map] from keys to entries and a [std::list] of the keys in
    insertion order; an entry holds the iterator of its list node, so that
    [remove] erases it in constant time. The list is modelled with explicit
    node identities: erasing an iterator whose node is gone is undefined
    behaviour, and the theorems show that it does not happen.

    The abstract view of a table, [contents], is the list of its entries in
    insertion order; every operation is proved to be the obvious operation on
    that list. *)
From S2P Require Import Prelude Common.
Local Open Scope Z_scope.

Record entry (V : Type) := Entry { value : V; timestamp : Z; listIter : nat }.
Arguments Entry {V} value timestamp listIter.
Arguments value {V} e.
Arguments timestamp {V} e.
Arguments listIter {V} e.

(** [next_node] is the identity the next list node will get. *)
Record table (V : Type) := Table {
  tmap : gmap Z (entry V); keyList : list (nat * Z); next_node : nat }.
Arguments Table {V} tmap keyList next_node.
Arguments tmap {V} t.
Arguments keyList {V} t.
Arguments next_node {V} t.

(** A table seen as a list: key, value and timestamp, oldest first. *)
Abbreviation acontents V := (list (Z * (V * Z))).

Section table.
Context {V : Type}.
Implicit Types (t : table V) (k : Z) (e : entry V).

Definition empty_table : table V := Table ∅ [] 0.

(** [keyList.erase(it)]: [None] when the node is not in the list. *)
Fixpoint list_erase (node : nat) (l : list (nat * Z)) : option (list (nat * Z)) :=
  match l with
  | [] => None
  | (n, k) :: l' =>
      if (n =? node)%nat then Some l' else cons (n, k) <$> list_erase node l'
  end.

(** [emplace(keyList.end(), key)] followed by [map[key] = {v, now, iter}]. *)
Definition emplace_back k v now t : table V :=
  Table (<[k := Entry v now (next_node t)]> (tmap t))
        (keyList t ++ [(next_node t, k)]) (S (next_node t)).

(** Assignment through a reference to the value of an existing entry. *)
Definition set_value k v t : table V :=
  Table (alter (fun e => Entry v (timestamp e) (listIter e)) k (tmap t))
        (keyList t) (next_node t).

(** The private [remove] of the tables. *)
Definition remove k t : outcome (Z * table V) :=
  match tmap t !! k with
  | Some e =>
      match list_erase (listIter e) (keyList t) with
      | Some l => Ret (PINGWEAVE_SUCCESS, Table (delete k (tmap t)) l (next_node t))
      | None => Undef
      end
  | None => Ret (PINGWEAVE_FAILURE, t)
  end.

(** [expireEntries], parametric in what a class does with an expired value
    ([on_expire], which acts on a state such as the result queue). The loop
    pops the list at each round, so it is structural in the list. *)
Section expire.
Context {S : Type} (on_expire : V -> S -> S) (now threshold_ms : Z).

Definition stale (ts : Z) : bool :=
  negb (Clock.to_milliseconds (now - ts) <? threshold_ms).

Fixpoint expire_loop (l : list (nat * Z)) (m : gmap Z (entry V)) (s : S) (n_remove : Z)
  : list (nat * Z) * gmap Z (entry V) * S * Z :=
  match l with
  | [] => ([], m, s, n_remove)
  | (_, k) :: l' =>
      match m !! k with
      | None => expire_loop l' m s n_remove
      | Some e =>
          if stale (timestamp e)
          then expire_loop l' (delete k m) (on_expire (value e) s) (n_remove + 1)
          else (l, m, s, n_remove)
      end
  end.

Definition expireEntries t (s : S) : Z * table V * S :=
  let '(l, m, s', n) := expire_loop (keyList t) (tmap t) s 0 in
  (n, Table m l (next_node t), s').
End expire.

(** ** The abstract view *)
Definition view (m : gmap Z (entry V)) (nk : nat * Z) : option (Z * (V * Z)) :=
  (fun e => (nk.2, (value e, timestamp e))) <$> m !! nk.2.

Definition contents_of (l : list (nat * Z)) (m : gmap Z (entry V)) : (acontents V) :=
  omap (view m) l.

Definition contents t : (acontents V) := contents_of (keyList t) (tmap t).

(** The operations on the abstract view. *)
Definition aremove k (l : (acontents V)) : (acontents V) := filter (fun p => p.1 <> k) l.

Definition aset k v (l : (acontents V)) : (acontents V) :=
  (fun p => if decide (p.1 = k) then (k, (v, p.2.2)) else p) <$> l.

(** Expiry takes the longest prefix of stale entries. *)
Fixpoint aexpire (now threshold_ms : Z) (l : (acontents V)) : (acontents V) * (acontents V) :=
  match l with
  | [] => ([], [])
  | p :: l' =>
      if stale now threshold_ms p.2.2
      then let '(gone, kept) := aexpire now threshold_ms l' in (p :: gone, kept)
      else ([], l)
  end.

(** ** Well-formed tables

    The list has one node per entry of the map, and the entry's iterator is
    that node. *)
Record linked (l : list (nat * Z)) (m : gmap Z (entry V)) : Prop := {
  linked_nodes : NoDup l.*1;
  linked_keys : NoDup l.*2;
  linked_entry k e : m !! k = Some e -> (listIter e, k) ∈ l;
  linked_list n k : (n, k) ∈ l -> exists e, m !! k = Some e /\ listIter e = n;
}.

Record wf t : Prop := {
  wf_linked : linked (keyList t) (tmap t);
  wf_fresh : Forall (fun p => (p.1 < next_node t)%nat) (keyList t);
}.

Lemma linked_nil : linked [] ∅.
Proof.
  split; [constructor|constructor| |].
  - intros k e. by rewrite lookup_empty.
  - intros n k. by rewrite elem_of_nil.
Qed.

Lemma linked_head n k l m :
  linked ((n, k) :: l) m -> exists e, m !! k = Some e /\ listIter e = n.
Proof. intros H. apply (linked_list _ _ H). left. Qed.

Lemma linked_tail n k l m : linked ((n, k) :: l) m -> linked l (delete k m).
Proof.
  intros [Hn Hk He Hl]. cbn in Hn, Hk.
  apply NoDup_cons in Hn as [Hn1 Hn2]. apply NoDup_cons in Hk as [Hk1 Hk2].
  assert (forall n' k', (n', k') ∈ l -> k' <> k) as Hne.
  { intros n' k' Hin ->. apply Hk1. by apply (list_elem_of_fmap_2 snd _ (n', k)). }
  split; [done|done| |].
  - intros k' e Hk'. apply lookup_delete_Some in Hk' as [Hne' Hk'].
    apply He in Hk'. apply elem_of_cons in Hk' as [Heq|]; [by simplify_eq|done].
  - intros n' k' Hin. destruct (Hl n' k') as (e & He1 & He2); [by right|].
    exists e. rewrite lookup_delete_ne by (intros <-; by eapply Hne). by split.
Qed.

Lemma contents_of_insert_other k e l m :
  k ∉ l.*2 -> contents_of l (<[k := e]> m) = contents_of l m.
Proof.
  unfold contents_of. induction l as [|[n k'] l IH]; [done|]. cbn [fmap list_fmap snd].
  intros [Hne Hnin]%not_elem_of_cons. cbn [omap list_omap].
  rewrite IH by done. unfold view. cbn [snd]. by rewrite lookup_insert_ne.
Qed.

Lemma contents_of_delete_other k l m :
  k ∉ l.*2 -> contents_of l (delete k m) = contents_of l m.
Proof.
  unfold contents_of. induction l as [|[n k'] l IH]; [done|]. cbn [fmap list_fmap snd].
  intros [Hne Hnin]%not_elem_of_cons. cbn [omap list_omap].
  rewrite IH by done. unfold view. cbn [snd]. by rewrite lookup_delete_ne.
Qed.

Lemma contents_of_cons n k l m e :
  linked ((n, k) :: l) m -> m !! k = Some e ->
  contents_of ((n, k) :: l) m = (k, (value e, timestamp e)) :: contents_of l (delete k m).
Proof.
  intros Hl He. rewrite contents_of_delete_other.
  - unfold contents_of. cbn [omap list_omap]. unfold view at 1. cbn [snd]. by rewrite He.
  - pose proof (linked_keys _ _ Hl) as Hk. cbn in Hk. by apply NoDup_cons in Hk as [? _].
Qed.

Lemma contents_of_keys l m : linked l m -> (contents_of l m).*1 = l.*2.
Proof.
  revert m. induction l as [|[n k] l IH]; intros m Hl; [done|].
  destruct (linked_head _ _ _ _ Hl) as (e & He & _).
  rewrite (contents_of_cons _ _ _ _ e) by done. cbn. f_equal.
  apply IH. by eapply linked_tail.
Qed.

Lemma contents_of_elem l m k v ts :
  linked l m ->
  (k, (v, ts)) ∈ contents_of l m <->
  exists e, m !! k = Some e /\ value e = v /\ timestamp e = ts.
Proof.
  intros Hl. unfold contents_of. rewrite list_elem_of_omap. split.
  - intros ([n k'] & Hin & Hv). unfold view in Hv. cbn in Hv.
    destruct (m !! k') as [e|] eqn:He; [|done]. simpl in Hv. simplify_eq. by exists e.
  - intros (e & He & <- & <-). exists (listIter e, k). split.
    + by apply (linked_entry _ _ Hl).
    + unfold view. cbn. by rewrite He.
Qed.

(** *** Initial table and lookup *)
Lemma wf_empty : wf empty_table.
Proof. split; [apply linked_nil|constructor]. Qed.

Lemma contents_keys t : wf t -> (contents t).*1 = (keyList t).*2.
Proof. intros [Hl _]. by apply contents_of_keys. Qed.

Lemma contents_nodup t : wf t -> NoDup (contents t).*1.
Proof. intros Ht. rewrite contents_keys by done. apply (linked_keys _ _ (wf_linked _ Ht)). Qed.

Lemma contents_elem t k v ts :
  wf t ->
  (k, (v, ts)) ∈ contents t <->
  exists e, tmap t !! k = Some e /\ value e = v /\ timestamp e = ts.
Proof. intros [Hl _]. by apply contents_of_elem. Qed.

Lemma contents_lookup t k e :
  wf t -> tmap t !! k = Some e -> (k, (value e, timestamp e)) ∈ contents t.
Proof. intros Ht He. apply contents_elem; [done|]. by exists e. Qed.

Lemma contents_none t k : wf t -> tmap t !! k = None -> k ∉ (contents t).*1.
Proof.
  intros Ht Hk (p & -> & Hin)%list_elem_of_fmap. destruct p as [k' [v ts]].
  apply contents_elem in Hin as (e & He & _); [|done]. cbn in Hk. by rewrite He in Hk.
Qed.

Lemma contents_key t k e : wf t -> tmap t !! k = Some e -> k ∈ (contents t).*1.
Proof.
  intros Ht He. apply (contents_lookup _ _ _ Ht) in He.
  by apply (list_elem_of_fmap_2 fst) in He.
Qed.

Lemma aremove_absent k (l : acontents V) : k ∉ l.*1 -> aremove k l = l.
Proof.
  intros Hnin. apply filter_all, list.Forall_forall. intros p Hin Hp.
  apply Hnin. rewrite <- Hp. by apply list_elem_of_fmap_2.
Qed.

Lemma aremove_keys k (l : acontents V) :
  NoDup l.*1 -> k ∈ l.*1 -> l.*1 ≡ₚ k :: (aremove k l).*1.
Proof.
  unfold aremove. induction l as [|[k' p] l IH]; [by rewrite elem_of_nil|].
  cbn [fmap list_fmap fst]. intros [Hn Hnd]%NoDup_cons Hin.
  destruct (decide (k' = k)) as [->|Hne].
  - rewrite filter_cons_False by (simpl; tauto). f_equiv. apply (aremove_absent k) in Hn.
    unfold aremove in Hn. by rewrite Hn.
  - rewrite filter_cons_True by done. apply elem_of_cons in Hin as [Heq|Hin]; [congruence|].
    cbn. rewrite IH by done. apply Permutation_swap.
Qed.

Lemma aset_keys k v (l : acontents V) : (aset k v l).*1 = l.*1.
Proof.
  unfold aset. rewrite <- list_fmap_compose. apply list_fmap_ext. intros i [k' p] _. cbn.
  by case_decide.
Qed.

(** *** Insertion *)
Lemma wf_emplace_back k v now t :
  wf t -> tmap t !! k = None -> wf (emplace_back k v now t).
Proof.
  intros [[Hn Hk He Hl] Hf] Hnone. rewrite list.Forall_forall in Hf.
  assert (forall n, (n, k) ∉ keyList t) as Hfree.
  { intros n Hin. destruct (Hl _ _ Hin) as (e & He' & _). by rewrite He' in Hnone. }
  split; [split|]; unfold emplace_back; simpl.
  - rewrite fmap_app. apply NoDup_app. split_and!; [done| |apply NoDup_singleton].
    intros n (p & -> & Hin)%list_elem_of_fmap Heq%list_elem_of_singleton.
    apply Hf in Hin. simpl in *. lia.
  - rewrite fmap_app. apply NoDup_app. split_and!; [done| |apply NoDup_singleton].
    intros k' (p & -> & Hin)%list_elem_of_fmap Heq%list_elem_of_singleton.
    destruct p as [n k'']. simpl in *. subst k''. by eapply Hfree.
  - intros k' e Hlk. rewrite elem_of_app.
    destruct (decide (k = k')) as [->|Hne].
    + rewrite lookup_insert_eq in Hlk. simplify_eq. right. by left.
    + rewrite lookup_insert_ne in Hlk by done. left. by apply He.
  - intros n k' [Hin|Hin%list_elem_of_singleton]%elem_of_app.
    + destruct (Hl _ _ Hin) as (e & He' & Hn'). exists e.
      rewrite lookup_insert_ne; [done|]. intros <-. by eapply Hfree.
    + simplify_eq. eexists. rewrite lookup_insert_eq. done.
  - apply Forall_app_2; [|by repeat constructor].
    apply list.Forall_forall. intros p Hin. apply Hf in Hin. lia.
Qed.

Lemma contents_emplace_back k v now t :
  wf t -> tmap t !! k = None ->
  contents (emplace_back k v now t) = contents t ++ [(k, (v, now))].
Proof.
  intros Ht Hnone. pose proof (contents_none t k Ht Hnone) as Hnin.
  rewrite contents_keys in Hnin by done.
  unfold contents, contents_of, emplace_back. cbn [keyList tmap]. rewrite omap_app. f_equal.
  - by apply contents_of_insert_other.
  - cbn. unfold view. cbn. by rewrite lookup_insert_eq.
Qed.

(** *** Assignment to an entry's value *)
Lemma wf_set_value k v t : wf t -> wf (set_value k v t).
Proof.
  intros [[Hn Hk He Hl] Hf]. split; [split|]; simpl; try done.
  - intros k' e Hlk. rewrite lookup_alter in Hlk. case_decide; [|by apply He].
    subst. destruct (tmap t !! k') as [e0|] eqn:E; [|done].
    simpl in Hlk. simplify_eq. simpl. by apply He.
  - intros n k' Hin. destruct (Hl _ _ Hin) as (e & He' & Hn'). rewrite lookup_alter.
    case_decide; [subst; rewrite He'; by eexists|by exists e].
Qed.

Lemma contents_set_value k v t : wf t -> contents (set_value k v t) = aset k v (contents t).
Proof.
  intros Ht. unfold contents, contents_of, aset, set_value. cbn [keyList tmap].
  generalize (keyList t). intros l. induction l as [|[n k'] l IH]; [done|].
  cbn [omap list_omap]. rewrite IH. unfold view at 1 3. cbn [snd].
  rewrite lookup_alter. case_decide as Hd; [subst k'|];
    destruct (tmap t !! _) as [e|] eqn:He; unfold view at 2; cbn [snd]; rewrite He;
    cbn -[decide]; try done.
  - by rewrite decide_True.
  - by rewrite decide_False.
Qed.

Lemma set_value_lookup k v t e :
  tmap t !! k = Some e ->
  tmap (set_value k v t) !! k = Some (Entry v (timestamp e) (listIter e)).
Proof. intros He. simpl. rewrite lookup_alter, decide_True, He by done. done. Qed.

(** *** Removal *)
Lemma list_erase_spec l n k :
  NoDup l.*1 -> (n, k) ∈ l ->
  list_erase n l = Some (filter (fun p => p.1 <> n) l).
Proof.
  induction l as [|[n' k'] l IH]; [by rewrite elem_of_nil|].
  cbn [fmap list_fmap fst]. intros [Hn Hnd]%NoDup_cons Hin. cbn [list_erase].
  destruct (Nat.eqb_spec n' n) as [->|Hne].
  - rewrite filter_cons_False by (simpl; tauto). f_equal. symmetry. apply filter_all.
    apply list.Forall_forall. intros [n0 k0] Hin0 Heq. simpl in Heq. subst n0.
    apply Hn. by apply (list_elem_of_fmap_2 fst _ (n, k0)).
  - rewrite filter_cons_True by done. apply elem_of_cons in Hin as [Heq|Hin]; [by simplify_eq|].
    by rewrite IH.
Qed.

(** On a well-formed table the iterator is live, so that removing a present
    key always succeeds. *)
Lemma remove_present k t e :
  wf t -> tmap t !! k = Some e ->
  remove k t = Ret (PINGWEAVE_SUCCESS,
    Table (delete k (tmap t)) (filter (fun p => p.1 <> listIter e) (keyList t)) (next_node t)).
Proof.
  intros [Hl _] He. unfold remove. rewrite He.
  rewrite (list_erase_spec _ _ k); [done|apply (linked_nodes _ _ Hl)|].
  by apply (linked_entry _ _ Hl).
Qed.

Lemma remove_absent k t : tmap t !! k = None -> remove k t = Ret (PINGWEAVE_FAILURE, t).
Proof. intros He. unfold remove. by rewrite He. Qed.

Lemma filter_node_key l m k e p :
  linked l m -> m !! k = Some e -> p ∈ l -> p.1 <> listIter e <-> p.2 <> k.
Proof.
  intros Hl He Hin. destruct p as [n k']. cbn.
  destruct (linked_list _ _ Hl _ _ Hin) as (e' & He' & <-). split; [by intros ? ->; simplify_eq|].
  intros Hne Heq. pose proof (linked_entry _ _ Hl _ _ He) as Hin'. rewrite <- Heq in Hin'.
  pose proof (linked_nodes _ _ Hl) as Hnd. apply Hne.
  apply list_elem_of_lookup in Hin as [i Hi]. apply list_elem_of_lookup in Hin' as [j Hj].
  assert (i = j) as ->.
  { eapply NoDup_lookup; [done| |]; rewrite list_lookup_fmap; [by rewrite Hi|by rewrite Hj]. }
  by simplify_eq.
Qed.

Lemma linked_filter l m k e :
  linked l m -> m !! k = Some e ->
  linked (filter (fun p => p.1 <> listIter e) l) (delete k m).
Proof.
  intros Hl He. split.
  - eapply sublist_NoDup; [apply (linked_nodes _ _ Hl)|].
    apply sublist_fmap, sublist_filter.
  - eapply sublist_NoDup; [apply (linked_keys _ _ Hl)|].
    apply sublist_fmap, sublist_filter.
  - intros k' e' [Hne Hlk]%lookup_delete_Some.
    pose proof (linked_entry _ _ Hl _ _ Hlk) as Hin. apply list_elem_of_filter. split; [|done].
    apply (filter_node_key _ _ _ _ _ Hl He Hin). simpl. congruence.
  - intros n k' [Hne Hin]%list_elem_of_filter.
    apply (filter_node_key _ _ _ _ _ Hl He Hin) in Hne. cbn in Hne.
    destruct (linked_list _ _ Hl _ _ Hin) as (e' & He' & Hn').
    exists e'. by rewrite lookup_delete_ne by congruence.
Qed.

Lemma contents_of_filter l m k e :
  linked l m -> m !! k = Some e ->
  contents_of (filter (fun p => p.1 <> listIter e) l) (delete k m)
  = aremove k (contents_of l m).
Proof.
  intros Hl He. unfold contents_of, aremove.
  assert (forall p, p ∈ l -> p.1 <> listIter e <-> p.2 <> k) as Hiff.
  { intros p Hin. by eapply filter_node_key. }
  clear Hl. induction l as [|[n k'] l IH]; [done|].
  assert (n <> listIter e <-> k' <> k) as Hh by (apply (Hiff (n, k')); left).
  assert (forall p, p ∈ l -> p.1 <> listIter e <-> p.2 <> k) as Ht by (intros; apply Hiff; by right).
  specialize (IH Ht). destruct (decide (k' = k)) as [->|Hne].
  - rewrite filter_cons_False by (simpl; tauto). rewrite IH, omap_cons_eq.
    assert (view m (n, k) = Some (k, (value e, timestamp e))) as ->.
    { unfold view. cbn. by rewrite He. }
    cbv iota. by rewrite filter_cons_False by (simpl; tauto).
  - rewrite filter_cons_True by (simpl; tauto). rewrite !omap_cons_eq, IH.
    assert (view (delete k m) (n, k') = view m (n, k')) as ->.
    { unfold view. cbn. by rewrite lookup_delete_ne. }
    destruct (view m (n, k')) as [p|] eqn:Hv; [|done].
    rewrite filter_cons_True; [done|]. unfold view in Hv. cbn in Hv.
    destruct (m !! k'); simpl in Hv; by simplify_eq.
Qed.

(** [remove] of a present key: it succeeds, keeps the table well formed and
    removes exactly that entry. *)
Lemma remove_spec k t e :
  wf t -> tmap t !! k = Some e ->
  exists t', remove k t = Ret (PINGWEAVE_SUCCESS, t') /\ wf t' /\
    contents t' = aremove k (contents t) /\ tmap t' = delete k (tmap t).
Proof.
  intros Ht He. eexists. split; [by apply remove_present|].
  destruct Ht as [Hl Hf]. split_and!; [split|..]; simpl; [by apply linked_filter| | |done].
  - eapply sublist_Forall; [apply sublist_filter|done].
  - by apply contents_of_filter.
Qed.

(** *** Expiry *)
Section expire_facts.
Context {S : Type} (on_expire : V -> S -> S) (now threshold_ms : Z).

(** The effect of expiring a list of entries, oldest first. *)
Definition expired_effect (gone : (acontents V)) (s : S) : S :=
  foldl (fun s p => on_expire p.2.1 s) s gone.

Lemma expire_loop_spec l m s n :
  linked l m ->
  exists l' m' gone,
    expire_loop on_expire now threshold_ms l m s n
      = (l', m', expired_effect gone s, n + Z.of_nat (length gone)) /\
    linked l' m' /\ sublist l' l /\
    aexpire now threshold_ms (contents_of l m) = (gone, contents_of l' m') /\
    (forall k, m' !! k = if bool_decide (k ∈ gone.*1) then None else m !! k).
Proof.
  revert m s n. induction l as [|[nd k] l IH]; intros m s n Hl.
  - exists [], m, []. cbn. split_and!; try done. by rewrite Z.add_0_r.
  - destruct (linked_head _ _ _ _ Hl) as (e & He & _).
    rewrite (contents_of_cons _ _ _ _ e) by done. cbn. rewrite He.
    destruct (stale now threshold_ms (timestamp e)) eqn:Hst.
    + destruct (IH (delete k m) (on_expire (value e) s) (n + 1)) as
        (l' & m' & gone & -> & Hl' & Hsub & Hae & Hm'); [by eapply linked_tail|].
      exists l', m', ((k, (value e, timestamp e)) :: gone). rewrite Hae. cbn.
      split_and!; try done.
      * f_equal. lia.
      * by apply sublist_cons.
      * intros k'. rewrite Hm'. destruct (decide (k = k')) as [<-|Hne].
        -- rewrite lookup_delete_eq. rewrite (bool_decide_eq_true_2 (k ∈ k :: _)) by left.
           by destruct (bool_decide _).
        -- rewrite lookup_delete_ne by done. destruct (decide (k' ∈ gone.*1)).
           ++ rewrite !bool_decide_eq_true_2; [done|by right|done].
           ++ rewrite !bool_decide_eq_false_2; [done|by intros [?|?]%elem_of_cons; [congruence|]|done].
    + exists ((nd, k) :: l), m, []. cbn. rewrite Z.add_0_r.
      split_and!; try done. f_equal. by rewrite <- (contents_of_cons nd _ _ _ e).
Qed.

(** [expireEntries] removes the longest prefix of stale entries, handles
    each removed value once and in insertion order, and returns their
    number. *)
Lemma expireEntries_spec t s :
  wf t ->
  exists t' gone,
    expireEntries on_expire now threshold_ms t s
      = (Z.of_nat (length gone), t', expired_effect gone s) /\
    wf t' /\ aexpire now threshold_ms (contents t) = (gone, contents t') /\
    (forall k, tmap t' !! k = if bool_decide (k ∈ gone.*1) then None else tmap t !! k).
Proof.
  intros [Hl Hf]. unfold expireEntries.
  destruct (expire_loop_spec (keyList t) (tmap t) s 0 Hl)
    as (l' & m' & gone & -> & Hl' & Hsub & Hae & Hm').
  eexists _, gone. split; [done|]. split_and!; [split; simpl|done|done]; [done|].
  by eapply sublist_Forall.
Qed.

Lemma aexpire_app l gone kept :
  aexpire now threshold_ms l = (gone, kept) -> l = gone ++ kept.
Proof.
  revert gone kept. induction l as [|p l IH]; intros gone kept; cbn; [by intros [= <- <-]|].
  destruct (stale _ _ _); [|by intros [= <- <-]].
  destruct (aexpire now threshold_ms l) as [g r]. intros [= <- <-]. cbn. f_equal. by apply IH.
Qed.

Lemma aexpire_gone_stale l gone kept :
  aexpire now threshold_ms l = (gone, kept) ->
  Forall (fun p => stale now threshold_ms p.2.2 = true) gone.
Proof.
  revert gone kept. induction l as [|p l IH]; intros gone kept; cbn.
  - intros [= <- <-]. constructor.
  - destruct (stale now threshold_ms p.2.2) eqn:Hst; [|intros [= <- <-]; constructor].
    destruct (aexpire now threshold_ms l) as [g r]. intros [= <- <-].
    constructor; [done|]. by eapply IH.
Qed.

(** An older entry of a sorted table is stale whenever a younger one is. *)
Lemma stale_mono ts ts' :
  ts <= ts' -> stale now threshold_ms ts' = true -> stale now threshold_ms ts = true.
Proof.
  unfold stale, Clock.to_milliseconds. rewrite !negb_true_iff, !Z.ltb_ge. intros Hle Hst.
  assert (Z.quot (now - ts') 1000000 <= Z.quot (now - ts) 1000000); [|lia].
  apply Z.quot_le_mono; lia.
Qed.

(** When timestamps grow along the list, nothing stale stays. *)
Lemma aexpire_kept_fresh l gone kept :
  StronglySorted Z.le (snd ∘ snd <$> l) ->
  aexpire now threshold_ms l = (gone, kept) ->
  Forall (fun p => stale now threshold_ms p.2.2 = false) kept.
Proof.
  revert gone kept. induction l as [|p l IH]; intros gone kept Hs; cbn [aexpire].
  - intros [= <- <-]. constructor.
  - rewrite fmap_cons in Hs. apply StronglySorted_inv in Hs as [Hs Hall].
    destruct (stale now threshold_ms p.2.2) eqn:Hst.
    + destruct (aexpire now threshold_ms l) as [g r]. intros [= <- <-]. by eapply IH.
    + intros [= <- <-]. constructor; [done|].
      rewrite list.Forall_fmap in Hall. eapply list.Forall_impl; [done|].
      intros q Hle. cbn in Hle. apply not_true_is_false. intros Hst'.
      rewrite (stale_mono _ _ Hle Hst') in Hst. done.
Qed.
End expire_facts.

(** The timestamps of the entries, oldest first. *)
Definition stamps t : list Z := snd ∘ snd <$> contents t.

(** Entries are in time order and none is younger than [now]: what a
    monotone clock gives. *)
Definition timed (now : Z) t : Prop :=
  StronglySorted Z.le (stamps t) /\ Forall (fun ts => ts <= now) (stamps t).

Lemma timed_sub now t t' :
  sublist (stamps t') (stamps t) -> timed now t -> timed now t'.
Proof.
  intros Hsub [Hs Hle]. split; [|by eapply sublist_Forall].
  clear Hle. revert Hs. induction Hsub as [|x l1 l2 Hsub IH|x l1 l2 Hsub IH]; intros Hs.
  - constructor.
  - apply StronglySorted_inv in Hs as [Hs Hall]. constructor; [auto|by eapply sublist_Forall].
  - apply StronglySorted_inv in Hs as [Hs _]. auto.
Qed.

Lemma timed_later now now' t : now <= now' -> timed now t -> timed now' t.
Proof.
  intros Hle [Hs Hf]. split; [done|]. eapply list.Forall_impl; [done|]. intros ts Hts.
  cbn in *. lia.
Qed.

Lemma timed_empty now : timed now empty_table.
Proof. split; constructor. Qed.

Lemma timed_emplace_back now k v t :
  wf t -> tmap t !! k = None -> timed now t -> timed now (emplace_back k v now t).
Proof.
  intros Ht Hnone [Hs Hle]. unfold timed, stamps. rewrite contents_emplace_back by done.
  rewrite fmap_app. fold (stamps t). split.
  - induction Hs as [|x l Hs IH Hall]; [by repeat constructor|].
    apply list.Forall_cons in Hle as [Hx Hle]. cbn. constructor; [by apply IH|].
    apply Forall_app_2; [done|]. by apply Forall_singleton.
  - apply Forall_app_2; [done|]. apply Forall_singleton. cbn. lia.
Qed.

Lemma stamps_set_value k v t : wf t -> stamps (set_value k v t) = stamps t.
Proof.
  intros Ht. unfold stamps. rewrite contents_set_value by done. unfold aset.
  rewrite <- list_fmap_compose. apply list_fmap_ext. intros i p _. cbn. by case_decide.
Qed.

Lemma timed_remove now k t t' :
  contents t' = aremove k (contents t) -> timed now t -> timed now t'.
Proof.
  intros Heq. apply timed_sub. unfold stamps. rewrite Heq. apply sublist_fmap, sublist_filter.
Qed.

Lemma timed_expire now ex thr t t' gone :
  aexpire ex thr (contents t) = (gone, contents t') -> timed now t -> timed now t'.
Proof.
  intros Hae. apply timed_sub. unfold stamps. rewrite (aexpire_app _ _ _ _ _ Hae).
  apply sublist_fmap, sublist_inserts_l. done.
Qed.
End table.

#[export] Hint Resolve wf_empty wf_emplace_back wf_set_value timed_empty timed_emplace_back
  timed_later : pw.

(** ** Expiry of a table in time order

    When the clock is monotone the stale entries are a prefix, so that expiry
    is a filter: it removes every stale entry and only those. *)
Section in_time_order.
Context {V S : Type} (on_expire : V -> S -> S) (now threshold_ms : Z).

Definition is_stale (p : Z * (V * Z)) : Prop := stale now threshold_ms p.2.2 = true.

#[export] Instance is_stale_dec p : Decision (is_stale p).
Proof. unfold is_stale. apply _. Defined.

Lemma aexpire_filter (l : acontents V) :
  StronglySorted Z.le (snd ∘ snd <$> l) ->
  aexpire now threshold_ms l = (filter is_stale l, filter (fun p => ~ is_stale p) l).
Proof.
  intros Hs. destruct (aexpire now threshold_ms l) as [gone kept] eqn:E.
  pose proof (aexpire_gone_stale _ _ _ _ _ E) as Hg.
  pose proof (aexpire_kept_fresh _ _ _ _ _ Hs E) as Hk.
  pose proof (aexpire_app _ _ _ _ _ E) as ->. rewrite !list.filter_app.
  assert (Forall (fun p => ~ is_stale p) kept) as Hk'.
  { eapply list.Forall_impl; [done|]. unfold is_stale. intros p Hp. cbn in Hp. congruence. }
  assert (forall (P : Z * (V * Z) -> Prop) `{forall x, Decision (P x)} l,
    Forall (fun p => ~ P p) l -> filter P l = []) as Hnone.
  { intros P ? l. induction 1; [done|]. by rewrite filter_cons_False. }
  rewrite (filter_all is_stale gone) by done.
  rewrite (Hnone _ _ kept Hk'), app_nil_r. f_equal.
  rewrite (filter_all (fun p => ~ is_stale p) kept) by done.
  rewrite (Hnone (fun p => ~ is_stale p) _ gone); [done|].
  eapply list.Forall_impl; [done|]. intros p Hp. cbn in Hp. unfold is_stale. tauto.
Qed.

Lemma expireEntries_timed t s :
  wf t -> timed now t ->
  exists t',
    expireEntries on_expire now threshold_ms t s
      = (Z.of_nat (length (filter is_stale (contents t))), t',
         expired_effect on_expire (filter is_stale (contents t)) s) /\
    wf t' /\ timed now t' /\ contents t' = filter (fun p => ~ is_stale p) (contents t).
Proof.
  intros Ht Htm. destruct (expireEntries_spec on_expire now threshold_ms t s Ht)
    as (t' & gone & Heq & Ht' & Hae & _).
  pose proof (timed_expire now _ _ _ _ _ Hae Htm) as Htm'.
  rewrite (aexpire_filter _ (proj1 Htm)) in Hae. injection Hae as <- Hc.
  exists t'. by rewrite Heq, Hc.
Qed.
End in_time_order.
