(* ===== verification/PingLedger.v ===== *)
(** * PingLedger: the accounting that the two client tables share.

    [RdmaPinginfoMap] and [TcpUdpPinginfoMap] both move pings from a table to
    the reports of a queue. [moves] relates a table and a queue before and
    after an operation: what the operation added to the table was, with what
    the table held, reported, kept or lost, each ping once. The lemmas say so
    of the steps the operations are made of; a class composes them. *)
From S2P Require Import Prelude Format Common Queue KeyTable.
Local Open Scope Z_scope.

(** A type of result that the result thread counts. *)
Definition counted_result (r : Z) : Prop :=
  r ∈ [PINGWEAVE_RESULT_SUCCESS; PINGWEAVE_RESULT_FAILURE; PINGWEAVE_RESULT_WEIRD].

Section ledger.
(** Values [V] of the table with their ping id and an invariant, messages [M]
    with their ping id and one of theirs. When [lossless] holds, nothing may be lost. *)
Context {V M Q : Type} `{SpscQueue Q M} (value_id : V -> Z) (msg_id : M -> Z).
Context (value_ok : V -> Prop) (msg_ok : M -> Prop) (lossless : Prop).
Implicit Types (t : table V) (q : Q) (l : acontents V) (ex ins : list Z) (d : list M).

(** Every entry is stored under its ping id and meets the invariant. *)
Definition ids_ok l : Prop := Forall (fun p => value_id p.2.1 = p.1 /\ value_ok p.2.1) l.

(** The queue got one report of [v], or dropped it. *)
Definition reports_once (v : V) q q' : Prop :=
  (exists m, msg_id m = value_id v /\ msg_ok m /\ q_contents q' = q_contents q ++ [m]) \/
  ~ lossless /\ q_contents q' = q_contents q.

Lemma reports_once_enqueued v m q :
  msg_id m = value_id v -> msg_ok m -> (lossless -> has_room m q) -> reports_once v q (enqueued m q).
Proof.
  intros Hm Hmo Hroom. unfold reports_once, has_room, enqueued in *.
  destruct (try_enqueue m q) as [[] q'] eqn:E; cbn in *.
  - left. exists m. split_and!; [done|done|]. by apply try_enqueue_room.
  - right. split; [by intros Hl%Hroom|]. by eapply try_enqueue_full.
Qed.

Lemma reports_once_none v q : ~ lossless -> reports_once v q q.
Proof. by right. Qed.

(** [ex]: the keys that the operation added. *)
Definition moves ex t q t' q' : Prop :=
  wf t' /\ ids_ok (contents t') /\
  exists sent lost, (lossless -> lost = []) /\ Forall msg_ok sent /\
    q_contents q' = q_contents q ++ sent /\
    ex ++ (contents t).*1 ≡ₚ (msg_id <$> sent) ++ (contents t').*1 ++ lost.

Lemma moves_refl t q : wf t -> ids_ok (contents t) -> moves [] t q t q.
Proof.
  intros Ht Hid. split_and!; [done|done|]. exists [], []. split_and!; [done|done|by rewrite app_nil_r|]. cbn. by rewrite !app_nil_r.
Qed.

Lemma moves_trans ex1 ex2 t1 q1 t2 q2 t3 q3 :
  moves ex1 t1 q1 t2 q2 -> moves ex2 t2 q2 t3 q3 -> moves (ex2 ++ ex1) t1 q1 t3 q3.
Proof.
  intros (_ & _ & s1 & l1 & Hl1 & Hs1 & Hq1 & Hp1) (Ht & Hid & s2 & l2 & Hl2 & Hs2 & Hq2 & Hp2).
  split_and!; [done|done|]. exists (s1 ++ s2), (l2 ++ l1). split_and!.
  - intros Hl. by rewrite Hl1, Hl2.
  - by apply list.Forall_app.
  - by rewrite Hq2, Hq1, app_assoc.
  - rewrite <- app_assoc, Hp1, Permutation_app_swap_app, (app_assoc ex2), Hp2, fmap_app.
    by rewrite <- !app_assoc.
Qed.

Lemma moves_emplace_back k v now t q :
  wf t -> ids_ok (contents t) -> tmap t !! k = None -> value_id v = k -> value_ok v ->
  moves [k] t q (emplace_back k v now t) q.
Proof.
  intros Ht Hid Hk Hv Hok. split_and!; [by auto with pw| |].
  - unfold ids_ok. rewrite contents_emplace_back by done. apply list.Forall_app.
    split; [done|]. by repeat constructor.
  - exists [], []. rewrite contents_emplace_back, fmap_app, !app_nil_r by done.
    split_and!; [done|done|done|]. cbn. by rewrite <- Permutation_cons_append.
Qed.

Lemma moves_set_value k v t q :
  wf t -> ids_ok (contents t) -> value_id v = k -> value_ok v -> moves [] t q (set_value k v t) q.
Proof.
  intros Ht Hid Hv Hok. split_and!; [by auto with pw| |].
  - unfold ids_ok. rewrite contents_set_value by done. unfold aset.
    rewrite list.Forall_fmap. eapply list.Forall_impl; [exact Hid|].
    intros p Hp. cbn. by case_decide.
  - exists [], []. by rewrite contents_set_value, aset_keys, !app_nil_r by done.
Qed.

(** A report of an entry and its removal. *)
Lemma moves_remove k e v t q q' :
  wf t -> ids_ok (contents t) -> tmap t !! k = Some e -> value_id v = k ->
  reports_once v q q' ->
  exists t', KeyTable.remove k t = Ret (PINGWEAVE_SUCCESS, t') /\ moves [] t q t' q'.
Proof.
  intros Ht Hid He Hv Hq. destruct (remove_spec k t e Ht He) as (t' & Hr & Ht' & Hc & _).
  exists t'. split; [done|]. unfold moves. rewrite Hc. split_and!; [done| |].
  - eapply sublist_Forall; [apply sublist_filter|done].
  - pose proof (aremove_keys k _ (contents_nodup _ Ht) (contents_key _ _ _ Ht He)) as Hp.
    destruct Hq as [(m & Hm & Hmo & Hq)|[Hl Hq]].
    + exists [m], []. rewrite app_nil_r. split_and!; [done|by constructor|done|]. cbn. by rewrite Hm, Hv.
    + exists [], [k]. rewrite app_nil_r. split_and!; [done|done|done|]. cbn. rewrite Hp.
      by rewrite <- Permutation_cons_append.
Qed.

Lemma ids_ok_lookup t k e :
  wf t -> ids_ok (contents t) -> tmap t !! k = Some e ->
  value_id (value e) = k /\ value_ok (value e).
Proof.
  intros Ht Hid He. apply (contents_lookup _ _ _ Ht) in He.
  unfold ids_ok in Hid. rewrite list.Forall_forall in Hid. by apply Hid in He.
Qed.

(** *** Expiry, for a class whose treatment of a stale value reports it at
    most once. *)
Section expiry.
Context (on_expire : V -> Q -> Q) (now threshold_ms : Z).
Context (Hon : forall v q, value_ok v -> reports_once v q (on_expire v q)).

Lemma expired_reports (gone : acontents V) q :
  ids_ok gone ->
  exists sent lost, (lossless -> lost = []) /\ Forall msg_ok sent /\
    q_contents (expired_effect on_expire gone q) = q_contents q ++ sent /\
    gone.*1 ≡ₚ (msg_id <$> sent) ++ lost.
Proof.
  revert q. induction gone as [|[k [v ts]] gone IH]; intros q Hid.
  - exists [], []. cbn. rewrite app_nil_r. by split_and!.
  - apply list.Forall_cons in Hid as [[Hk Hok] Hid]. cbn in Hk, Hok.
    destruct (IH (on_expire v q) Hid) as (sent & lost & Hl & Hs & Hq & Hp).
    unfold expired_effect in *. cbn [foldl fmap list_fmap fst snd].
    destruct (Hon v q Hok) as [(m & Hm & Hmo & Hc)|[Hnl Hc]].
    + exists (m :: sent), lost. rewrite Hq, Hc, <- app_assoc. split_and!; [done|by constructor|done|].
      cbn. rewrite Hm, Hk. by f_equiv.
    + exists sent, (k :: lost). rewrite Hq, Hc. split_and!; [done|done|done|]. rewrite Hp.
      by rewrite Permutation_middle.
Qed.

Lemma moves_expire t q :
  wf t -> ids_ok (contents t) ->
  let '(_, t', q') := KeyTable.expireEntries on_expire now threshold_ms t q in
  moves [] t q t' q'.
Proof.
  intros Ht Hid. destruct (expireEntries_spec on_expire now threshold_ms t q Ht)
    as (t' & gone & -> & Ht' & Hae & _).
  apply aexpire_app in Hae. unfold moves. unfold ids_ok in *. rewrite Hae in *.
  apply list.Forall_app in Hid as [Hg Hk]. split_and!; [done|done|].
  destruct (expired_reports gone q Hg) as (sent & lost & Hl & Hs & Hq & Hp).
  exists sent, lost. split_and!; [done|done|done|]. cbn. rewrite fmap_app, Hp, <- app_assoc. f_equiv.
  apply Permutation_app_comm.
Qed.
End expiry.

(** *** The ledger of a run: [ins] the keys inserted so far, [d] the reports
    taken from the queue. *)
Record accounted ins d t q : Prop := {
  ac_wf : wf t;
  ac_ids : ids_ok (contents t);
  ac_msgs : Forall msg_ok (d ++ q_contents q);
  ac_ledger : exists lost, (lossless -> lost = []) /\
    ins ≡ₚ (msg_id <$> d ++ q_contents q) ++ (contents t).*1 ++ lost;
}.

Lemma accounted_empty q : q_contents q = [] -> accounted [] [] empty_table q.
Proof. intros Hq. split; [apply wf_empty|constructor|by rewrite Hq|]. exists []. cbn. by rewrite Hq. Qed.

Lemma accounted_moves ex ins d t q t' q' :
  accounted ins d t q -> moves ex t q t' q' -> accounted (ex ++ ins) d t' q'.
Proof.
  intros [_ _ Hm (lost0 & Hl0 & Hi)] (Ht & Hid & sent & lost & Hl & Hs & Hq & Hp). split; [done|done| |].
  { rewrite Hq, app_assoc. by apply list.Forall_app. }
  exists (lost ++ lost0). split; [intros Hll; by rewrite Hl, Hl0|]. rewrite Hq, Hi, (app_assoc d), (fmap_app _ (d ++ _) sent).
  generalize (msg_id <$> d ++ q_contents q). intros l.
  rewrite Permutation_app_swap_app, (app_assoc ex), Hp. by rewrite <- !app_assoc.
Qed.

Lemma accounted_dequeue ins d t q a q' :
  accounted ins d t q -> wait_dequeue_timed q = Some (a, q') -> accounted ins (d ++ [a]) t q'.
Proof.
  intros [Ht Hid Hm (lost & Hl & Hi)] Hw%wait_dequeue_some.
  assert ((d ++ [a]) ++ q_contents q' = d ++ q_contents q) as Ha by (by rewrite Hw, <- app_assoc).
  split; [done|done|by rewrite Ha|].
  exists lost. split; [done|]. by rewrite Ha.
Qed.

(** With distinct pings, no ping is reported twice, or reported and pending. *)
Lemma accounted_nodup ins d t q :
  accounted ins d t q -> NoDup ins ->
  NoDup ((msg_id <$> d ++ q_contents q) ++ (contents t).*1).
Proof.
  intros [_ _ _ (lost & _ & Hi)] Hnd. rewrite Hi, app_assoc in Hnd.
  by apply NoDup_app in Hnd as [Hnd _].
Qed.
End ledger.
