(* ===== verification/PingMsgMap.v ===== *)
(** * PingMsgMap: the server's table of received pings (rdma_ping_msg.hpp)

    The server stores a ping until the completion of its PONG gives the
    server-side delay. Every method runs under the table's mutex, so that it is
    one atomic step; a clock reading is an argument, one per call of
    [get_current_timestamp_steady_clock]. *)
From S2P Require Import Prelude Format Common KeyTable.
Local Open Scope Z_scope.

Section ping_msg_map.
Context (threshold_ms : Z).

(** [expireEntries]: an expired ping is dropped silently. *)
Definition expireEntries (now : Z) (t : table rdma_pingmsg_t) : Z * table rdma_pingmsg_t :=
  let '(n_remove, t', _) :=
    KeyTable.expireEntries (fun _ (u : unit) => u) now threshold_ms t tt in
  (n_remove, t').

(** [now_expire] is read by [expireEntries], [now] afterwards. *)
Definition insert (key : Z) (v : rdma_pingmsg_t) (now_expire now : Z)
  (t : table rdma_pingmsg_t) : Z * table rdma_pingmsg_t :=
  let t := (expireEntries now_expire t).2 in
  match tmap t !! key with
  | Some _ => (PINGWEAVE_FAILURE, t)
  | None => (PINGWEAVE_SUCCESS, emplace_back key v now t)
  end.

(** The out parameter keeps its value when the key is absent. *)
Definition get (key : Z) (v : rdma_pingmsg_t) (t : table rdma_pingmsg_t)
  : Z * rdma_pingmsg_t :=
  match tmap t !! key with
  | Some e => (PINGWEAVE_SUCCESS, value e)
  | None => (PINGWEAVE_FAILURE, v)
  end.

Definition remove (key : Z) (t : table rdma_pingmsg_t) : outcome (Z * table rdma_pingmsg_t) :=
  KeyTable.remove key t.

Definition empty (t : table rdma_pingmsg_t) : bool := bool_decide (tmap t = ∅).
Definition size (t : table rdma_pingmsg_t) : Z := Z.of_nat (base.size (tmap t)).

(** ** Lemmas *)
Lemma msg_expireEntries_spec now t :
  wf t -> timed now t ->
  exists t', expireEntries now t
      = (Z.of_nat (length (filter (is_stale now threshold_ms) (contents t))), t') /\
    wf t' /\ timed now t' /\
    contents t' = filter (fun p => ~ is_stale now threshold_ms p) (contents t).
Proof.
  intros Ht Htm. unfold expireEntries.
  destruct (expireEntries_timed (fun _ (u : unit) => u) now threshold_ms t tt Ht Htm)
    as (t' & -> & Hrest). by exists t'.
Qed.

Lemma get_contents key v t :
  wf t ->
  (forall w ts, (key, (w, ts)) ∈ contents t -> get key v t = (PINGWEAVE_SUCCESS, w)) /\
  (key ∉ (contents t).*1 -> get key v t = (PINGWEAVE_FAILURE, v)).
Proof.
  intros Ht. split.
  - intros w ts Hin. apply contents_elem in Hin as (e & He & <- & _); [|done].
    unfold get. by rewrite He.
  - intros Hnin. unfold get. destruct (tmap t !! key) as [e|] eqn:He; [|done].
    destruct Hnin. by eapply contents_key.
Qed.
Lemma insert_spec key v now_expire now t :
  wf t -> timed now_expire t -> now_expire <= now ->
  exists t',
    let kept := filter (fun p => ~ is_stale now_expire threshold_ms p) (contents t) in
    insert key v now_expire now t
      = (if bool_decide (key ∈ kept.*1) then PINGWEAVE_FAILURE else PINGWEAVE_SUCCESS, t') /\
    wf t' /\ timed now t' /\
    contents t' = if bool_decide (key ∈ kept.*1) then kept else kept ++ [(key, (v, now))].
Proof.
  intros Ht Htm Hle. unfold insert.
  destruct (msg_expireEntries_spec now_expire t Ht Htm) as (t' & -> & Ht' & Htm' & Hc).
  cbn [snd]. rewrite <- Hc. destruct (tmap t' !! key) as [e|] eqn:He.
  - exists t'. rewrite bool_decide_eq_true_2; [by eauto using timed_later|].
    by eapply contents_key.
  - eexists. rewrite bool_decide_eq_false_2 by (by apply contents_none).
    split_and!; [done|by auto with pw|by eauto with pw|by apply contents_emplace_back].
Qed.

Lemma remove_total key t :
  wf t -> exists r t', remove key t = Ret (r, t') /\ wf t' /\
    contents t' = aremove key (contents t) /\
    (r = PINGWEAVE_SUCCESS <-> key ∈ (contents t).*1).
Proof.
  intros Ht. destruct (tmap t !! key) as [e|] eqn:He.
  - destruct (remove_spec key t e Ht He) as (t' & Hrm & Ht' & Hc & _).
    exists PINGWEAVE_SUCCESS, t'. split_and!; [done|done|done|]. split; [|done]. intros _.
    by eapply contents_key.
  - exists PINGWEAVE_FAILURE, t. pose proof (contents_none _ _ Ht He) as Hnin.
    split_and!; [by apply remove_absent|done|by rewrite aremove_absent|by split; intros].
Qed.
End ping_msg_map.

(** ** Reachable tables

    The threads of the server interleave [insert] (TX thread) with [get] and
    [remove] (TX CQE thread) in any order; the clock never goes back. *)
Inductive step (threshold_ms : Z) :
  Z * table rdma_pingmsg_t -> Z * table rdma_pingmsg_t -> Prop :=
  | step_insert key v now now_expire now' t r t' :
      now <= now_expire -> now_expire <= now' ->
      insert threshold_ms key v now_expire now' t = (r, t') ->
      step threshold_ms (now, t) (now', t')
  | step_remove key now now' t r t' :
      now <= now' -> remove key t = Ret (r, t') ->
      step threshold_ms (now, t) (now', t').

Definition reachable (threshold_ms : Z) : Z * table rdma_pingmsg_t -> Prop :=
  rtc (step threshold_ms) (0, empty_table).

Lemma step_invariant threshold_ms s s' :
  step threshold_ms s s' -> wf s.2 -> timed s.1 s.2 -> wf s'.2 /\ timed s'.1 s'.2.
Proof.
  intros [key v now ne now' t r t' Hle1 Hle2 Hi|key now now' t r t' Hle Hrm]; cbn; intros Ht Htm.
  - destruct (insert_spec threshold_ms key v ne now' t) as (t2 & Hi2 & Ht2 & Htm2 & _);
      [done|by eauto with pw|done|]. rewrite Hi in Hi2. by simplify_eq.
  - destruct (remove_total key t Ht) as (r2 & t2 & Hr2 & Ht2 & Hc & _).
    rewrite Hrm in Hr2. simplify_eq. split; [done|].
    eapply timed_later; [done|]. by eapply timed_remove.
Qed.

(** ** Properties *)

(** [PingMsgMap::insert] on a table in time order behaves as on a list in
    insertion order: every entry at least [threshold_ms] old is dropped and no
    other; then a key still present is refused and leaves the rest, a new key
    is appended with the current time. *)
Theorem ping_msg_insert_refines threshold_ms key v now_expire now t :
  wf t -> timed now_expire t -> now_expire <= now ->
  exists t',
    let kept := filter (fun p => ~ is_stale now_expire threshold_ms p) (contents t) in
    insert threshold_ms key v now_expire now t
      = (if bool_decide (key ∈ kept.*1) then PINGWEAVE_FAILURE else PINGWEAVE_SUCCESS, t') /\
    wf t' /\ timed now t' /\
    contents t' = if bool_decide (key ∈ kept.*1) then kept else kept ++ [(key, (v, now))].
Proof. apply insert_spec. Qed.

Lemma ping_msg_insert_refines_witness :
  wf (@empty_table rdma_pingmsg_t) /\
  exists t', insert 1000 7 (RdmaPingMsg 7 1 [] 2 3) 10 20 empty_table = (PINGWEAVE_SUCCESS, t')
    /\ contents t' = [(7, (RdmaPingMsg 7 1 [] 2 3, 20))].
Proof.
  split; [apply wf_empty|].
  destruct (ping_msg_insert_refines 1000 7 (RdmaPingMsg 7 1 [] 2 3) 10 20 empty_table)
    as (t' & Hi & _ & _ & Hc); [apply wf_empty|apply timed_empty|lia|].
  exists t'. split; [exact Hi|exact Hc].
Defined.

(** In every table the server's threads can reach, each entry has exactly
    one live list node, entries are in time order, and [remove] is defined: it
    erases exactly the entry of its key, never a dangling iterator. *)
Theorem ping_msg_reachable_safe threshold_ms now t :
  reachable threshold_ms (now, t) ->
  wf t /\ timed now t /\
  forall key, exists r t', remove key t = Ret (r, t') /\ wf t' /\
    contents t' = aremove key (contents t) /\
    (r = PINGWEAVE_SUCCESS <-> key ∈ (contents t).*1).
Proof.
  intros Hr. assert (wf t /\ timed now t) as [Ht Htm].
  { change (wf (now, t).2 /\ timed (now, t).1 (now, t).2). revert Hr. unfold reachable.
    apply (rtc_ind_r (fun s => wf s.2 /\ timed s.1 s.2) (0, empty_table));
      [by auto with pw|]. intros s s' _ Hstep [Hwf Htm]. by eapply step_invariant. }
  split_and!; [done|done|]. intros key. by apply remove_total.
Qed.

Lemma ping_msg_reachable_safe_witness :
  let t := (insert 1000 7 (RdmaPingMsg 7 1 [] 2 3) 10 20 empty_table).2 in
  reachable 1000 (20, t) /\ wf t /\ timed 20 t.
Proof.
  assert (reachable 1000 (20, (insert 1000 7 (RdmaPingMsg 7 1 [] 2 3) 10 20 empty_table).2)) as Hr.
  { eapply rtc_once, (step_insert _ 7 (RdmaPingMsg 7 1 [] 2 3) 0 10); [lia|lia|reflexivity]. }
  split; [exact Hr|]. destruct (ping_msg_reachable_safe 1000 20 _ Hr) as (H1 & H2 & _).
  exact (conj H1 H2).
Defined.
