(* ===== verification/RdmaPingInfo.v ===== *)
(** * RdmaPingInfo: the client's table of RDMA pings (rdma_ping_info.hpp)

    A ping is complete when its three events have arrived, in any order: the
    completion of the PING's send (CQE), the PONG, and the ACK that carries the
    server's delay. [logging] then reports it to the result queue and removes
    it; a ping that stays too long is reported as a failure by
    [expireEntries]. Every method runs under the table's mutex. Clock readings
    are arguments; logger output is not modelled. *)
From S2P Require Import Prelude Format Common Queue KeyTable PingLedger.
Local Open Scope Z_scope.

(** [rdma_pinginfo_t]. *)
Record rdma_pinginfo_t := PingInfo {
  pi_pingid : Z; pi_qpn : Z; pi_gid : list Z; pi_lid : Z; pi_dstip : string;
  pi_time_ping_send : Z;
  pi_client_delay : Z; pi_network_delay : Z; pi_server_delay : Z;
  pi_recv_cnt : Z; pi_recv_bitmap : Z }.

Definition with_client_delay (d : Z) (v : rdma_pinginfo_t) : rdma_pinginfo_t :=
  PingInfo (pi_pingid v) (pi_qpn v) (pi_gid v) (pi_lid v) (pi_dstip v) (pi_time_ping_send v)
    d (pi_network_delay v) (pi_server_delay v) (pi_recv_cnt v) (pi_recv_bitmap v).
Definition with_network_delay (d : Z) (v : rdma_pinginfo_t) : rdma_pinginfo_t :=
  PingInfo (pi_pingid v) (pi_qpn v) (pi_gid v) (pi_lid v) (pi_dstip v) (pi_time_ping_send v)
    (pi_client_delay v) d (pi_server_delay v) (pi_recv_cnt v) (pi_recv_bitmap v).
Definition with_server_delay (d : Z) (v : rdma_pinginfo_t) : rdma_pinginfo_t :=
  PingInfo (pi_pingid v) (pi_qpn v) (pi_gid v) (pi_lid v) (pi_dstip v) (pi_time_ping_send v)
    (pi_client_delay v) (pi_network_delay v) d (pi_recv_cnt v) (pi_recv_bitmap v).

Definition PINGWEAVE_MASK_INIT : Z := 0.
Definition PINGWEAVE_MASK_RECV_PING_CQE : Z := 1.
Definition PINGWEAVE_MASK_RECV_PONG : Z := 2.
Definition PINGWEAVE_MASK_RECV_ACK : Z := 4.
Definition PINGWEAVE_MASK_RECV : Z :=
  Z.lor (Z.lor PINGWEAVE_MASK_RECV_PING_CQE PINGWEAVE_MASK_RECV_PONG) PINGWEAVE_MASK_RECV_ACK.

(** [recv_bitmap |= mask; ++recv_cnt;] *)
Definition received (mask : Z) (v : rdma_pinginfo_t) : rdma_pinginfo_t :=
  PingInfo (pi_pingid v) (pi_qpn v) (pi_gid v) (pi_lid v) (pi_dstip v) (pi_time_ping_send v)
    (pi_client_delay v) (pi_network_delay v) (pi_server_delay v)
    (u32 (pi_recv_cnt v + 1)) (Z.lor (pi_recv_bitmap v) mask).

Section rdma_pinginfo_map.
Context `{SpscQueue Q rdma_result_msg_t}.
(** [indet]: what [ip2uint] returns for a text that is not an address. *)
Context (indet threshold_ms : Z).

Record pinginfo_map := PinginfoMap { tbl : table rdma_pinginfo_t; client_queue : Q }.

Definition failure_msg (v : rdma_pinginfo_t) : rdma_result_msg_t :=
  RdmaResultMsg (pi_pingid v) (NetAddr.ip2uint indet (pi_dstip v)) (pi_time_ping_send v)
    0 0 0 PINGWEAVE_RESULT_FAILURE.

(** What [expireEntries] does with the value of a stale entry. *)
Definition on_expire (v : rdma_pinginfo_t) (q : Q) : Q :=
  if 3 <=? pi_recv_cnt v then q else enqueued (failure_msg v) q.

Definition expireEntries (now : Z) (st : pinginfo_map) : Z * pinginfo_map :=
  let '(n_remove, t, q) :=
    KeyTable.expireEntries on_expire now threshold_ms (tbl st) (client_queue st) in
  (n_remove, PinginfoMap t q).

Definition remove (key : Z) (st : pinginfo_map) : outcome (Z * pinginfo_map) :=
  '(r, t) ← KeyTable.remove key (tbl st); Ret (r, PinginfoMap t (client_queue st)).

(** Clock readings, in the order of the calls: the steady clock in
    [expireEntries], then the steady and the system clock of the entry. *)
Definition insert (key : Z) (msg : rdma_pingmsg_t) (dstip : string)
  (now_expire steady_now system_now : Z) (st : pinginfo_map) : Z * pinginfo_map :=
  let st := (expireEntries now_expire st).2 in
  match tmap (tbl st) !! key with
  | Some _ => (PINGWEAVE_FAILURE, st)
  | None =>
      let v := PingInfo (pm_pingid msg) (pm_qpn msg) (pm_gid msg) (pm_lid msg) dstip
        (Clock.get_current_timestamp_system_ns system_now)
        (Clock.convert_clock_to_ns steady_now) 0 0 PINGWEAVE_MASK_INIT 0 in
      (PINGWEAVE_SUCCESS,
       PinginfoMap (emplace_back key v steady_now (tbl st)) (client_queue st))
  end.

Definition get (key : Z) (v : rdma_pinginfo_t) (st : pinginfo_map) : Z * rdma_pinginfo_t :=
  match tmap (tbl st) !! key with
  | Some e => (PINGWEAVE_SUCCESS, value e)
  | None => (PINGWEAVE_FAILURE, v)
  end.

(** The result message of a complete ping. *)
Definition client_process_time (v : rdma_pinginfo_t) : Z :=
  u64 (pi_client_delay v - pi_network_delay v).
Definition network_rtt (v : rdma_pinginfo_t) : Z :=
  if pi_server_delay v <? pi_network_delay v
  then u64 (pi_network_delay v - pi_server_delay v)
  else pi_network_delay v.
Definition complete_msg (result : Z) (v : rdma_pinginfo_t) : rdma_result_msg_t :=
  RdmaResultMsg (pi_pingid v) (NetAddr.ip2uint indet (pi_dstip v)) (pi_time_ping_send v)
    (client_process_time v) (network_rtt v) (pi_server_delay v) result.

Definition logging (v : rdma_pinginfo_t) (st : pinginfo_map) : outcome pinginfo_map :=
  if pi_recv_bitmap v =? PINGWEAVE_MASK_RECV then
    if negb (pi_recv_cnt v =? 3) then
      (* corrupted: removed without a report *)
      '(_, st) ← remove (pi_pingid v) st; Ret st
    else if pi_network_delay v <=? pi_server_delay v then
      let st := PinginfoMap (tbl st)
        (enqueued (complete_msg PINGWEAVE_RESULT_WEIRD v) (client_queue st)) in
      '(_, st) ← remove (pi_pingid v) st; Ret st
    else
      let st := PinginfoMap (tbl st)
        (enqueued (complete_msg PINGWEAVE_RESULT_SUCCESS v) (client_queue st)) in
      '(_, st) ← remove (pi_pingid v) st; Ret st
  else Ret st.

(** The shape of the three [update_*] methods: look the key up, change the
    entry in place, then [logging]. *)
Definition update_entry (key : Z) (f : rdma_pinginfo_t -> rdma_pinginfo_t)
  (st : pinginfo_map) : outcome (Z * pinginfo_map) :=
  match tmap (tbl st) !! key with
  | None => Ret (PINGWEAVE_FAILURE, st)
  | Some e =>
      let v := f (value e) in
      let st := PinginfoMap (set_value key v (tbl st)) (client_queue st) in
      st ← logging v st; Ret (PINGWEAVE_SUCCESS, st)
  end.

Definition on_ping_cqe (x : Z) (v : rdma_pinginfo_t) : rdma_pinginfo_t :=
  let v :=
    if pi_network_delay v =? 0 then with_network_delay x v
    else with_network_delay
           (Clock.calc_time_delta_with_modulo x (pi_network_delay v)
              PINGWEAVE_TIME_CALC_MODULO) v in
  received PINGWEAVE_MASK_RECV_PING_CQE v.

Definition on_pong (recv_time cqe_time : Z) (v : rdma_pinginfo_t) : rdma_pinginfo_t :=
  let v := with_client_delay
    (Clock.calc_time_delta_with_modulo (pi_client_delay v) recv_time
       PINGWEAVE_TIME_CALC_MODULO) v in
  let v :=
    if negb (pi_network_delay v =? 0) then
      with_network_delay
        (Clock.calc_time_delta_with_modulo (pi_network_delay v) cqe_time
           PINGWEAVE_TIME_CALC_MODULO) v
    else with_network_delay cqe_time v in
  received PINGWEAVE_MASK_RECV_PONG v.

Definition on_ack (server_delay : Z) (v : rdma_pinginfo_t) : rdma_pinginfo_t :=
  received PINGWEAVE_MASK_RECV_ACK (with_server_delay server_delay v).

Definition update_ping_cqe_time (key x : Z) : pinginfo_map -> outcome (Z * pinginfo_map) :=
  update_entry key (on_ping_cqe x).
Definition update_pong_info (key recv_time cqe_time : Z)
  : pinginfo_map -> outcome (Z * pinginfo_map) :=
  update_entry key (on_pong recv_time cqe_time).
Definition update_ack_info (key server_delay : Z)
  : pinginfo_map -> outcome (Z * pinginfo_map) :=
  update_entry key (on_ack server_delay).

(** [empty] and [size] expire entries first, although they only take the
    mutex in shared mode. *)
Definition empty (now : Z) (st : pinginfo_map) : bool * pinginfo_map :=
  let st := (expireEntries now st).2 in (bool_decide (tmap (tbl st) = ∅), st).
Definition size (now : Z) (st : pinginfo_map) : Z * pinginfo_map :=
  let st := (expireEntries now st).2 in (Z.of_nat (base.size (tmap (tbl st))), st).

(** ** The events of a ping *)
Inductive ping_event :=
  | EvPingCqe (x : Z)
  | EvPong (recv_time cqe_time : Z)
  | EvAck (server_delay : Z).

Definition on_event (ev : ping_event) : rdma_pinginfo_t -> rdma_pinginfo_t :=
  match ev with
  | EvPingCqe x => on_ping_cqe x
  | EvPong recv_time cqe_time => on_pong recv_time cqe_time
  | EvAck server_delay => on_ack server_delay
  end.

(** The table's method an event calls. *)
Definition deliver (key : Z) (ev : ping_event) (st : pinginfo_map)
  : outcome (Z * pinginfo_map) :=
  match ev with
  | EvPingCqe x => update_ping_cqe_time key x st
  | EvPong recv_time cqe_time => update_pong_info key recv_time cqe_time st
  | EvAck server_delay => update_ack_info key server_delay st
  end.

Fixpoint deliver_all (key : Z) (evs : list ping_event) (st : pinginfo_map)
  : outcome pinginfo_map :=
  match evs with
  | [] => Ret st
  | ev :: evs => '(_, st) ← deliver key ev st; deliver_all key evs st
  end.

(** An entry as [insert] leaves it. *)
Definition fresh_entry (key : Z) (v : rdma_pinginfo_t) : Prop :=
  pi_pingid v = key /\ pi_network_delay v = 0 /\ pi_recv_cnt v = 0 /\
  pi_recv_bitmap v = PINGWEAVE_MASK_INIT.

(** The report of a complete ping: [recv_time] is the host's clock at the PONG's
    arrival, [network] the measured time from the PING's completion to the
    PONG's, [server_delay] the ACK's content. *)
Definition report_for (v : rdma_pinginfo_t) (recv_time network server_delay : Z)
  : rdma_result_msg_t :=
  let client := (recv_time - pi_client_delay v) `mod` 2 ^ 32 in
  RdmaResultMsg (pi_pingid v) (NetAddr.ip2uint indet (pi_dstip v)) (pi_time_ping_send v)
    (u64 (client - network))
    (if server_delay <? network then u64 (network - server_delay) else network)
    server_delay
    (if network <=? server_delay then PINGWEAVE_RESULT_WEIRD else PINGWEAVE_RESULT_SUCCESS).

(** What it should be: [x] is the completion time of the PING, [cqe_time] that
    of the PONG's arrival. *)
Definition expected_report (v : rdma_pinginfo_t) (x recv_time cqe_time server_delay : Z)
  : rdma_result_msg_t :=
  report_for v recv_time ((cqe_time - x) `mod` 2 ^ 32) server_delay.

(** Whether the PONG came before the completion of the PING. *)
Fixpoint pong_first (evs : list ping_event) : bool :=
  match evs with
  | EvPong _ _ :: _ => true
  | EvPingCqe _ :: _ => false
  | EvAck _ :: evs => pong_first evs
  | [] => false
  end.

(** The time that is measured. A first stamp of 0 is taken for none, and the
    second one stands for the difference. *)
Definition measured (evs : list ping_event) (x cqe_time : Z) : Z :=
  if pong_first evs
  then if cqe_time =? 0 then x else (cqe_time - x) `mod` 2 ^ 32
  else if x =? 0 then cqe_time else (cqe_time - x) `mod` 2 ^ 32.

Lemma measured_stamps evs x cqe_time :
  x <> 0 -> cqe_time <> 0 -> measured evs x cqe_time = (cqe_time - x) `mod` 2 ^ 32.
Proof. intros Hx%Z.eqb_neq Hc%Z.eqb_neq. unfold measured. rewrite Hx, Hc. by case_match. Qed.

(** ** Lemmas on one update *)
Lemma deliver_update key ev st : deliver key ev st = update_entry key (on_event ev) st.
Proof. by destruct ev. Qed.

Lemma set_value_twice (k : Z) (a b : rdma_pinginfo_t) (t : table rdma_pinginfo_t) :
  set_value k b (set_value k a t) = set_value k b t.
Proof.
  unfold set_value. simpl. f_equal. apply map_eq. intros i. rewrite !lookup_alter.
  case_decide; [subst|done]. rewrite ?decide_True by done. by destruct (tmap t !! i).
Qed.

Lemma update_entry_pending key f st e :
  tmap (tbl st) !! key = Some e ->
  pi_recv_bitmap (f (value e)) <> PINGWEAVE_MASK_RECV ->
  update_entry key f st
    = Ret (PINGWEAVE_SUCCESS,
           PinginfoMap (set_value key (f (value e)) (tbl st)) (client_queue st)).
Proof.
  intros He Hb. unfold update_entry. rewrite He. unfold logging.
  apply Z.eqb_neq in Hb. by rewrite Hb.
Qed.

(** The reported result, from the final value of the entry. *)
Definition report_of (v : rdma_pinginfo_t) : rdma_result_msg_t :=
  complete_msg (if pi_network_delay v <=? pi_server_delay v
                then PINGWEAVE_RESULT_WEIRD else PINGWEAVE_RESULT_SUCCESS) v.

Lemma remove_set_value (k : Z) (v : rdma_pinginfo_t) t e :
  wf t -> tmap t !! k = Some e ->
  KeyTable.remove k (set_value k v t) = KeyTable.remove k t.
Proof.
  intros Ht He. rewrite (remove_present k t e Ht He).
  rewrite (remove_present k _ _ (wf_set_value _ _ _ Ht) (set_value_lookup _ _ _ _ He)).
  simpl. by rewrite delete_alter_eq.
Qed.

Lemma update_entry_complete key f st e :
  wf (tbl st) -> tmap (tbl st) !! key = Some e ->
  let v := f (value e) in
  pi_pingid v = key -> pi_recv_bitmap v = PINGWEAVE_MASK_RECV ->
  exists t', KeyTable.remove key (tbl st) = Ret (PINGWEAVE_SUCCESS, t') /\
    update_entry key f st
      = Ret (PINGWEAVE_SUCCESS,
             PinginfoMap t' (if pi_recv_cnt v =? 3 then enqueued (report_of v) (client_queue st)
                             else client_queue st)).
Proof.
  intros Ht He v Hid Hb. destruct (remove_spec key (tbl st) e Ht He) as (t' & Hr & _).
  exists t'. split; [done|]. unfold update_entry. rewrite He. fold v. unfold logging.
  rewrite Hb, Z.eqb_refl. unfold remove. cbn [tbl client_queue].
  rewrite Hid, (remove_set_value _ _ _ e Ht He), Hr. unfold report_of.
  destruct (pi_recv_cnt v =? 3); cbn; [|done]. by case_match.
Qed.

(** Three updates of one entry, the third of which completes it. *)
Lemma update_three key f1 f2 f3 st e :
  wf (tbl st) -> tmap (tbl st) !! key = Some e ->
  let v1 := f1 (value e) in let v2 := f2 v1 in let v3 := f3 v2 in
  pi_recv_bitmap v1 <> PINGWEAVE_MASK_RECV -> pi_recv_bitmap v2 <> PINGWEAVE_MASK_RECV ->
  pi_recv_bitmap v3 = PINGWEAVE_MASK_RECV -> pi_recv_cnt v3 = 3 -> pi_pingid v3 = key ->
  exists t', KeyTable.remove key (tbl st) = Ret (PINGWEAVE_SUCCESS, t') /\
    ('(_, st) ← update_entry key f1 st; '(_, st) ← update_entry key f2 st;
     '(_, st) ← update_entry key f3 st; Ret st)
      = Ret (PinginfoMap t' (enqueued (report_of v3) (client_queue st))).
Proof.
  intros Ht He v1 v2 v3 Hb1 Hb2 Hb3 Hc Hid.
  rewrite (update_entry_pending _ f1 _ e He Hb1). cbn.
  pose proof (set_value_lookup key v1 _ _ He) as He1.
  rewrite (update_entry_pending _ f2 (PinginfoMap _ _) _ He1 Hb2). cbn [mbind outcome_bind tbl].
  rewrite set_value_twice. fold v1. cbn [value]. fold v2.
  pose proof (set_value_lookup key v2 _ _ He) as He2.
  destruct (update_entry_complete key f3
    (PinginfoMap (set_value key v2 (tbl st)) (client_queue st)) _
    (wf_set_value _ _ _ Ht) He2) as (t' & Hr & Hu); [done|done|].
  exists t'. cbn [tbl client_queue value] in *. fold v3 in Hu. rewrite Hc in Hu.
  rewrite (remove_set_value _ _ _ e Ht He) in Hr. split; [done|]. by rewrite Hu.
Qed.
(** ** Lemmas on the events *)
Definition mask_of (ev : ping_event) : Z :=
  match ev with
  | EvPingCqe _ => PINGWEAVE_MASK_RECV_PING_CQE
  | EvPong _ _ => PINGWEAVE_MASK_RECV_PONG
  | EvAck _ => PINGWEAVE_MASK_RECV_ACK
  end.

Lemma on_event_bitmap ev v :
  pi_recv_bitmap (on_event ev v) = Z.lor (pi_recv_bitmap v) (mask_of ev).
Proof. destruct ev; cbn; unfold on_ping_cqe, on_pong; by repeat case_match. Qed.

Lemma on_event_cnt ev v : pi_recv_cnt (on_event ev v) = u32 (pi_recv_cnt v + 1).
Proof. destruct ev; cbn; unfold on_ping_cqe, on_pong; by repeat case_match. Qed.

Lemma on_event_frame ev v :
  pi_pingid (on_event ev v) = pi_pingid v /\ pi_dstip (on_event ev v) = pi_dstip v /\
  pi_time_ping_send (on_event ev v) = pi_time_ping_send v.
Proof. destruct ev; cbn; unfold on_ping_cqe, on_pong; by repeat case_match. Qed.

(** The value after a sequence of events. *)
Definition on_events (evs : list ping_event) (v : rdma_pinginfo_t) : rdma_pinginfo_t :=
  foldl (fun v ev => on_event ev v) v evs.

Lemma on_events_frame evs v :
  pi_pingid (on_events evs v) = pi_pingid v /\ pi_dstip (on_events evs v) = pi_dstip v /\
  pi_time_ping_send (on_events evs v) = pi_time_ping_send v.
Proof.
  revert v. induction evs as [|ev evs IH]; intros v; [done|].
  change (on_events (ev :: evs) v) with (on_events evs (on_event ev v)).
  destruct (IH (on_event ev v)) as (-> & -> & ->). apply on_event_frame.
Qed.

Lemma delta_2_32 t1 t2 :
  Clock.calc_time_delta_with_modulo t1 t2 PINGWEAVE_TIME_CALC_MODULO = (t2 - t1) `mod` 2 ^ 32.
Proof. apply Clock.modulo_delta_eq. unfold PINGWEAVE_TIME_CALC_MODULO. done. Qed.

(** The delays after the three events of a ping: but for a stamp of 0, they do
    not depend on the order. *)
Lemma three_delays evs x recv_time cqe_time server_delay v :
  evs ≡ₚ [EvPingCqe x; EvPong recv_time cqe_time; EvAck server_delay] ->
  pi_network_delay v = 0 ->
  pi_network_delay (on_events evs v) = measured evs x cqe_time /\
  pi_client_delay (on_events evs v) = (recv_time - pi_client_delay v) `mod` 2 ^ 32 /\
  pi_server_delay (on_events evs v) = server_delay.
Proof.
  intros Hp Hn. symmetry in Hp. apply permutations_Permutation in Hp.
  destruct (x =? 0) eqn:Hx, (cqe_time =? 0) eqn:Hc; cbn in Hp;
    repeat (apply elem_of_cons in Hp as [->|Hp]; [
      unfold measured; cbn; unfold on_ping_cqe, on_pong; cbn; rewrite Hn; cbn; rewrite ?Hx, ?Hc; cbn;
      by rewrite !delta_2_32|]);
    by apply elem_of_nil in Hp.
Qed.

(** The bitmap is complete after the third event and not before. *)
Lemma three_bitmaps evs x recv_time cqe_time server_delay v :
  evs ≡ₚ [EvPingCqe x; EvPong recv_time cqe_time; EvAck server_delay] ->
  pi_recv_bitmap v = PINGWEAVE_MASK_INIT -> pi_recv_cnt v = 0 ->
  exists ev1 ev2 ev3, evs = [ev1; ev2; ev3] /\
    pi_recv_bitmap (on_event ev1 v) <> PINGWEAVE_MASK_RECV /\
    pi_recv_bitmap (on_events [ev1; ev2] v) <> PINGWEAVE_MASK_RECV /\
    pi_recv_bitmap (on_events evs v) = PINGWEAVE_MASK_RECV /\
    pi_recv_cnt (on_events evs v) = 3.
Proof.
  intros Hp Hb Hc. symmetry in Hp. apply permutations_Permutation in Hp. cbn in Hp.
  repeat (apply elem_of_cons in Hp as [->|Hp]; [
    eexists _, _, _; split; [done|]; unfold on_events; cbn [foldl];
    rewrite !on_event_bitmap, !on_event_cnt, Hb, Hc; by vm_compute|]).
  by apply elem_of_nil in Hp.
Qed.

Lemma report_of_three evs x recv_time cqe_time server_delay v :
  evs ≡ₚ [EvPingCqe x; EvPong recv_time cqe_time; EvAck server_delay] ->
  pi_network_delay v = 0 ->
  report_of (on_events evs v) = report_for v recv_time (measured evs x cqe_time) server_delay.
Proof.
  intros Hp Hn. destruct (three_delays _ _ _ _ _ v Hp Hn) as (H1 & H2 & H3).
  destruct (on_events_frame evs v) as (H4 & H5 & H6).
  unfold report_of, complete_msg, report_for, client_process_time, network_rtt.
  by rewrite H1, H2, H3, H4, H5, H6.
Qed.
End rdma_pinginfo_map.

Arguments pinginfo_map Q : clear implicits.

(** ** Traces of the client

    The TX thread inserts, the CQE and RX threads deliver events, the result
    thread takes reports from the queue; [empty] and [size] may be called at
    any time. The history keeps the keys inserted with success and the
    reports taken. *)
Section client_trace.
Context `{SpscQueue Q rdma_result_msg_t} (indet threshold_ms : Z).

(** [once]: restrict the runs to those in which no event of a ping comes twice. *)
Context (once : Prop).

Record trace := Trace {
  tr_now : Z; tr_map : pinginfo_map Q;
  tr_delivered : list rdma_result_msg_t; tr_inserted : list Z }.

Inductive client_step : trace -> trace -> Prop :=
  | client_insert key msg dstip now now_expire now' system_now st r st' d ins :
      pm_pingid msg = key -> now <= now_expire -> now_expire <= now' ->
      insert indet threshold_ms key msg dstip now_expire now' system_now st = (r, st') ->
      client_step (Trace now st d ins)
        (Trace now' st' d (if IS_SUCCESS r then key :: ins else ins))
  | client_event key ev now st r st' d ins :
      (once -> forall e, tmap (tbl st) !! key = Some e ->
        Z.land (pi_recv_bitmap (value e)) (mask_of ev) = 0) ->
      deliver indet key ev st = Ret (r, st') ->
      client_step (Trace now st d ins) (Trace now st' d ins)
  | client_expire now now' n st st' d ins :
      now <= now' -> size indet threshold_ms now' st = (n, st') ->
      client_step (Trace now st d ins) (Trace now' st' d ins)
  | client_dequeue now t q a q' d ins :
      wait_dequeue_timed q = Some (a, q') ->
      client_step (Trace now (PinginfoMap t q) d ins)
        (Trace now (PinginfoMap t q') (d ++ [a]) ins).

Definition client_reachable (q : Q) : trace -> Prop :=
  rtc client_step (Trace 0 (PinginfoMap empty_table q) [] []).

(** The pings reported so far, taken or still queued. *)
Definition reported (s : trace) : list Z :=
  rd_pingid <$> tr_delivered s ++ q_contents (client_queue (tr_map s)).
(** The pings in the table. *)
Definition pending (s : trace) : list Z := (contents (tbl (tr_map s))).*1.

(** A counter that agrees with its bitmap, of a ping not complete yet. *)
Definition counted (v : rdma_pinginfo_t) : Prop :=
  (pi_recv_cnt v, pi_recv_bitmap v) ∈ [(0, 0); (1, 1); (1, 2); (1, 4); (2, 3); (2, 5); (2, 6)].

Definition value_ok (v : rdma_pinginfo_t) : Prop := once -> counted v.

(** Nothing may be lost when events are not repeated and the queue always has room. *)
Definition lossless : Prop := once /\ forall (m : rdma_result_msg_t) (q : Q), has_room m q.

(** Every report has a type of result that the result thread counts. *)
Definition msg_counted (m : rdma_result_msg_t) : Prop := counted_result (rd_result m).

Abbreviation moved ex st st' :=
  (moves pi_pingid rd_pingid value_ok msg_counted lossless ex
    (tbl st) (client_queue st) (tbl st') (client_queue st')).
Abbreviation entries_ok st := (ids_ok pi_pingid value_ok (contents (tbl st))).

Lemma counted_event ev v :
  counted v -> Z.land (pi_recv_bitmap v) (mask_of ev) = 0 ->
  if bool_decide (pi_recv_bitmap (on_event ev v) = PINGWEAVE_MASK_RECV)
  then pi_recv_cnt (on_event ev v) = 3 else counted (on_event ev v).
Proof.
  unfold counted. rewrite on_event_bitmap, on_event_cnt.
  generalize (pi_recv_cnt v), (pi_recv_bitmap v). intros c b Hin.
  repeat (apply elem_of_cons in Hin as [[= -> ->]|Hin];
    [destruct ev; vm_compute; intros Hb; try done; set_solver|]).
  by apply elem_of_nil in Hin.
Qed.

Lemma on_expire_once v q :
  value_ok v -> reports_once pi_pingid rd_pingid msg_counted lossless v q (on_expire indet v q).
Proof.
  intros Hok. unfold on_expire. destruct (Z.leb_spec 3 (pi_recv_cnt v)) as [Hc|Hc].
  - apply reports_once_none. intros [Ho _]. specialize (Hok Ho). unfold counted in Hok.
    repeat (apply elem_of_cons in Hok as [[= Hc' _]|Hok]; [lia|]). by apply elem_of_nil in Hok.
  - apply reports_once_enqueued; [done|by right; left|]. intros [_ Hf]. apply Hf.
Qed.

Lemma expireEntries_moves now st :
  wf (tbl st) -> entries_ok st -> moved [] st (expireEntries indet threshold_ms now st).2.
Proof.
  intros Ht Hid. unfold expireEntries.
  pose proof (moves_expire pi_pingid rd_pingid value_ok msg_counted lossless (on_expire indet) now
    threshold_ms on_expire_once (tbl st) (client_queue st) Ht Hid) as Hm.
  by destruct (KeyTable.expireEntries _ _ _ _ _) as [[n t'] q'].
Qed.

Lemma insert_moves key msg dstip now_expire now system_now st r st' :
  pm_pingid msg = key -> wf (tbl st) -> entries_ok st ->
  insert indet threshold_ms key msg dstip now_expire now system_now st = (r, st') ->
  moved (if IS_SUCCESS r then [key] else []) st st'.
Proof.
  intros Hk Ht Hid. unfold insert. pose proof (expireEntries_moves now_expire st Ht Hid) as Hm.
  destruct (expireEntries indet threshold_ms now_expire st).2 as [t1 q1]. cbn [tbl] in *.
  destruct (tmap t1 !! key) as [e|] eqn:He; intros [= <- <-]; [done|].
  pose proof Hm as (Ht1 & Hid1 & _).
  apply (moves_trans _ _ _ _ _ [] [key] _ _ _ _ _ _ Hm). apply moves_emplace_back; try done.
  intros _. unfold counted. left.
Qed.

(** An event on any key is defined, and reports the ping of that key at most once. *)
Lemma deliver_moves key ev st :
  wf (tbl st) -> entries_ok st ->
  (once -> forall e, tmap (tbl st) !! key = Some e ->
    Z.land (pi_recv_bitmap (value e)) (mask_of ev) = 0) ->
  exists r st', deliver indet key ev st = Ret (r, st') /\ moved [] st st'.
Proof.
  intros Ht Hid Hnew. rewrite deliver_update. destruct (tmap (tbl st) !! key) as [e|] eqn:He.
  2:{ unfold update_entry. rewrite He. eexists _, st. split; [done|]. by apply moves_refl. }
  destruct (ids_ok_lookup _ _ _ _ _ Ht Hid He) as [Hk Hok].
  assert (pi_pingid (on_event ev (value e)) = key) as Hv by (rewrite <- Hk; apply on_event_frame).
  assert (once -> if bool_decide (pi_recv_bitmap (on_event ev (value e)) = PINGWEAVE_MASK_RECV)
    then pi_recv_cnt (on_event ev (value e)) = 3 else counted (on_event ev (value e))) as Hcnt.
  { intros Ho. apply counted_event; [by apply Hok|by apply Hnew]. }
  destruct (decide (pi_recv_bitmap (on_event ev (value e)) = PINGWEAVE_MASK_RECV)) as [Hb|Hb].
  - rewrite bool_decide_eq_true_2 in Hcnt by done.
    destruct (update_entry_complete indet key (on_event ev) st e Ht He Hv Hb) as (t' & Hr & ->).
    eexists _, _. split; [done|]. cbn [tbl client_queue].
    match goal with |- moves _ _ _ _ _ _ _ _ _ ?q =>
      assert (reports_once pi_pingid rd_pingid msg_counted lossless (on_event ev (value e)) (client_queue st) q)
        as Hq end.
    { destruct (Z.eqb_spec (pi_recv_cnt (on_event ev (value e))) 3).
      - apply reports_once_enqueued; [done| |intros [_ Hf]; apply Hf].
        unfold msg_counted, report_of. case_match; [by right; right; left|by left].
      - apply reports_once_none. intros [Ho _]. by apply Hcnt in Ho. }
    destruct (moves_remove _ _ _ _ _ key e _ _ _ _ Ht Hid He Hv Hq) as (t2 & Hr2 & Hm).
    rewrite Hr in Hr2. by simplify_eq.
  - rewrite bool_decide_eq_false_2 in Hcnt by done.
    rewrite (update_entry_pending indet key _ st e He Hb). eexists _, _. split; [done|].
    by apply moves_set_value.
Qed.

Definition trace_ok (s : trace) : Prop :=
  accounted pi_pingid rd_pingid value_ok msg_counted lossless (tr_inserted s) (tr_delivered s)
    (tbl (tr_map s)) (client_queue (tr_map s)).

Lemma client_step_ok s s' : trace_ok s -> client_step s s' -> trace_ok s'.
Proof.
  unfold trace_ok. intros Hok Hstep. pose proof Hok as [Ht Hid _ _].
  destruct Hstep as [key msg dstip now ne now' sn st r st' d ins Hk _ _ Hi
    |key ev now st r st' d ins Hnew Hd|now now' n st st' d ins _ Hs|now t q a q' d ins Hw];
    cbn in *.
  - pose proof (accounted_moves _ _ _ _ _ _ _ _ _ _ _ _ Hok
      (insert_moves key msg dstip ne now' sn st r st' Hk Ht Hid Hi)) as Hok'.
    by case_match.
  - destruct (deliver_moves key ev st Ht Hid Hnew) as (r2 & st2 & Hd2 & Hm).
    rewrite Hd in Hd2. injection Hd2 as <- <-. by apply (accounted_moves _ _ _ _ _ _ _ _ _ _ _ _ Hok Hm).
  - injection Hs as _ <-. by apply (accounted_moves _ _ _ _ _ [] _ _ _ _ _ _ Hok), expireEntries_moves.
  - by eapply accounted_dequeue.
Qed.
End client_trace.

Lemma client_reachable_ok `{SpscQueue Q rdma_result_msg_t} indet threshold_ms once q s :
  q_contents q = [] -> client_reachable indet threshold_ms once q s -> trace_ok once s.
Proof.
  intros Hq. unfold client_reachable. apply (rtc_ind_r (trace_ok once)).
  - by apply accounted_empty.
  - intros s1 s2 _ Hstep Hok. by eapply client_step_ok.
Qed.

(** [insert] of a ping whose id is not in the table: the stale entries leave it,
    then the ping is pending, with no event received. *)
Lemma rdma_insert_new `{SpscQueue Q rdma_result_msg_t} indet threshold_ms key msg dstip
    now_expire now system_now (st : pinginfo_map Q) :
  wf (tbl st) -> key ∉ (contents (tbl st)).*1 ->
  exists gone t',
    insert indet threshold_ms key msg dstip now_expire now system_now st
      = (PINGWEAVE_SUCCESS,
         PinginfoMap t' (expired_effect (on_expire indet) gone (client_queue st))) /\
    gone `prefix_of` contents (tbl st) /\ wf t' /\
    exists e, tmap t' !! key = Some e /\
      value e = PingInfo (pm_pingid msg) (pm_qpn msg) (pm_gid msg) (pm_lid msg) dstip
        (u64 system_now) (u64 now) 0 0 PINGWEAVE_MASK_INIT 0.
Proof.
  intros Ht Hk.
  destruct (expireEntries_spec (on_expire indet) now_expire threshold_ms (tbl st) (client_queue st) Ht)
    as (t1 & gone & Heq & Ht1 & Hae & _).
  apply aexpire_app in Hae. unfold insert, expireEntries. rewrite Heq. cbn [snd tbl client_queue].
  assert (tmap t1 !! key = None) as Hnone.
  { destruct (tmap t1 !! key) as [e|] eqn:He; [|done]. destruct Hk. rewrite Hae, fmap_app.
    apply elem_of_app. right. by eapply contents_key. }
  rewrite Hnone. eexists gone, _. split; [done|]. split; [by exists (contents t1)|].
  split; [by auto with pw|]. eexists. cbn. by rewrite lookup_insert_eq.
Qed.

(** The three events of a fresh ping, in any order, by the table's methods. *)
Lemma deliver_three `{SpscQueue Q rdma_result_msg_t}
    indet key st e evs x recv_time cqe_time server_delay :
  wf (tbl st) -> tmap (tbl st) !! key = Some e -> fresh_entry key (value e) ->
  evs ≡ₚ [EvPingCqe x; EvPong recv_time cqe_time; EvAck server_delay] ->
  exists t', KeyTable.remove key (tbl st) = Ret (PINGWEAVE_SUCCESS, t') /\
    contents t' = aremove key (contents (tbl st)) /\
    deliver_all indet key evs st
      = Ret (PinginfoMap t'
          (enqueued (report_for indet (value e) recv_time (measured evs x cqe_time) server_delay)
            (client_queue st))).
Proof.
  intros Ht He (Hid & Hn & Hc & Hb) Hp.
  destruct (three_bitmaps _ _ _ _ _ (value e) Hp Hb Hc)
    as (ev1 & ev2 & ev3 & -> & Hb1 & Hb2 & Hb3 & Hc3).
  destruct (update_three indet key (on_event ev1) (on_event ev2) (on_event ev3) st e Ht He
    Hb1 Hb2 Hb3 Hc3) as (t' & Hr & Hu).
  { rewrite <- Hid. apply (on_events_frame [ev1; ev2; ev3]). }
  destruct (remove_spec key (tbl st) e Ht He) as (t2 & Hr2 & _ & Hcont & _).
  rewrite Hr in Hr2. injection Hr2 as <-. exists t'. split_and!; [done|done|].
  pose proof (report_of_three indet _ _ _ _ _ _ Hp Hn) as Hrep. cbn in Hrep.
  rewrite <- Hrep. etransitivity; [|exact Hu].
  cbn [deliver_all]. rewrite deliver_update.
  destruct (update_entry indet key (on_event ev1) st) as [[r1 s1]| |]; [cbn|done..].
  rewrite deliver_update.
  destruct (update_entry indet key (on_event ev2) s1) as [[r2 s2]| |]; [cbn|done..].
  by rewrite deliver_update.
Qed.

(** ** Properties *)

(** C2: the three events of a ping just inserted (completion of the PING, PONG,
    ACK) may arrive in any order: the third one reports the ping once and
    removes its entry. If neither the time stamp of the PING's completion nor
    that of the PONG's is 0, the delays reported are the same in every order,
    the wrap of the 32-bit clocks included. The code takes a stamp of 0 for
    none: if the earlier of the two stamps to arrive is 0, the later one is
    reported as the delay, as it is. *)
Theorem rdma_result_order_independent `{SpscQueue Q rdma_result_msg_t}
    indet key st e evs x recv_time cqe_time server_delay :
  wf (tbl st) -> tmap (tbl st) !! key = Some e -> fresh_entry key (value e) ->
  evs ≡ₚ [EvPingCqe x; EvPong recv_time cqe_time; EvAck server_delay] ->
  let told := report_for indet (value e) recv_time (measured evs x cqe_time) server_delay in
  (exists t', KeyTable.remove key (tbl st) = Ret (PINGWEAVE_SUCCESS, t') /\
    contents t' = aremove key (contents (tbl st)) /\
    deliver_all indet key evs st = Ret (PinginfoMap t' (enqueued told (client_queue st)))) /\
  (x <> 0 -> cqe_time <> 0 ->
   told = expected_report indet (value e) x recv_time cqe_time server_delay).
Proof.
  intros Ht He Hf Hp told. split; [by apply deliver_three|]. intros Hx Hc.
  unfold told, expected_report. by rewrite measured_stamps.
Qed.

Lemma rdma_result_order_independent_witness :
  let msg := RdmaPingMsg 9 4 [] 0 0 in
  let st0 := PinginfoMap empty_table (BoundedQueue 8 []) in
  let st := (insert 0 1000 9 msg "10.0.0.2" 100 200 777 st0).2 in
  exists e t', tmap (tbl st) !! 9 = Some e /\
    deliver_all 0 9 [EvAck 50; EvPong 900 20; EvPingCqe 4294967290] st
      = Ret (PinginfoMap t' (enqueued (expected_report 0 (value e) 4294967290 900 20 50)
               (client_queue st))) /\
    expected_report 0 (value e) 4294967290 900 20 50
      = RdmaResultMsg 9 33554442 777 674 26 50 PINGWEAVE_RESULT_WEIRD.
Proof.
  intros msg st0 st.
  assert (wf (tbl st)) as Hwf.
  { change (wf (emplace_back 9 (PingInfo 9 4 [] 0 "10.0.0.2" 777 200 0 0 0 0) 200 empty_table)).
    apply wf_emplace_back; [apply wf_empty|reflexivity]. }
  destruct (rdma_result_order_independent 0 9 st _
    [EvAck 50; EvPong 900 20; EvPingCqe 4294967290] 4294967290 900 20 50 Hwf eq_refl)
    as ((t' & _ & _ & Hd) & He); [by repeat split|apply Permutation_rev|].
  eexists _, t'. split; [reflexivity|]. split; [|vm_compute; reflexivity].
  rewrite <- He by lia. exact Hd.
Defined.

(** The PONG's stamp is 0 and it comes first: the PING's own stamp is the delay. *)
Example zero_stamp_reported :
  measured [EvPong 900 0; EvPingCqe 4294967290; EvAck 50] 4294967290 0 = 4294967290 /\
  measured [EvPingCqe 4294967290; EvPong 900 0; EvAck 50] 4294967290 0 = 6.
Proof. split; reflexivity. Qed.

(** C3: over any run of the client, each ping inserted with success is
    accounted for exactly once: it is reported (at most once), still pending,
    or lost; the table stays well formed and no event that is new to its ping
    can hit a dangling iterator. Distinct pings never give two reports of one
    ping. In the runs in which no event is repeated ([once]), a ping can only
    be lost to a full queue: with room, it is reported or pending. *)
Theorem rdma_reports_accounted `{SpscQueue Q rdma_result_msg_t} indet threshold_ms once q s :
  q_contents q = [] -> client_reachable indet threshold_ms once q s ->
  wf (tbl (tr_map s)) /\
  (forall key ev,
    (once -> forall e, tmap (tbl (tr_map s)) !! key = Some e ->
      Z.land (pi_recv_bitmap (value e)) (mask_of ev) = 0) ->
    exists r st', deliver indet key ev (tr_map s) = Ret (r, st')) /\
  (exists lost, tr_inserted s ≡ₚ reported s ++ pending s ++ lost /\
    (once -> (forall (m : rdma_result_msg_t) (q : Q), has_room m q) -> lost = [])) /\
  (NoDup (tr_inserted s) -> NoDup (reported s ++ pending s)).
Proof.
  intros Hq Hr. pose proof (client_reachable_ok indet threshold_ms once q s Hq Hr) as Hok.
  pose proof Hok as [Ht Hid _ (lost & Hl & Hacc)]. split_and!; [done| | |].
  - intros key ev Hnew. destruct (deliver_moves indet once key ev _ Ht Hid Hnew)
      as (r & st' & Hd & _). by exists r, st'.
  - exists lost. split; [done|]. intros Ho Hf. apply Hl. by split.
  - by apply (accounted_nodup _ _ _ _ _ _ _ _ _ Hok).
Qed.

Lemma rdma_reports_accounted_witness :
  let q : list rdma_result_msg_t := [] in
  let st1 := (insert 0 1000 9 (RdmaPingMsg 9 4 [] 0 0) "10.0.0.2" 100 200 777
               (PinginfoMap empty_table q)).2 in
  client_reachable 0 1000 True q (Trace 200 st1 [] [9]) /\ wf (tbl st1) /\
  exists lost, [9] ≡ₚ [] ++ [9] ++ lost /\ lost = [].
Proof.
  assert (client_reachable 0 1000 True ([] : list rdma_result_msg_t)
    (Trace 200 (insert 0 1000 9 (RdmaPingMsg 9 4 [] 0 0) "10.0.0.2" 100 200 777
      (PinginfoMap empty_table [])).2 [] [9])) as Hr.
  { eapply rtc_once. refine (client_insert 0 1000 True 9 (RdmaPingMsg 9 4 [] 0 0) "10.0.0.2"
      0 100 200 777 _ PINGWEAVE_SUCCESS _ [] [] _ _ _ _); [reflexivity|lia|lia|reflexivity]. }
  split; [exact Hr|].
  destruct (rdma_reports_accounted (H := list_spsc _) 0 1000 True [] _ eq_refl Hr)
    as (Hwf & _ & (lost & Hp & Hl) & _).
  split; [exact Hwf|]. exists lost. split; [exact Hp|]. apply Hl; [exact I|reflexivity].
Defined.

(** [insert] on a table in time order reports every ping that stayed
    [threshold_ms] without its three events as a failure, oldest first, and
    drops it; the younger ones stay; the new ping, if its id is not among
    them, starts with no event received and the two clock readings. *)
Theorem rdma_insert_reports_expired `{SpscQueue Q rdma_result_msg_t}
    indet threshold_ms key msg dstip now_expire now system_now st :
  wf (tbl st) -> timed now_expire (tbl st) ->
  let stale_ones := filter (is_stale now_expire threshold_ms) (contents (tbl st)) in
  let kept := filter (fun p => ~ is_stale now_expire threshold_ms p) (contents (tbl st)) in
  let failed := filter (fun v => pi_recv_cnt v < 3) (fst ∘ snd <$> stale_ones) in
  let v := PingInfo (pm_pingid msg) (pm_qpn msg) (pm_gid msg) (pm_lid msg) dstip
             (u64 system_now) (u64 now) 0 0 PINGWEAVE_MASK_INIT 0 in
  exists t',
    insert indet threshold_ms key msg dstip now_expire now system_now st
      = (if bool_decide (key ∈ kept.*1) then PINGWEAVE_FAILURE else PINGWEAVE_SUCCESS,
         PinginfoMap t' (foldl (fun q w => enqueued (failure_msg indet w) q)
                           (client_queue st) failed)) /\
    wf t' /\
    contents t' = if bool_decide (key ∈ kept.*1) then kept else kept ++ [(key, (v, now))].
Proof.
  intros Ht Htm stale_ones kept failed v. unfold insert, expireEntries.
  destruct (expireEntries_timed (on_expire indet) now_expire threshold_ms (tbl st)
    (client_queue st) Ht Htm) as (t' & -> & Ht' & Htm' & Hc).
  fold stale_ones. cbn [snd tbl client_queue].
  assert (expired_effect (on_expire indet) stale_ones (client_queue st)
    = foldl (fun q w => enqueued (failure_msg indet w) q) (client_queue st) failed) as ->.
  { subst failed. generalize (client_queue st). clear. unfold expired_effect.
    induction stale_ones as [|p l IH]; intros q; [done|]. cbn [foldl fmap list_fmap]. rewrite IH.
    unfold on_expire. destruct (Z.leb_spec 3 (pi_recv_cnt p.2.1)).
    - by rewrite filter_cons_False by (cbn; lia).
    - by rewrite filter_cons_True by (cbn; lia). }
  fold kept in Hc. rewrite <- Hc. destruct (tmap t' !! key) as [e|] eqn:He.
  - exists t'. by rewrite bool_decide_eq_true_2 by (by eapply contents_key).
  - eexists. rewrite bool_decide_eq_false_2 by (by apply contents_none).
    split_and!; [done|by auto with pw|by apply contents_emplace_back].
Qed.

Lemma rdma_insert_reports_expired_witness :
  let st0 := PinginfoMap empty_table (BoundedQueue 8 []) in
  let st := (insert 0 1000 9 (RdmaPingMsg 9 4 [] 0 0) "10.0.0.2" 100 200 777 st0).2 in
  wf (tbl st) /\ exists t',
  insert 0 1000 10 (RdmaPingMsg 10 4 [] 0 0) "10.0.0.3" 1000000200 1000000300 888 st
    = (PINGWEAVE_SUCCESS, PinginfoMap t'
        (enqueued (RdmaResultMsg 9 33554442 777 0 0 0 PINGWEAVE_RESULT_FAILURE)
           (BoundedQueue 8 []))).
Proof.
  intros st0 st. assert (wf (tbl st)) as Hwf.
  { change (wf (emplace_back 9 (PingInfo 9 4 [] 0 "10.0.0.2" 777 200 0 0 0 0) 200 empty_table)).
    apply wf_emplace_back; [apply wf_empty|reflexivity]. }
  split; [exact Hwf|].
  destruct (rdma_insert_reports_expired 0 1000 10 (RdmaPingMsg 10 4 [] 0 0) "10.0.0.3"
    1000000200 1000000300 888 st Hwf) as (t' & Hi & _).
  { split; [by repeat constructor|]. repeat constructor. vm_compute. congruence. }
  exists t'. exact Hi.
Defined.
