(* ===== verification/RdmaTypes.v ===== *)
(** * RdmaTypes: the fields of the client's RDMA table stay within their C++
    types (rdma_ping_info.hpp, format.hpp).

    The tables keep integers of [Z]; here, every operation keeps every field
    in the range of its machine type, whatever the times and the delays it is
    given, so that no reduction is missing from the definitions. *)
From S2P Require Import Prelude Text Format Common Queue KeyTable PingLedger RdmaPingInfo.
Local Open Scope Z_scope.

(** [rdma_pinginfo_t] and [rdma_result_msg_t]. *)
Record entry_typed (v : rdma_pinginfo_t) : Prop := {
  ty_pingid : is_u64 (pi_pingid v);
  ty_qpn : is_u32 (pi_qpn v);
  ty_lid : is_u32 (pi_lid v);
  ty_time : is_u64 (pi_time_ping_send v);
  ty_client : is_u64 (pi_client_delay v);
  ty_network : is_u64 (pi_network_delay v);
  ty_server : is_u64 (pi_server_delay v);
  ty_cnt : is_u32 (pi_recv_cnt v);
  ty_bitmap : 0 <= pi_recv_bitmap v < 8;
}.

Record msg_typed (m : rdma_result_msg_t) : Prop := {
  tm_pingid : is_u64 (rd_pingid m);
  tm_dstip : is_u32 (rd_dstip m);
  tm_time : is_u64 (rd_time_ping_send m);
  tm_client : is_u64 (rd_client_delay m);
  tm_network : is_u64 (rd_network_delay m);
  tm_server : is_u64 (rd_server_delay m);
  tm_result : rd_result m ∈ [PINGWEAVE_RESULT_WEIRD; PINGWEAVE_RESULT_FAILURE; PINGWEAVE_RESULT_SUCCESS];
}.

Definition event_typed (ev : ping_event) : Prop :=
  match ev with
  | EvPingCqe x => is_u64 x
  | EvPong recv_time cqe_time => is_u64 recv_time /\ is_u64 cqe_time
  | EvAck server_delay => is_u64 server_delay
  end.
Definition ping_typed (m : rdma_pingmsg_t) : Prop :=
  is_u64 (pm_pingid m) /\ is_u32 (pm_qpn m) /\ is_u32 (pm_lid m).

(** ** One entry *)
Lemma modulo_delta_u64 t1 t2 :
  is_u64 (Clock.calc_time_delta_with_modulo t1 t2 PINGWEAVE_TIME_CALC_MODULO).
Proof.
  pose proof (Clock.modulo_delta_range t1 t2 PINGWEAVE_TIME_CALC_MODULO ltac:(done)) as Hr.
  change PINGWEAVE_TIME_CALC_MODULO with (2 ^ 32) in *. unfold is_u64. lia.
Qed.

Lemma bitmap_lor b m : 0 <= b < 8 -> m = 1 \/ m = 2 \/ m = 4 -> 0 <= Z.lor b m < 8.
Proof.
  intros Hb Hm.
  assert (b = 0 \/ b = 1 \/ b = 2 \/ b = 3 \/ b = 4 \/ b = 5 \/ b = 6 \/ b = 7) as Hb' by lia.
  by destruct_or! Hb'; destruct_or! Hm; subst b m.
Qed.

Lemma on_event_typed ev v : event_typed ev -> entry_typed v -> entry_typed (on_event ev v).
Proof.
  intros Hev [H1 H2 H3 H4 H5 H6 H7 H8 H9].
  assert (is_u32 (u32 (pi_recv_cnt v + 1))) by apply u32_range.
  split; try (destruct (on_event_frame ev v) as (-> & _ & ->); done);
    rewrite ?on_event_cnt, ?on_event_bitmap; try done;
    try (apply bitmap_lor; [done|destruct ev; auto]);
    destruct ev; cbn in *; unfold on_ping_cqe, on_pong in *; repeat case_match; cbn;
    try apply modulo_delta_u64; naive_solver.
Qed.

Section messages.
Context (indet : Z) (Hindet : is_u32 indet).

Lemma dstip_typed ip : is_u32 (NetAddr.ip2uint indet ip).
Proof.
  destruct (decide (NetAddr.valid_ipv4 ip)) as [Hv|Hv]; [by apply NetAddr.ip2uint_u32|].
  unfold NetAddr.valid_ipv4, NetAddr.ip2uint in *. destruct (inet_pton4 ip); [|done]. by destruct Hv.
Qed.

Lemma failure_msg_typed v : entry_typed v -> msg_typed (failure_msg indet v).
Proof. intros [H1 H2 H3 H4 H5 H6 H7 H8 H9]. split; cbn; try done; try apply dstip_typed. set_solver. Qed.

Lemma complete_msg_typed r v :
  r ∈ [PINGWEAVE_RESULT_WEIRD; PINGWEAVE_RESULT_FAILURE; PINGWEAVE_RESULT_SUCCESS] ->
  entry_typed v -> msg_typed (complete_msg indet r v).
Proof.
  intros Hr [H1 H2 H3 H4 H5 H6 H7 H8 H9]. split; cbn; try done; try apply dstip_typed.
  - apply u64_range.
  - unfold network_rtt. case_match; [apply u64_range|done].
Qed.
End messages.

(** ** The table and the queue *)
Section map.
Context `{SpscQueue Q rdma_result_msg_t} (indet threshold_ms : Z) (Hindet : is_u32 indet).
Implicit Types (st : pinginfo_map Q) (q : Q).

Abbreviation entries_typed l := (Forall (fun p => entry_typed p.2.1) l).
Definition queue_typed q : Prop := Forall msg_typed (q_contents q).
Definition map_typed st : Prop :=
  wf (tbl st) /\ entries_typed (contents (tbl st)) /\ queue_typed (client_queue st).

Lemma enqueued_typed m q : msg_typed m -> queue_typed q -> queue_typed (enqueued m q).
Proof.
  unfold queue_typed. intros Hm Hq. destruct (enqueued_contents_cases m q) as [->| ->]; [|done].
  apply list.Forall_app. split; [done|]. by constructor.
Qed.

Lemma expire_typed now st : map_typed st -> map_typed (expireEntries indet threshold_ms now st).2.
Proof.
  intros (Ht & He & Hq). unfold expireEntries.
  destruct (expireEntries_spec (on_expire indet) now threshold_ms (tbl st) (client_queue st) Ht)
    as (t' & gone & -> & Ht' & Hae & _).
  apply aexpire_app in Hae. rewrite Hae in He. apply list.Forall_app in He as [Hg Hk].
  split_and!; [done|done|]. cbn [snd client_queue]. clear Hae Hk Ht Ht'. revert Hq.
  generalize (client_queue st). unfold expired_effect. induction Hg as [|p gone Hp _ IH]; intros q Hq; [done|].
  cbn [foldl]. apply IH. unfold on_expire. case_match; [done|]. by apply enqueued_typed, Hq; apply failure_msg_typed.
Qed.

Lemma insert_typed key msg dstip now_expire now system_now st : ping_typed msg -> map_typed st ->
  map_typed (insert indet threshold_ms key msg dstip now_expire now system_now st).2.
Proof.
  intros (Hm1 & Hm2 & Hm3) Hst. unfold insert. pose proof (expire_typed now_expire st Hst) as Hex.
  destruct (expireEntries indet threshold_ms now_expire st).2 as [t1 q1]. destruct Hex as (Ht & He & Hq).
  cbn [tbl client_queue] in *. destruct (tmap t1 !! key) eqn:Hk; cbn [snd]; [by split_and!|].
  split_and!; cbn [tbl client_queue]; [by auto with pw| |done].
  rewrite contents_emplace_back by done. apply list.Forall_app. split; [done|]. constructor; [|done].
  cbn. split; cbn; try done; try apply u64_range; unfold is_u64, is_u32, PINGWEAVE_MASK_INIT; lia.
Qed.

Lemma remove_typed key st : map_typed st ->
  exists r st', remove key st = Ret (r, st') /\ map_typed st'.
Proof.
  intros (Ht & He & Hq). unfold remove. destruct (tmap (tbl st) !! key) as [e|] eqn:Hk.
  - destruct (remove_spec key (tbl st) e Ht Hk) as (t' & -> & Ht' & Hc & _). eexists _, _.
    split; [done|]. split_and!; cbn [tbl client_queue]; [done| |done]. rewrite Hc.
    eapply sublist_Forall; [apply sublist_filter|done].
  - unfold KeyTable.remove. rewrite Hk. eexists _, _. split; [done|]. by split_and!.
Qed.

Lemma logging_typed v st : entry_typed v -> map_typed st ->
  exists st', logging indet v st = Ret st' /\ map_typed st'.
Proof.
  intros Hv Hst. assert (forall r, r ∈ [PINGWEAVE_RESULT_WEIRD; PINGWEAVE_RESULT_FAILURE; PINGWEAVE_RESULT_SUCCESS] ->
    map_typed (PinginfoMap (tbl st) (enqueued (complete_msg indet r v) (client_queue st)))) as Henq.
  { intros r Hr. destruct Hst as (Ht & He & Hq). split_and!; [done|done|].
    by apply enqueued_typed, Hq; apply complete_msg_typed. }
  unfold logging. repeat case_match; [..|by exists st].
  - destruct (remove_typed (pi_pingid v) st Hst) as (r & st' & -> & Hst'). by exists st'.
  - edestruct (remove_typed (pi_pingid v)) as (r & st' & -> & Hst'); [apply Henq; set_solver|]. by exists st'.
  - edestruct (remove_typed (pi_pingid v)) as (r & st' & -> & Hst'); [apply Henq; set_solver|]. by exists st'.
Qed.

Lemma deliver_typed key ev st : event_typed ev -> map_typed st ->
  exists r st', deliver indet key ev st = Ret (r, st') /\ map_typed st'.
Proof.
  intros Hev Hst. rewrite deliver_update. unfold update_entry. pose proof Hst as (Ht & He & Hq).
  destruct (tmap (tbl st) !! key) as [e|] eqn:Hk; [|eexists _, st; by split].
  assert (entry_typed (on_event ev (value e))) as Hv.
  { apply on_event_typed; [done|]. apply (contents_lookup _ _ _ Ht) in Hk.
    rewrite list.Forall_forall in He. by apply He in Hk. }
  destruct (logging_typed (on_event ev (value e)) (PinginfoMap (set_value key (on_event ev (value e)) (tbl st)) (client_queue st)))
    as (st' & -> & Hst'); [done| |by eexists _, st'].
  split_and!; cbn [tbl client_queue]; [by auto with pw| |done]. rewrite contents_set_value by done. unfold aset.
  rewrite list.Forall_fmap. eapply list.Forall_impl; [exact He|]. intros p Hp. cbn. by case_decide.
Qed.
End map.

(** C20: the types of the fields hold along any run: from a table and a queue
    whose every field is in the range of its C++ type, each method, called
    with arguments in range, is defined and leaves every field of every entry
    and of every queued report in range. *)
Theorem rdma_types_preserved `{SpscQueue Q rdma_result_msg_t} indet threshold_ms (st : pinginfo_map Q) :
  is_u32 indet -> map_typed st ->
  (forall key msg dstip now_expire now system_now, ping_typed msg ->
     map_typed (insert indet threshold_ms key msg dstip now_expire now system_now st).2) /\
  (forall key ev, event_typed ev ->
     exists r st', deliver indet key ev st = Ret (r, st') /\ map_typed st') /\
  (forall now, map_typed (size indet threshold_ms now st).2).
Proof.
  intros Hi Hst. split_and!; intros.
  - by apply insert_typed.
  - by apply deliver_typed.
  - by apply expire_typed.
Qed.

Lemma rdma_types_preserved_witness :
  let st := (insert 0 1000 9 (RdmaPingMsg 9 4 [] 0 0) "10.0.0.2" 100 200 (-1)
               (PinginfoMap empty_table ([] : list rdma_result_msg_t))).2 in
  map_typed st.
Proof.
  assert (map_typed (PinginfoMap empty_table ([] : list rdma_result_msg_t))) as H0.
  { split_and!; [apply wf_empty|constructor|constructor]. }
  assert (is_u32 0) as Hi by (unfold is_u32; lia).
  apply (rdma_types_preserved (H := list_spsc _) 0 1000 _ Hi H0).
  unfold ping_typed, is_u64, is_u32. cbn. lia.
Defined.
