(* ===== verification/TcpUdpPingInfo.v ===== *)
(** * TcpUdpPingInfo: the client's table of UDP pings (tcpudp_ping_info.hpp)

    A ping waits for one event, the PONG, which reports it; one that stays too
    long is reported as a failure. Every method runs under the table's mutex;
    clock readings are arguments and logger output is not modelled. *)
From S2P Require Import Prelude Format Common Queue KeyTable PingLedger.
Local Open Scope Z_scope.

(** [tcpudp_pinginfo_t]; [network_delay] holds the send time until the PONG. *)
Record tcpudp_pinginfo_t := TuPingInfo {
  ti_pingid : Z; ti_dstip : string; ti_time_ping_send : Z; ti_network_delay : Z }.

Definition UINT64_MAX : Z := 2 ^ 64 - 1.

Section tcpudp_pinginfo_map.
Context `{SpscQueue Q tcpudp_result_msg_t}.
Context (indet threshold_ms : Z).

Record tcpudp_map := TcpUdpMap { tu_tbl : table tcpudp_pinginfo_t; tu_queue : Q }.

Definition tu_msg (v : tcpudp_pinginfo_t) (network_delay result : Z) : tcpudp_result_msg_t :=
  TcpUdpResultMsg (ti_pingid v) (NetAddr.ip2uint indet (ti_dstip v)) (ti_time_ping_send v)
    network_delay result.

(** What [expireEntries] does with the value of a stale entry. *)
Definition on_expire (v : tcpudp_pinginfo_t) (q : Q) : Q :=
  enqueued (tu_msg v 0 PINGWEAVE_RESULT_FAILURE) q.

Definition expireEntries (now : Z) (st : tcpudp_map) : Z * tcpudp_map :=
  let '(n_remove, t, q) :=
    KeyTable.expireEntries on_expire now threshold_ms (tu_tbl st) (tu_queue st) in
  (n_remove, TcpUdpMap t q).

Definition remove (key : Z) (st : tcpudp_map) : outcome (Z * tcpudp_map) :=
  '(r, t) ← KeyTable.remove key (tu_tbl st); Ret (r, TcpUdpMap t (tu_queue st)).

Definition insert (key pingid : Z) (dstip : string)
  (now_expire steady_now system_now : Z) (st : tcpudp_map) : Z * tcpudp_map :=
  let st := (expireEntries now_expire st).2 in
  match tmap (tu_tbl st) !! key with
  | Some _ => (PINGWEAVE_FAILURE, st)
  | None =>
      let v := TuPingInfo pingid dstip (Clock.get_current_timestamp_system_ns system_now)
        (Clock.convert_clock_to_ns steady_now) in
      (PINGWEAVE_SUCCESS,
       TcpUdpMap (emplace_back key v steady_now (tu_tbl st)) (tu_queue st))
  end.

Definition get (key : Z) (v : tcpudp_pinginfo_t) (st : tcpudp_map) : Z * tcpudp_pinginfo_t :=
  match tmap (tu_tbl st) !! key with
  | Some e => (PINGWEAVE_SUCCESS, value e)
  | None => (PINGWEAVE_FAILURE, v)
  end.

(** The entry is copied, so that the delay is only in the report; what is
    removed is the entry of the value's [pingid]. *)
Definition update_pong_info (key recv_time : Z) (st : tcpudp_map)
  : outcome (Z * tcpudp_map) :=
  match tmap (tu_tbl st) !! key with
  | None => Ret (PINGWEAVE_FAILURE, st)
  | Some e =>
      let v := value e in
      let network_delay :=
        Clock.calc_time_delta_with_bitwrap (ti_network_delay v) recv_time UINT64_MAX in
      let st := TcpUdpMap (tu_tbl st)
        (enqueued (tu_msg v network_delay PINGWEAVE_RESULT_SUCCESS) (tu_queue st)) in
      '(_, st) ← remove (ti_pingid v) st;
      Ret (PINGWEAVE_SUCCESS, st)
  end.

(** As in the RDMA table, these expire entries under a shared lock. *)
Definition empty (now : Z) (st : tcpudp_map) : bool * tcpudp_map :=
  let st := (expireEntries now st).2 in (bool_decide (tmap (tu_tbl st) = ∅), st).
Definition size (now : Z) (st : tcpudp_map) : Z * tcpudp_map :=
  let st := (expireEntries now st).2 in (Z.of_nat (base.size (tmap (tu_tbl st))), st).

(** ** Traces of a client *)
Record trace := Trace {
  tr_now : Z; tr_map : tcpudp_map;
  tr_delivered : list tcpudp_result_msg_t; tr_inserted : list Z }.

Inductive client_step : trace -> trace -> Prop :=
  | client_insert key dstip now now_expire now' system_now st r st' d ins :
      now <= now_expire -> now_expire <= now' ->
      insert key key dstip now_expire now' system_now st = (r, st') ->
      client_step (Trace now st d ins)
        (Trace now' st' d (if IS_SUCCESS r then key :: ins else ins))
  | client_pong key recv_time now st r st' d ins :
      update_pong_info key recv_time st = Ret (r, st') ->
      client_step (Trace now st d ins) (Trace now st' d ins)
  | client_expire now now' n st st' d ins :
      now <= now' -> size now' st = (n, st') ->
      client_step (Trace now st d ins) (Trace now' st' d ins)
  | client_dequeue now t q a q' d ins :
      wait_dequeue_timed q = Some (a, q') ->
      client_step (Trace now (TcpUdpMap t q) d ins)
        (Trace now (TcpUdpMap t q') (d ++ [a]) ins).

Definition client_reachable (q : Q) : trace -> Prop :=
  rtc client_step (Trace 0 (TcpUdpMap empty_table q) [] []).

Definition reported (s : trace) : list Z :=
  tu_pingid <$> tr_delivered s ++ q_contents (tu_queue (tr_map s)).
Definition pending (s : trace) : list Z := (contents (tu_tbl (tr_map s))).*1.

(** Nothing may be lost when the queue always has room. *)
Definition never_full : Prop := forall (m : tcpudp_result_msg_t) (q : Q), has_room m q.

(** Every report has a type of result that the result thread counts. *)
Definition msg_counted (m : tcpudp_result_msg_t) : Prop := counted_result (tu_result m).

Definition trace_ok (s : trace) : Prop :=
  accounted ti_pingid tu_pingid (fun _ => True) msg_counted never_full (tr_inserted s) (tr_delivered s)
    (tu_tbl (tr_map s)) (tu_queue (tr_map s)).

(** ** Lemmas *)
Abbreviation moved ex st st' :=
  (moves ti_pingid tu_pingid (fun _ => True) msg_counted never_full ex (tu_tbl st) (tu_queue st) (tu_tbl st') (tu_queue st')).

Lemma udp_on_expire_once v q :
  True -> reports_once ti_pingid tu_pingid msg_counted never_full v q (on_expire v q).
Proof. intros _. apply reports_once_enqueued; [done|by right; left|]. intros Hf. apply Hf. Qed.

Lemma udp_expireEntries_moves now st :
  wf (tu_tbl st) -> ids_ok ti_pingid (fun _ => True) (contents (tu_tbl st)) ->
  moved [] st (expireEntries now st).2.
Proof.
  intros Ht Hid. unfold expireEntries.
  pose proof (moves_expire ti_pingid tu_pingid _ msg_counted never_full on_expire now threshold_ms udp_on_expire_once
    (tu_tbl st) (tu_queue st) Ht Hid) as Hm.
  by destruct (KeyTable.expireEntries _ _ _ _ _) as [[n t'] q'].
Qed.

Lemma udp_insert_moves key dstip now_expire now system_now st r st' :
  wf (tu_tbl st) -> ids_ok ti_pingid (fun _ => True) (contents (tu_tbl st)) ->
  insert key key dstip now_expire now system_now st = (r, st') ->
  moved (if IS_SUCCESS r then [key] else []) st st'.
Proof.
  intros Ht Hid. unfold insert. pose proof (udp_expireEntries_moves now_expire st Ht Hid) as Hm.
  destruct (expireEntries now_expire st).2 as [t1 q1]. cbn [tu_tbl] in *.
  destruct (tmap t1 !! key) as [e|] eqn:He; intros [= <- <-]; [done|].
  pose proof Hm as (Ht1 & Hid1 & _).
  apply (moves_trans _ _ _ _ _ [] [key] _ _ _ _ _ _ Hm). by apply moves_emplace_back.
Qed.

(** [insert] of a ping whose id is not in the table: the stale entries are
    reported as failures and dropped, then the ping is pending. *)
Lemma udp_insert_new key dstip now_expire now system_now st :
  wf (tu_tbl st) -> ids_ok ti_pingid (fun _ => True) (contents (tu_tbl st)) ->
  key ∉ (contents (tu_tbl st)).*1 ->
  exists gone t',
    insert key key dstip now_expire now system_now st
      = (PINGWEAVE_SUCCESS, TcpUdpMap t' (expired_effect on_expire gone (tu_queue st))) /\
    gone `prefix_of` contents (tu_tbl st) /\
    wf t' /\ ids_ok ti_pingid (fun _ => True) (contents t') /\
    exists e, tmap t' !! key = Some e /\
      value e = TuPingInfo key dstip (u64 system_now) (u64 now).
Proof.
  intros Ht Hid Hk.
  destruct (expireEntries_spec on_expire now_expire threshold_ms (tu_tbl st) (tu_queue st) Ht)
    as (t1 & gone & Heq & Ht1 & Hae & _).
  apply aexpire_app in Hae. unfold insert, expireEntries. rewrite Heq. cbn [snd tu_tbl tu_queue].
  assert (tmap t1 !! key = None) as Hnone.
  { destruct (tmap t1 !! key) as [e|] eqn:He; [|done]. destruct Hk. rewrite Hae, fmap_app.
    apply elem_of_app. right. by eapply contents_key. }
  rewrite Hnone. eexists gone, _. split; [done|]. split; [by exists (contents t1)|].
  split; [by auto with pw|]. split.
  - unfold ids_ok in *. rewrite contents_emplace_back by done. apply list.Forall_app. split.
    + rewrite Hae in Hid. by apply list.Forall_app in Hid as [_ Hid].
    + by repeat constructor.
  - eexists. cbn. by rewrite lookup_insert_eq.
Qed.

Lemma pong_spec key recv_time st e :
  wf (tu_tbl st) -> tmap (tu_tbl st) !! key = Some e -> ti_pingid (value e) = key ->
  exists t', KeyTable.remove key (tu_tbl st) = Ret (PINGWEAVE_SUCCESS, t') /\
    contents t' = aremove key (contents (tu_tbl st)) /\
    update_pong_info key recv_time st
      = Ret (PINGWEAVE_SUCCESS, TcpUdpMap t'
          (enqueued (tu_msg (value e)
             (Clock.calc_time_delta_with_bitwrap (ti_network_delay (value e)) recv_time UINT64_MAX)
             PINGWEAVE_RESULT_SUCCESS) (tu_queue st))).
Proof.
  intros Ht He Hk. destruct (remove_spec key _ e Ht He) as (t' & Hr & _ & Hc & _).
  exists t'. split_and!; [done|done|]. unfold update_pong_info. rewrite He, Hk.
  unfold remove. cbn [tu_tbl]. by rewrite Hr.
Qed.

Lemma pong_moves key recv_time st :
  wf (tu_tbl st) -> ids_ok ti_pingid (fun _ => True) (contents (tu_tbl st)) ->
  exists r st', update_pong_info key recv_time st = Ret (r, st') /\ moved [] st st'.
Proof.
  intros Ht Hid. destruct (tmap (tu_tbl st) !! key) as [e|] eqn:He.
  2:{ unfold update_pong_info. rewrite He. eexists _, st. split; [done|]. by apply moves_refl. }
  destruct (ids_ok_lookup _ _ _ _ _ Ht Hid He) as [Hk _].
  destruct (pong_spec key recv_time st e Ht He Hk) as (t' & Hr & _ & ->).
  eexists _, _. split; [done|]. cbn [tu_tbl tu_queue].
  match goal with |- context [enqueued ?m ?q] =>
    destruct (moves_remove ti_pingid tu_pingid _ msg_counted never_full key e (value e) _ q (enqueued m q)
      Ht Hid He Hk) as (t2 & Hr2 & Hm);
      [apply reports_once_enqueued; [done|by left|intros Hf; apply Hf]|] end.
  rewrite Hr in Hr2. by simplify_eq.
Qed.

Lemma udp_step_ok s s' : trace_ok s -> client_step s s' -> trace_ok s'.
Proof.
  unfold trace_ok. intros Hok Hstep. pose proof Hok as [Ht Hid _ _].
  destruct Hstep as [key dstip now ne now' sn st r st' d ins _ _ Hi
    |key rt now st r st' d ins Hd|now now' n st st' d ins _ Hs|now t q a q' d ins Hw];
    cbn in *.
  - pose proof (accounted_moves _ _ _ _ _ _ _ _ _ _ _ _ Hok
      (udp_insert_moves key dstip ne now' sn st r st' Ht Hid Hi)) as Hok'.
    by case_match.
  - destruct (pong_moves key rt st Ht Hid) as (r2 & st2 & Hd2 & Hm).
    rewrite Hd in Hd2. injection Hd2 as <- <-. by apply (accounted_moves _ _ _ _ _ _ _ _ _ _ _ _ Hok Hm).
  - injection Hs as _ <-. by apply (accounted_moves _ _ _ _ _ [] _ _ _ _ _ _ Hok), udp_expireEntries_moves.
  - by eapply accounted_dequeue.
Qed.

Lemma udp_reachable_ok q s :
  q_contents q = [] -> client_reachable q s -> trace_ok s.
Proof.
  intros Hq. unfold client_reachable. apply (rtc_ind_r trace_ok).
  - by apply accounted_empty.
  - intros s1 s2 _ Hstep Hok. by eapply udp_step_ok.
Qed.
End tcpudp_pinginfo_map.

Arguments tcpudp_map Q : clear implicits.

(** ** Properties *)

(** A PONG reports the pending ping of its id exactly once as a success,
    with the time from its insertion to the receipt (correct across one wrap of
    the 64-bit clock), and removes it; a PONG of an unknown or expired ping
    fails and changes nothing, so that a duplicate PONG is not reported. *)
Theorem tcpudp_pong_reports_once `{SpscQueue Q tcpudp_result_msg_t}
    indet key recv_time st sent elapsed e :
  wf (tu_tbl st) -> tmap (tu_tbl st) !! key = Some e -> ti_pingid (value e) = key ->
  ti_network_delay (value e) = u64 sent -> recv_time = u64 (sent + elapsed) -> is_u64 elapsed ->
  exists t', let st' := TcpUdpMap t'
      (enqueued (TcpUdpResultMsg key (NetAddr.ip2uint indet (ti_dstip (value e)))
        (ti_time_ping_send (value e)) elapsed PINGWEAVE_RESULT_SUCCESS) (tu_queue st)) in
    update_pong_info indet key recv_time st = Ret (PINGWEAVE_SUCCESS, st') /\
    contents t' = aremove key (contents (tu_tbl st)) /\
    forall recv_time', update_pong_info indet key recv_time' st' = Ret (PINGWEAVE_FAILURE, st').
Proof.
  intros Ht He Hk Hs Hrt Hel.
  destruct (pong_spec indet key recv_time st e Ht He Hk) as (t' & Hr & Hc & Hu).
  exists t'. assert (Clock.calc_time_delta_with_bitwrap (ti_network_delay (value e)) recv_time
    UINT64_MAX = elapsed) as Hd.
  { rewrite Hs, Hrt. unfold is_u64 in Hel. unfold Clock.calc_time_delta_with_bitwrap, UINT64_MAX, u64.
    case_cmp; zmod. }
  rewrite Hd in Hu. unfold tu_msg in Hu. rewrite Hk in Hu. split_and!; [done|done|].
  intros rt'. unfold update_pong_info. cbn [tu_tbl].
  destruct (remove_spec key _ e Ht He) as (t2 & Hr2 & _ & _ & Hm).
  rewrite Hr in Hr2. simplify_eq. by rewrite Hm, lookup_delete_eq.
Qed.

Lemma tcpudp_pong_reports_once_witness :
  let st := (insert 0 1000 9 9 "10.0.0.2" 100 18446744073709551000 777
              (TcpUdpMap empty_table (BoundedQueue 8 []))).2 in
  exists t', update_pong_info 0 9 384 st
    = Ret (PINGWEAVE_SUCCESS, TcpUdpMap t'
        (enqueued (TcpUdpResultMsg 9 33554442 777 1000 PINGWEAVE_RESULT_SUCCESS)
          (BoundedQueue 8 []))).
Proof.
  intros st. assert (wf (tu_tbl st)) as Hwf.
  { change (wf (emplace_back 9 (TuPingInfo 9 "10.0.0.2" 777 18446744073709551000)
      18446744073709551000 empty_table)).
    apply wf_emplace_back; [apply wf_empty|reflexivity]. }
  destruct (tcpudp_pong_reports_once 0 9 384 st 18446744073709551000 1000
    (Entry (TuPingInfo 9 "10.0.0.2" 777 18446744073709551000) 18446744073709551000 0)
    Hwf eq_refl eq_refl eq_refl eq_refl) as (t' & Hu & _); [unfold is_u64; lia|].
  exists t'. exact Hu.
Defined.

(** C4: over any run of a UDP client (inserts, PONGs of any id at any time,
    expiry, the result thread), each ping inserted with success is reported at
    most once, still pending, or lost to a full queue, never two of these (and
    if the queue always has room, it is never lost: reported or pending); the
    table stays well formed and a PONG never meets a dangling iterator. *)
Theorem tcpudp_reports_accounted `{SpscQueue Q tcpudp_result_msg_t} indet threshold_ms q s :
  q_contents q = [] -> client_reachable indet threshold_ms q s ->
  wf (tu_tbl (tr_map s)) /\
  (forall key recv_time, exists r st', update_pong_info indet key recv_time (tr_map s) = Ret (r, st')) /\
  (exists lost, tr_inserted s ≡ₚ reported s ++ pending s ++ lost /\
    ((forall (m : tcpudp_result_msg_t) (q : Q), has_room m q) -> lost = [])) /\
  (NoDup (tr_inserted s) -> NoDup (reported s ++ pending s)).
Proof.
  intros Hq Hr. pose proof (udp_reachable_ok indet threshold_ms q s Hq Hr) as Hok.
  pose proof Hok as [Ht Hid _ (lost & Hl & Hacc)]. split_and!; [done| |by exists lost|].
  - intros key rt. destruct (pong_moves indet key rt _ Ht Hid) as (r & st' & Hd & _). by exists r, st'.
  - by apply (accounted_nodup _ _ _ _ _ _ _ _ _ Hok).
Qed.

Lemma tcpudp_reports_accounted_witness :
  let q := BoundedQueue (A := tcpudp_result_msg_t) 8 [] in
  let st1 := (insert 0 1000 9 9 "10.0.0.2" 100 200 777 (TcpUdpMap empty_table q)).2 in
  client_reachable 0 1000 q (Trace 200 st1 [] [9]) /\ wf (tu_tbl st1).
Proof.
  assert (client_reachable 0 1000 (BoundedQueue (A := tcpudp_result_msg_t) 8 [])
    (Trace 200 (insert 0 1000 9 9 "10.0.0.2" 100 200 777
      (TcpUdpMap empty_table (BoundedQueue 8 []))).2 [] [9])) as Hr.
  { eapply rtc_once. refine (client_insert 0 1000 9 "10.0.0.2" 0 100 200 777 _
      PINGWEAVE_SUCCESS _ [] [] _ _ _); [lia|lia|reflexivity]. }
  split; [exact Hr|].
  exact (proj1 (tcpudp_reports_accounted 0 1000 (BoundedQueue 8 []) _ eq_refl Hr)).
Defined.
