(* ===== verification/Ipc.v ===== *)
(** * Ipc: the shared-memory ring of reports (ipc_producer.hpp).

    A result thread writes its reports into a ring in shared memory, which the
    agent's process empties ([read_messages] of ipc_consumer.py). The ring's
    two sizes are parameters here, [IPC_BUFFER_SIZE] and [IPC_MESSAGE_SIZE] in
    the program. First the producer's calls, then the two processes step by
    step: the producer loads the indices, copies (a copy may be seen half done),
    and stores the tail; the consumer compares, reads and stores the head. What it
    reads it decodes as UTF-8 ([Utf8]). *)
From S2P Require Import Prelude Format Text CxxString Utf8.
From Stdlib Require Import Ascii.
Local Open Scope Z_scope.

(** [std::strncpy(dst, src, n)]: it pads with NUL to [n] characters. *)
Definition strncpy (dst src : chars) (n : nat) : chars :=
  take n (src ++ replicate n NUL) ++ drop n dst.

Section ring.
Context (BUFFER_SIZE : Z) (MESSAGE_SIZE : nat).

(** [SharedData]; a slot is its [MESSAGE_SIZE] bytes. *)
Record SharedData := Shared { messages : list chars; head : Z; tail : Z }.

(** [data] and [n_dropped_msgs] of a [ProducerQueue]. *)
Record producer := Producer { data : SharedData; n_dropped_msgs : Z }.

(** The head and tail that the constructor stores in the mapped memory. *)
Definition initSharedMemory (mapped : SharedData) : SharedData :=
  Shared (messages mapped) 0 0.

Definition next (i : Z) : Z := Z.rem (i + 1) BUFFER_SIZE.

(** The slot after [strncpy] and the final NUL. *)
Definition fill_slot (message slot : chars) : chars :=
  <[(MESSAGE_SIZE - 1)%nat := NUL]> (strncpy slot (c_chars message) (MESSAGE_SIZE - 1)).

(** An index out of the array is undefined behaviour. *)
Definition write_slot (i : Z) (message : chars) (d : SharedData) : outcome SharedData :=
  if (0 <=? i) && (i <? BUFFER_SIZE) then
    match messages d !! Z.to_nat i with
    | Some slot =>
        Ret (Shared (<[Z.to_nat i := fill_slot message slot]> (messages d)) (head d) (tail d))
    | None => Undef
    end
  else Undef.

Definition writeMessage (message : chars) (p : producer) : outcome (bool * producer) :=
  match message with
  | [] => Ret (true, p)
  | _ =>
      let headVal := head (data p) in
      let tailVal := tail (data p) in
      let nextTail := next tailVal in
      if nextTail =? headVal then
        Ret (false, Producer (data p) (u64 (n_dropped_msgs p + 1)))
      else
        d ← write_slot tailVal message (data p);
        Ret (true, Producer (Shared (messages d) (head d) nextTail) (n_dropped_msgs p))
  end.

Definition discardAllPendingMessages (p : producer) : producer :=
  let d := data p in Producer (Shared (messages d) (tail d) (tail d)) (n_dropped_msgs p).

(** [waitConsumerToReadAll]: [obs i] is what round [i] reads, the head, the
    tail and the clock (nanoseconds). [Some true] is "all read", [Some false]
    "timed out", [None] still waiting after [fuel] rounds. *)
Fixpoint waitConsumerToReadAll (fuel : nat) (i : nat) (obs : nat -> Z * Z * Z)
  (startTime timeoutMs : Z) : option bool :=
  match fuel with
  | O => None
  | S fuel =>
      let '(headVal, tailVal, now) := obs i in
      if headVal =? tailVal then Some true
      else if timeoutMs <? Z.quot (now - startTime) 1000000 then Some false
      else waitConsumerToReadAll fuel (S i) obs startTime timeoutMs
  end.

(** ** The consumer's side *)

Fixpoint drop_nuls (s : chars) : chars :=
  match s with
  | c :: s' => if Ascii.eqb c NUL then drop_nuls s' else s
  | [] => []
  end.

(** [.rstrip("\x00")]: without the trailing NULs. *)
Definition rstrip_nuls (s : chars) : chars := reverse (drop_nuls (reverse s)).

(** The text of a slot, as the bytes of its characters. *)
Definition decode (slot : chars) : chars := rstrip_nuls (utf8_ignore slot).

(** One round of the loop of [read_messages]. *)
Definition read_one (d : SharedData) : option (chars * SharedData) :=
  if head d =? tail d then None
  else
    slot ← messages d !! Z.to_nat (head d);
    Some (decode slot, Shared (messages d) (next (head d)) (tail d)).

(** The bytes of a message that its slot holds: cut at a NUL and at the size. *)
Definition as_written (message : chars) : chars := take (MESSAGE_SIZE - 1) (c_chars message).

(** What a message reads as. *)
Definition as_read (message : chars) : chars := utf8_ignore (as_written message).
End ring.

(** ** Slots *)
Lemma c_chars_no_nul s : Forall (fun c => c <> NUL) (c_chars s).
Proof.
  induction s as [|c s IH]; cbn; [constructor|]. destruct (Ascii.eqb_spec c NUL); by constructor.
Qed.

Lemma drop_nuls_app k s :
  Forall (fun c => c <> NUL) s -> drop_nuls (replicate k NUL ++ s) = s.
Proof.
  intros Hs. induction k as [|k IH]; [|exact IH]. cbn. destruct Hs as [|c s Hc Hs]; [done|].
  cbn. by destruct (Ascii.eqb_spec c NUL).
Qed.

Lemma rstrip_padded s k : Forall (fun c => c <> NUL) s -> rstrip_nuls (s ++ replicate k NUL) = s.
Proof.
  intros Hs. unfold rstrip_nuls. rewrite reverse_app, reverse_replicate, drop_nuls_app.
  - by rewrite reverse_involutive.
  - by apply Forall_reverse.
Qed.

Lemma decode_padded s k :
  Forall (fun c => c <> NUL) s -> decode (s ++ replicate k NUL) = utf8_ignore s.
Proof.
  intros Hs. unfold decode. rewrite utf8_ignore_padded. by apply rstrip_padded, utf8_ignore_Forall.
Qed.

Lemma fill_slot_eq M message slot :
  (1 <= M)%nat -> length slot = M ->
  fill_slot M message slot
    = as_written M message ++ replicate (M - length (as_written M message)) NUL.
Proof.
  intros HM Hlen. unfold fill_slot, strncpy, as_written. set (c := c_chars message).
  destruct (drop (M - 1) slot) as [|x [|y l]] eqn:Hd;
    apply (f_equal length) in Hd; rewrite length_drop in Hd; cbn in Hd; [lia| |lia].
  assert (length (take (M - 1) (c ++ replicate (M - 1) NUL)) = (M - 1)%nat) as Hl.
  { rewrite length_take, length_app, length_replicate. lia. }
  replace (M - 1)%nat with (length (take (M - 1) (c ++ replicate (M - 1) NUL)) + 0)%nat at 1 by lia.
  rewrite insert_app_r. cbn. rewrite take_app, take_replicate, <- app_assoc. f_equal.
  rewrite length_take. change [NUL] with (replicate 1 NUL). rewrite <- replicate_add. f_equal. lia.
Qed.

Lemma as_written_no_nul M message : Forall (fun c => c <> NUL) (as_written M message).
Proof. apply Forall_take, c_chars_no_nul. Qed.

Lemma decode_fill M message slot :
  (1 <= M)%nat -> length slot = M -> decode (fill_slot M message slot) = as_read M message.
Proof. intros HM Hlen. rewrite fill_slot_eq by done. apply decode_padded, as_written_no_nul. Qed.

(** A text without NUL that fits a slot. *)
Definition fits_slot (M : nat) (message : chars) : Prop :=
  utf8_text message /\ Forall (fun c => c <> NUL) message /\ (length message < M)%nat.

Lemma as_read_fits M message : fits_slot M message -> as_read M message = message.
Proof.
  intros (Ht & Hnul & Hlen). unfold as_read, as_written. replace (c_chars message) with message.
  - rewrite take_ge by lia. by apply utf8_ignore_text.
  - clear Ht Hlen. induction Hnul as [|c s Hc Hs IH]; [done|]. cbn.
    destruct (Ascii.eqb_spec c NUL); [done|]. by rewrite <- IH.
Qed.

Lemma as_read_all_fit M messages :
  Forall (fits_slot M) messages -> as_read M <$> messages = messages.
Proof. induction 1 as [|m l Hm _ IH]; cbn; [done|]. by rewrite as_read_fits, IH. Qed.

Lemma length_fill M message slot :
  (1 <= M)%nat -> length slot = M -> length (fill_slot M message slot) = M.
Proof.
  intros HM Hlen. rewrite fill_slot_eq, length_app, length_replicate by done.
  unfold as_written. rewrite length_take. lia.
Qed.

(** ** The ring as a queue *)
Section ring_facts.
Context (N : Z) (M : nat) (HN : 1 < N) (HM : (1 <= M)%nat).

(** The number of messages between two indices. *)
Definition count (h t : Z) : Z := (t - h) `mod` N.

(** The message of the slot [k] after the head. *)
Definition message_at (d : SharedData) (k : Z) : chars :=
  decode (default [] (messages d !! Z.to_nat ((head d + k) `mod` N))).

(** The messages in the ring, oldest first. *)
Definition pending (d : SharedData) : list chars :=
  message_at d <$> seqZ 0 (count (head d) (tail d)).

Record ring_ok (d : SharedData) : Prop := {
  ring_slots : length (messages d) = Z.to_nat N;
  ring_sizes : Forall (fun slot => length slot = M) (messages d);
  ring_head : 0 <= head d < N;
  ring_tail : 0 <= tail d < N;
}.

Lemma count_eq h t :
  0 <= h < N -> 0 <= t < N -> count h t = if h <=? t then t - h else t - h + N.
Proof.
  intros Hh Ht. unfold count. destruct (Z.leb_spec h t); [by rewrite Z.mod_small by lia|].
  rewrite <- (Z.mod_add _ 1) by lia. rewrite Z.mod_small; lia.
Qed.

Lemma index_eq h k :
  0 <= h < N -> 0 <= k < N -> (h + k) `mod` N = if h + k <? N then h + k else h + k - N.
Proof.
  intros Hh Hk. destruct (Z.ltb_spec (h + k) N); [by rewrite Z.mod_small by lia|].
  rewrite <- (Z.mod_add _ (-1)) by lia. rewrite Z.mod_small; lia.
Qed.

Lemma next_eq i : 0 <= i < N -> next N i = if i + 1 =? N then 0 else i + 1.
Proof.
  intros Hi. unfold next. destruct (Z.eqb_spec (i + 1) N) as [->|]; [by apply Z.rem_same; lia|].
  apply Z.rem_small. lia.
Qed.

Lemma next_range i : 0 <= i < N -> 0 <= next N i < N.
Proof. intros Hi. rewrite next_eq by done. case_cmp; lia. Qed.

Lemma count_range h t : 0 <= count h t < N.
Proof. apply Z.mod_pos_bound. lia. Qed.

(** Full is a count of [N - 1]. *)
Lemma next_full h t :
  0 <= h < N -> 0 <= t < N -> next N t = h <-> count h t = N - 1.
Proof.
  intros Hh Ht. rewrite next_eq, count_eq by done. case_cmp; lia.
Qed.

Lemma count_empty h t : 0 <= h < N -> 0 <= t < N -> h = t <-> count h t = 0.
Proof. intros Hh Ht. rewrite count_eq by done. case_cmp; lia. Qed.

Lemma count_next_tail h t :
  0 <= h < N -> 0 <= t < N -> count h t < N - 1 -> count h (next N t) = count h t + 1.
Proof.
  intros Hh Ht. pose proof (next_range t Ht). rewrite !count_eq, next_eq by (try done; lia).
  case_cmp; lia.
Qed.

Lemma count_next_head h t :
  0 <= h < N -> 0 <= t < N -> h <> t -> count (next N h) t = count h t - 1.
Proof.
  intros Hh Ht. pose proof (next_range h Hh). rewrite !count_eq, next_eq by (try done; lia).
  case_cmp; lia.
Qed.

Lemma index_next h k :
  0 <= h < N -> (next N h + k) `mod` N = (h + (k + 1)) `mod` N.
Proof.
  intros Hh. rewrite next_eq by done. destruct (Z.eqb_spec (h + 1) N) as [He|].
  - rewrite <- (Z.mod_add (0 + k) 1) by lia. f_equal. lia.
  - f_equal. lia.
Qed.

(** The slot of the tail holds no pending message. *)
Lemma index_not_tail h t k :
  0 <= h < N -> 0 <= t < N -> 0 <= k < count h t ->
  Z.to_nat ((h + k) `mod` N) <> Z.to_nat t.
Proof.
  intros Hh Ht Hk. pose proof (count_range h t). rewrite index_eq by lia.
  rewrite count_eq in Hk by done. revert Hk. case_cmp; lia.
Qed.

Lemma index_tail h t :
  0 <= h < N -> 0 <= t < N -> (h + count h t) `mod` N = t.
Proof.
  intros Hh Ht. pose proof (count_range h t). rewrite index_eq, count_eq by lia. case_cmp; lia.
Qed.

Lemma pending_length d : Z.of_nat (length (pending d)) = count (head d) (tail d).
Proof.
  unfold pending. rewrite length_fmap, length_seqZ. pose proof (count_range (head d) (tail d)). lia.
Qed.

(** Changing the slot of the tail does not touch the pending messages. *)
Lemma pending_slot d slot :
  ring_ok d ->
  pending (Shared (<[Z.to_nat (tail d) := slot]> (messages d)) (head d) (tail d)) = pending d.
Proof.
  intros [Hl Hs Hh Ht]. unfold pending. cbn [head tail]. apply list_fmap_ext.
  intros i k Hik. apply list_elem_of_lookup_2, elem_of_seqZ in Hik. unfold message_at. cbn.
  rewrite list_lookup_insert_ne; [done|]. apply not_eq_sym, index_not_tail; [done|done|lia].
Qed.

Lemma ring_ok_slot d i slot :
  ring_ok d -> length slot = M ->
  ring_ok (Shared (<[i := slot]> (messages d)) (head d) (tail d)).
Proof.
  intros [Hl Hs Hh Ht] Hlen. split; cbn; try done.
  - by rewrite length_insert.
  - by apply Forall_insert.
Qed.

Lemma slot_present d i : ring_ok d -> 0 <= i < N ->
  exists slot, messages d !! Z.to_nat i = Some slot /\ length slot = M.
Proof.
  intros [Hl Hs _ _] Hi. destruct (lookup_lt_is_Some_2 (messages d) (Z.to_nat i)) as [slot Hslot];
    [lia|]. exists slot. split; [done|]. rewrite list.Forall_forall in Hs.
  apply Hs. by eapply list_elem_of_lookup_2.
Qed.

(** Storing the tail publishes the message of its slot. *)
Lemma pending_publish d :
  ring_ok d -> count (head d) (tail d) < N - 1 ->
  pending (Shared (messages d) (head d) (next N (tail d)))
    = pending d ++ [decode (default [] (messages d !! Z.to_nat (tail d)))].
Proof.
  intros [Hl Hs Hh Ht] Hc. unfold pending. cbn [head tail].
  rewrite count_next_tail by done. pose proof (count_range (head d) (tail d)).
  rewrite (seqZ_app 0 (count (head d) (tail d)) 1) by lia. rewrite fmap_app. f_equal.
  rewrite seqZ_cons, seqZ_nil by lia. cbn [fmap list_fmap]. f_equal. unfold message_at.
  cbn [messages head]. by rewrite Z.add_0_l, index_tail.
Qed.

(** Storing the head takes the oldest message. *)
Lemma pending_consume d :
  ring_ok d -> head d <> tail d ->
  pending d = decode (default [] (messages d !! Z.to_nat (head d)))
    :: pending (Shared (messages d) (next N (head d)) (tail d)).
Proof.
  intros [Hl Hs Hh Ht] Hne. unfold pending. cbn [head tail].
  rewrite count_next_head by done. pose proof (count_range (head d) (tail d)).
  assert (count (head d) (tail d) <> 0) by (by rewrite <- count_empty).
  rewrite seqZ_cons by lia. cbn [fmap list_fmap]. f_equal.
  - unfold message_at. by rewrite Z.add_0_r, Z.mod_small.
  - rewrite <- (fmap_add_seqZ 1 0), <- list_fmap_compose, Z.sub_1_r. apply list_fmap_ext.
    intros i k _. unfold message_at. cbn. rewrite index_next by done. by rewrite (Z.add_comm 1 k).
Qed.
(** ** Single calls *)

Lemma write_slot_spec d message :
  ring_ok d ->
  exists slot, messages d !! Z.to_nat (tail d) = Some slot /\ length slot = M /\
    write_slot N M (tail d) message d
      = Ret (Shared (<[Z.to_nat (tail d) := fill_slot M message slot]> (messages d))
               (head d) (tail d)).
Proof.
  intros Hok. destruct (slot_present d (tail d) Hok (ring_tail _ Hok)) as (slot & Hs & Hl).
  exists slot. split_and!; [done|done|]. unfold write_slot.
  destruct Hok as [_ _ _ [H1%Z.leb_le H2%Z.ltb_lt]]. by rewrite H1, H2, Hs.
Qed.

Lemma publish_filled d slot message :
  ring_ok d -> count (head d) (tail d) < N - 1 -> length slot = M ->
  let d' := Shared (<[Z.to_nat (tail d) := fill_slot M message slot]> (messages d))
              (head d) (next N (tail d)) in
  ring_ok d' /\ pending d' = pending d ++ [as_read M message].
Proof.
  intros Hok Hc Hl d'. set (d1 := Shared (<[Z.to_nat (tail d) := fill_slot M message slot]>
    (messages d)) (head d) (tail d)).
  assert (ring_ok d1) as Hok1 by (apply ring_ok_slot, length_fill; done).
  split.
  - destruct Hok1 as [H1 H2 H3 H4]. split; [done|done|done|]. by apply next_range.
  - change d' with (Shared (messages d1) (head d1) (next N (tail d1))).
    rewrite (pending_publish d1 Hok1 Hc). unfold d1 at 1.
    rewrite (pending_slot d _ Hok). f_equal. unfold d1.
    cbn [messages tail]. rewrite list_lookup_insert_eq.
    { cbn [default from_option id]. unfold from_option, id. by rewrite decode_fill. }
    destruct Hok as [Hlen _ _ Ht]. lia.
Qed.

Lemma writeMessage_cases p message :
  ring_ok (data p) -> message <> [] ->
  (length (pending (data p)) = Z.to_nat (N - 1) /\
   writeMessage N M message p = Ret (false, Producer (data p) (u64 (n_dropped_msgs p + 1)))) \/
  (exists d', (length (pending (data p)) < Z.to_nat (N - 1))%nat /\
   writeMessage N M message p = Ret (true, Producer d' (n_dropped_msgs p)) /\
   ring_ok d' /\ pending d' = pending (data p) ++ [as_read M message]).
Proof.
  intros Hok Hne. pose proof (pending_length (data p)) as Hl.
  pose proof (count_range (head (data p)) (tail (data p))) as Hr.
  destruct Hok as [H1 H2 Hh Ht] eqn:Hok'. clear Hok'.
  assert (ring_ok (data p)) as Hok2 by done.
  pose proof (next_full _ _ Hh Ht) as Hf.
  unfold writeMessage. destruct message as [|c message]; [done|].
  destruct (Z.eqb_spec (next N (tail (data p))) (head (data p))) as [He|He].
  - left. split; [|done]. apply Hf in He. lia.
  - right. assert (count (head (data p)) (tail (data p)) <> N - 1) by (by rewrite <- Hf).
    destruct (write_slot_spec _ (c :: message) Hok2) as (slot & Hs & Hsl & ->).
    destruct (publish_filled (data p) slot (c :: message) Hok2) as [Hd Hp]; [lia|done|].
    eexists. split_and!; [lia|reflexivity|exact Hd|exact Hp].
Qed.

Lemma read_one_cases d :
  ring_ok d ->
  match pending d with
  | [] => read_one N d = None
  | m :: rest => exists d', read_one N d = Some (m, d') /\ ring_ok d' /\ pending d' = rest
  end.
Proof.
  intros Hok. pose proof Hok as [H1 H2 Hh Ht]. unfold read_one.
  destruct (Z.eqb_spec (head d) (tail d)) as [He|He].
  - apply (count_empty) in He; [|done|done]. unfold pending. by rewrite He.
  - rewrite (pending_consume d Hok He).
    destruct (slot_present d (head d) Hok Hh) as (slot & Hs & Hl). rewrite Hs. cbn.
    eexists. split; [done|]. split; [|done]. split; [done|done| |done]. by apply next_range.
Qed.
End ring_facts.

(** ** The two processes, step by step

    Each load, store and copy is a step; a copy in progress may leave any
    bytes in its slot. [sent] is the history of the messages published,
    [received] of those taken. [discardAllPendingMessages] is not a step: it
    stores the consumer's index, and runs when the producer goes away. *)
Inductive producer_pc :=
  | PIdle
  | PHead (message : chars) (headVal : Z)
  | PCopy (message : chars) (tailVal : Z)
  | PStore (message : chars) (nextTail : Z).

Inductive consumer_pc :=
  | CIdle
  | CSeen (head_index : Z)
  | CRead (head_index : Z) (message : chars).

Record ring_state := RingState {
  shared : SharedData; ppc : producer_pc; cpc : consumer_pc;
  sent : list chars; received : list chars }.

Section interleaving.
Context (N : Z) (M : nat).

Inductive ring_step : ring_state -> ring_state -> Prop :=
  | p_load_head d c s r message :
      message <> [] ->
      ring_step (RingState d PIdle c s r) (RingState d (PHead message (head d)) c s r)
  | p_full d c s r message headVal :
      next N (tail d) = headVal ->
      ring_step (RingState d (PHead message headVal) c s r) (RingState d PIdle c s r)
  | p_begin_copy d c s r message headVal :
      next N (tail d) <> headVal ->
      ring_step (RingState d (PHead message headVal) c s r)
                (RingState d (PCopy message (tail d)) c s r)
  | p_copying d c s r message t slot :
      length slot = M ->
      ring_step (RingState d (PCopy message t) c s r)
        (RingState (Shared (<[Z.to_nat t := slot]> (messages d)) (head d) (tail d))
           (PCopy message t) c s r)
  | p_copied d d' c s r message t :
      write_slot N M t message d = Ret d' ->
      ring_step (RingState d (PCopy message t) c s r)
        (RingState d' (PStore message (next N t)) c s r)
  | p_store_tail d c s r message nextTail :
      ring_step (RingState d (PStore message nextTail) c s r)
        (RingState (Shared (messages d) (head d) nextTail) PIdle c (s ++ [message]) r)
  | c_compare d p s r :
      head d <> tail d ->
      ring_step (RingState d p CIdle s r) (RingState d p (CSeen (head d)) s r)
  | c_read d p s r i slot :
      messages d !! Z.to_nat i = Some slot ->
      ring_step (RingState d p (CSeen i) s r) (RingState d p (CRead i (decode slot)) s r)
  | c_store_head d p s r i message :
      ring_step (RingState d p (CRead i message) s r)
        (RingState (Shared (messages d) (next N i) (tail d)) p CIdle s (r ++ [message])).

(** The producer creates the ring, with whatever bytes in its slots. *)
Definition ring_init (slots : list chars) : ring_state :=
  RingState (initSharedMemory (Shared slots 0 0)) PIdle CIdle [] [].

Definition ring_reachable (slots : list chars) : ring_state -> Prop :=
  rtc ring_step (ring_init slots).

(** What each process knows at its program point. *)
Definition producer_ok (d : SharedData) (p : producer_pc) : Prop :=
  match p with
  | PIdle => True
  | PHead _ headVal =>
      0 <= headVal < N /\ count N (head d) (tail d) <= count N headVal (tail d)
  | PCopy _ t => t = tail d /\ count N (head d) (tail d) < N - 1
  | PStore message nextTail =>
      nextTail = next N (tail d) /\ count N (head d) (tail d) < N - 1 /\
      decode (default [] (messages d !! Z.to_nat (tail d))) = as_read M message
  end.

Definition consumer_ok (d : SharedData) (c : consumer_pc) : Prop :=
  match c with
  | CIdle => True
  | CSeen i => i = head d /\ head d <> tail d
  | CRead i message =>
      i = head d /\ head d <> tail d /\
      message = decode (default [] (messages d !! Z.to_nat (head d)))
  end.

Record ring_inv (st : ring_state) : Prop := {
  inv_ring : ring_ok N M (shared st);
  inv_fifo : as_read M <$> sent st = received st ++ pending N (shared st);
  inv_producer : producer_ok (shared st) (ppc st);
  inv_consumer : consumer_ok (shared st) (cpc st);
}.

Context (HN : 1 < N) (HM : (1 <= M)%nat).

(** Bytes that change in the slot of the tail do not disturb the consumer. *)
Lemma consumer_ok_slot d c slot :
  ring_ok N M d -> consumer_ok d c ->
  consumer_ok (Shared (<[Z.to_nat (tail d) := slot]> (messages d)) (head d) (tail d)) c.
Proof.
  intros [_ _ Hh Ht]. destruct c as [|i|i m]; cbn; [done|done|]. intros (-> & Hne & ->).
  split_and!; [done|done|]. rewrite list_lookup_insert_ne by lia. done.
Qed.

Lemma consumer_ok_tail d c t :
  ring_ok N M d -> 0 <= t < N -> count N (head d) t <> 0 -> consumer_ok d c ->
  consumer_ok (Shared (messages d) (head d) t) c.
Proof.
  intros [_ _ Hh _] Ht Hc. assert (head d <> t) by (by rewrite (count_empty N M)).
  destruct c; cbn; tauto.
Qed.

Lemma ring_step_inv st st' : ring_inv st -> ring_step st st' -> ring_inv st'.
Proof.
  intros [Hok Hfifo Hp Hc] Hstep. pose proof Hok as [Hl Hs Hh Ht].
  destruct Hstep as [d c s r m Hm|d c s r m h Hf|d c s r m h Hf|d c s r m t slot Hsl
    |d d' c s r m t Hw|d c s r m nt|d p s r Hne|d p s r i slot Hsl|d p s r i m];
    cbn in Hok, Hfifo, Hp, Hc, Hl, Hs, Hh, Ht; split; cbn; try done.
  - (* begin copy: the consumer only made room since the load *)
    destruct Hp as [Hh0 Hle]. split; [done|]. rewrite (next_full N M) in Hf by done.
    pose proof (count_range N M HN HM h (tail d)). lia.
  - destruct Hp as [-> _]. by apply ring_ok_slot.
  - destruct Hp as [-> _]. by rewrite (pending_slot N M).
  - destruct Hp as [-> _]. by apply consumer_ok_slot.
  - destruct Hp as [-> _]. destruct (write_slot_spec N M HN HM d m Hok) as (sl & _ & Hlen & Hw').
    rewrite Hw in Hw'. injection Hw' as ->. apply ring_ok_slot; [done|by apply length_fill].
  - destruct Hp as [-> _]. destruct (write_slot_spec N M HN HM d m Hok) as (sl & _ & Hlen & Hw').
    rewrite Hw in Hw'. injection Hw' as ->. by rewrite (pending_slot N M).
  - destruct Hp as [-> Hcnt]. destruct (write_slot_spec N M HN HM d m Hok) as (sl & _ & Hlen & Hw').
    rewrite Hw in Hw'. injection Hw' as ->. cbn [head tail messages]. split_and!; [done|done|].
    rewrite list_lookup_insert_eq by lia. unfold default, from_option, id. by apply decode_fill.
  - destruct Hp as [-> _]. destruct (write_slot_spec N M HN HM d m Hok) as (sl & _ & Hlen & Hw').
    rewrite Hw in Hw'. injection Hw' as ->. by apply consumer_ok_slot.
  - destruct Hp as (-> & Hcnt & _). split; [done|done|done|]. by apply (next_range N M).
  - destruct Hp as (-> & Hcnt & Hd). rewrite (pending_publish N M), Hd by done.
    by rewrite fmap_app, Hfifo, app_assoc.
  - destruct Hp as (-> & Hcnt & _). apply consumer_ok_tail; try done.
    + by apply (next_range N M).
    + pose proof (count_range N M HN HM (head d) (tail d)).
      rewrite (count_next_tail N M) by done. lia.
  - destruct Hc as [-> Hne]. by rewrite Hsl.
  - destruct Hc as (-> & Hne & _). split; [done|done| |done]. by apply (next_range N M).
  - destruct Hc as (-> & Hne & ->). rewrite Hfifo, (pending_consume N M) by done.
    by rewrite <- app_assoc.
  - destruct Hc as (-> & Hne & _). pose proof (next_range N M HN HM (head d) Hh).
    pose proof (count_next_head N M HN HM (head d) (tail d) Hh Ht Hne) as Hcn.
    destruct p; cbn in *; rewrite ?Hcn; try tauto; intuition lia.
Qed.

Lemma ring_init_inv slots :
  length slots = Z.to_nat N -> Forall (fun slot => length slot = M) slots ->
  ring_inv (ring_init slots).
Proof.
  intros Hl Hs. split; [split; cbn; (done || lia)| |done|done].
  unfold pending. cbn. unfold count. by rewrite Z.mod_0_l by lia.
Qed.

Lemma ring_reachable_inv slots st :
  length slots = Z.to_nat N -> Forall (fun slot => length slot = M) slots ->
  ring_reachable slots st -> ring_inv st.
Proof.
  intros Hl Hs. apply (rtc_ind_r ring_inv); [by apply ring_init_inv|].
  intros s1 s2 _ Hstep Hinv. by eapply ring_step_inv.
Qed.

(** The producer's steps without interruption are [writeMessage]. *)
Lemma writeMessage_steps d message n d' n' b c s r :
  ring_ok N M d -> message <> [] ->
  writeMessage N M message (Producer d n) = Ret (b, Producer d' n') ->
  rtc ring_step (RingState d PIdle c s r)
    (RingState d' PIdle c (if b then s ++ [message] else s) r).
Proof.
  intros Hok Hne. unfold writeMessage. destruct message as [|ch message]; [done|].
  cbn [data n_dropped_msgs]. destruct (Z.eqb_spec (next N (tail d)) (head d)) as [He|He].
  - intros [= <- <- _]. eapply rtc_l; [by apply p_load_head|]. eapply rtc_once. by apply p_full.
  - destruct (write_slot_spec N M HN HM d (ch :: message) Hok) as (slot & Hs & Hl & Hw).
    rewrite Hw. cbn. intros [= <- <- _]. eapply rtc_l; [by apply p_load_head|].
    eapply rtc_l; [by apply p_begin_copy|]. eapply rtc_l; [apply p_copied, Hw|].
    eapply rtc_once. apply (p_store_tail (Shared _ (head d) (tail d))).
Qed.
End interleaving.

(** ** Properties *)

(** C6: in a ring of two slots or more, in every interleaving of the producer's
    and the consumer's steps, and whatever a half-done copy leaves in a slot,
    the messages received followed by those in the ring are exactly the messages
    published, in order, each as it reads: none is lost, repeated, reordered or
    torn. A message reads as its bytes up to a NUL and to the size of a slot,
    decoded as UTF-8 with ill-formed parts left out; when every message
    published is UTF-8, has no NUL and is shorter than a slot, they are received
    unchanged. At most [N - 1] wait, and what the consumer holds is the oldest.
    An index out of the ring is never written. *)
Theorem ipc_ring_fifo N M slots st :
  1 < N -> (1 <= M)%nat ->
  length slots = Z.to_nat N -> Forall (fun slot => length slot = M) slots ->
  ring_reachable N M slots st ->
  as_read M <$> sent st = received st ++ pending N (shared st) /\
  (Forall (fits_slot M) (sent st) -> sent st = received st ++ pending N (shared st)) /\
  Z.of_nat (length (pending N (shared st))) <= N - 1 /\
  (forall i m, cpc st = CRead i m -> exists rest, pending N (shared st) = m :: rest) /\
  (forall m t, ppc st = PCopy m t -> exists d', write_slot N M t m (shared st) = Ret d').
Proof.
  intros HN HM Hl Hs Hr.
  destruct (ring_reachable_inv N M HN HM slots st Hl Hs Hr) as [Hok Hfifo Hp Hc].
  split_and!; [done| | | |].
  - intros Hfit. by rewrite <- Hfifo, as_read_all_fit.
  - rewrite (pending_length N M) by done.
    pose proof (count_range N M HN HM (head (shared st)) (tail (shared st))). lia.
  - intros i m Hpc. rewrite Hpc in Hc. destruct Hc as (-> & Hne & ->).
    eexists. by apply (pending_consume N M).
  - intros m t Hpc. rewrite Hpc in Hp. destruct Hp as [-> _].
    destruct (write_slot_spec N M HN HM (shared st) m Hok) as (sl & _ & _ & Hw). by eexists.
Qed.

Definition ring_example : list chars := replicate 4 (replicate 8 "x"%char).

Lemma ipc_ring_fifo_witness :
  exists st, ring_reachable 4 8 ring_example st /\
    sent st = [bytes_of "report"] /\ received st = [] /\
    pending 4 (shared st) = [bytes_of "report"] /\
    sent st = received st ++ pending 4 (shared st).
Proof.
  assert (exists st, ring_reachable 4 8 ring_example st /\ sent st = [bytes_of "report"] /\
    received st = [] /\ pending 4 (shared st) = [bytes_of "report"]) as (st & Hr & Hs & Hrv & Hp).
  { eexists. split.
    - eapply rtc_l; [by apply (p_load_head _ _ _ _ _ _ (bytes_of "report"))|].
      eapply rtc_l; [by apply p_begin_copy|].
      eapply rtc_l; [by eapply (p_copying _ _ _ _ _ _ _ _ (replicate 8 "?"%char))|].
      eapply rtc_l; [by eapply p_copied; reflexivity|].
      eapply rtc_once. apply p_store_tail.
    - split_and!; vm_compute; reflexivity. }
  exists st. split_and!; [exact Hr|exact Hs|exact Hrv|exact Hp|].
  assert (length ring_example = Z.to_nat 4) as Hl by reflexivity.
  assert (Forall (fun slot => length slot = 8%nat) ring_example) as Hf by by repeat constructor.
  apply (ipc_ring_fifo 4 8 ring_example st ltac:(lia) ltac:(lia) Hl Hf Hr).
  rewrite Hs. apply Forall_singleton. split_and!; [|by repeat constructor|cbn; lia].
  apply ascii_text. by repeat constructor.
Defined.

(** [writeMessage] is an enqueue into a queue of capacity [N - 1]: with
    room it appends the message and succeeds, when full it changes no slot or
    index, counts one more dropped message and fails; an empty message is a
    success that writes nothing. A message that fits a slot and has no NUL is
    read back unchanged by the consumer, if it is UTF-8. *)
Theorem ipc_write_refines N M message p :
  1 < N -> (1 <= M)%nat -> ring_ok N M (data p) ->
  (message = [] -> writeMessage N M message p = Ret (true, p)) /\
  (message <> [] -> Z.of_nat (length (pending N (data p))) = N - 1 ->
   writeMessage N M message p = Ret (false, Producer (data p) (u64 (n_dropped_msgs p + 1)))) /\
  (message <> [] -> Z.of_nat (length (pending N (data p))) < N - 1 ->
   exists d', writeMessage N M message p = Ret (true, Producer d' (n_dropped_msgs p)) /\
     ring_ok N M d' /\ pending N d' = pending N (data p) ++ [as_read M message]) /\
  (fits_slot M message -> as_read M message = message).
Proof.
  intros HN HM Hok. split_and!.
  - by intros ->.
  - intros Hne Hlen. destruct (writeMessage_cases N M HN HM p message Hok Hne)
      as [[_ Hw]|(d' & Hlt & _)]; [done|lia].
  - intros Hne Hlen. destruct (writeMessage_cases N M HN HM p message Hok Hne)
      as [[Hf _]|(d' & _ & Hw & Hd & Hp)]; [lia|by exists d'].
  - apply as_read_fits.
Qed.

Lemma ipc_write_refines_witness :
  let p := Producer (Shared ring_example 0 3) 0 in
  ring_ok 4 8 (data p) /\
  writeMessage 4 8 (bytes_of "lost") p = Ret (false, Producer (data p) 1).
Proof.
  intros p. assert (ring_ok 4 8 (data p)) as Hok.
  { split; cbn; [done|by repeat constructor|lia|lia]. }
  split; [exact Hok|].
  apply (ipc_write_refines 4 8 (bytes_of "lost") p ltac:(lia) ltac:(lia) Hok);
    [discriminate|reflexivity].
Defined.

(** [waitConsumerToReadAll] ends: by the first round whose clock reading is
    past the timeout at the latest. It says "all read" only if that round saw
    the ring empty, and "timed out" only past the timeout. *)
Theorem ipc_wait_terminates obs startTime timeoutMs k :
  timeoutMs < Z.quot ((obs k).2 - startTime) 1000000 ->
  exists (j : nat) b, (j <= k)%nat /\
    waitConsumerToReadAll (S k) 0 obs startTime timeoutMs = Some b /\
    (if b then (obs j).1.1 = (obs j).1.2
     else (obs j).1.1 <> (obs j).1.2 /\ timeoutMs < Z.quot ((obs j).2 - startTime) 1000000).
Proof.
  intros Hk.
  assert (forall n i, (i + n = k)%nat -> exists (j : nat) b, (j <= k)%nat /\
    waitConsumerToReadAll (S n) i obs startTime timeoutMs = Some b /\
    (if b then (obs j).1.1 = (obs j).1.2
     else (obs j).1.1 <> (obs j).1.2 /\ timeoutMs < Z.quot ((obs j).2 - startTime) 1000000))
    as Hgen; [|by apply (Hgen k 0%nat)].
  induction n as [|n IH]; intros i Hi;
    change (waitConsumerToReadAll (S ?m) i obs startTime timeoutMs) with
      (let '(headVal, tailVal, now) := obs i in
       if headVal =? tailVal then Some true
       else if timeoutMs <? Z.quot (now - startTime) 1000000 then Some false
       else waitConsumerToReadAll m (S i) obs startTime timeoutMs);
    destruct (obs i) as [[h t] now] eqn:Ho;
    (destruct (Z.eqb_spec h t); [exists i, true; rewrite Ho; by split_and!; [lia|..]|]);
    (destruct (Z.ltb_spec timeoutMs (Z.quot (now - startTime) 1000000));
      [exists i, false; rewrite Ho; by split_and!; [lia|..]|]).
  - replace i with k in Ho by lia. rewrite Ho in Hk. cbn in Hk. lia.
  - apply IH. lia.
Qed.

Lemma ipc_wait_terminates_witness :
  exists j b, (j <= 2)%nat /\
    waitConsumerToReadAll 3 0 (fun i => (1, 3, Z.of_nat i * 1000000000)) 0 1000 = Some b /\
    b = false.
Proof.
  destruct (ipc_wait_terminates (fun i => (1, 3, Z.of_nat i * 1000000000)) 0 1000 2)
    as (j & b & Hj & Hw & _); [vm_compute; reflexivity|].
  exists j, b. split; [exact Hj|]. split; [exact Hw|]. vm_compute in Hw. congruence.
Defined.
