(* ===== verification/SharedMemory.v ===== *)
(** * SharedMemory: the segment of a [ProducerQueue] (ipc_producer.hpp:
    [initSharedMemory], the destructor).

    The constructor creates or opens a segment by name, sizes it and maps it;
    the destructor releases what it can. The results of the system calls are
    inputs; the names of the segments that exist, the open descriptors and the
    mapping are outputs. *)
From S2P Require Import Prelude Format Text CxxString Ipc.
From Stdlib Require String.
Local Open Scope Z_scope.

(** [se_mapped]: what [mmap] gives, if it does. *)
Record shm_env := ShmEnv { se_shm_open : Z; se_ftruncate : Z; se_mapped : option SharedData }.
(** The segments of the system and the descriptors of the process. *)
Record shm_world := ShmWorld { segments : gset string; shm_fds : gset Z }.
Record producer_queue := ProducerQueue {
  shm_fd : Z; pq_data : option SharedData; prefix_name : string; shm_name : string }.

Definition full_name (prefix name : string) : string := prefix +:+ "_" +:+ name.

Definition shm_close (fd : Z) (w : shm_world) : shm_world := ShmWorld (segments w) (shm_fds w ∖ {[fd]}).
Definition shm_unlink (name : string) (w : shm_world) : shm_world := ShmWorld (segments w ∖ {[name]}) (shm_fds w).

(** The queue, or the exception the constructor throws, and the world. *)
Definition create_queue (env : shm_env) (prefix name : string) (w : shm_world)
  : outcome producer_queue * shm_world :=
  let fullName := full_name prefix name in
  let fd := se_shm_open env in
  if fd =? -1 then (Throw (RuntimeError "Failed to create shared memory"), w)
  else
    let w := ShmWorld ({[fullName]} ∪ segments w) ({[fd]} ∪ shm_fds w) in
    if se_ftruncate env =? -1
    then (Throw (RuntimeError "Failed to set size of shared memory"), shm_unlink fullName (shm_close fd w))
    else
      match se_mapped env with
      | None => (Throw (RuntimeError "Failed to map shared memory"), shm_unlink fullName (shm_close fd w))
      | Some d => (Ret (ProducerQueue fd (Some (initSharedMemory d)) prefix name), w)
      end.

(** The destructor; the pending messages are discarded first. *)
Definition destroy_queue (q : producer_queue) (w : shm_world) : producer_queue * shm_world :=
  let q := ProducerQueue (shm_fd q) None (prefix_name q) (shm_name q) in
  if shm_fd q =? -1 then (q, w)
  else (ProducerQueue (-1) None (prefix_name q) (shm_name q), shm_unlink (shm_name q) (shm_close (shm_fd q) w)).

Lemma string_app_length (a b : string) : String.length (a +:+ b) = (String.length a + String.length b)%nat.
Proof. induction a as [|c a IH]; [done|]. rewrite string_app_cons. cbn. by rewrite IH. Qed.

Lemma full_name_ne prefix name : full_name prefix name <> name.
Proof.
  intros He. apply (f_equal String.length) in He. unfold full_name in He.
  rewrite !string_app_length in He. cbn in He. lia.
Qed.

(** A constructor that fails leaves no descriptor and no segment; one that
    succeeds starts with an empty ring; and the destructor gives the
    descriptor and the mapping back but leaves the segment, since it unlinks
    another name. *)
Theorem shm_lifecycle env prefix name w : se_shm_open env ∉ shm_fds w ->
  match create_queue env prefix name w with
  | (Ret q, w1) =>
      (exists d, pq_data q = Some d /\ head d = 0 /\ tail d = 0) /\ full_name prefix name ∈ segments w1 /\
      let '(q2, w2) := destroy_queue q w1 in
      shm_fds w2 = shm_fds w /\ pq_data q2 = None /\ full_name prefix name ∈ segments w2
  | (_, w1) => shm_fds w1 = shm_fds w /\ segments w1 ⊆ segments w
  end.
Proof.
  intros Hfd. pose proof (full_name_ne prefix name) as Hne. unfold create_queue.
  destruct (Z.eqb_spec (se_shm_open env) (-1)) as [Hx|Hx]; [done|].
  destruct (se_ftruncate env =? -1); [cbn; split; set_solver|].
  destruct (se_mapped env) as [d|]; [|cbn; split; set_solver].
  split; [by eexists|]. split; [cbn; set_solver|]. unfold destroy_queue. cbn [shm_fd prefix_name shm_name].
  rewrite (proj2 (Z.eqb_neq _ _) Hx). cbn. split; [set_solver|]. split; [done|]. set_solver.
Qed.
