(* ===== verification/Yaml.v ===== *)
(** * Yaml: the nodes of the YAML library (libs/fkyaml) as the schedulers use
    them.

    A node is modelled with the behaviour of [contains], [operator[]],
    [begin]/[end], [is_null] and [get_value_ref] that the program calls. How a text
    becomes one is in [YamlDoc]. *)
From S2P Require Import Prelude.
From Stdlib Require String.
Local Open Scope Z_scope.

Module Yaml.
(** [fkyaml::node]. A mapping is its pairs in iteration order (that of
    [std::map]); a float is its bits. *)
Inductive node :=
  | Null
  | Bool (b : bool)
  | Int (z : Z)
  | Float (bits : Z)
  | Str (s : string)
  | Seq (l : list node)
  | Map (l : list (node * node)).

Definition is_null (n : node) : bool := match n with Null => true | _ => false end.

Definition is_key (k : string) (n : node) : bool :=
  match n with Str s => String.eqb s k | _ => false end.

Fixpoint find_key (k : string) (l : list (node * node)) : option node :=
  match l with
  | [] => None
  | (n, v) :: l => if is_key k n then Some v else find_key k l
  end.

(** Only a mapping contains a key. *)
Definition contains (n : node) (k : string) : bool :=
  match n with
  | Map l => match find_key k l with Some _ => true | None => false end
  | _ => false
  end.

(** [n["k"]]: a mapping without the key gives a new null node; a sequence takes
    no string, a scalar no key at all. *)
Definition at_key (n : node) (k : string) : outcome node :=
  match n with
  | Map l => Ret (default Null (find_key k l))
  | _ => Throw YamlTypeError
  end.

Definition is_int_key (i : Z) (n : node) : bool :=
  match n with Int z => z =? i | _ => false end.

Fixpoint find_int_key (i : Z) (l : list (node * node)) : option node :=
  match l with
  | [] => None
  | (n, v) :: l => if is_int_key i n then Some v else find_int_key i l
  end.

(** [n[i]]: on a sequence, [std::vector]'s unchecked access. *)
Definition at_index (n : node) (i : Z) : outcome node :=
  match n with
  | Seq l => match l !! Z.to_nat i with Some v => Ret v | None => Undef end
  | Map l => Ret (default Null (find_int_key i l))
  | _ => Throw YamlTypeError
  end.

(** The nodes a range [for] visits; a mapping's are its values. *)
Definition children (n : node) : outcome (list node) :=
  match n with
  | Seq l => Ret l
  | Map l => Ret (snd <$> l)
  | _ => Throw YamlTypeError
  end.

(** [get_value_ref] of a string and of an integer. *)
Definition get_str (n : node) : outcome string :=
  match n with Str s => Ret s | _ => Throw YamlTypeError end.
Definition get_int (n : node) : outcome Z :=
  match n with Int z => Ret z | _ => Throw YamlTypeError end.
End Yaml.
