(* ===== verification/YamlScan.v ===== *)
(** * YamlScan: the type and the value of a plain scalar (libs/fkyaml:
    [scalar_scanner], [aton], [atob], [atoi]).

    The library decides from the characters of a plain scalar whether it is a
    null, a boolean, an integer, a floating point number or a string, and then
    converts it. The addresses, LIDs and queue pair numbers of the ping list and
    of the address store are read this way. *)
From S2P Require Import Prelude Text CxxString Yaml.
From Stdlib Require Import Ascii.
From Stdlib Require String.
Local Open Scope Z_scope.

Inductive node_type := SEQUENCE | MAPPING | NULL_OBJECT | BOOLEAN | INTEGER | FLOAT | STRING.

#[export] Instance node_type_eq_dec : EqDecision node_type.
Proof. solve_decision. Defined.

(** Characters by their code. *)
Definition code (c : ascii) : Z := Z.of_N (N_of_ascii c).
Definition between (a b c : ascii) : bool := (code a <=? code c) && (code c <=? code b).
Definition is_digit (c : ascii) : bool := between "0" "9" c.
Definition is_xdigit (c : ascii) : bool := between "0" "9" c || between "A" "F" c || between "a" "f" c.

(** A text is one of some words. [strncmp] of the length of the rest compares
    the whole rest. *)
Definition word (w : string) (s : chars) : bool := bool_decide (s = bytes_of w).
Definition any_word (ws : list string) (s : chars) : bool := existsb (fun w => word w s) ws.

(** ** scalar_scanner

    The scanner keeps an iterator and what is left of the length: here the rest
    of the text. The functions are called with a rest that is not empty. *)
Fixpoint all_digits (s : chars) : bool :=
  match s with [] => true | c :: s => is_digit c && all_digits s end.

Definition scan_after_exponent (s : chars) : node_type :=
  match s with
  | [] => STRING
  | c :: rest =>
      if Ascii.eqb c "+" || Ascii.eqb c "-" then
        match rest with
        | [] => STRING
        | _ => if all_digits rest then FLOAT else STRING
        end
      else if all_digits s then FLOAT else STRING
  end.

Definition is_exponent (c : ascii) : bool := Ascii.eqb c "e" || Ascii.eqb c "E".

Fixpoint scan_after_decimal_point (s : chars) : node_type :=
  match s with
  | [] => FLOAT
  | c :: rest =>
      if is_digit c then scan_after_decimal_point rest
      else if is_exponent c then match rest with [] => STRING | _ => scan_after_exponent rest end
      else STRING
  end.

Fixpoint scan_decimal_number (s : chars) : node_type :=
  match s with
  | [] => STRING
  | c :: rest =>
      if is_digit c then match rest with [] => INTEGER | _ => scan_decimal_number rest end
      else if Ascii.eqb c "." then match rest with [] => FLOAT | _ => scan_after_decimal_point rest end
      else if is_exponent c then match rest with [] => STRING | _ => scan_after_exponent rest end
      else STRING
  end.

Definition scan_negative_number (s : chars) : node_type :=
  match s with
  | [] => STRING
  | c :: rest =>
      if is_digit c then match rest with [] => INTEGER | _ => scan_decimal_number rest end
      else if Ascii.eqb c "." then match rest with [] => STRING | _ => scan_after_decimal_point rest end
      else STRING
  end.

Fixpoint scan_octal_number (s : chars) : node_type :=
  match s with
  | [] => STRING
  | c :: rest =>
      if between "0" "7" c then match rest with [] => INTEGER | _ => scan_octal_number rest end
      else STRING
  end.

Fixpoint scan_hexadecimal_number (s : chars) : node_type :=
  match s with
  | [] => STRING
  | c :: rest =>
      if is_xdigit c then match rest with [] => INTEGER | _ => scan_hexadecimal_number rest end
      else STRING
  end.

Definition scan_after_zero_at_first (s : chars) : node_type :=
  match s with
  | [] => STRING
  | c :: rest =>
      if is_digit c then STRING
      else if Ascii.eqb c "." then match rest with [] => FLOAT | _ => scan_after_decimal_point rest end
      else if is_exponent c then match rest with [] => STRING | _ => scan_after_exponent rest end
      else if Ascii.eqb c "o" then match rest with [] => STRING | _ => scan_octal_number rest end
      else if Ascii.eqb c "x" then match rest with [] => STRING | _ => scan_hexadecimal_number rest end
      else STRING
  end.

Definition scan_possible_number_token (s : chars) : node_type :=
  match s with
  | [] => STRING
  | c :: rest =>
      if Ascii.eqb c "-" then match rest with [] => STRING | _ => scan_negative_number rest end
      else if Ascii.eqb c "+" then match rest with [] => STRING | _ => scan_decimal_number rest end
      else if Ascii.eqb c "." then match rest with [] => STRING | _ => scan_after_decimal_point rest end
      else if Ascii.eqb c "0" then match rest with [] => INTEGER | _ => scan_after_zero_at_first rest end
      else if between "1" "9" c then match rest with [] => INTEGER | _ => scan_decimal_number rest end
      else STRING
  end.

Definition scan (s : chars) : node_type :=
  match s with
  | [] => STRING
  | [c] => if Ascii.eqb c "~" then NULL_OBJECT else scan_possible_number_token s
  | [c; _; _; _] =>
      let rest := tail s in
      if Ascii.eqb c "n" then if word "ull" rest then NULL_OBJECT else STRING
      else if Ascii.eqb c "N" then if any_word ["ull"; "ULL"] rest then NULL_OBJECT else STRING
      else if Ascii.eqb c "t" then if word "rue" rest then BOOLEAN else STRING
      else if Ascii.eqb c "T" then if any_word ["rue"; "RUE"] rest then BOOLEAN else STRING
      else if Ascii.eqb c "." && any_word ["inf"; "Inf"; "INF"; "nan"; "NaN"; "NAN"] rest then FLOAT
      else scan_possible_number_token s
  | [c; c2; _; _; _] =>
      let rest := tail s in
      if Ascii.eqb c "f" then if word "alse" rest then BOOLEAN else STRING
      else if Ascii.eqb c "F" then if any_word ["alse"; "ALSE"] rest then BOOLEAN else STRING
      else if (Ascii.eqb c "+" || Ascii.eqb c "-") && Ascii.eqb c2 "." &&
              any_word ["inf"; "Inf"; "INF"] (tail rest) then FLOAT
      else scan_possible_number_token s
  | _ => scan_possible_number_token s
  end.

Example scan_kinds :
  scan <$> (bytes_of <$> ["~"; "null"; "True"; "12"; "-0x1"; "0x1F"; "0o17"; "017"; "1.5e-3"; ".inf"; "-.inf";
    "10.0.0.1"; ""; "+.5"; "nulL"])
  = [NULL_OBJECT; NULL_OBJECT; BOOLEAN; INTEGER; STRING; INTEGER; INTEGER; STRING; FLOAT; FLOAT; FLOAT;
     STRING; STRING; FLOAT; STRING].
Proof. reflexivity. Qed.

(** ** The grammar

    What the scanner recognises, as sets of texts. *)
Definition null_words : list string := ["~"; "null"; "Null"; "NULL"].
Definition bool_words : list string := ["true"; "True"; "TRUE"; "false"; "False"; "FALSE"].
Definition float_words : list string :=
  [".inf"; ".Inf"; ".INF"; ".nan"; ".NaN"; ".NAN"; "+.inf"; "+.Inf"; "+.INF"; "-.inf"; "-.Inf"; "-.INF"].

Definition digits (s : chars) : Prop := Forall (fun c => is_digit c = true) s.
Definition sign_text (s : chars) : Prop := s = [] \/ s = ["+"%char] \/ s = ["-"%char].

(** An exponent: [e] or [E], a sign or none, digits. *)
Definition exponent (s : chars) : Prop :=
  exists e sign ds, s = e :: sign ++ ds /\ is_exponent e = true /\ sign_text sign /\ digits ds /\ ds <> [].
(** A point with digits or none and an exponent or none. *)
Definition fraction (s : chars) : Prop :=
  exists ds x, s = "."%char :: ds ++ x /\ digits ds /\ (x = [] \/ exponent x).

(** Without a sign, a number has no leading zero. *)
Definition no_leading_zero (sign ds : chars) : Prop :=
  sign = [] -> ds = ["0"%char] \/ head ds <> Some "0"%char.

(** Decimal with or without a sign, octal with [0o], hexadecimal with [0x]. *)
Definition integer_text (s : chars) : Prop :=
  (exists sign ds, s = sign ++ ds /\ sign_text sign /\ digits ds /\ ds <> [] /\ no_leading_zero sign ds) \/
  (exists ds, s = "0"%char :: "o"%char :: ds /\ ds <> [] /\ Forall (fun c => between "0" "7" c = true) ds) \/
  (exists ds, s = "0"%char :: "x"%char :: ds /\ ds <> [] /\ Forall (fun c => is_xdigit c = true) ds).

(** A sign or none, digits, and a fraction or an exponent. Before the point there
    may be no digit; a point alone is a number only after a plus, and after a
    plus even the exponent needs no digit before it. *)
Definition float_number (s : chars) : Prop :=
  exists sign ds t, s = sign ++ ds ++ t /\ sign_text sign /\ digits ds /\ (fraction t \/ exponent t) /\
    no_leading_zero sign ds /\
    (ds = [] -> sign = ["+"%char] \/ (fraction t /\ t <> ["."%char])).
Definition float_text (s : chars) : Prop := any_word float_words s = true \/ float_number s.

(** ** Lemmas *)
Lemma word_cons w a c s : word (String a w) (c :: s) = Ascii.eqb c a && word w s.
Proof.
  unfold word. change (bytes_of (String a w)) with (a :: bytes_of w).
  destruct (Ascii.eqb_spec c a) as [->|Hne]; cbn [andb].
  - apply bool_decide_ext. split; [by intros [= ->]|by intros ->].
  - apply bool_decide_eq_false_2. by intros [= -> _].
Qed.
Lemma word_nil a w : word (String a w) [] = false.
Proof. apply bool_decide_eq_false_2. by change (bytes_of (String a w)) with (a :: bytes_of w). Qed.
Lemma word_end c s : word "" (c :: s) = false.
Proof. by apply bool_decide_eq_false_2. Qed.
Lemma word_empty : word "" [] = true.
Proof. by apply bool_decide_eq_true_2. Qed.

(** The first character is one of those listed, or another. *)
Ltac first_char c l :=
  lazymatch l with
  | ?a :: ?l => destruct (Ascii.eqb_spec c a) as [->|?]; 
      [simpl; rewrite ?orb_false_r; first [reflexivity|
         match goal with |- context [Ascii.eqb ?x "."] => destruct (Ascii.eqb x ".") end;
         simpl; rewrite ?orb_false_r; reflexivity]
      |first_char c l]
  | [] => cbn [andb orb]; reflexivity
  end.

(** The words first, then the numbers. *)
Lemma scan_words s :
  scan s = if any_word null_words s then NULL_OBJECT
           else if any_word bool_words s then BOOLEAN
           else if any_word float_words s then FLOAT
           else scan_possible_number_token s.
Proof.
  unfold null_words, bool_words, float_words, any_word.
  destruct s as [|c [|c2 [|c3 [|c4 [|c5 [|c6 s]]]]]]; cbn [existsb scan tail];
    unfold any_word; cbn [existsb];
    rewrite ?word_cons, ?word_nil, ?word_end, ?word_empty, ?andb_false_r, ?andb_true_r, ?orb_false_r;
    cbn [orb]; try reflexivity.
  - first_char c ["n"; "N"; "t"; "T"; "."]%char.
  - first_char c ["f"; "F"; "+"; "-"]%char.
Qed.

Lemma all_digits_spec s : all_digits s = true <-> digits s.
Proof.
  unfold digits. induction s as [|c s IH]; cbn; [by split; [constructor|]|].
  rewrite andb_true_iff, IH. by rewrite list.Forall_cons.
Qed.

(** The rest of an exponent. *)
Definition exp_rest (s : chars) : Prop :=
  exists sign ds, s = sign ++ ds /\ sign_text sign /\ digits ds /\ ds <> [].

Lemma digits_cons c s : digits (c :: s) <-> is_digit c = true /\ digits s.
Proof. unfold digits. by rewrite list.Forall_cons. Qed.

(** A text that starts with no digit has no leading digits. *)
Lemma sign_not_digit c : is_digit c = true -> Ascii.eqb c "+" || Ascii.eqb c "-" = false.
Proof. by destruct c as [[] [] [] [] [] [] [] []]. Qed.
Lemma digit_not_mark c : is_digit c = true -> is_exponent c = false /\ Ascii.eqb c "." = false.
Proof. by destruct c as [[] [] [] [] [] [] [] []]. Qed.

Lemma scan_after_exponent_spec s :
  scan_after_exponent s = FLOAT /\ exp_rest s \/ scan_after_exponent s = STRING /\ ~ exp_rest s.
Proof.
  destruct s as [|c rest]; cbn.
  { right. split; [done|]. intros (sign & ds & He & _ & _ & Hne).
    symmetry in He. by apply app_nil in He as [-> ->]. }
  destruct (Ascii.eqb c "+" || Ascii.eqb c "-") eqn:Hc.
  - assert (forall ds, c :: rest = ds -> ~ digits ds) as Hnd.
    { intros ds <- [Hd _]%digits_cons. apply sign_not_digit in Hd. congruence. }
    assert (exp_rest (c :: rest) <-> digits rest /\ rest <> []) as Hiff.
    { split.
      - intros (sign & ds & He & [-> | [-> | ->]] & Hds & Hne); [by destruct (Hnd ds He)|by injection He as -> ->..].
      - intros [Hds Hne]. exists [c], rest. split_and!; [done| |done|done].
        apply orb_true_iff in Hc as [Hc|Hc]; apply Ascii.eqb_eq in Hc as ->; [by right; left|by right; right]. }
    rewrite Hiff. destruct rest as [|c' rest]; [right; naive_solver|].
    destruct (all_digits (c' :: rest)) eqn:Ha.
    + left. split; [done|]. split; [by apply all_digits_spec|done].
    + right. split; [done|]. intros [Hd _]. apply all_digits_spec in Hd. congruence.
  - change (is_digit c && all_digits rest) with (all_digits (c :: rest)).
    assert (exp_rest (c :: rest) <-> digits (c :: rest)) as Hiff.
    { split.
      - intros (sign & ds & He & [-> | [-> | ->]] & Hds & Hne); [by rewrite He|injection He as -> ->; by simpl in Hc..].
      - intros Hds. exists [], (c :: rest). split_and!; [done|by left|done|done]. }
    rewrite Hiff. destruct (all_digits (c :: rest)) eqn:Ha; [left|right]; (split; [done|]).
    + by apply all_digits_spec.
    + intros Hd. apply all_digits_spec in Hd. congruence.
Qed.

(** Digits, then an exponent or nothing. *)
Definition decimals (s : chars) : Prop := exists ds x, s = ds ++ x /\ digits ds /\ (x = [] \/ exponent x).

Lemma exponent_cons c s : exponent (c :: s) <-> is_exponent c = true /\ exp_rest s.
Proof.
  split.
  - intros (e & sign & ds & [= -> ->] & He & Hs & Hd & Hne). split; [done|]. by exists sign, ds.
  - intros [He (sign & ds & -> & Hs & Hd & Hne)]. by exists c, sign, ds.
Qed.
Lemma exponent_nil : ~ exponent [].
Proof. intros (e & sign & ds & [=] & _). Qed.
Lemma exp_rest_nil : ~ exp_rest [].
Proof. intros (sign & ds & He & _ & _ & Hne). symmetry in He. by apply app_nil in He as [-> ->]. Qed.

Lemma decimals_cons c s :
  decimals (c :: s) <-> (is_digit c = true /\ decimals s) \/ exponent (c :: s).
Proof.
  split.
  - intros ([|d ds] & x & He & Hd & Hx); cbn in He.
    + subst x. right. by destruct Hx.
    + injection He as -> ->. apply digits_cons in Hd as [Hd Hds]. left. split; [done|]. by exists ds, x.
  - intros [[Hd (ds & x & -> & Hds & Hx)]|Hx].
    + exists (c :: ds), x. split; [done|]. split; [by apply digits_cons|done].
    + exists [], (c :: s). split_and!; [done|constructor|by right].
Qed.

Lemma scan_after_decimal_point_spec s :
  scan_after_decimal_point s = FLOAT /\ decimals s \/ scan_after_decimal_point s = STRING /\ ~ decimals s.
Proof.
  induction s as [|c s IH]; cbn.
  { left. split; [done|]. exists [], []. split_and!; [done|constructor|by left]. }
  rewrite decimals_cons, exponent_cons. destruct (is_digit c) eqn:Hd.
  - destruct (digit_not_mark c Hd) as [He _]. rewrite He. naive_solver.
  - destruct (is_exponent c); [|right; naive_solver].
    destruct s as [|c' s]; [right; split; [done|]; pose proof exp_rest_nil; naive_solver|].
    destruct (scan_after_exponent_spec (c' :: s)) as [[-> H]|[-> H]]; naive_solver.
Qed.

Lemma fraction_cons c s : fraction (c :: s) <-> c = "."%char /\ decimals s.
Proof.
  split.
  - intros (ds & x & [= -> ->] & Hd & Hx). split; [done|]. by exists ds, x.
  - intros [-> (ds & x & -> & Hd & Hx)]. by exists ds, x.
Qed.
Lemma fraction_nil : ~ fraction [].
Proof. intros (ds & x & [=] & _). Qed.

(** Digits, then a fraction or an exponent. *)
Definition real_text (s : chars) : Prop := exists ds t, s = ds ++ t /\ digits ds /\ (fraction t \/ exponent t).

Lemma real_text_cons c s :
  real_text (c :: s) <-> (is_digit c = true /\ real_text s) \/ fraction (c :: s) \/ exponent (c :: s).
Proof.
  split.
  - intros ([|d ds] & t & He & Hd & Ht); cbn in He.
    + subst t. by right.
    + injection He as -> ->. apply digits_cons in Hd as [Hd Hds]. left. split; [done|]. by exists ds, t.
  - intros [[Hd (ds & t & -> & Hds & Ht)]|Ht].
    + exists (c :: ds), t. split; [done|]. split; [by apply digits_cons|done].
    + exists [], (c :: s). by split_and!; [|constructor|].
Qed.
Lemma real_text_nil : ~ real_text [].
Proof.
  intros (ds & t & He & _ & Ht). symmetry in He. apply app_nil in He as [-> ->].
  destruct Ht as [Ht|Ht]; [by apply fraction_nil in Ht|by apply exponent_nil in Ht].
Qed.

Lemma scan_decimal_number_spec s : s <> [] ->
  scan_decimal_number s = INTEGER /\ digits s \/
  scan_decimal_number s = FLOAT /\ real_text s /\ ~ digits s \/
  scan_decimal_number s = STRING /\ ~ real_text s /\ ~ digits s.
Proof.
  induction s as [|c s IH]; [done|]. intros _. cbn.
  rewrite real_text_cons, fraction_cons, exponent_cons, digits_cons.
  destruct (is_digit c) eqn:Hd.
  - destruct (digit_not_mark c Hd) as [He Hp]. rewrite He. apply Ascii.eqb_neq in Hp.
    destruct s as [|c' s]; [left; split; [done|split; [done|constructor]]|].
    specialize (IH ltac:(done)). naive_solver.
  - right. destruct (Ascii.eqb_spec c ".") as [->|Hp].
    + destruct s as [|c' s].
      * left. split; [done|]. split; [|naive_solver]. right; left. split; [done|].
        exists [], []. split_and!; [done|constructor|by left].
      * destruct (scan_after_decimal_point_spec (c' :: s)) as [[-> H]|[-> H]]; [left|right]; naive_solver.
    + destruct (is_exponent c) eqn:He; [|right; naive_solver].
      destruct s as [|c' s]; [right; pose proof exp_rest_nil; naive_solver|].
      destruct (scan_after_exponent_spec (c' :: s)) as [[-> H]|[-> H]]; [left|right]; naive_solver.
Qed.

(** *** By the first character *)
Definition radix_digits (p : ascii -> bool) (s : chars) : Prop := s <> [] /\ Forall (fun c => p c = true) s.

Lemma integer_cons c s :
  integer_text (c :: s) <->
  ((c = "+"%char \/ c = "-"%char) /\ s <> [] /\ digits s) \/
  (is_digit c = true /\ digits s /\ (c = "0"%char -> s = [])) \/
  (c = "0"%char /\ exists ds, s = "o"%char :: ds /\ radix_digits (between "0" "7") ds) \/
  (c = "0"%char /\ exists ds, s = "x"%char :: ds /\ radix_digits is_xdigit ds).
Proof.
  unfold integer_text, radix_digits. split.
  - intros [(sign & ds & He & Hs & Hd & Hne & Hz)|[(ds & [= -> ->] & H)|(ds & [= -> ->] & H)]].
    + destruct Hs as [-> | [-> | ->]]; cbn in He; [|injection He as -> ->; left; by auto..].
      subst ds. right; left. apply digits_cons in Hd as [Hd Hds]. split; [done|]. split; [done|].
      intros ->. destruct (Hz eq_refl) as [[= ->]|Hh]; [done|by destruct Hh].
    + right; right; left. split; [done|]. by exists ds.
    + right; right; right. split; [done|]. by exists ds.
  - intros [(Hc & Hne & Hd)|[(Hc & Hd & Hz)|[(-> & ds & -> & H)|(-> & ds & -> & H)]]].
    + left. exists [c], s. split_and!; [done| |done|done|done]. unfold sign_text. destruct Hc as [-> | ->]; by auto.
    + left. exists [], (c :: s). split_and!; [done|by left|by apply digits_cons|done|].
      intros _. destruct (decide (c = "0"%char)) as [->|Hne]; [left; by rewrite Hz|right; cbn; congruence].
    + right; left. by exists ds.
    + right; right. by exists ds.
Qed.
Lemma integer_nil : ~ integer_text [].
Proof.
  intros [(sign & ds & He & _ & _ & Hne & _)|[(ds & [=] & _)|(ds & [=] & _)]].
  symmetry in He. by apply app_nil in He as [-> ->].
Qed.

Lemma float_cons c s :
  float_number (c :: s) <->
  (c = "+"%char /\ real_text s) \/
  (c = "-"%char /\ ((exists d r, s = d :: r /\ is_digit d = true /\ real_text r) \/ (fraction s /\ s <> ["."%char]))) \/
  (c = "."%char /\ s <> [] /\ decimals s) \/
  (is_digit c = true /\ real_text s /\ (c = "0"%char -> fraction s \/ exponent s)).
Proof.
  unfold float_number. split.
  - intros (sign & ds & t & He & Hs & Hd & Ht & Hz & Hn).
    destruct Hs as [-> | [-> | ->]]; cbn in He.
    + destruct ds as [|d ds]; cbn in He.
      * subst t. destruct (Hn eq_refl) as [[=]|[Hf Hne]]. apply fraction_cons in Hf as [-> Hf].
        right; right; left. split_and!; [done|congruence|done].
      * injection He as -> ->. apply digits_cons in Hd as [Hd Hds]. right; right; right.
        split; [done|]. split; [by exists ds, t|].
        intros ->. destruct (Hz eq_refl) as [[= ->]|Hh]; [done|by destruct Hh].
    + injection He as -> ->. left. split; [done|]. by exists ds, t.
    + injection He as -> ->. right; left. split; [done|]. destruct ds as [|d ds].
      * right. by destruct (Hn eq_refl) as [[=]|].
      * apply digits_cons in Hd as [Hd Hds]. left. exists d, (ds ++ t). split_and!; [done|done|by exists ds, t].
  - unfold sign_text, no_leading_zero.
    intros [(-> & ds & t & -> & Hd & Ht)|[(-> & [(d & r & -> & Hd & ds & t & -> & Hds & Ht)|[Hf Hne]])|
           [(-> & Hne & Hd)|(Hc & (ds & t & -> & Hd & Ht) & Hz)]]].
    + exists ["+"%char], ds, t. by split_and!; auto.
    + exists ["-"%char], (d :: ds), t. split_and!; [done|by auto|by apply digits_cons|done|done|done].
    + exists ["-"%char], [], s. split_and!; [done|by auto|constructor|by left|done|by auto].
    + exists [], [], ("."%char :: s). split_and!; [done|by auto|constructor| | |].
      * left. by apply fraction_cons.
      * intros _. by right.
      * intros _. right. split; [by apply fraction_cons|congruence].
    + exists [], (c :: ds), t. split_and!; [done|by auto|by apply digits_cons|done| |done].
      intros _. destruct (decide (c = "0"%char)) as [->|Hne]; [|right; cbn; congruence]. left.
      destruct ds as [|d ds]; [done|]. exfalso. apply digits_cons in Hd as [Hd _].
      destruct (digit_not_mark d Hd) as [He Hp]. cbn in Hz.
      destruct (Hz eq_refl) as [[-> _]%fraction_cons|[He' _]%exponent_cons]; [done|congruence].
Qed.
Lemma float_nil : ~ float_number [].
Proof.
  intros (sign & ds & t & He & _ & _ & Ht & _ & _). symmetry in He.
  apply app_nil in He as [_ He]. apply app_nil in He as [_ ->].
  destruct Ht as [Ht|Ht]; [by apply fraction_nil in Ht|by apply exponent_nil in Ht].
Qed.

(** *** The functions of the scanner *)
Lemma scan_octal_number_spec s :
  scan_octal_number s = INTEGER /\ radix_digits (between "0" "7") s \/
  scan_octal_number s = STRING /\ ~ radix_digits (between "0" "7") s.
Proof.
  unfold radix_digits. induction s as [|c s IH]; [by right; naive_solver|]. cbn. rewrite list.Forall_cons.
  destruct (between "0" "7" c); [|right; naive_solver]. destruct s; [by left|naive_solver].
Qed.
Lemma scan_hexadecimal_number_spec s :
  scan_hexadecimal_number s = INTEGER /\ radix_digits is_xdigit s \/
  scan_hexadecimal_number s = STRING /\ ~ radix_digits is_xdigit s.
Proof.
  unfold radix_digits. induction s as [|c s IH]; [by right; naive_solver|]. cbn -[is_xdigit]. rewrite list.Forall_cons.
  destruct (is_xdigit c); [|right; naive_solver]. destruct s; [by left|naive_solver].
Qed.

(** The three answers, with what each means. *)
Definition answers (t : node_type) (i f : Prop) : Prop :=
  (t = INTEGER /\ i /\ ~ f) \/ (t = FLOAT /\ f /\ ~ i) \/ (t = STRING /\ ~ i /\ ~ f).

Lemma answers_iff t i f i' f' : (i <-> i') -> (f <-> f') -> answers t i f -> answers t i' f'.
Proof. unfold answers. naive_solver. Qed.

Lemma digits_not_real s : digits s -> ~ real_text s.
Proof.
  induction s as [|c s IH]; [intros _; apply real_text_nil|]. intros [Hc Hs]%digits_cons.
  destruct (digit_not_mark c Hc) as [He Hp]. apply Ascii.eqb_neq in Hp.
  rewrite real_text_cons, fraction_cons, exponent_cons. specialize (IH Hs). naive_solver congruence.
Qed.

Lemma scan_decimal_answers s : s <> [] -> answers (scan_decimal_number s) (digits s) (real_text s).
Proof.
  intros Hs. pose proof (digits_not_real s). unfold answers.
  destruct (scan_decimal_number_spec s Hs) as [[-> H1]|[[-> [H1 H2]]|[-> [H1 H2]]]]; naive_solver.
Qed.

(** A digit first: the digits go on. *)
Lemma scan_digit_first c s : is_digit c = true ->
  answers (match s with [] => INTEGER | _ => scan_decimal_number s end) (digits s) (real_text s).
Proof.
  intros Hc. destruct s as [|c' s]; [|by apply scan_decimal_answers].
  left. split; [done|]. split; [constructor|apply real_text_nil].
Qed.

Lemma scan_negative_answers s : s <> [] ->
  answers (scan_negative_number s) (digits s)
    ((exists d r, s = d :: r /\ is_digit d = true /\ real_text r) \/ (fraction s /\ s <> ["."%char])).
Proof.
  destruct s as [|c s]; [done|]. intros _. cbn [scan_negative_number].
  destruct (is_digit c) eqn:Hc.
  - destruct (digit_not_mark c Hc) as [He Hp]. apply Ascii.eqb_neq in Hp.
    eapply answers_iff; [| |exact (scan_digit_first c s Hc)].
    + rewrite digits_cons. naive_solver.
    + rewrite fraction_cons. naive_solver.
  - destruct (Ascii.eqb_spec c ".") as [->|Hp].
    + destruct s as [|c' s]; [right; right; split; [done|]; rewrite digits_cons; naive_solver|].
      unfold answers. rewrite fraction_cons, digits_cons.
      destruct (scan_after_decimal_point_spec (c' :: s)) as [[-> H]|[-> H]]; right; [left|right]; naive_solver.
    + right; right. split; [done|]. rewrite fraction_cons, digits_cons. split; [intros [? _]; congruence|].
      intros [(d & r & [= <- <-] & Hd & _)|[[? _] _]]; congruence.
Qed.

Lemma scan_zero_answers s : s <> [] ->
  answers (scan_after_zero_at_first s)
    ((exists ds, s = "o"%char :: ds /\ radix_digits (between "0" "7") ds) \/
     (exists ds, s = "x"%char :: ds /\ radix_digits is_xdigit ds))
    (fraction s \/ exponent s).
Proof.
  destruct s as [|c s]; [done|]. intros _. cbn [scan_after_zero_at_first].
  unfold answers. rewrite fraction_cons, exponent_cons.
  assert (forall p, ~ radix_digits p []) as Hr0 by (by intros p [? _]).
  pose proof exp_rest_nil. destruct (is_digit c) eqn:Hc.
  { destruct (digit_not_mark c Hc) as [He Hp]. apply Ascii.eqb_neq in Hp. right; right. split; [done|].
    split; [|naive_solver congruence]. intros [(ds & [= -> ->] & _)|(ds & [= -> ->] & _)]; by vm_compute in Hc. }
  destruct (Ascii.eqb_spec c ".") as [->|Hp].
  { destruct s as [|c' s].
    - right; left. split; [done|]. split; [|naive_solver]. left. split; [done|].
      exists [], []. split_and!; [done|constructor|by left].
    - destruct (scan_after_decimal_point_spec (c' :: s)) as [[-> ?]|[-> ?]]; right; [left|right];
        (split; [done|]); naive_solver. }
  destruct (is_exponent c) eqn:He.
  { assert (c <> "o"%char /\ c <> "x"%char) as [? ?] by (by split; intros ->).
    destruct s as [|c' s]; [right; right; split; [done|]; naive_solver|].
    destruct (scan_after_exponent_spec (c' :: s)) as [[-> ?]|[-> ?]]; right; [left|right];
      (split; [done|]); naive_solver. }
  destruct (Ascii.eqb_spec c "o") as [->|Ho].
  { destruct s as [|c' s]; [right; right; split; [done|]; naive_solver|].
    destruct (scan_octal_number_spec (c' :: s)) as [[-> ?]|[-> ?]]; [left|right; right]; (split; [done|]); naive_solver. }
  destruct (Ascii.eqb_spec c "x") as [->|Hx].
  { destruct s as [|c' s]; [right; right; split; [done|]; naive_solver|].
    destruct (scan_hexadecimal_number_spec (c' :: s)) as [[-> ?]|[-> ?]]; [left|right; right]; (split; [done|]); naive_solver. }
  right; right. split; [done|]. naive_solver.
Qed.

Lemma between_digit c : between "1" "9" c = is_digit c && negb (Ascii.eqb c "0").
Proof. by destruct c as [[] [] [] [] [] [] [] []]. Qed.

Lemma scan_number_answers s : answers (scan_possible_number_token s) (integer_text s) (float_number s).
Proof.
  destruct s as [|c s]; [right; right; split; [done|]; split; [apply integer_nil|apply float_nil]|].
  cbn [scan_possible_number_token]. rewrite between_digit.
  pose proof real_text_nil as Hr0.
  destruct (Ascii.eqb_spec c "-") as [->|Hm].
  { eapply answers_iff; [symmetry; rewrite integer_cons|symmetry; rewrite float_cons|].
    - instantiate (1 := s <> [] /\ digits s). naive_solver.
    - instantiate (1 := s <> [] /\ ((exists d r, s = d :: r /\ is_digit d = true /\ real_text r) \/ (fraction s /\ s <> ["."%char]))).
      pose proof fraction_nil. destruct s; naive_solver.
    - destruct s as [|c s]; [right; right; by naive_solver|].
      eapply answers_iff; [| |by apply scan_negative_answers]; naive_solver. }
  destruct (Ascii.eqb_spec c "+") as [->|Hp].
  { eapply answers_iff; [symmetry; rewrite integer_cons|symmetry; rewrite float_cons|].
    - instantiate (1 := s <> [] /\ digits s). naive_solver.
    - instantiate (1 := s <> [] /\ real_text s). destruct s; naive_solver.
    - destruct s as [|c s]; [right; right; by naive_solver|].
      eapply answers_iff; [| |by apply scan_decimal_answers]; naive_solver. }
  destruct (Ascii.eqb_spec c ".") as [->|Hd].
  { eapply answers_iff; [symmetry; rewrite integer_cons|symmetry; rewrite float_cons|].
    - instantiate (1 := False). naive_solver.
    - instantiate (1 := s <> [] /\ decimals s). naive_solver.
    - unfold answers. destruct s as [|c s]; [right; right; by naive_solver|].
      destruct (scan_after_decimal_point_spec (c :: s)) as [[-> ?]|[-> ?]]; right; [left|right]; naive_solver. }
  destruct (Ascii.eqb_spec c "0") as [->|H0].
  { eapply answers_iff; [symmetry; rewrite integer_cons|symmetry; rewrite float_cons|].
    - instantiate (1 := s = [] \/ (exists ds, s = "o"%char :: ds /\ radix_digits (between "0" "7") ds) \/
        (exists ds, s = "x"%char :: ds /\ radix_digits is_xdigit ds)).
      split.
      + intros [([?|?] & _)|[(_ & _ & Hz)|[(_ & H)|(_ & H)]]]; [done|done|left; by apply Hz|by auto|by auto].
      + intros [-> |[H|H]]; [right; left; split_and!; [done|constructor|done]|by auto|by auto].
    - instantiate (1 := fraction s \/ exponent s). split.
      + intros [[? _]|[[? _]|[[? _]|(_ & _ & H)]]]; [done..|by apply H].
      + intros H. right; right; right. split; [done|]. split; [|done].
        exists [], s. split_and!; [done|constructor|done].
    - pose proof fraction_nil. pose proof exponent_nil. destruct s as [|c s]; [left; naive_solver|].
      eapply answers_iff; [| |by apply scan_zero_answers]; naive_solver. }
  destruct (is_digit c) eqn:Hc; cbn [andb negb].
  - eapply answers_iff; [symmetry; rewrite integer_cons|symmetry; rewrite float_cons|exact (scan_digit_first c s Hc)];
      naive_solver.
  - right; right. split; [done|]. rewrite integer_cons, float_cons. split.
    + intros [([?|?] & _)|[(? & _)|[(? & _)|(? & _)]]]; congruence.
    + intros [(? & _)|[(? & _)|[(? & _)|(? & _)]]]; congruence.
Qed.

(** A word is no number. *)
Lemma word_digits ws s :
  forallb (fun w => match scan_possible_number_token (bytes_of w) with STRING => true | _ => false end) ws = true ->
  any_word ws s = true -> ~ integer_text s /\ ~ float_number s.
Proof.
  intros Hws Hs. assert (scan_possible_number_token s = STRING) as Hscan.
  { unfold any_word in Hs. apply existsb_exists in Hs as (w & Hw & Hs). apply bool_decide_eq_true in Hs as ->.
    rewrite forallb_forall in Hws. specialize (Hws w Hw). by destruct (scan_possible_number_token _). }
  destruct (scan_number_answers s) as [(H & _)|[(H & _)|(_ & H)]]; congruence || done.
Qed.

Lemma words_disjoint ws ws' s :
  forallb (fun w => negb (any_word ws' (bytes_of w))) ws = true -> any_word ws s = true -> any_word ws' s = false.
Proof.
  unfold any_word at 2. intros Hws (w & Hw & Hs)%existsb_exists. apply bool_decide_eq_true in Hs as ->.
  rewrite forallb_forall in Hws. specialize (Hws w Hw). by apply negb_true_iff in Hws.
Qed.

Lemma scan_number_string s :
  any_word null_words s = false -> any_word bool_words s = false -> any_word float_words s = false ->
  ~ integer_text s -> ~ float_number s -> scan s = STRING.
Proof.
  intros Hn Hb Hf Hi Hfl. rewrite scan_words, Hn, Hb, Hf.
  destruct (scan_number_answers s) as [(_ & H & _)|[(_ & H & _)|(H & _)]]; done.
Qed.
Lemma scan_integer s : integer_text s -> scan s = INTEGER.
Proof.
  intros Hi. rewrite scan_words.
  destruct (any_word null_words s) eqn:Hn; [by destruct (word_digits null_words s eq_refl Hn)|].
  destruct (any_word bool_words s) eqn:Hb; [by destruct (word_digits bool_words s eq_refl Hb)|].
  destruct (any_word float_words s) eqn:Hf; [by destruct (word_digits float_words s eq_refl Hf)|].
  destruct (scan_number_answers s) as [(H & _ & _)|[(_ & _ & H)|(_ & H & _)]]; done.
Qed.
Lemma scan_float s : float_number s -> scan s = FLOAT.
Proof.
  intros Hi. rewrite scan_words.
  destruct (any_word null_words s) eqn:Hn; [by destruct (word_digits null_words s eq_refl Hn)|].
  destruct (any_word bool_words s) eqn:Hb; [by destruct (word_digits bool_words s eq_refl Hb)|].
  destruct (any_word float_words s); [done|].
  destruct (scan_number_answers s) as [(_ & _ & H)|[(H & _ & _)|(_ & _ & H)]]; done.
Qed.

(** ** Properties *)

(** C27: the scanner decides by the grammar. A plain scalar is a null or a boolean
    exactly when it is one of their words, an integer when it is decimal (with no
    leading zero unless signed), octal or hexadecimal, a floating point number
    when it is one of the words for infinities and NaN or a decimal with a
    fraction or an exponent; and a string in all other cases. *)
Theorem scan_meets_grammar s :
  (scan s = NULL_OBJECT <-> any_word null_words s = true) /\
  (scan s = BOOLEAN <-> any_word bool_words s = true) /\
  (scan s = INTEGER <-> integer_text s) /\
  (scan s = FLOAT <-> float_text s) /\
  (scan s = STRING <-> any_word null_words s = false /\ any_word bool_words s = false /\
     ~ integer_text s /\ ~ float_text s).
Proof.
  rewrite scan_words. unfold float_text.
  pose proof (word_digits null_words s eq_refl) as Hn. pose proof (word_digits bool_words s eq_refl) as Hb.
  pose proof (word_digits float_words s eq_refl) as Hf.
  pose proof (words_disjoint null_words bool_words s eq_refl) as Hnb.
  pose proof (words_disjoint null_words float_words s eq_refl) as Hnf.
  pose proof (words_disjoint bool_words float_words s eq_refl) as Hbf.
  destruct (any_word null_words s); [|destruct (any_word bool_words s); [|destruct (any_word float_words s)]].
  - destruct (Hn eq_refl). rewrite (Hnb eq_refl), (Hnf eq_refl). split_and!; naive_solver.
  - destruct (Hb eq_refl). rewrite (Hbf eq_refl). split_and!; naive_solver.
  - destruct (Hf eq_refl). split_and!; naive_solver.
  - destruct (scan_number_answers s) as [(-> & ? & ?)|[(-> & ? & ?)|(-> & ? & ?)]]; split_and!; naive_solver.
Qed.
