(* ===== verification/YamlConv.v ===== *)
(** * YamlConv: the values of plain scalars (libs/fkyaml: [aton], [atob],
    [atoi] for 64-bit signed integers).

    The library compares a decimal text with the limits before it converts it.
    Its integers wrap around where C++ leaves signed overflow open, which the
    library relies on. *)
From S2P Require Import Prelude Text CxxString Yaml YamlScan.
From Stdlib Require Import Ascii.
From Stdlib Require String.
Local Open Scope Z_scope.

Definition aton (s : chars) : bool :=
  if bool_decide (length s = 4%nat) then any_word ["null"; "Null"; "NULL"] s
  else if bool_decide (length s = 1%nat) then word "~" s
  else false.

Definition atob (s : chars) : option bool :=
  if bool_decide (length s = 4%nat) then if any_word ["true"; "True"; "TRUE"] s then Some true else None
  else if bool_decide (length s = 5%nat) then if any_word ["false"; "False"; "FALSE"] s then Some false else None
  else None.

(** ** Integers *)

(** [conv_limits<8, true>]. *)
Definition max_chars_dec : nat := 19.
Definition max_value_chars_dec : chars := bytes_of "9223372036854775807".
Definition min_value_chars_dec : chars := bytes_of "9223372036854775808".
Definition max_chars_oct : nat := 22.
Definition max_chars_hex : nat := 16.
Definition check_if_octs_safe (octs : chars) : bool :=
  (length octs <? max_chars_oct)%nat ||
  ((length octs =? max_chars_oct)%nat && match octs with c :: _ => code c <=? code "1" | [] => false end).
Definition check_if_hexs_safe (hexs : chars) : bool := (length hexs <=? max_chars_hex)%nat.

(** The loops: [i = i * radix + digit], up to a character that is no digit. *)
Fixpoint accumulate (radix : Z) (digit_of : ascii -> option Z) (s : chars) (i : Z) : option Z :=
  match s with
  | [] => Some i
  | c :: s => match digit_of c with Some d => accumulate radix digit_of s (s64 (i * radix + d)) | None => None end
  end.

Definition dec_digit (c : ascii) : option Z := if is_digit c then Some (code c - code "0") else None.
Definition oct_digit (c : ascii) : option Z := if between "0" "7" c then Some (code c - code "0") else None.
Definition hex_digit (c : ascii) : option Z :=
  if between "0" "9" c then Some (code c - code "0")
  else if between "A" "F" c then Some (code c - code "A" + 10)
  else if between "a" "f" c then Some (code c - code "a" + 10)
  else None.

Definition atoi_dec_unchecked (s : chars) : option Z := accumulate 10 dec_digit s 0.

(** The first character that differs decides whether a text of the same length
    is past the limit. A [char] is signed. *)
Definition schar (c : ascii) : Z := if code c <? 128 then code c else code c - 256.
Fixpoint past_limit (s limit : chars) : bool :=
  match s, limit with
  | c :: s, m :: limit => if schar c <? schar m then false else if schar m <? schar c then true else past_limit s limit
  | _, _ => false
  end.

Definition atoi_dec (limit : chars) (s : chars) : option Z :=
  match s with
  | [] => None
  | _ =>
      if (max_chars_dec <? length s)%nat then None
      else if (length s =? max_chars_dec)%nat && past_limit s limit then None
      else atoi_dec_unchecked s
  end.
Definition atoi_dec_pos : chars -> option Z := atoi_dec max_value_chars_dec.
Definition atoi_dec_neg : chars -> option Z := atoi_dec min_value_chars_dec.

Definition atoi_oct (s : chars) : option Z :=
  match s with
  | [] => None
  | _ => if negb (check_if_octs_safe s) then None else accumulate 8 oct_digit s 0
  end.
Definition atoi_hex (s : chars) : option Z :=
  match s with
  | [] => None
  | _ => if negb (check_if_hexs_safe s) then None else accumulate 16 hex_digit s 0
  end.

Definition atoi (s : chars) : option Z :=
  match s with
  | [] => None
  | first :: rest =>
      if Ascii.eqb first "+" then atoi_dec_pos rest
      else if Ascii.eqb first "-" then i ← atoi_dec_neg rest; Some (s64 (i * -1))
      else if negb (Ascii.eqb first "0") then atoi_dec_pos s
      else
        match rest with
        | [] => Some 0
        | c :: rest =>
            if Ascii.eqb c "o" then atoi_oct rest
            else if Ascii.eqb c "x" then atoi_hex rest
            else None
        end
  end.

Example atoi_values :
  atoi <$> (bytes_of <$> ["12"; "-7"; "+007"; "0o17"; "0xFf"; "9223372036854775807"; "9223372036854775808";
    "-9223372036854775808"; "-9223372036854775809"; "007"; "0xFFFFFFFFFFFFFFFF"])
  = [Some 12; Some (-7); Some 7; Some 15; Some 255; Some (2 ^ 63 - 1); None; Some (- 2 ^ 63); None; None; Some (-1)].
Proof. vm_compute. reflexivity. Qed.

(** ** The value of a text *)
Definition digit_value (c : ascii) : Z := default 0 (hex_digit c).
Definition radix_value (radix : Z) (s : chars) : Z := foldl (fun i c => radix * i + digit_value c) 0 s.

(** The sign of a decimal. *)
Definition signed (sign : chars) (v : Z) : Z := match sign with ["-"%char] => - v | _ => v end.

(** ** Lemmas *)
Definition digit_kind (radix : Z) (digit_of : ascii -> option Z) (c : ascii) : Prop :=
  digit_of c = Some (digit_value c) /\ 0 <= digit_value c < radix.

Lemma forall_ascii (p : ascii -> bool) : forallb (fun n => p (ascii_of_nat n)) (seq 0 256) = true -> forall c, p c = true.
Proof.
  intros H c. rewrite forallb_forall in H. rewrite <- (ascii_nat_embedding c). apply H.
  apply in_seq. pose proof (nat_ascii_bounded c). lia.
Qed.

(** A property of the characters that meet a test, by trying all of them. *)
Definition kind_test (radix : Z) (digit_of : ascii -> option Z) (p : ascii -> bool) (c : ascii) : bool :=
  negb (p c) || (bool_decide (digit_of c = Some (digit_value c)) && (0 <=? digit_value c) && (digit_value c <? radix)).
Lemma digit_kinds radix digit_of (p : ascii -> bool) :
  forallb (fun n => kind_test radix digit_of p (ascii_of_nat n)) (seq 0 256) = true ->
  forall c, p c = true -> digit_kind radix digit_of c.
Proof.
  intros H c Hc. pose proof (forall_ascii (kind_test radix digit_of p) H c) as Hp.
  unfold kind_test in Hp. rewrite Hc in Hp. cbn [negb orb] in Hp.
  apply andb_true_iff in Hp as [[Hp H1]%andb_true_iff H2]. apply bool_decide_eq_true in Hp. split; [done|lia].
Qed.
Lemma is_digit_kind c : is_digit c = true -> digit_kind 10 dec_digit c.
Proof. apply digit_kinds. vm_compute. reflexivity. Qed.
Lemma octal_kind c : between "0" "7" c = true -> digit_kind 8 oct_digit c.
Proof. apply digit_kinds. vm_compute. reflexivity. Qed.
Lemma hexadecimal_kind c : is_xdigit c = true -> digit_kind 16 hex_digit c.
Proof. apply digit_kinds. vm_compute. reflexivity. Qed.

Lemma s64_step r x d : s64 (s64 x * r + d) = s64 (x * r + d).
Proof.
  unfold s64. f_equal.
  replace ((((x + 2 ^ 63) `mod` 2 ^ 64 - 2 ^ 63) * r + d) + 2 ^ 63)
    with ((x * r + d + 2 ^ 63) + (- r * ((x + 2 ^ 63) / 2 ^ 64)) * 2 ^ 64)
    by (rewrite Z.mod_eq by lia; ring).
  by rewrite Z.mod_add by lia.
Qed.

Lemma accumulate_value radix digit_of s i :
  Forall (digit_kind radix digit_of) s -> s64 i = i ->
  accumulate radix digit_of s i = Some (s64 (foldl (fun i c => radix * i + digit_value c) i s)).
Proof.
  assert (forall s i, Forall (digit_kind radix digit_of) s ->
    accumulate radix digit_of s (s64 i) = Some (s64 (foldl (fun i c => radix * i + digit_value c) i s))) as H.
  { clear. intros s. induction s as [|c s IH]; intros i Hs; [done|].
    apply list.Forall_cons in Hs as [[Hc _] Hs]. cbn. rewrite Hc, s64_step, IH by done. do 3 f_equal. lia. }
  intros Hs Hi. by rewrite <- Hi at 1; rewrite H.
Qed.

Lemma radix_value_acc radix s i :
  foldl (fun i c => radix * i + digit_value c) i s = i * radix ^ Z.of_nat (length s) + radix_value radix s.
Proof.
  unfold radix_value. revert i. induction s as [|c s IH]; intros i; [cbn; lia|].
  cbn [foldl length]. rewrite IH, (IH (radix * 0 + _)). rewrite Nat2Z.inj_succ, Z.pow_succ_r by lia. ring.
Qed.
Lemma radix_value_cons radix c s :
  radix_value radix (c :: s) = digit_value c * radix ^ Z.of_nat (length s) + radix_value radix s.
Proof. unfold radix_value at 1. cbn [foldl]. rewrite radix_value_acc. ring. Qed.
Lemma radix_value_range radix digit_of s :
  1 < radix -> Forall (digit_kind radix digit_of) s -> 0 <= radix_value radix s < radix ^ Z.of_nat (length s).
Proof.
  intros Hr. induction s as [|c s IH]; [cbn; lia|]. intros [[_ Hc] Hs]%list.Forall_cons.
  specialize (IH Hs). rewrite radix_value_cons. cbn [length]. rewrite Nat2Z.inj_succ, Z.pow_succ_r by lia. nia.
Qed.

Lemma schar_digit c : is_digit c = true -> schar c = code "0" + digit_value c.
Proof.
  intros Hc. pose proof (forall_ascii (fun c => negb (is_digit c) || (schar c =? code "0" + digit_value c)) eq_refl c) as H.
  cbn beta in H. rewrite Hc in H. cbn [negb orb] in H. lia.
Qed.

Lemma digits_kind s : digits s -> Forall (digit_kind 10 dec_digit) s.
Proof. intros Hs. by apply (list.Forall_impl _ _ _ Hs), is_digit_kind. Qed.

Lemma past_limit_spec s m :
  digits s -> digits m -> length s = length m -> past_limit s m = (radix_value 10 m <? radix_value 10 s).
Proof.
  revert m. induction s as [|c s IH]; intros [|a m]; [done..|].
  intros [Hc Hs]%digits_cons [Ha Hm]%digits_cons [= Hl]. cbn [past_limit].
  rewrite !schar_digit by done. rewrite !radix_value_cons, Hl.
  pose proof (radix_value_range 10 dec_digit s ltac:(lia) (digits_kind s Hs)) as H1.
  pose proof (radix_value_range 10 dec_digit m ltac:(lia) (digits_kind m Hm)) as H2. rewrite Hl in H1.
  rewrite (IH m Hs Hm Hl). set (p := 10 ^ Z.of_nat (length m)) in *.
  destruct (Z.ltb_spec (code "0" + digit_value c) (code "0" + digit_value a));
    [symmetry; apply Z.ltb_ge; nia|].
  destruct (Z.ltb_spec (code "0" + digit_value a) (code "0" + digit_value c)); [symmetry; apply Z.ltb_lt; nia|].
  assert (digit_value c = digit_value a) as -> by lia.
  destruct (Z.ltb_spec (radix_value 10 m) (radix_value 10 s)); symmetry; [apply Z.ltb_lt|apply Z.ltb_ge]; lia.
Qed.

(** The conversion of digits with the comparison before: the value, when it fits
    and there are at most 19 of them. *)
Lemma atoi_dec_value limit s :
  digits s -> s <> [] -> digits limit -> length limit = max_chars_dec -> 10 ^ 18 <= radix_value 10 limit ->
  atoi_dec limit s =
  if (length s <=? max_chars_dec)%nat && (radix_value 10 s <=? radix_value 10 limit)
  then Some (s64 (radix_value 10 s)) else None.
Proof.
  intros Hs Hne Hlim Hlen Hbig. pose proof (digits_kind s Hs) as Hk.
  pose proof (radix_value_range 10 dec_digit s ltac:(lia) Hk) as Hr.
  pose proof (radix_value_range 10 dec_digit limit ltac:(lia) (digits_kind limit Hlim)) as Hrl.
  assert (atoi_dec_unchecked s = Some (s64 (radix_value 10 s))) as Hv by by apply accumulate_value.
  unfold atoi_dec. destruct s as [|c s']; [done|]. set (s := c :: s') in *. rewrite Hlen in Hrl.
  destruct (Nat.ltb_spec max_chars_dec (length s)) as [Hl|Hl].
  { by rewrite (proj2 (Nat.leb_gt _ _)) by done. }
  rewrite (proj2 (Nat.leb_le _ _)) by done. cbn [andb].
  destruct (Nat.eqb_spec (length s) max_chars_dec) as [He|He]; cbn [andb].
  - rewrite past_limit_spec by congruence || done. rewrite Z.ltb_antisym.
    by destruct (radix_value 10 s <=? radix_value 10 limit); cbn [negb].
  - rewrite (proj2 (Z.leb_le _ _)); [done|].
    assert (10 ^ Z.of_nat (length s) <= 10 ^ 18) by (apply Z.pow_le_mono_r; unfold max_chars_dec in *; lia). lia.
Qed.

Lemma octs_safe s :
  Forall (fun c => between "0" "7" c = true) s -> (length s <= max_chars_oct)%nat ->
  check_if_octs_safe s = (radix_value 8 s <? 2 ^ 64).
Proof.
  intros Hs Hl. unfold check_if_octs_safe, max_chars_oct in *.
  assert (Forall (digit_kind 8 oct_digit) s) as Hk by by apply (list.Forall_impl _ _ _ Hs), octal_kind.
  pose proof (radix_value_range 8 oct_digit s ltac:(lia) Hk) as Hr.
  destruct (Nat.ltb_spec (length s) 22) as [Hlt|Hge]; cbn [orb].
  { symmetry. apply Z.ltb_lt.
    assert (8 ^ Z.of_nat (length s) <= 8 ^ 21) by (apply Z.pow_le_mono_r; lia). lia. }
  assert (length s = 22%nat) as Hl' by lia. rewrite Hl'. cbn [Nat.eqb andb].
  destruct s as [|c s]; [done|]. apply list.Forall_cons in Hk as [[_ Hc] Hk]. cbn in Hl'.
  pose proof (radix_value_range 8 oct_digit s ltac:(lia) Hk) as Hr'. rewrite radix_value_cons.
  replace (length s) with 21%nat in * by lia. change (8 ^ Z.of_nat 21) with (2 ^ 63) in *.
  apply list.Forall_cons in Hs as [Hs _].
  pose proof (forall_ascii (fun c => negb (between "0" "7" c) || (code c =? code "1" + (digit_value c - 1))) eq_refl c) as H.
  cbn beta in H. rewrite Hs in H. cbn [negb orb] in H. apply Z.eqb_eq in H.
  destruct (Z.leb_spec (code c) (code "1")); symmetry; [apply Z.ltb_lt|apply Z.ltb_ge]; nia.
Qed.

Lemma limits_ok :
  digits max_value_chars_dec /\ digits min_value_chars_dec /\
  length max_value_chars_dec = max_chars_dec /\ length min_value_chars_dec = max_chars_dec /\
  radix_value 10 max_value_chars_dec = 2 ^ 63 - 1 /\ radix_value 10 min_value_chars_dec = 2 ^ 63.
Proof. split_and!; [by apply all_digits_spec|by apply all_digits_spec|reflexivity..]. Qed.

Lemma atoi_decimal sign ds : sign_text sign -> digits ds -> ds <> [] -> no_leading_zero sign ds ->
  let v := signed sign (radix_value 10 ds) in
  atoi (sign ++ ds) =
  if (length ds <=? max_chars_dec)%nat && (- 2 ^ 63 <=? v) && (v <? 2 ^ 63) then Some v else None.
Proof.
  intros Hsign Hds Hne Hz v. destruct limits_ok as (Hmax & Hmin & Hlmax & Hlmin & Hvmax & Hvmin).
  pose proof (radix_value_range 10 dec_digit ds ltac:(lia) (digits_kind ds Hds)) as Hr.
  assert (atoi_dec_pos ds = if (length ds <=? max_chars_dec)%nat && (radix_value 10 ds <? 2 ^ 63)
    then Some (radix_value 10 ds) else None) as Hpos.
  { unfold atoi_dec_pos. rewrite atoi_dec_value by (assumption || lia). rewrite Hvmax.
    replace (radix_value 10 ds <=? 2 ^ 63 - 1) with (radix_value 10 ds <? 2 ^ 63) by lia.
    destruct (Z.ltb_spec (radix_value 10 ds) (2 ^ 63)); [|by rewrite andb_false_r].
    by rewrite s64_small by lia. }
  destruct Hsign as [-> | [-> | ->]]; cbn [app].
  - subst v. cbn [signed]. rewrite (proj2 (Z.leb_le (- 2 ^ 63) _)), andb_true_r by lia. rewrite <- Hpos.
    destruct ds as [|c ds]; [done|]. destruct (Hz eq_refl) as [Hc|Hc]; [injection Hc as -> ->; reflexivity|].
    apply digits_cons in Hds as [Hd _]. unfold atoi.
    destruct (orb_false_elim _ _ (sign_not_digit c Hd)) as [-> ->].
    destruct (Ascii.eqb_spec c "0") as [->|_]; [by destruct Hc|done].
  - subst v. cbn [signed]. rewrite (proj2 (Z.leb_le (- 2 ^ 63) _)), andb_true_r by lia. exact Hpos.
  - subst v. cbn [signed atoi]. change (Ascii.eqb "-" "+") with false. change (Ascii.eqb "-" "-") with true. cbv iota.
    unfold atoi_dec_neg. rewrite atoi_dec_value by (assumption || lia). rewrite Hvmin.
    rewrite (proj2 (Z.ltb_lt (- _) _)), andb_true_r by lia.
    replace (- 2 ^ 63 <=? - radix_value 10 ds) with (radix_value 10 ds <=? 2 ^ 63) by lia.
    destruct (Z.leb_spec (radix_value 10 ds) (2 ^ 63)); [|by rewrite andb_false_r].
    rewrite andb_true_r. destruct (length ds <=? max_chars_dec)%nat; [|reflexivity]. cbn [mbind option_bind].
    pose proof (s64_step (-1) (radix_value 10 ds) 0) as Hs. rewrite !Z.add_0_r in Hs. rewrite Hs.
    rewrite s64_small by lia. f_equal. lia.
Qed.

(** ** Properties *)

(** C28: the value of an integer. For every text that the scanner takes for an
    integer: a decimal is converted exactly when it has at most 19 digits and
    its value is a 64-bit signed integer, and then to that value; an octal or
    hexadecimal when its value is below 2^64 (and it has at most 22 or 16
    digits), but to the value reduced to 64 bits with a sign, so that
    0xFFFFFFFFFFFFFFFF reads as -1. *)
Theorem atoi_value :
  (forall sign ds, sign_text sign -> digits ds -> ds <> [] -> no_leading_zero sign ds ->
     let v := signed sign (radix_value 10 ds) in
     atoi (sign ++ ds) =
     if (length ds <=? max_chars_dec)%nat && (- 2 ^ 63 <=? v) && (v <? 2 ^ 63) then Some v else None) /\
  (forall ds, ds <> [] -> Forall (fun c => between "0" "7" c = true) ds ->
     let v := radix_value 8 ds in
     atoi ("0"%char :: "o"%char :: ds) =
     if (length ds <=? max_chars_oct)%nat && (v <? 2 ^ 64) then Some (s64 v) else None) /\
  (forall ds, ds <> [] -> Forall (fun c => is_xdigit c = true) ds ->
     let v := radix_value 16 ds in
     atoi ("0"%char :: "x"%char :: ds) = if (length ds <=? max_chars_hex)%nat then Some (s64 v) else None).
Proof.
  split; [exact atoi_decimal|split].
  - intros ds Hne Hds v. cbn [atoi]. change (Ascii.eqb "0" "+") with false. change (Ascii.eqb "0" "-") with false.
    change (Ascii.eqb "0" "0") with true. change (Ascii.eqb "o" "o") with true. cbv iota. cbn [negb]. cbv iota.
    unfold atoi_oct. destruct ds as [|c ds]; [done|]. set (s := c :: ds) in *.
    assert (Forall (digit_kind 8 oct_digit) s) as Hk by by apply (list.Forall_impl _ _ _ Hds), octal_kind.
    rewrite (accumulate_value _ _ _ _ Hk) by done.
    destruct (Nat.leb_spec (length s) max_chars_oct) as [Hl|Hl]; cbn [andb].
    + rewrite (octs_safe s Hds Hl). fold v. by destruct (v <? 2 ^ 64).
    + unfold check_if_octs_safe. rewrite (proj2 (Nat.ltb_ge _ _)), (proj2 (Nat.eqb_neq _ _)); [done|lia..].
  - intros ds Hne Hds v. cbn [atoi]. change (Ascii.eqb "0" "+") with false. change (Ascii.eqb "0" "-") with false.
    change (Ascii.eqb "0" "0") with true. change (Ascii.eqb "x" "o") with false. change (Ascii.eqb "x" "x") with true.
    cbv iota. cbn [negb]. cbv iota.
    unfold atoi_hex, check_if_hexs_safe. destruct ds as [|c ds]; [done|]. set (s := c :: ds) in *.
    assert (Forall (digit_kind 16 hex_digit) s) as Hk by by apply (list.Forall_impl _ _ _ Hds), hexadecimal_kind.
    rewrite (accumulate_value _ _ _ _ Hk) by done. by destruct (length s <=? max_chars_hex)%nat.
Qed.

Lemma atoi_value_witness :
  atoi (bytes_of "-42") = Some (-42) /\ atoi (bytes_of "0xFFFFFFFFFFFFFFFF") = Some (-1).
Proof.
  destruct atoi_value as (Hd & _ & Hx). split.
  - pose proof (Hd (bytes_of "-") (bytes_of "42") ltac:(right; right; reflexivity)) as H.
    change (bytes_of "-" ++ bytes_of "42") with (bytes_of "-42") in H. cbv zeta in H.
    rewrite H; [reflexivity|by apply all_digits_spec|discriminate|discriminate].
  - pose proof (Hx (bytes_of "FFFFFFFFFFFFFFFF")) as H. cbv zeta in H.
    change (bytes_of "0xFFFFFFFFFFFFFFFF") with ("0"%char :: "x"%char :: bytes_of "FFFFFFFFFFFFFFFF").
    rewrite H; [reflexivity|discriminate|by repeat constructor].
Defined.
