(* ===== verification/Scheduler.v ===== *)
(** * Scheduler: the message schedulers (scheduler.hpp, tcpudp_scheduler.hpp,
    rdma_scheduler.hpp).

    A scheduler keeps the addresses to ping, reloads them from the downloaded
    YAML files every [load_config_interval_sec] seconds, and hands them out in
    turn, spaced by [inter_ping_interval_us]. The UDP and RDMA classes share
    their text but for the kind of an address and one constant; the shared
    parts are stated once, parametric in those. Clock readings are
    nanoseconds of the steady clock; a file is [None] when the deserialiser
    throws. *)
From S2P Require Import Prelude Prog Format Text CxxString Ini Common Yaml.
Import Yaml.
Local Open Scope Z_scope.

(** ** State *)
Record scheduler (A : Type) := Scheduler {
  addressInfo : list A;
  addr_idx : nat;
  load_config_interval_sec : Z;
  last_ping_time : Z;
  last_load_time : Z;
  inter_ping_interval_us : Z;
  interval_send_ping_microsec : Z;
  load_yaml_retry_cnt : Z }.
Arguments Scheduler {A}.
Arguments addressInfo {A} _.
Arguments addr_idx {A} _.
Arguments load_config_interval_sec {A} _.
Arguments last_ping_time {A} _.
Arguments last_load_time {A} _.
Arguments inter_ping_interval_us {A} _.
Arguments interval_send_ping_microsec {A} _.
Arguments load_yaml_retry_cnt {A} _.

Definition MAX_RETRY_LOAD_YAML : Z := 3.

Section scheduler.
Context {A : Type}.
Implicit Types (s : scheduler A).

Definition with_idx (i : nat) s : scheduler A :=
  Scheduler (addressInfo s) i (load_config_interval_sec s) (last_ping_time s) (last_load_time s)
    (inter_ping_interval_us s) (interval_send_ping_microsec s) (load_yaml_retry_cnt s).
Definition with_ping_time (t : Z) s : scheduler A :=
  Scheduler (addressInfo s) (addr_idx s) (load_config_interval_sec s) t (last_load_time s)
    (inter_ping_interval_us s) (interval_send_ping_microsec s) (load_yaml_retry_cnt s).
Definition with_load_time (t : Z) s : scheduler A :=
  Scheduler (addressInfo s) (addr_idx s) (load_config_interval_sec s) (last_ping_time s) t
    (inter_ping_interval_us s) (interval_send_ping_microsec s) (load_yaml_retry_cnt s).
Definition with_addresses (l : list A) (cnt : Z) s : scheduler A :=
  Scheduler l (addr_idx s) (load_config_interval_sec s) (last_ping_time s) (last_load_time s)
    (inter_ping_interval_us s) (interval_send_ping_microsec s) cnt.
Definition with_interval (us : Z) s : scheduler A :=
  Scheduler (addressInfo s) (addr_idx s) (load_config_interval_sec s) (last_ping_time s)
    (last_load_time s) us (interval_send_ping_microsec s) (load_yaml_retry_cnt s).

(** The constructor of [MsgScheduler]; [None] is [exit(1)]. The two clock
    readings initialise the two times. *)
Definition MsgScheduler (protocol : string) (ini : option chars) (now_ping now_load : Z)
  : option (outcome (scheduler A)) :=
  if negb (bool_decide (protocol ∈ TARGET_PROTOCOLS)) then None
  else Some (
    '(r, send) ← get_int_param_from_ini ini 0 ("interval_send_ping_" +:+ protocol +:+ "_microsec");
    let send := if IS_FAILURE r then 1000000 else send in
    '(r, load) ← get_int_param_from_ini ini 0 "interval_sync_pinglist_sec";
    let load := if IS_FAILURE r then 10 else load in
    Ret (Scheduler [] 0 load now_ping now_load 1000 send 0)).

(** The part of [load_address_info] below the label [failed]. *)
Definition failed_label s : scheduler A :=
  let cnt := load_yaml_retry_cnt s + 1 in
  if MAX_RETRY_LOAD_YAML <=? cnt then with_addresses [] 0 s
  else with_addresses (addressInfo s) cnt s.

(** The part of [load_address_info] that renews the addresses. The [int]
    interval is converted to [size_t] for the division. *)
Definition renew_addresses (addressInfoNew : list A) (failed : bool) s : scheduler A :=
  let s := with_addresses addressInfoNew 0 s in
  let s :=
    match addressInfo s with
    | [] => with_interval 1000000 s
    | _ => with_interval
             (u64 (interval_send_ping_microsec s) `div` Z.of_nat (length (addressInfo s))) s
    end in
  if failed then failed_label s else s.

(** [next]: [load] is the class's [load_address_info], [idle_us] its sleep when
    there is nothing to send. [load_now] and [ping_now] are its two clock
    readings. The result is the status, the address if there is one, the time
    to sleep and the new state. *)
Definition next (load : scheduler A -> outcome (scheduler A)) (idle_us : Z)
  (load_now ping_now : Z) s : outcome (Z * option A * Z * scheduler A) :=
  s ← (if load_config_interval_sec s <? Clock.to_seconds (load_now - last_load_time s)
       then s ← load s; Ret (with_load_time load_now s)
       else Ret s);
  let ping_elapsed_time_us := Clock.to_microseconds (ping_now - last_ping_time s) in
  if inter_ping_interval_us s <=? u64 ping_elapsed_time_us then
    let s := with_ping_time ping_now s in
    let n := length (addressInfo s) in
    match addressInfo s with
    | [] => Ret (PINGWEAVE_FAILURE, None, idle_us, s)
    | _ =>
        match addressInfo s !! (addr_idx s `mod` n)%nat with
        | Some result =>
            Ret (PINGWEAVE_SUCCESS, Some result, 0, with_idx ((addr_idx s + 1) `mod` n)%nat s)
        | None => Undef
        end
    end
  else
    Ret (PINGWEAVE_FAILURE, None, u64 (inter_ping_interval_us s - ping_elapsed_time_us), s).
End scheduler.

(** ** The two sections of the ping list

    [add] is what the class does with a target address. *)
Section pinglist.
Context {St : Type} (protocol ipaddr : string) (add : string -> prog St unit).

(** A group of the mesh: if my address is in it, take all of it. *)
Definition mesh_group (group : node) : prog St unit :=
  ips ← lift (children group);
  for_each (fun ip : node =>
    ip ← lift (get_str ip);
    if String.eqb ip ipaddr then
      ips2 ← lift (children group);
      for_each (go_on (fun ip2 : node => targetIp ← lift (get_str ip2); add targetIp)) ips2;;
      mret true
    else mret false) ips.

Definition load_mesh (pinglist : node) : prog St unit :=
  if contains pinglist "mesh" then
    mesh ← lift (at_key pinglist "mesh");
    if contains mesh protocol then
      groups ← lift (at_key mesh protocol);
      if is_null groups then mret tt
      else
        gs ← lift (children groups);
        for_each (go_on mesh_group) gs
    else mret tt
  else mret tt.

(** Whether my address is among the sources: the loop stops at the first hit. *)
Fixpoint in_src_list (srcs : list node) : outcome bool :=
  match srcs with
  | [] => Ret false
  | ip :: srcs =>
      srcip ← get_str ip;
      if String.eqb srcip ipaddr then Ret true else in_src_list srcs
  end.

Definition arrow_group (group : node) : prog St unit :=
  if negb (contains group "src") || negb (contains group "dst") then mret tt
  else
    src ← lift (at_key group "src");
    srcs ← lift (children src);
    check_ip_in_src_list ← lift (in_src_list srcs);
    if negb check_ip_in_src_list then mret tt
    else
      dst ← lift (at_key group "dst");
      dsts ← lift (children dst);
      for_each (go_on (fun dstip : node => targetIp ← lift (get_str dstip); add targetIp)) dsts.

Definition load_arrow (pinglist : node) : prog St unit :=
  if contains pinglist "arrow" then
    arrow ← lift (at_key pinglist "arrow");
    if contains arrow protocol then
      groups ← lift (at_key arrow protocol);
      if is_null groups then mret tt
      else
        gs ← lift (children groups);
        for_each (go_on arrow_group) gs
    else mret tt
  else mret tt.
End pinglist.

(** [try { ... } catch (const std::exception &) { failed = true; }]. *)
Definition try_catch {St} (p : prog St unit) (st : St) : outcome (St * bool) :=
  match p st with
  | (st, Ret _) => Ret (st, false)
  | (st, Throw _) => Ret (st, true)
  | (_, Undef) => Undef
  end.

(** ** TcpUdpMsgScheduler *)
Module Udp.
(** [addressInfoNew] and [addressIpNew]. *)
Record loading := Loading { infoNew : list string; ipNew : gset string }.

Definition add_target (targetIp : string) : prog loading unit :=
  modify (fun l => if decide (targetIp ∈ ipNew l) then l
                   else Loading (infoNew l ++ [targetIp]) ({[targetIp]} ∪ ipNew l)).

Definition load_address_info (protocol ipaddr : string) (pinglist : option node)
  (s : scheduler string) : outcome (scheduler string) :=
  let s := with_idx 0 s in
  match pinglist with
  | None => Ret (failed_label s)
  | Some pinglist =>
      '(l, failed1) ← try_catch (load_mesh protocol ipaddr add_target pinglist) (Loading [] ∅);
      '(l, failed2) ← try_catch (load_arrow protocol ipaddr add_target pinglist) l;
      Ret (renew_addresses (infoNew l) (failed1 || failed2) s)
  end.

Definition next (protocol ipaddr : string) (pinglist : option node) :=
  next (load_address_info protocol ipaddr pinglist) 100000.
End Udp.

(** ** RdmaMsgScheduler *)
Module Rdma.
(** (ip, gid, lid, qpn). *)
Abbreviation address := (string * string * Z * Z)%type.

Record loading := Loading {
  infoNew : list address; ipNew : gset string; relevantIps : list string }.

Definition add_relevant (ip : string) : prog loading unit :=
  modify (fun l => Loading (infoNew l) (ipNew l) (relevantIps l ++ [ip])).

(** One entry of the address store. [addressIpNew] gets the address before the
    other fields are read. *)
Definition store_entry (it : node) : prog loading unit :=
  ip ← lift (n ← at_index it 0; get_str n);
  l ← (fun l => (l, Ret l)) : prog loading loading;
  if bool_decide (ip ∈ relevantIps l) then
    if decide (ip ∈ ipNew l) then mret tt
    else
      modify (fun l => Loading (infoNew l) ({[ip]} ∪ ipNew l) (relevantIps l));;
      gid ← lift (n ← at_index it 1; get_str n);
      lid ← lift (n ← at_index it 2; get_int n);
      qpn ← lift (n ← at_index it 3; get_int n);
      modify (fun l => Loading (infoNew l ++ [(ip, gid, u32 lid, u32 qpn)]) (ipNew l)
                         (relevantIps l))
  else mret tt.

Definition update_addresses (addressStore : node) : prog loading unit :=
  its ← lift (children addressStore); for_each (go_on store_entry) its.

Definition load_address_info (protocol ipaddr : string) (pinglist addressStore : option node)
  (s : scheduler address) : outcome (scheduler address) :=
  let s := with_idx 0 s in
  match pinglist with
  | None => Ret (failed_label s)
  | Some pinglist =>
      match addressStore with
      | None => Ret (failed_label s)
      | Some addressStore =>
          '(l, failed1) ← try_catch
            (load_mesh protocol ipaddr add_relevant pinglist;; update_addresses addressStore)
            (Loading [] ∅ []);
          let l := Loading (infoNew l) (ipNew l) [] in
          '(l, failed2) ← try_catch
            (load_arrow protocol ipaddr add_relevant pinglist;; update_addresses addressStore) l;
          Ret (renew_addresses (infoNew l) (failed1 || failed2) s)
      end
  end.

Definition next (protocol ipaddr : string) (pinglist addressStore : option node) :=
  next (load_address_info protocol ipaddr pinglist addressStore) 1000000.
End Rdma.

(** ** Round robin *)
Section round_robin.
Context {A : Type} (load : scheduler A -> outcome (scheduler A)) (idle_us : Z).

(** A sequence of calls of [next] with their two clock readings: the addresses
    handed out, each with the time of its ping. *)
Fixpoint calls (readings : list (Z * Z)) (s : scheduler A)
  : outcome (list (Z * A) * scheduler A) :=
  match readings with
  | [] => Ret ([], s)
  | (load_now, ping_now) :: readings =>
      '(r, result, us, s) ← next load idle_us load_now ping_now s;
      '(l, s) ← calls readings s;
      Ret (match result with Some a => (ping_now, a) :: l | None => l end, s)
  end.

(** No reading is late enough to reload the addresses. *)
Definition no_reload (s : scheduler A) (readings : list (Z * Z)) : Prop :=
  Forall (fun p => Clock.to_seconds (p.1 - last_load_time s) <= load_config_interval_sec s)
    readings.

(** Each ping is at least [us] microseconds after the one before. *)
Fixpoint spaced (us last : Z) (ts : list Z) : Prop :=
  match ts with
  | [] => True
  | t :: ts => us <= u64 (Clock.to_microseconds (t - last)) /\ spaced us t ts
  end.

Lemma next_no_reload s load_now ping_now :
  Clock.to_seconds (load_now - last_load_time s) <= load_config_interval_sec s ->
  addressInfo s <> [] ->
  let n := length (addressInfo s) in
  (inter_ping_interval_us s <= u64 (Clock.to_microseconds (ping_now - last_ping_time s)) /\
   exists a, addressInfo s !! (addr_idx s `mod` n)%nat = Some a /\
     next load idle_us load_now ping_now s
       = Ret (PINGWEAVE_SUCCESS, Some a, 0,
              with_idx ((addr_idx s + 1) `mod` n)%nat (with_ping_time ping_now s))) \/
  (exists us, next load idle_us load_now ping_now s = Ret (PINGWEAVE_FAILURE, None, us, s)).
Proof.
  intros Hload Hne n. unfold next. rewrite (proj2 (Z.ltb_ge _ _)) by lia.
  cbv [mbind outcome_bind]. destruct (Z.leb_spec (inter_ping_interval_us s)
    (u64 (Clock.to_microseconds (ping_now - last_ping_time s)))); [|right; by eexists].
  left. split; [done|]. cbn [addressInfo with_ping_time addr_idx]. fold n.
  assert ((addr_idx s `mod` n) < n)%nat as Hlt.
  { apply Nat.mod_upper_bound. unfold n. by destruct (addressInfo s). }
  destruct (lookup_lt_is_Some_2 _ _ Hlt) as [a Ha]. exists a. rewrite Ha. split; [done|].
  by destruct (addressInfo s) eqn:E.
Qed.

Lemma calls_rotation readings s :
  addressInfo s <> [] -> no_reload s readings ->
  exists l s', calls readings s = Ret (l, s') /\
    addressInfo s' = addressInfo s /\
    (forall i a, l.*2 !! i = Some a ->
       addressInfo s !! ((addr_idx s + i) `mod` length (addressInfo s))%nat = Some a) /\
    spaced (inter_ping_interval_us s) (last_ping_time s) l.*1.
Proof.
  revert s. induction readings as [|[ln pn] readings IH]; intros s Hne Hnr.
  - exists [], s. split_and!; [done|done|intros [] a; done|done].
  - apply list.Forall_cons in Hnr as [Hl Hnr]. cbn in Hl. cbn [calls].
    destruct (next_no_reload s ln pn Hl Hne) as [(Hsp & a & Ha & ->)|(us & ->)];
      cbv [mbind outcome_bind].
    + destruct (IH (with_idx ((addr_idx s + 1) `mod` length (addressInfo s))%nat
        (with_ping_time pn s)) Hne Hnr) as (l & s' & -> & Hs' & Hrot & Hspc).
      exists ((pn, a) :: l), s'. split_and!; [done|done| |done].
      intros [|i] b Hb; cbn in Hb; [rewrite Nat.add_0_r; congruence|].
      apply Hrot in Hb. cbn in Hb. rewrite <- Hb. f_equal.
      rewrite Nat.Div0.add_mod_idemp_l. f_equal. lia.
    + destruct (IH s Hne Hnr) as (l & s' & -> & Hrest). by exists l, s'.
Qed.

(** A list read from position [k] on, around its end, once. *)
Lemma rotation_permutation (l r : list A) k :
  length r = length l ->
  (forall i a, r !! i = Some a -> l !! ((k + i) `mod` length l)%nat = Some a) ->
  r ≡ₚ l.
Proof.
  intros Hlen Hrot. destruct (decide (l = [])) as [->|Hne]; [by destruct r|].
  set (n := length l) in *. assert (n <> 0%nat) as Hn by (unfold n; by destruct l).
  set (k0 := (k `mod` n)%nat). assert (k0 < n)%nat as Hk0 by (by apply Nat.mod_upper_bound).
  assert (r = drop k0 l ++ take k0 l) as ->.
  2:{ rewrite Permutation_app_comm. by rewrite take_drop. }
  apply list_eq. intros i. destruct (r !! i) as [a|] eqn:Hr.
  - pose proof (lookup_lt_Some _ _ _ Hr) as Hi. rewrite Hlen in Hi. apply Hrot in Hr.
    rewrite <- Hr, <- (Nat.Div0.add_mod_idemp_l k i n). fold k0.
    destruct (decide (k0 + i < n)%nat).
    + rewrite Nat.mod_small by done. rewrite lookup_app_l by (rewrite length_drop; fold n; lia).
      by rewrite lookup_drop.
    + replace ((k0 + i) `mod` n)%nat with (k0 + i - n)%nat.
      2:{ replace (k0 + i)%nat with ((k0 + i - n) + 1 * n)%nat at 2 by lia.
          rewrite Nat.Div0.mod_add. by rewrite Nat.mod_small by lia. }
      rewrite lookup_app_r by (rewrite length_drop; fold n; lia). rewrite length_drop. fold n.
      rewrite lookup_take_lt by lia. f_equal. lia.
  - apply lookup_ge_None in Hr. symmetry. apply lookup_ge_None.
    rewrite length_app, length_drop, length_take. fold n. lia.
Qed.
End round_robin.

(** ** Properties *)

(** Between two reloads [next] hands out the addresses in turn, from
    [addr_idx] on and around the end of the list, each at least the interval
    after the one before; so any run that hands out as many addresses as there
    are hands out each exactly once. *)
Theorem scheduler_round_robin {A} (load : scheduler A -> outcome (scheduler A)) idle_us s readings :
  addressInfo s <> [] -> no_reload s readings ->
  exists l s', calls load idle_us readings s = Ret (l, s') /\
    addressInfo s' = addressInfo s /\
    (forall i a, l.*2 !! i = Some a ->
       addressInfo s !! ((addr_idx s + i) `mod` length (addressInfo s))%nat = Some a) /\
    spaced (inter_ping_interval_us s) (last_ping_time s) l.*1 /\
    (length l = length (addressInfo s) -> l.*2 ≡ₚ addressInfo s).
Proof.
  intros Hne Hnr. destruct (calls_rotation load idle_us readings s Hne Hnr)
    as (l & s' & Hc & Hs & Hrot & Hsp).
  exists l, s'. split_and!; [done|done|done|done|]. intros Hlen.
  apply (rotation_permutation _ _ (addr_idx s)); [by rewrite length_fmap|done].
Qed.

Definition example_scheduler : scheduler string :=
  Scheduler ["10.0.0.1"; "10.0.0.2"; "10.0.0.3"] 1 10 0 0 1000 3000 0.

Lemma scheduler_round_robin_witness :
  addressInfo example_scheduler <> [] /\
  exists s', calls (fun s => Ret s) 100000
    [(500, 1000000); (600, 1500000); (700, 2000000); (800, 3000001)] example_scheduler
    = Ret ([(1000000, "10.0.0.2"); (2000000, "10.0.0.3"); (3000001, "10.0.0.1")], s') /\
    ["10.0.0.2"; "10.0.0.3"; "10.0.0.1"] ≡ₚ addressInfo example_scheduler.
Proof.
  split; [discriminate|].
  destruct (scheduler_round_robin (fun s => Ret s) 100000 example_scheduler
    [(500, 1000000); (600, 1500000); (700, 2000000); (800, 3000001)])
    as (l & s' & Hc & _ & _ & _ & Hp); [discriminate|repeat constructor; vm_compute; congruence|].
  assert (Hc' := Hc). vm_compute in Hc'. injection Hc' as <- Hs. exists s'. split; [exact Hc|].
  apply Hp. reflexivity.
Defined.
