(* ===== verification/SchedulerLoad.v ===== *)
(** * SchedulerLoad: what the schedulers load (proofs about [load_address_info]).

    A reference reads the groups out of a well-formed document; the loops of
    the two classes compute it. Another reference says what is read of any
    document before an error ends the reading, and agrees with the first one on
    well-formed documents. *)
From S2P Require Import Prelude Prog Common Yaml Scheduler.
Import Yaml.
Local Open Scope Z_scope.

(** ** What a well-formed ping list asks for

    The reference: read the lists out of the document, then select. *)
Section targets.
Context (protocol ipaddr : string).

Definition as_str (n : node) : option string := match n with Str s => Some s | _ => None end.

Definition strings_of (n : node) : option (list string) :=
  match children n with Ret l => mapM as_str l | _ => None end.

(** The groups under a category, none when it is absent or null. *)
Definition groups_of (category : string) (pinglist : node) : option (list node) :=
  if contains pinglist category then
    match at_key pinglist category with
    | Ret c =>
        if contains c protocol then
          match at_key c protocol with
          | Ret Null => Some []
          | Ret g => match children g with Ret gs => Some gs | _ => None end
          | _ => None
          end
        else Some []
    | _ => None
    end
  else Some [].

Definition mesh_of (pinglist : node) : option (list (list string)) :=
  gs ← groups_of "mesh" pinglist; mapM strings_of gs.

Definition arrow_group_of (group : node) : option (list string * list string) :=
  if contains group "src" && contains group "dst" then
    match at_key group "src", at_key group "dst" with
    | Ret src, Ret dst => s ← strings_of src; d ← strings_of dst; Some (s, d)
    | _, _ => None
    end
  else Some ([], []).

Definition arrow_of (pinglist : node) : option (list (list string * list string)) :=
  gs ← groups_of "arrow" pinglist; mapM arrow_group_of gs.

Definition mesh_targets (gs : list (list string)) : list string :=
  mjoin (filter (fun g => ipaddr ∈ g) gs).

Definition arrow_targets (gs : list (list string * list string)) : list string :=
  mjoin (snd <$> filter (fun g : list string * list string => ipaddr ∈ g.1) gs).

Lemma targets_spec ms ars ip :
  ip ∈ mesh_targets ms \/ ip ∈ arrow_targets ars <->
  (exists g, g ∈ ms /\ ipaddr ∈ g /\ ip ∈ g) \/ (exists src dst, (src, dst) ∈ ars /\ ipaddr ∈ src /\ ip ∈ dst).
Proof.
  unfold mesh_targets, arrow_targets. rewrite !list_elem_of_join.
  setoid_rewrite list_elem_of_filter. setoid_rewrite list_elem_of_fmap.
  setoid_rewrite list_elem_of_filter. split.
  - intros [(g & Hip & Hg & Hgm)|(g & Hip & [src dst] & -> & Hs & Hsd)].
    + left. by exists g.
    + right. by exists src, dst.
  - intros [(g & Hg & Hme & Hip)|(src & dst & Hsd & Hme & Hip)]; [left|right].
    + by exists g.
    + exists dst. split; [done|]. by exists (src, dst).
Qed.

(** *** What is read of any document

    The targets in the order in which they are read, and whether the reading
    then ends in an error. *)
Abbreviation reading := (list string * bool)%type.

Fixpoint strings_read (ns : list node) : reading :=
  match ns with
  | [] => ([], false)
  | Str s :: ns => (s :: (strings_read ns).1, (strings_read ns).2)
  | _ => ([], true)
  end.

Definition children_read (n : node) : reading :=
  match children n with Ret ns => strings_read ns | _ => ([], true) end.

(** A mesh group that has my address before an error is read as a whole. *)
Definition mesh_group_read (g : node) : reading :=
  let r := children_read g in if bool_decide (ipaddr ∈ r.1) then r else ([], r.2).

Definition arrow_group_read (g : node) : reading :=
  match at_key g "src", at_key g "dst" with
  | Ret src, Ret dst =>
      if contains g "src" && contains g "dst" then
        let r := children_read src in
        if bool_decide (ipaddr ∈ r.1) then children_read dst else ([], r.2)
      else ([], false)
  | _, _ => ([], false)   (* not a mapping: it has neither *)
  end.

(** The groups up to the first error. *)
Fixpoint groups_read (group_read : node -> reading) (gs : list node) : reading :=
  match gs with
  | [] => ([], false)
  | g :: gs =>
      let r := group_read g in
      if r.2 then r
      else (r.1 ++ (groups_read group_read gs).1, (groups_read group_read gs).2)
  end.

Definition category_read (category : string) (group_read : node -> reading) (pinglist : node) : reading :=
  if contains pinglist category then
    match at_key pinglist category with
    | Ret c =>
        if contains c protocol then
          match at_key c protocol with
          | Ret Null => ([], false)
          | Ret g => match children g with Ret gs => groups_read group_read gs | _ => ([], true) end
          | _ => ([], true)
          end
        else ([], false)
    | _ => ([], true)
    end
  else ([], false).

Definition mesh_read : node -> reading := category_read "mesh" mesh_group_read.
Definition arrow_read : node -> reading := category_read "arrow" arrow_group_read.

(** Both sections are read, whether or not the first one has an error. *)
Definition pinglist_read (pinglist : node) : reading :=
  ((mesh_read pinglist).1 ++ (arrow_read pinglist).1, (mesh_read pinglist).2 || (arrow_read pinglist).2).

(** *** The loops of the source compute it, when [add] cannot fail. *)
Section loops.
Context {St : Type} (add : string -> prog St unit) (f : string -> St -> St).
Context (Hadd : forall t st, add t st = (f t st, Ret tt)).

Definition add_all (ts : list string) (st : St) : St := foldl (fun st t => f t st) st ts.

Lemma mapM_as_str_Str l ss : mapM as_str l = Some ss -> l = Str <$> ss.
Proof.
  revert ss. induction l as [|n l IH]; intros ss; cbn; [by intros [= <-]|].
  destruct n; try done. destruct (mapM as_str l) as [ss'|] eqn:E; [|done]. cbn.
  intros [= <-]. cbn. f_equal. by apply IH.
Qed.

Lemma strings_of_children n ss : strings_of n = Some ss -> children n = Ret (Str <$> ss).
Proof.
  unfold strings_of. destruct (children n) as [l| |]; [|done..].
  intros H%mapM_as_str_Str. by subst.
Qed.

Lemma add_loop ts st :
  for_each (go_on (fun n : node => t ← lift (get_str n); add t)) (Str <$> ts) st
  = (add_all ts st, Ret tt).
Proof.
  unfold add_all. revert st. induction ts as [|t ts IH]; intros st; [done|].
  rewrite fmap_cons, (for_each_cons _ _ _ _ (f t st) false); [apply IH|].
  unfold go_on. rewrite (prog_bind_ret _ _ _ (f t st) tt); [done|].
  rewrite (lift_bind _ _ _ t) by done. apply Hadd.
Qed.

Lemma mesh_group_typed g ss st :
  strings_of g = Some ss ->
  mesh_group ipaddr add g st = (if bool_decide (ipaddr ∈ ss) then add_all ss st else st, Ret tt).
Proof.
  intros Hg%strings_of_children. unfold mesh_group. rewrite (lift_bind _ _ _ _ Hg).
  match goal with |- for_each ?b _ _ = _ => set (body := b) end.
  assert (forall rest, for_each body (Str <$> rest) st
    = (if bool_decide (ipaddr ∈ rest) then add_all ss st else st, Ret tt)) as Hrest; [|apply Hrest].
  induction rest as [|s rest IH]; [done|].
  assert (body (Str s) st = (if String.eqb s ipaddr then add_all ss st else st,
    Ret (String.eqb s ipaddr))) as Hbody.
  { unfold body. rewrite (lift_bind _ _ _ s) by done. destruct (String.eqb s ipaddr); [|done].
    rewrite (lift_bind _ _ _ _ Hg). by rewrite (prog_bind_ret _ _ _ _ _ (add_loop ss st)). }
  rewrite fmap_cons, (for_each_cons _ _ _ _ _ _ Hbody).
  destruct (String.eqb_spec s ipaddr) as [->|Hne].
  - by rewrite bool_decide_eq_true_2 by left.
  - rewrite IH. rewrite (bool_decide_ext (ipaddr ∈ s :: rest) (ipaddr ∈ rest)); [done|].
    rewrite elem_of_cons. split; [by intros [->|]|by right].
Qed.

Lemma groups_loop {B} (body : node -> prog St unit) (h : B -> St -> St)
    (parse : node -> option B) gs bs st :
  (forall g b st, parse g = Some b -> body g st = (h b st, Ret tt)) ->
  mapM parse gs = Some bs ->
  for_each (go_on body) gs st = (foldl (fun st b => h b st) st bs, Ret tt).
Proof.
  intros Hbody. revert bs st. induction gs as [|g gs IH]; intros bs st Hm; cbn in Hm; [by injection Hm as <-|].
  destruct (parse g) as [b|] eqn:Hg; [|done]. destruct (mapM parse gs) as [bs'|]; [|done].
  cbn in Hm. injection Hm as <-.
  rewrite (for_each_cons _ _ _ _ (h b st) false); [cbn [foldl]; by apply IH|].
  unfold go_on. rewrite (prog_bind_ret _ _ _ (h b st) tt); [done|]. by apply Hbody.
Qed.

(** Groups handled one after the other are the targets of the chosen ones. *)
Lemma add_groups {B} (mine : B -> Prop) `{forall b, Decision (mine b)} (ts : B -> list string) bs st :
  foldl (fun st b => if bool_decide (mine b) then add_all (ts b) st else st) st bs
  = add_all (mjoin (ts <$> filter mine bs)) st.
Proof.
  unfold add_all. revert st. induction bs as [|b bs IH]; intros st; [done|]. cbn [foldl].
  destruct (decide (mine b)).
  - rewrite bool_decide_eq_true_2, filter_cons_True by done.
    cbn [fmap list_fmap mjoin list_join]. rewrite foldl_app. apply IH.
  - rewrite bool_decide_eq_false_2, filter_cons_False by done. apply IH.
Qed.

(** A category is absent, null, or its groups are visited. *)
Lemma groups_of_cases (body : node -> prog St unit) category pinglist gs st :
  groups_of category pinglist = Some gs ->
  (if contains pinglist category then
     c ← lift (at_key pinglist category);
     if contains c protocol then
       groups ← lift (at_key c protocol);
       if is_null groups then mret tt
       else gs ← lift (children groups); for_each (go_on body) gs
     else mret tt
   else mret tt) st = for_each (go_on body) gs st.
Proof.
  unfold groups_of. destruct (contains pinglist category); [|by intros [= <-]].
  destruct (at_key pinglist category) as [c| |] eqn:Hc; [|done..]. rewrite (lift_bind _ _ _ c) by done.
  destruct (contains c protocol); [|by intros [= <-]].
  destruct (at_key c protocol) as [g| |]; [|done..]. rewrite (lift_bind _ _ _ g) by done.
  destruct g; cbn [children is_null]; try done; by intros [= <-].
Qed.

Lemma load_mesh_typed pinglist gs st :
  mesh_of pinglist = Some gs ->
  load_mesh protocol ipaddr add pinglist st = (add_all (mesh_targets gs) st, Ret tt).
Proof.
  unfold mesh_of. destruct (groups_of "mesh" pinglist) as [nodes|] eqn:Hg; [|done]. cbn. intros Hm.
  etransitivity; [exact (groups_of_cases _ "mesh" _ _ st Hg)|].
  rewrite (groups_loop _ _ _ _ _ _ mesh_group_typed Hm). f_equal.
  rewrite (add_groups (fun g => ipaddr ∈ g) id). by rewrite list_fmap_id.
Qed.

Lemma in_src_list_typed ss : in_src_list ipaddr (Str <$> ss) = Ret (bool_decide (ipaddr ∈ ss)).
Proof.
  induction ss as [|s ss IH]; [done|]. cbn. destruct (String.eqb_spec s ipaddr) as [->|Hne].
  - by rewrite bool_decide_eq_true_2 by left.
  - rewrite IH. f_equal. apply bool_decide_ext. rewrite elem_of_cons. split; [by right|by intros [->|]].
Qed.

Lemma arrow_group_typed g sd st :
  arrow_group_of g = Some sd ->
  arrow_group ipaddr add g st = (if bool_decide (ipaddr ∈ sd.1) then add_all sd.2 st else st, Ret tt).
Proof.
  unfold arrow_group_of, arrow_group.
  destruct (contains g "src"), (contains g "dst"); cbn [andb orb negb]; [|by intros [= <-]..].
  destruct (at_key g "src") as [src| |] eqn:Hs; [|done..].
  destruct (at_key g "dst") as [dst| |] eqn:Hd; [|done..].
  destruct (strings_of src) as [ss|] eqn:Hss; [|done].
  destruct (strings_of dst) as [ds|] eqn:Hds; [|done]. cbn. intros [= <-]. cbn [fst snd].
  rewrite (lift_bind _ _ _ src), (lift_bind _ _ _ _ (strings_of_children _ _ Hss)) by done.
  rewrite (lift_bind _ _ _ _ (in_src_list_typed ss)).
  destruct (bool_decide (ipaddr ∈ ss)); [|done]. cbn [negb].
  rewrite (lift_bind _ _ _ dst), (lift_bind _ _ _ _ (strings_of_children _ _ Hds)) by done.
  apply add_loop.
Qed.

Lemma load_arrow_typed pinglist gs st :
  arrow_of pinglist = Some gs ->
  load_arrow protocol ipaddr add pinglist st = (add_all (arrow_targets gs) st, Ret tt).
Proof.
  unfold arrow_of. destruct (groups_of "arrow" pinglist) as [nodes|] eqn:Hg; [|done].
  cbn. intros Hm.
  etransitivity; [exact (groups_of_cases _ "arrow" _ _ st Hg)|].
  rewrite (groups_loop _ _ _ _ _ _ arrow_group_typed Hm). f_equal.
  apply (add_groups (fun g : list string * list string => ipaddr ∈ g.1) snd).
Qed.

(** *** The same for any document. [reads p r]: [p] adds the targets of [r] and
    ends as [r] says. *)
Definition reads (p : prog St unit) (r : reading) : Prop :=
  forall st, p st = (add_all r.1 st, if r.2 then Throw YamlTypeError else Ret tt).

Lemma reads_ret : reads (mret tt) ([], false).
Proof. done. Qed.

Lemma reads_lift {A} (o : outcome A) (p : A -> prog St unit) (a : A) r :
  o = Ret a -> reads (p a) r -> reads (lift o ≫= p) r.
Proof. intros Ho Hp st. by rewrite (lift_bind _ _ _ a). Qed.

Lemma reads_fail {A} (o : outcome A) (p : A -> prog St unit) :
  o = Throw YamlTypeError -> reads (lift o ≫= p) ([], true).
Proof. by intros -> st. Qed.

Lemma children_cases n : (exists ns, children n = Ret ns) \/ children n = Throw YamlTypeError.
Proof. destruct n; (by right) || (left; by eexists). Qed.

Lemma contains_at_key n k : contains n k = true -> exists v, at_key n k = Ret v.
Proof. destruct n; try done. intros _. by eexists. Qed.

Lemma read_loop ns :
  reads (for_each (go_on (fun n : node => t ← lift (get_str n); add t)) ns) (strings_read ns).
Proof.
  intros st. unfold add_all. revert st. induction ns as [|n ns IH]; intros st; [done|].
  destruct n as [| | | |t| |]; try done. cbn [strings_read fst snd foldl].
  rewrite (for_each_cons _ _ _ _ (f t st) false); [apply IH|].
  unfold go_on. rewrite (prog_bind_ret _ _ _ (f t st) tt); [done|].
  rewrite (lift_bind _ _ _ t) by done. apply Hadd.
Qed.

Lemma read_children n :
  reads (ns ← lift (children n); for_each (go_on (fun n : node => t ← lift (get_str n); add t)) ns)
    (children_read n).
Proof.
  unfold children_read. destruct (children_cases n) as [[ns Hn]|Hn]; rewrite Hn.
  - by eapply reads_lift, read_loop.
  - by apply reads_fail.
Qed.

Lemma read_mesh_group g : reads (mesh_group ipaddr add g) (mesh_group_read g).
Proof.
  unfold mesh_group, mesh_group_read, children_read.
  destruct (children_cases g) as [[ns Hns]|Hns]; rewrite Hns; [|by apply reads_fail].
  eapply reads_lift; [done|]. intros st.
  match goal with |- for_each ?b _ _ = _ => set (body := b) end.
  assert (forall rest, for_each body rest st
    = (if bool_decide (ipaddr ∈ (strings_read rest).1)
       then (add_all (strings_read ns).1 st, if (strings_read ns).2 then Throw YamlTypeError else Ret tt)
       else (st, if (strings_read rest).2 then Throw YamlTypeError else Ret tt))) as Hrest.
  2: { rewrite Hrest. by destruct (bool_decide _). }
  induction rest as [|n rest IH]; [done|]. destruct n as [| | | |s| |]; try done.
  cbn [strings_read fst snd]. destruct (String.eqb_spec s ipaddr) as [->|Hne].
  - rewrite bool_decide_eq_true_2 by (cbn; by left). cbn [for_each].
    assert (body (Str ipaddr) st = (add_all (strings_read ns).1 st,
      if (strings_read ns).2 then Throw YamlTypeError else Ret true)) as Hbody.
    { unfold body. rewrite (lift_bind _ _ _ ipaddr) by done. rewrite String.eqb_refl.
      rewrite (lift_bind _ _ _ ns) by done. pose proof (read_loop ns st) as Hl.
      destruct (strings_read ns).2; [by apply prog_bind_throw|by rewrite (prog_bind_ret _ _ _ _ _ Hl)]. }
    destruct (strings_read ns).2; [by apply prog_bind_throw|by rewrite (prog_bind_ret _ _ _ _ _ Hbody)].
  - rewrite (for_each_cons _ _ _ _ st false), IH.
    + rewrite (bool_decide_ext (ipaddr ∈ s :: (strings_read rest).1) (ipaddr ∈ (strings_read rest).1)); [done|].
      rewrite elem_of_cons. split; [by intros [->|]|by right].
    + unfold body. rewrite (lift_bind _ _ _ s) by done.
      by rewrite (proj2 (String.eqb_neq _ _) Hne).
Qed.

Lemma in_src_list_read ns :
  in_src_list ipaddr ns
  = if bool_decide (ipaddr ∈ (strings_read ns).1) then Ret true
    else if (strings_read ns).2 then Throw YamlTypeError else Ret false.
Proof.
  induction ns as [|n ns IH]; [done|]. destruct n as [| | | |s| |]; try done. cbn.
  destruct (String.eqb_spec s ipaddr) as [->|Hne]; [by rewrite bool_decide_eq_true_2 by left|].
  rewrite IH, (bool_decide_ext (ipaddr ∈ s :: (strings_read ns).1) (ipaddr ∈ (strings_read ns).1)); [done|].
  rewrite elem_of_cons. split; [by intros [->|]|by right].
Qed.

Lemma read_arrow_group g : reads (arrow_group ipaddr add g) (arrow_group_read g).
Proof.
  unfold arrow_group, arrow_group_read.
  destruct (contains g "src") eqn:Hs, (contains g "dst") eqn:Hd; cbn [negb orb andb];
    [|by destruct (at_key g "src"), (at_key g "dst")..].
  destruct (contains_at_key _ _ Hs) as [src Hsrc], (contains_at_key _ _ Hd) as [dst Hdst].
  rewrite Hsrc, Hdst. eapply reads_lift; [done|]. unfold children_read at 1 2 4.
  destruct (children_cases src) as [[ns Hns]|Hns]; rewrite Hns; [|by apply reads_fail].
  eapply reads_lift; [done|]. rewrite in_src_list_read.
  destruct (bool_decide _); [|destruct (strings_read ns).2; [by apply reads_fail|done]].
  do 2 (eapply reads_lift; [done|]; cbn [negb]). apply read_children.
Qed.

Lemma read_groups (body : node -> prog St unit) group_read gs :
  (forall g, reads (body g) (group_read g)) ->
  reads (for_each (go_on body) gs) (groups_read group_read gs).
Proof.
  intros Hb st. revert st. induction gs as [|g gs IH]; intros st; [done|].
  cbn [groups_read]. specialize (Hb g st). destruct (group_read g) as [l [|]] eqn:Hg; cbn [fst snd] in *.
  - cbn [for_each]. apply prog_bind_throw. unfold go_on. by apply prog_bind_throw.
  - rewrite (for_each_cons _ _ _ _ (add_all l st) false), IH.
    + unfold add_all. by rewrite foldl_app.
    + unfold go_on. by rewrite (prog_bind_ret _ _ _ _ _ Hb).
Qed.

Lemma read_category (body : node -> prog St unit) category group_read pinglist :
  (forall g, reads (body g) (group_read g)) ->
  reads (if contains pinglist category then
     c ← lift (at_key pinglist category);
     if contains c protocol then
       groups ← lift (at_key c protocol);
       if is_null groups then mret tt
       else gs ← lift (children groups); for_each (go_on body) gs
     else mret tt
   else mret tt) (category_read category group_read pinglist).
Proof.
  intros Hb. unfold category_read. destruct (contains pinglist category) eqn:Hc; [|apply reads_ret].
  destruct (contains_at_key _ _ Hc) as [c Hat]. rewrite Hat. eapply reads_lift; [done|].
  destruct (contains c protocol) eqn:Hp; [|apply reads_ret].
  destruct (contains_at_key _ _ Hp) as [g Hg]. rewrite Hg. eapply reads_lift; [done|].
  assert (reads (gs ← lift (children g); for_each (go_on body) gs)
    (match children g with Ret gs => groups_read group_read gs | _ => ([], true) end)) as Hgs.
  { destruct (children_cases g) as [[gs ->]| ->]; [|by apply reads_fail].
    by eapply reads_lift, read_groups. }
  destruct g; [apply reads_ret|exact Hgs..].
Qed.

Lemma load_mesh_reads pinglist : reads (load_mesh protocol ipaddr add pinglist) (mesh_read pinglist).
Proof. apply (read_category _ "mesh"), read_mesh_group. Qed.

Lemma load_arrow_reads pinglist : reads (load_arrow protocol ipaddr add pinglist) (arrow_read pinglist).
Proof. apply (read_category _ "arrow"), read_arrow_group. Qed.

Lemma try_catch_reads p r st : reads p r -> try_catch p st = Ret (add_all r.1 st, r.2).
Proof. intros Hp. unfold try_catch. rewrite (Hp st). by destruct r.2. Qed.
End loops.

(** A well-formed document is read to its end: both references agree. *)
Lemma pinglist_read_typed pinglist ms ars :
  mesh_of pinglist = Some ms -> arrow_of pinglist = Some ars ->
  pinglist_read pinglist = (mesh_targets ms ++ arrow_targets ars, false).
Proof.
  intros Hm Ha. set (add := fun (t : string) (l : list string) => (l ++ [t], Ret tt) : list string * outcome unit).
  assert (forall l st, add_all (fun (t : string) l => l ++ [t]) l st = st ++ l) as Happ.
  { unfold add_all. induction l as [|t l IH]; intros st; cbn [foldl]; [by rewrite app_nil_r|].
    by rewrite IH, <- app_assoc. }
  pose proof (load_mesh_reads add _ (fun t l => eq_refl) pinglist []) as H1.
  pose proof (load_arrow_reads add _ (fun t l => eq_refl) pinglist []) as H2.
  rewrite (load_mesh_typed add _ (fun t l => eq_refl) _ _ _ Hm), !Happ in H1.
  rewrite (load_arrow_typed add _ (fun t l => eq_refl) _ _ _ Ha), !Happ in H2.
  unfold pinglist_read. destruct (mesh_read pinglist) as [l1 [|]], (arrow_read pinglist) as [l2 [|]]; try done.
  cbn in *. congruence.
Qed.
End targets.

(** ** The UDP class *)
Section udp.
Import Udp.
Context (protocol ipaddr : string).

Definition add_target_fun (t : string) (l : loading) : loading :=
  if decide (t ∈ ipNew l) then l else Loading (infoNew l ++ [t]) ({[t]} ∪ ipNew l).

(** The set holds the addresses of the vector, which has no repetition. *)
Definition loading_ok (l : loading) : Prop :=
  NoDup (infoNew l) /\ forall t, t ∈ ipNew l <-> t ∈ infoNew l.

Lemma add_target_ok t l : loading_ok l -> loading_ok (add_target_fun t l).
Proof.
  intros [Hnd Hset]. unfold add_target_fun. destruct (decide (t ∈ ipNew l)) as [Hin|Hin]; [done|].
  split; cbn.
  - apply NoDup_app. split_and!; [done| |apply NoDup_singleton].
    intros x Hx ->%list_elem_of_singleton. by apply Hin, Hset.
  - intros x. rewrite elem_of_union, elem_of_singleton, elem_of_app, list_elem_of_singleton, Hset.
    tauto.
Qed.

Lemma add_all_targets ts l :
  loading_ok l ->
  let l' := add_all add_target_fun ts l in
  loading_ok l' /\ forall t, t ∈ infoNew l' <-> t ∈ infoNew l \/ t ∈ ts.
Proof.
  unfold add_all. revert l. induction ts as [|t ts IH]; intros l Hok; cbn [foldl].
  - split; [done|]. intros t. rewrite elem_of_nil. tauto.
  - destruct (IH _ (add_target_ok t l Hok)) as [Hok' Hin]. split; [done|].
    intros x. rewrite Hin, elem_of_cons. destruct Hok as [_ Hset].
    unfold add_target_fun. destruct (decide (t ∈ ipNew l)) as [Ht|Ht]; cbn.
    + rewrite Hset in Ht. split; [tauto|]. intros [|[->|]]; tauto.
    + rewrite elem_of_app, list_elem_of_singleton. tauto.
Qed.

Lemma load_address_info_reads pinglist (s : scheduler string) :
  load_address_info protocol ipaddr (Some pinglist) s
  = Ret (renew_addresses (infoNew (add_all add_target_fun (pinglist_read protocol ipaddr pinglist).1
      (Loading [] ∅))) (pinglist_read protocol ipaddr pinglist).2 (with_idx 0 s)).
Proof.
  cbn. rewrite (try_catch_reads _ _ _ _ (load_mesh_reads protocol ipaddr add_target add_target_fun
    (fun t l => eq_refl) pinglist)). cbn.
  rewrite (try_catch_reads _ _ _ _ (load_arrow_reads protocol ipaddr add_target add_target_fun
    (fun t l => eq_refl) pinglist)). cbn. unfold add_all. by rewrite foldl_app.
Qed.

(** Each address read, once. *)
Lemma loaded_read ts :
  let l := infoNew (add_all add_target_fun ts (Loading [] ∅)) in
  NoDup l /\ forall ip, ip ∈ l <-> ip ∈ ts.
Proof.
  destruct (add_all_targets ts (Udp.Loading [] ∅)) as [[Hnd _] Hin]; [split; [constructor|set_solver]|].
  split; [exact Hnd|]. intros ip. rewrite Hin, elem_of_nil. tauto.
Qed.

Lemma load_address_info_typed pinglist ms ars (s : scheduler string) :
  mesh_of protocol pinglist = Some ms -> arrow_of protocol pinglist = Some ars ->
  load_address_info protocol ipaddr (Some pinglist) s
  = Ret (renew_addresses (infoNew (add_all add_target_fun
      (mesh_targets ipaddr ms ++ arrow_targets ipaddr ars) (Loading [] ∅))) false (with_idx 0 s)).
Proof.
  intros Hm Ha. cbn. unfold try_catch.
  rewrite (load_mesh_typed protocol ipaddr add_target add_target_fun (fun t l => eq_refl) _ _ _ Hm).
  cbn. rewrite (load_arrow_typed protocol ipaddr add_target add_target_fun (fun t l => eq_refl) _ _ _ Ha).
  cbn. unfold add_all. by rewrite foldl_app.
Qed.

(** Each target once, and nothing else. *)
Lemma loaded_exactly ms ars :
  let l := infoNew (add_all add_target_fun (mesh_targets ipaddr ms ++ arrow_targets ipaddr ars) (Loading [] ∅)) in
  NoDup l /\
  forall ip, ip ∈ l <->
    (exists g, g ∈ ms /\ ipaddr ∈ g /\ ip ∈ g) \/ (exists src dst, (src, dst) ∈ ars /\ ipaddr ∈ src /\ ip ∈ dst).
Proof.
  destruct (add_all_targets (mesh_targets ipaddr ms ++ arrow_targets ipaddr ars)
    (Udp.Loading [] ∅)) as [[Hnd _] Hin]; [split; [constructor|set_solver]|].
  split; [exact Hnd|]. intros ip. rewrite Hin, <- targets_spec. cbn. rewrite elem_of_app, elem_of_nil. tauto.
Qed.
End udp.

(** What a load without an error leaves. *)
Lemma renewed {A} (l : list A) (s : scheduler A) :
  let s' := renew_addresses l false (with_idx 0 s) in
  addressInfo s' = l /\ addr_idx s' = 0%nat /\ load_yaml_retry_cnt s' = 0.
Proof. by destruct l. Qed.

(** Loads one after the other, from files that give these documents. *)
Definition udp_loads (protocol ipaddr : string) (files : list (option node)) (s : scheduler string)
  : outcome (scheduler string) :=
  foldl (fun o f => s ← o; Udp.load_address_info protocol ipaddr f s) (Ret s) files.

Lemma udp_loads_total protocol ipaddr files s : exists s', udp_loads protocol ipaddr files s = Ret s'.
Proof.
  unfold udp_loads. revert s. induction files as [|[p|] files IH]; intros s; cbn [foldl]; [by eexists|..].
  - change (s0 ← Ret s; Udp.load_address_info protocol ipaddr (Some p) s0)
      with (Udp.load_address_info protocol ipaddr (Some p) s).
    rewrite load_address_info_reads. apply IH.
  - apply IH.
Qed.

(** What a load with or without an error leaves. *)
Lemma renewed_failed {A} (l : list A) failed (s : scheduler A) :
  let s' := renew_addresses l failed (with_idx 0 s) in
  addressInfo s' = l /\ load_yaml_retry_cnt s' = if failed then 1 else 0.
Proof. by destruct l, failed. Qed.

(** ** The RDMA class *)
Section rdma.
Import Rdma.
Context (protocol ipaddr : string).

Definition add_relevant_fun (t : string) (l : loading) : loading :=
  Loading (infoNew l) (ipNew l) (relevantIps l ++ [t]).

(** An entry of the address store as the controller writes it:
    [ip, gid, lid, qpn, ...]. *)
Definition entry_of (n : node) : option address :=
  match n with
  | Seq (Str ip :: Str gid :: Int lid :: Int qpn :: _) => Some (ip, gid, u32 lid, u32 qpn)
  | _ => None
  end.

Definition store_of (n : node) : option (list address) :=
  match children n with Ret l => mapM entry_of l | _ => None end.

Definition ip_of (a : address) : string := a.1.1.1.

(** The first entry of an address. *)
Fixpoint first_entry (ip : string) (store : list address) : option address :=
  match store with
  | [] => None
  | a :: store => if String.eqb (ip_of a) ip then Some a else first_entry ip store
  end.

Definition store_step (a : address) (l : loading) : loading :=
  if bool_decide (ip_of a ∈ relevantIps l) then
    if decide (ip_of a ∈ ipNew l) then l
    else Loading (infoNew l ++ [a]) ({[ip_of a]} ∪ ipNew l) (relevantIps l)
  else l.

Lemma store_entry_typed n a l : entry_of n = Some a -> store_entry n l = (store_step a l, Ret tt).
Proof.
  destruct n as [| | | | |[|[| | | |ip| |] [|[| | | |gid| |] [|[| |lid| | | |] [|[| |qpn| | | |] r]]]]|];
    try done.
  intros [= <-]. unfold store_entry, store_step, ip_of. cbn [fst].
  rewrite (lift_bind _ _ _ ip) by done. rewrite (prog_bind_ret _ _ _ l l) by done.
  destruct (bool_decide (ip ∈ relevantIps l)); [|done]. destruct (decide (ip ∈ ipNew l)); [done|].
  rewrite (prog_bind_ret _ _ _ _ tt) by done. rewrite (lift_bind _ _ _ gid) by done.
  rewrite (lift_bind _ _ _ lid) by done. by rewrite (lift_bind _ _ _ qpn) by done.
Qed.

Lemma update_addresses_typed n store l :
  store_of n = Some store ->
  update_addresses n l = (foldl (fun l a => store_step a l) l store, Ret tt).
Proof.
  unfold store_of, update_addresses. destruct (children n) as [ns| |]; [|done..]. intros Hs.
  rewrite (lift_bind _ _ _ ns) by done.
  by rewrite (groups_loop store_entry store_step entry_of ns store l store_entry_typed Hs).
Qed.

Lemma add_relevant_all ts l :
  add_all add_relevant_fun ts l = Loading (infoNew l) (ipNew l) (relevantIps l ++ ts).
Proof.
  unfold add_all. revert l. induction ts as [|t ts IH]; intros l; cbn [foldl].
  - rewrite app_nil_r. by destruct l.
  - rewrite IH. unfold add_relevant_fun. cbn. by rewrite <- app_assoc.
Qed.

Lemma first_entry_app ip s1 s2 :
  first_entry ip (s1 ++ s2) =
  match first_entry ip s1 with Some a => Some a | None => first_entry ip s2 end.
Proof. induction s1 as [|a s1 IH]; [done|]. cbn. by destruct (String.eqb (ip_of a) ip). Qed.

Lemma first_entry_ip ip store a : first_entry ip store = Some a -> ip_of a = ip.
Proof.
  induction store as [|b store IH]; [done|]. cbn.
  destruct (String.eqb_spec (ip_of b) ip); [by intros [= <-]|done].
Qed.

Lemma first_entry_snoc b a store :
  first_entry (ip_of b) (store ++ [a]) = Some b <->
  first_entry (ip_of b) store = Some b \/ (first_entry (ip_of b) store = None /\ a = b).
Proof.
  rewrite first_entry_app. destruct (first_entry (ip_of b) store).
  - split; [by left|]. intros [|[? _]]; done.
  - cbn. destruct (String.eqb_spec (ip_of a) (ip_of b)) as [|Hne].
    + split; [by intros [= ->]; right|]. by intros [|[_ ->]].
    + split; [done|]. intros [|[_ ->]]; done.
Qed.

(** One pass over the store with the relevant addresses [R]. *)
Lemma store_pass store l :
  NoDup (ip_of <$> infoNew l) -> (forall ip, ip ∈ ipNew l <-> ip ∈ ip_of <$> infoNew l) ->
  let l' := foldl (fun l a => store_step a l) l store in
  relevantIps l' = relevantIps l /\
  NoDup (ip_of <$> infoNew l') /\ (forall ip, ip ∈ ipNew l' <-> ip ∈ ip_of <$> infoNew l') /\
  (forall a, a ∈ infoNew l' <-> a ∈ infoNew l \/
     (first_entry (ip_of a) store = Some a /\ ip_of a ∈ relevantIps l /\ ip_of a ∉ ipNew l)).
Proof.
  intros Hnd Hset. induction store as [|a store IH] using rev_ind; cbn -[first_entry].
  - split_and!; [done|done|done|]. intros a. split; [by left|]. intros [|[[=] _]]; done.
  - rewrite foldl_app. cbn [foldl].
    set (l' := foldl (fun l a => store_step a l) l store) in *. cbn zeta in IH.
    destruct IH as (Hrel & Hnd' & Hset' & Hin').
    assert (forall ip, ip ∈ ipNew l' -> ip ∉ ipNew l -> first_entry ip store <> None) as Hpres.
    { intros ip H1 H2 H3. apply Hset', list_elem_of_fmap in H1 as (b & -> & Hb).
      apply Hin' in Hb as [Hb|(Hb & _)]; [|congruence].
      apply H2, Hset. by apply list_elem_of_fmap_2. }
    assert (first_entry (ip_of a) store = None -> ip_of a ∉ ipNew l -> ip_of a ∉ ipNew l') as Habs.
    { intros H1 H2 H3. by apply (Hpres _ H3 H2). }
    assert (first_entry (ip_of a) store <> None -> ip_of a ∈ relevantIps l -> ip_of a ∉ ipNew l ->
      ip_of a ∈ ipNew l') as Hpresent.
    { intros H1 H2 H3. destruct (first_entry (ip_of a) store) as [b|] eqn:Hb; [|done].
      apply Hset'. pose proof (first_entry_ip _ _ _ Hb) as Heq. rewrite <- Heq.
      apply list_elem_of_fmap_2, Hin'. right. rewrite Heq. done. }
    unfold store_step. rewrite Hrel. destruct (decide (ip_of a ∈ relevantIps l)) as [Hr|Hr].
    2:{ rewrite bool_decide_eq_false_2 by done. split_and!; [done|done|done|].
        intros b. rewrite Hin', first_entry_snoc. naive_solver. }
    rewrite bool_decide_eq_true_2 by done. destruct (decide (ip_of a ∈ ipNew l')) as [Hi|Hi].
    + split_and!; [done|done|done|]. intros b. rewrite Hin', first_entry_snoc. naive_solver.
    + cbn. split_and!; [done| | |].
      * rewrite fmap_app. apply NoDup_app. split_and!; [done| |apply NoDup_singleton].
        intros ip Hip ->%list_elem_of_singleton. by apply Hi, Hset'.
      * intros ip. rewrite elem_of_union, elem_of_singleton, fmap_app, elem_of_app, Hset'.
        cbn. rewrite list_elem_of_singleton. tauto.
      * intros b. rewrite elem_of_app, list_elem_of_singleton, Hin', first_entry_snoc.
        assert (ip_of a ∉ ipNew l) as Hni.
        { intros H1. apply Hi, Hset'. apply Hset, list_elem_of_fmap in H1 as (c & Hc & Hcin).
          rewrite Hc. apply list_elem_of_fmap_2, Hin'. by left. }
        assert (first_entry (ip_of a) store = None) as Hn
          by (destruct (first_entry (ip_of a) store) eqn:E; [|done]; exfalso; apply Hi, Hpresent; congruence).
        naive_solver.
Qed.

Lemma rdma_load_typed pinglist addressStore ms ars store (s : scheduler address) :
  mesh_of protocol pinglist = Some ms -> arrow_of protocol pinglist = Some ars ->
  store_of addressStore = Some store ->
  exists l, load_address_info protocol ipaddr (Some pinglist) (Some addressStore) s
      = Ret (renew_addresses (infoNew l) false (with_idx 0 s)) /\
    NoDup (ip_of <$> infoNew l) /\
    (forall a, a ∈ infoNew l <-> first_entry (ip_of a) store = Some a /\
       (ip_of a ∈ mesh_targets ipaddr ms \/ ip_of a ∈ arrow_targets ipaddr ars)).
Proof.
  intros Hm Ha Hs. cbn. unfold try_catch.
  rewrite (prog_bind_ret _ _ _ _ _ (load_mesh_typed protocol ipaddr add_relevant add_relevant_fun
    (fun t l => eq_refl) _ _ _ Hm)), (update_addresses_typed _ _ _ Hs), add_relevant_all. cbn.
  destruct (store_pass store (Loading [] ∅ (mesh_targets ipaddr ms))) as (_ & Hnd & Hset & Hin);
    [constructor|set_solver|].
  set (l1 := foldl (fun l a => store_step a l) (Loading [] ∅ (mesh_targets ipaddr ms)) store) in *.
  rewrite (prog_bind_ret _ _ _ _ _ (load_arrow_typed protocol ipaddr add_relevant add_relevant_fun
    (fun t l => eq_refl) _ _ _ Ha)), (update_addresses_typed _ _ _ Hs), add_relevant_all. cbn.
  destruct (store_pass store (Loading (infoNew l1) (ipNew l1) (arrow_targets ipaddr ars)))
    as (_ & Hnd2 & _ & Hin2); [done|done|].
  eexists. split; [done|]. split; [done|]. cbn in *. intros a. rewrite Hin2, Hin.
  rewrite Hset. split.
  - intros [[H%elem_of_nil|(H1 & H2 & _)]|(H1 & H2 & _)]; [done|tauto|tauto].
  - intros [H1 H2]. destruct (decide (ip_of a ∈ mesh_targets ipaddr ms)) as [Hd|Hd].
    + left. right. split_and!; [done|done|set_solver].
    + destruct H2 as [|H2]; [done|]. right. split_and!; [done|done|].
      intros (b & Heq & [H%elem_of_nil|(_ & H & _)]%Hin)%list_elem_of_fmap; [done|]. congruence.
Qed.
End rdma.

(** ** Properties *)

(** From a well-formed ping list the UDP scheduler loads exactly the
    addresses it asks for, without repetition: those of the mesh groups that
    hold my address, and the destinations of the arrow groups that have it as
    a source; it starts again at the first one, and spaces the pings so that a
    turn takes the configured interval. *)
Theorem udp_load_exact protocol ipaddr pinglist ms ars s :
  mesh_of protocol pinglist = Some ms -> arrow_of protocol pinglist = Some ars ->
  exists s', Udp.load_address_info protocol ipaddr (Some pinglist) s = Ret s' /\
    NoDup (addressInfo s') /\
    (forall ip, ip ∈ addressInfo s' <->
      (exists g, g ∈ ms /\ ipaddr ∈ g /\ ip ∈ g) \/
      (exists src dst, (src, dst) ∈ ars /\ ipaddr ∈ src /\ ip ∈ dst)) /\
    addr_idx s' = 0%nat /\ load_yaml_retry_cnt s' = 0 /\
    (is_u64 (interval_send_ping_microsec s) ->
     inter_ping_interval_us s' * Z.of_nat (length (addressInfo s')) <= interval_send_ping_microsec s \/
     addressInfo s' = []).
Proof.
  intros Hm Ha. rewrite (load_address_info_typed protocol ipaddr pinglist ms ars s Hm Ha).
  pose proof (loaded_exactly ipaddr ms ars) as [Hnd Hin].
  set (l := Udp.infoNew _) in *. eexists. split; [done|].
  destruct (renewed l s) as (-> & -> & ->). split_and!; [done..|].
  intros Hu. destruct l as [|x l]; [by right|left]. cbn. rewrite u64_small by done.
  rewrite Z.mul_comm. apply Z.mul_div_le. lia.
Qed.

Definition example_pinglist : node :=
  Map [(Str "arrow", Map [(Str "udp", Map [(Str "g2",
         Map [(Str "dst", Seq [Str "10.0.0.9"; Str "10.0.0.2"]); (Str "src", Seq [Str "10.0.0.1"])])])]);
       (Str "mesh", Map [(Str "udp", Map [(Str "g0", Seq [Str "10.0.0.7"; Str "10.0.0.8"]);
         (Str "g1", Seq [Str "10.0.0.1"; Str "10.0.0.2"])])])].

Lemma udp_load_exact_witness :
  exists s', Udp.load_address_info "udp" "10.0.0.1" (Some example_pinglist) example_scheduler = Ret s' /\
    addressInfo s' = ["10.0.0.1"; "10.0.0.2"; "10.0.0.9"] /\ NoDup (addressInfo s').
Proof.
  destruct (udp_load_exact "udp" "10.0.0.1" example_pinglist
    [["10.0.0.7"; "10.0.0.8"]; ["10.0.0.1"; "10.0.0.2"]]
    [(["10.0.0.1"], ["10.0.0.9"; "10.0.0.2"])] example_scheduler eq_refl eq_refl)
    as (s' & Hl & Hnd & _).
  exists s'. split; [exact Hl|]. split; [|exact Hnd].
  vm_compute in Hl. by injection Hl as <-.
Defined.

(** C24: whatever the documents hold, loading the UDP addresses is defined and
    never repeats an address. From a retry counter of 0, a file that does not
    deserialise keeps the addresses until the third failure in a row, which
    clears them. A document that deserialises but is ill formed never does,
    however often and after whichever files it is loaded: the addresses are then
    exactly those read before the error in its mesh section and before the error
    in its arrow section ([pinglist_read]), and the retry counter is 1; it is 0
    when there is no error. *)
Theorem udp_load_failures protocol ipaddr s :
  load_yaml_retry_cnt s = 0 ->
  (exists s', udp_loads protocol ipaddr [None] s = Ret s' /\ addressInfo s' = addressInfo s) /\
  (exists s', udp_loads protocol ipaddr [None; None] s = Ret s' /\ addressInfo s' = addressInfo s) /\
  (exists s', udp_loads protocol ipaddr [None; None; None] s = Ret s' /\
     addressInfo s' = [] /\ load_yaml_retry_cnt s' = 0) /\
  (forall files pinglist,
   exists s', udp_loads protocol ipaddr (files ++ [Some pinglist]) s = Ret s' /\
     NoDup (addressInfo s') /\
     (forall ip, ip ∈ addressInfo s' <-> ip ∈ (pinglist_read protocol ipaddr pinglist).1) /\
     load_yaml_retry_cnt s' = if (pinglist_read protocol ipaddr pinglist).2 then 1 else 0).
Proof.
  intros Hc. split_and!.
  1-3: unfold udp_loads; cbn; unfold failed_label, MAX_RETRY_LOAD_YAML; cbn; rewrite Hc; by eexists.
  intros files pinglist. unfold udp_loads. rewrite foldl_app. cbn [foldl].
  destruct (udp_loads_total protocol ipaddr files s) as [s1 Hs1]. unfold udp_loads in Hs1. rewrite Hs1.
  cbn [mbind outcome_bind]. rewrite load_address_info_reads. eexists. split; [done|].
  destruct (loaded_read (pinglist_read protocol ipaddr pinglist).1) as [Hnd Hin].
  set (l := Udp.infoNew _) in *. destruct (renewed_failed l (pinglist_read protocol ipaddr pinglist).2 s1)
    as [-> ->]. by split_and!.
Qed.

(** The group g1 holds a number after two addresses, and the document has no
    other section: the two are installed. *)
Definition ill_formed_pinglist : node :=
  Map [(Str "mesh", Map [(Str "udp", Map [
         (Str "g1", Seq [Str "10.0.0.2"; Str "10.0.0.1"; Int 5; Str "10.0.0.3"])])])].

Lemma udp_load_failures_witness :
  (exists s', udp_loads "udp" "10.0.0.1" [None; None; None] example_scheduler = Ret s' /\
    addressInfo s' = [] /\ load_yaml_retry_cnt s' = 0) /\
  (exists s', udp_loads "udp" "10.0.0.1" [None; Some ill_formed_pinglist] example_scheduler = Ret s' /\
    addressInfo s' = ["10.0.0.2"; "10.0.0.1"] /\ load_yaml_retry_cnt s' = 1).
Proof.
  destruct (udp_load_failures "udp" "10.0.0.1" example_scheduler eq_refl) as (_ & _ & H3 & H4).
  split; [exact H3|]. destruct (H4 [None] ill_formed_pinglist) as (s' & Hs & _ & _ & Hc).
  exists s'. split; [exact Hs|]. split; [|exact Hc]. vm_compute in Hs. by injection Hs as <-.
Defined.

(** From a well-formed ping list and address store the RDMA scheduler loads
    exactly the targets that the store knows, each once, with the GID, LID and
    QPN of its first entry. *)
Theorem rdma_load_exact protocol ipaddr pinglist addressStore ms ars store s :
  mesh_of protocol pinglist = Some ms -> arrow_of protocol pinglist = Some ars ->
  store_of addressStore = Some store ->
  exists s', Rdma.load_address_info protocol ipaddr (Some pinglist) (Some addressStore) s = Ret s' /\
    NoDup (ip_of <$> addressInfo s') /\ addr_idx s' = 0%nat /\
    (forall a, a ∈ addressInfo s' <-> first_entry (ip_of a) store = Some a /\
       (ip_of a ∈ mesh_targets ipaddr ms \/ ip_of a ∈ arrow_targets ipaddr ars)).
Proof.
  intros Hm Ha Hs. destruct (rdma_load_typed protocol ipaddr pinglist addressStore ms ars store s
    Hm Ha Hs) as (l & -> & Hnd & Hin).
  eexists. split; [done|]. by destruct (renewed (Rdma.infoNew l) s) as (-> & -> & _).
Qed.

Definition example_store : node :=
  Seq [Seq [Str "10.0.0.2"; Str "fe80::2"; Int 0; Int 17; Str "host"; Str "10:00"];
       Seq [Str "10.0.0.3"; Str "fe80::3"; Int 0; Int 18];
       Seq [Str "10.0.0.2"; Str "fe80::4"; Int 0; Int 19];
       Seq [Str "10.0.0.9"; Str "fe80::9"; Int (2 ^ 32 + 5); Int 20]].

Lemma rdma_load_exact_witness :
  exists s', Rdma.load_address_info "udp" "10.0.0.1" (Some example_pinglist) (Some example_store)
      (Scheduler [] 0 10 0 0 1000 3000 0) = Ret s' /\
    NoDup (ip_of <$> addressInfo s') /\
    addressInfo s' = [("10.0.0.2", "fe80::2", 0, 17); ("10.0.0.9", "fe80::9", 5, 20)].
Proof.
  destruct (rdma_load_exact "udp" "10.0.0.1" example_pinglist example_store
    [["10.0.0.7"; "10.0.0.8"]; ["10.0.0.1"; "10.0.0.2"]]
    [(["10.0.0.1"], ["10.0.0.9"; "10.0.0.2"])]
    [("10.0.0.2", "fe80::2", 0, 17); ("10.0.0.3", "fe80::3", 0, 18); ("10.0.0.2", "fe80::4", 0, 19);
     ("10.0.0.9", "fe80::9", 5, 20)] (Scheduler [] 0 10 0 0 1000 3000 0) eq_refl eq_refl eq_refl)
    as (s' & Hl & Hnd & _).
  exists s'. split; [exact Hl|]. split; [exact Hnd|].
  vm_compute in Hl. by injection Hl as <-.
Defined.
