(* ===== verification/Wire.v ===== *)
(** * Wire: the layout in memory, and so on the wire, of the messages of
    format.hpp.

    The messages are unions of a byte array and a struct; the program sends
    [sizeof] bytes of the union. Offsets follow the x86-64 ABI: 64-bit fields
    and [ibv_gid] are aligned to 8 bytes, so that a struct may hold padding,
    whose bytes are indeterminate (a parameter of the encoders). *)
From S2P Require Import Prelude Format.
Local Open Scope Z_scope.

(** [len] bytes from offset [off]. *)
Definition slice (off len : nat) (buf : list Z) : list Z := take len (drop off buf).

(** [std::memset(buf, 0, n)]. *)
Definition zeroed (n : nat) : list Z := replicate n 0.

(** [std::memcpy(buf, src, length src)] at offset [off] of a buffer. *)
Definition blit (off : nat) (src buf : list Z) : list Z :=
  take off buf ++ src ++ drop (off + length src) buf.

(** Padding of a given size. *)
Definition pad_ok (n : nat) (p : list Z) : Prop := length p = n /\ Forall is_byte p.

(** ** [tcpudp_pingmsg_t]: 24 bytes *)
Record tcpudp_pingmsg_t := TcpUdpPingMsg { um_prefix : Z; um_pingid : Z; um_pad : Z }.

Definition SIZEOF_TCPUDP_PINGMSG : nat := 24.

Definition tcpudp_pingmsg_bytes (p1 p2 : list Z) (m : tcpudp_pingmsg_t) : list Z :=
  le_bytes 4 (um_prefix m) ++ p1 ++ le_bytes 8 (um_pingid m) ++ le_bytes 4 (um_pad m) ++ p2.

Definition tcpudp_pingmsg_of (buf : list Z) : tcpudp_pingmsg_t :=
  TcpUdpPingMsg (le_val (slice 0 4 buf)) (le_val (slice 8 8 buf)) (le_val (slice 16 4 buf)).

(** ** [rdma_pingmsg_t]: 48 bytes *)
Definition SIZEOF_RDMA_PINGMSG : nat := 48.

Definition rdma_pingmsg_bytes (p1 p2 : list Z) (m : rdma_pingmsg_t) : list Z :=
  le_bytes 8 (pm_pingid m) ++ le_bytes 4 (pm_qpn m) ++ p1 ++ pm_gid m ++
  le_bytes 4 (pm_lid m) ++ p2 ++ le_bytes 8 (pm_time m).

Definition rdma_pingmsg_of (buf : list Z) : rdma_pingmsg_t :=
  RdmaPingMsg (le_val (slice 0 8 buf)) (le_val (slice 8 4 buf)) (slice 16 16 buf)
    (le_val (slice 32 4 buf)) (le_val (slice 40 8 buf)).

(** ** [rdma_pongmsg_t]: 24 bytes *)
Definition SIZEOF_RDMA_PONGMSG : nat := 24.

Definition rdma_pongmsg_bytes (p : list Z) (m : rdma_pongmsg_t) : list Z :=
  le_bytes 4 (po_opcode m) ++ p ++ le_bytes 8 (po_pingid m) ++ le_bytes 8 (po_server_delay m).

Definition rdma_pongmsg_of (buf : list Z) : rdma_pongmsg_t :=
  RdmaPongMsg (le_val (slice 0 4 buf)) (le_val (slice 8 8 buf)) (le_val (slice 16 8 buf)).

(** ** Lemmas *)
Lemma slice_app a b c off len :
  off = length a -> len = length b -> slice off len (a ++ b ++ c) = b.
Proof. intros -> ->. unfold slice. by rewrite drop_app_length, take_app_length. Qed.

Lemma slice_last a b off len : off = length a -> len = length b -> slice off len (a ++ b) = b.
Proof. intros Ha Hb. rewrite <- (app_nil_r b) at 1. by apply slice_app. Qed.

Lemma slice_head a b len : len = length a -> slice 0 len (a ++ b) = a.
Proof. intros ->. unfold slice. by rewrite drop_0, take_app_length. Qed.

Lemma length_slice off len buf :
  (off + len <= length buf)%nat -> length (slice off len buf) = len.
Proof. intros H. unfold slice. rewrite length_take, length_drop. lia. Qed.

Lemma length_blit off src buf :
  (off + length src <= length buf)%nat -> length (blit off src buf) = length buf.
Proof. intros H. unfold blit. rewrite !length_app, length_take, length_drop. lia. Qed.

Lemma slice_blit off src buf :
  (off + length src <= length buf)%nat -> slice off (length src) (blit off src buf) = src.
Proof.
  intros H. unfold blit. apply slice_app; [|done]. rewrite length_take. lia.
Qed.

Lemma tcpudp_pingmsg_length p1 p2 m :
  pad_ok 4 p1 -> pad_ok 4 p2 ->
  length (tcpudp_pingmsg_bytes p1 p2 m) = SIZEOF_TCPUDP_PINGMSG.
Proof.
  intros [H1 _] [H2 _]. unfold tcpudp_pingmsg_bytes.
  rewrite !length_app, !le_bytes_length, H1, H2. done.
Qed.

(** Whatever the padding, a message is read back from its bytes. *)
Lemma tcpudp_pingmsg_of_bytes p1 p2 m :
  pad_ok 4 p1 -> pad_ok 4 p2 ->
  is_u32 (um_prefix m) -> is_u64 (um_pingid m) -> is_u32 (um_pad m) ->
  tcpudp_pingmsg_of (tcpudp_pingmsg_bytes p1 p2 m) = m.
Proof.
  intros [H1 _] [H2 _] Hp Hi Hd. destruct m as [pre id pd]. cbn [um_prefix um_pingid um_pad] in *.
  unfold tcpudp_pingmsg_of, tcpudp_pingmsg_bytes. cbn [um_prefix um_pingid um_pad].
  rewrite (slice_head (le_bytes 4 pre)) by (by rewrite ?le_bytes_length).
  rewrite (app_assoc (le_bytes 4 pre)), (slice_app _ (le_bytes 8 id))
    by (by rewrite ?length_app, ?le_bytes_length, ?H1).
  rewrite (app_assoc _ (le_bytes 8 id)), (slice_app _ (le_bytes 4 pd))
    by (by rewrite ?length_app, ?le_bytes_length, ?H1).
  unfold is_u32, is_u64 in *. by rewrite !le_val_bytes by (cbn; lia).
Qed.

Lemma rdma_pongmsg_length p m : pad_ok 4 p -> length (rdma_pongmsg_bytes p m) = SIZEOF_RDMA_PONGMSG.
Proof.
  intros [H1 _]. unfold rdma_pongmsg_bytes. by rewrite !length_app, !le_bytes_length, H1.
Qed.

Lemma rdma_pongmsg_of_bytes p m :
  pad_ok 4 p -> is_u32 (po_opcode m) -> is_u64 (po_pingid m) -> is_u64 (po_server_delay m) ->
  rdma_pongmsg_of (rdma_pongmsg_bytes p m) = m.
Proof.
  intros [H1 _] Ho Hi Hd. destruct m as [op id sd]. cbn [po_opcode po_pingid po_server_delay] in *.
  unfold rdma_pongmsg_of, rdma_pongmsg_bytes. cbn [po_opcode po_pingid po_server_delay].
  rewrite (slice_head (le_bytes 4 op)) by (by rewrite ?le_bytes_length).
  rewrite (app_assoc (le_bytes 4 op)), (slice_app _ (le_bytes 8 id))
    by (by rewrite ?length_app, ?le_bytes_length, ?H1).
  rewrite (app_assoc _ (le_bytes 8 id)), (slice_last _ (le_bytes 8 sd))
    by (by rewrite ?length_app, ?le_bytes_length, ?H1).
  unfold is_u32, is_u64 in *. by rewrite !le_val_bytes by (cbn; lia).
Qed.

Lemma rdma_pingmsg_length p1 p2 m :
  pad_ok 4 p1 -> pad_ok 4 p2 -> length (pm_gid m) = 16%nat ->
  length (rdma_pingmsg_bytes p1 p2 m) = SIZEOF_RDMA_PINGMSG.
Proof.
  intros [H1 _] [H2 _] Hg. unfold rdma_pingmsg_bytes.
  by rewrite !length_app, !le_bytes_length, H1, H2, Hg.
Qed.

Lemma rdma_pingmsg_of_bytes p1 p2 m :
  pad_ok 4 p1 -> pad_ok 4 p2 -> length (pm_gid m) = 16%nat ->
  is_u64 (pm_pingid m) -> is_u32 (pm_qpn m) -> is_u32 (pm_lid m) -> is_u64 (pm_time m) ->
  rdma_pingmsg_of (rdma_pingmsg_bytes p1 p2 m) = m.
Proof.
  intros [H1 _] [H2 _] Hg Hi Hq Hl Ht. destruct m as [id qpn gid lid tm].
  cbn [pm_pingid pm_qpn pm_gid pm_lid pm_time] in *.
  unfold rdma_pingmsg_of, rdma_pingmsg_bytes. cbn [pm_pingid pm_qpn pm_gid pm_lid pm_time].
  rewrite (slice_head (le_bytes 8 id)) by (by rewrite ?le_bytes_length).
  rewrite (slice_app (le_bytes 8 id) (le_bytes 4 qpn)) by (by rewrite ?le_bytes_length).
  rewrite (app_assoc (le_bytes 8 id)), (app_assoc _ p1), (slice_app _ gid)
    by (by rewrite ?length_app, ?le_bytes_length, ?H1, ?Hg).
  rewrite (app_assoc _ gid), (slice_app _ (le_bytes 4 lid))
    by (by rewrite ?length_app, ?le_bytes_length, ?H1, ?Hg).
  rewrite (app_assoc _ (le_bytes 4 lid)), (app_assoc _ p2), (slice_last _ (le_bytes 8 tm))
    by (by rewrite ?length_app, ?le_bytes_length, ?H1, ?H2, ?Hg).
  unfold is_u32, is_u64 in *. by rewrite !le_val_bytes by (cbn; lia).
Qed.
