(* ===== verification/TcpUdpCommon.v ===== *)
(** * TcpUdpCommon: sockets and messages of the TCP and UDP programs
    (tcpudp_common.cpp).

    The results of the system calls are inputs ([*_env] records, lists of
    [recv_attempt]); their effects on the process are outputs: the set of open
    descriptors, the datagrams handed to [sendto], the ping table. A
    [unique_ptr] with [close_fd] owns a descriptor: assigning it closes the old
    one, destroying it closes the current one. *)
From S2P Require Import Prelude Text CxxString Format Common Ini Queue KeyTable PingLedger.
From S2P Require Import TcpUdpPingInfo Wire.
From Stdlib Require String.
Local Open Scope Z_scope.

(** An owning pointer to a descriptor. *)
Abbreviation owned_fd := (option Z).

(** [close_fd] of format.hpp. *)
Definition close_fd (p : owned_fd) (fds : gset Z) : gset Z :=
  match p with
  | Some fd => if 0 <=? fd then fds ∖ {[fd]} else fds
  | None => fds
  end.

(** ** UDP *)
Record udp_context := UdpContext {
  uc_sock : owned_fd; uc_poll_interval_us : Z; uc_ipv4 : string }.

Record udp_env := UdpEnv {
  ue_socket : Z;  (* socket(AF_INET, SOCK_DGRAM, 0) *)
  ue_getfl : Z;   (* fcntl(F_GETFL) *)
  ue_setfl : Z;   (* fcntl(F_SETFL) *)
  ue_bind : Z     (* bind() *) }.

(** The status, the context, the open descriptors, and the address and port
    bound, if [bind] was called with success. *)
Definition make_udp_ctx (ini : option chars) (env : udp_env) (ctx : udp_context)
  (ipv4 : string) (port : Z) (fds : gset Z)
  : outcome (Z * udp_context * gset Z * option (list Z * Z)) :=
  let ctx := UdpContext (uc_sock ctx) (uc_poll_interval_us ctx) ipv4 in
  '(r, poll) ← get_int_param_from_ini ini (uc_poll_interval_us ctx)
                 "interval_poll_event_udp_microsec";
  let ctx := UdpContext (uc_sock ctx) poll ipv4 in
  if IS_FAILURE r then Ret (PINGWEAVE_FAILURE, ctx, fds, None)
  else
    let fd := ue_socket env in
    if fd <? 0 then Ret (PINGWEAVE_FAILURE, ctx, fds, None)
    else
      let fds := {[fd]} ∪ fds in
      if (0 <? poll) && (ue_getfl env =? -1) then Ret (PINGWEAVE_FAILURE, ctx, fds, None)
      else if (0 <? poll) && (ue_setfl env =? -1) then Ret (PINGWEAVE_FAILURE, ctx, fds, None)
      else
        let fds := close_fd (uc_sock ctx) fds in
        let ctx := UdpContext (Some fd) poll ipv4 in
        match inet_pton4 ipv4 with
        | None => Ret (PINGWEAVE_FAILURE, ctx, fds, None)
        | Some addr =>
            if ue_bind env <? 0 then Ret (PINGWEAVE_FAILURE, ctx, fds, None)
            else Ret (PINGWEAVE_SUCCESS, ctx, fds, Some (addr, port))
        end.

Definition initialize_contexts (ini : option chars) (env_tx env_rx : udp_env)
  (ctx_tx ctx_rx : udp_context) (ipv4 : string) (rx_port : Z) (fds : gset Z)
  : outcome (Z * udp_context * udp_context * gset Z) :=
  let tx_port := 0 in
  '(r, ctx_tx, fds, _) ← make_udp_ctx ini env_tx ctx_tx ipv4 tx_port fds;
  if IS_FAILURE r then Ret (PINGWEAVE_FAILURE, ctx_tx, ctx_rx, fds)
  else
    '(r, ctx_rx, fds, _) ← make_udp_ctx ini env_rx ctx_rx ipv4 rx_port fds;
    if IS_FAILURE r then Ret (PINGWEAVE_FAILURE, ctx_tx, ctx_rx, fds)
    else Ret (PINGWEAVE_SUCCESS, ctx_tx, ctx_rx, fds).

(** What is handed to [sendto]: the destination's address and port, the bytes. *)
Record datagram := Datagram { dg_addr : list Z; dg_port : Z; dg_bytes : list Z }.

(** [sent] is the result of [sendto]; [p1] and [p2] are the padding of the
    message. *)
Definition send_udp_message (dst_ip : string) (dst_port pingid : Z) (p1 p2 : list Z) (sent : Z)
  : Z * option datagram :=
  match inet_pton4 dst_ip with
  | None => (PINGWEAVE_FAILURE, None)
  | Some addr =>
      let msg := TcpUdpPingMsg 0 pingid 0 in
      let d := Datagram addr dst_port (tcpudp_pingmsg_bytes p1 p2 msg) in
      if sent <? 0 then (PINGWEAVE_FAILURE, Some d)
      else if negb (sent =? Z.of_nat SIZEOF_TCPUDP_PINGMSG) then (PINGWEAVE_FAILURE, Some d)
      else (PINGWEAVE_SUCCESS, Some d)
  end.

(** One [recvfrom]: it fails, with [EAGAIN] or not, or gives a datagram and
    its sender's address. *)
Inductive recv_attempt :=
  | RecvFail (again : bool)
  | RecvData (data : list Z) (sender : list Z).

(** The polling loop: [None] while every attempt so far failed with [EAGAIN]. *)
Fixpoint poll_recv (attempts : list recv_attempt) : option (recv_attempt * list recv_attempt) :=
  match attempts with
  | [] => None
  | RecvFail true :: attempts => poll_recv attempts
  | a :: attempts => Some (a, attempts)
  end.

Definition blocking_recv (attempts : list recv_attempt)
  : option (recv_attempt * list recv_attempt) :=
  match attempts with [] => None | a :: attempts => Some (a, attempts) end.

(** The out parameters: the ping id, the sender's text, the receipt time. *)
Record received_ping := ReceivedPing { rp_pingid : Z; rp_sender : string; rp_steady_ts : Z }.

(** The parsing of [receive_udp_message], after [recvfrom]. A longer datagram
    is cut to the size of the message. *)
Definition parse_udp_message (data sender : list Z) (out : received_ping) : Z * received_ping :=
  let received := Nat.min (length data) SIZEOF_TCPUDP_PINGMSG in
  let buffer := blit 0 (take received data) (zeroed SIZEOF_TCPUDP_PINGMSG) in
  if negb (received =? SIZEOF_TCPUDP_PINGMSG)%nat then (PINGWEAVE_FAILURE, out)
  else
    let ping_msg := tcpudp_pingmsg_of buffer in
    if negb (um_prefix ping_msg =? 0) || negb (um_pad ping_msg =? 0) then (PINGWEAVE_FAILURE, out)
    else if um_pingid ping_msg =? 0 then (PINGWEAVE_FAILURE, out)
    else (PINGWEAVE_SUCCESS,
          ReceivedPing (um_pingid ping_msg) (inet_ntop4 sender) (rp_steady_ts out)).

(** [now] is the clock after the receipt. [None]: still waiting. *)
Definition receive_udp_message (poll_interval_us : Z) (attempts : list recv_attempt) (now : Z)
  (out : received_ping) : option (Z * received_ping * list recv_attempt) :=
  '(a, attempts) ← (if 0 <? poll_interval_us then poll_recv attempts else blocking_recv attempts);
  match a with
  | RecvFail _ =>
      (* the polling loop returns before the clock is read *)
      let out := if 0 <? poll_interval_us then out
                 else ReceivedPing (rp_pingid out) (rp_sender out)
                        (Clock.get_current_timestamp_steady_ns now) in
      Some (PINGWEAVE_FAILURE, out, attempts)
  | RecvData data sender =>
      let out := ReceivedPing (rp_pingid out) (rp_sender out)
                   (Clock.get_current_timestamp_steady_ns now) in
      let '(r, out) := parse_udp_message data sender out in
      Some (r, out, attempts)
  end.

(** ** TCP *)
Record tcp_context := TcpContext { tc_sock : owned_fd; tc_ipv4 : string; tc_is_server : bool }.

Record tcp_env := TcpEnv {
  te_socket : Z;
  te_setsockopt1 : Z;   (* reuse (server), timeouts (client) *)
  te_setsockopt2 : Z;   (* linger (client) *)
  te_bind : Z;
  te_getsockname : Z;
  te_listen : Z }.

Definition make_tcp_ctx (env : tcp_env) (ctx : tcp_context) (ipv4 : string) (port : Z)
  (fds : gset Z) : Z * tcp_context * gset Z :=
  let ctx := TcpContext (tc_sock ctx) ipv4 (tc_is_server ctx) in
  let fd := te_socket env in
  if fd <? 0 then (PINGWEAVE_FAILURE, ctx, fds)
  else
    let fds := close_fd (tc_sock ctx) ({[fd]} ∪ fds) in
    let ctx := TcpContext (Some fd) ipv4 (tc_is_server ctx) in
    if tc_is_server ctx && (te_setsockopt1 env <? 0) then (PINGWEAVE_FAILURE, ctx, fds)
    else if negb (tc_is_server ctx) && (te_setsockopt1 env <? 0) then (PINGWEAVE_FAILURE, ctx, fds)
    else if negb (tc_is_server ctx) && (te_setsockopt2 env =? -1) then (PINGWEAVE_FAILURE, ctx, fds)
    else
      match inet_pton4 ipv4 with
      | None => (PINGWEAVE_FAILURE, ctx, fds)
      | Some _ =>
          if te_bind env <? 0 then (PINGWEAVE_FAILURE, ctx, fds)
          else if tc_is_server ctx && (te_getsockname env =? -1) then (PINGWEAVE_FAILURE, ctx, fds)
          else if tc_is_server ctx && (te_listen env =? -1) then (PINGWEAVE_FAILURE, ctx, fds)
          else (PINGWEAVE_SUCCESS, ctx, fds)
      end.

(** The clock readings of [insert] (three) and of the end of the handshake. *)
Record tcp_clocks := TcpClocks {
  tk_expire : Z; tk_steady : Z; tk_system : Z; tk_connected : Z }.

Section tcp.
Context `{SpscQueue Q tcpudp_result_msg_t} (indet threshold_ms : Z).

(** [connect_ret] and [getsockname_ret] are the results of the two calls on the
    client's socket, which its context closes on return. *)
Definition send_tcp_message (env : tcp_env) (connect_ret getsockname_ret : Z) (clk : tcp_clocks)
  (src_ip dst_ip : string) (dst_port pingid : Z) (fds : gset Z) (ping_table : tcpudp_map Q)
  : outcome (Z * gset Z * tcpudp_map Q) :=
  let ctx_client := TcpContext None "" false in
  let '(r, ctx_client, fds) := make_tcp_ctx env ctx_client src_ip 0 fds in
  let fds_end := close_fd (tc_sock ctx_client) fds in
  if IS_FAILURE r then Ret (PINGWEAVE_FAILURE, fds_end, ping_table)
  else
    match inet_pton4 dst_ip with
    | None => Ret (PINGWEAVE_FAILURE, fds_end, ping_table)
    | Some addr =>
        let ping_table := (insert indet threshold_ms pingid pingid dst_ip
          (tk_expire clk) (tk_steady clk) (tk_system clk) ping_table).2 in
        if connect_ret =? -1 then Ret (PINGWEAVE_FAILURE, fds_end, ping_table)
        else
          '(_, ping_table) ← update_pong_info indet pingid
            (Clock.get_current_timestamp_steady_ns (tk_connected clk)) ping_table;
          if getsockname_ret =? -1 then Ret (PINGWEAVE_FAILURE, fds_end, ping_table)
          else Ret (PINGWEAVE_SUCCESS, fds_end, ping_table)
    end.
End tcp.

(** [fds]: the descriptors open in the process. *)
Definition receive_tcp_message (sockfd : Z) (fds : gset Z) : Z * gset Z :=
  if sockfd <? 0 then (PINGWEAVE_FAILURE, fds) else (PINGWEAVE_SUCCESS, fds ∖ {[sockfd]}).

(** ** The text of a result *)
Section result_text.
Context (strftime_localtime : Z -> string).

Definition convert_tcpudp_result_to_str (srcip dstip : string) (info : tcpudp_result_info_t)
  (network_stat : result_stat_t) : string :=
  String.concat "," [srcip; dstip;
    Clock.timestamp_ns_to_string strftime_localtime (tu_ts_start info);
    Clock.timestamp_ns_to_string strftime_localtime (tu_ts_end info);
    dec_string (tu_n_success info); dec_string (tu_n_failure info); dec_string (tu_n_weird info);
    "network"; dec_string (mean network_stat); dec_string (max network_stat);
    dec_string (percentile_50 network_stat); dec_string (percentile_95 network_stat);
    dec_string (percentile_99 network_stat)].
End result_text.

(** ** Lemmas *)
Lemma slice_prefix off len l1 l2 :
  (off + len <= length l1)%nat -> slice off len (l1 ++ l2) = slice off len l1.
Proof.
  intros H. unfold slice. rewrite drop_app_le by lia. rewrite take_app_le; [done|].
  rewrite length_drop. lia.
Qed.

(** A whole message fills the receive buffer. *)
Lemma recv_buffer data :
  (SIZEOF_TCPUDP_PINGMSG <= length data)%nat ->
  blit 0 (take (Nat.min (length data) SIZEOF_TCPUDP_PINGMSG) data) (zeroed SIZEOF_TCPUDP_PINGMSG)
  = take SIZEOF_TCPUDP_PINGMSG data.
Proof.
  intros H. rewrite Nat.min_r by done. unfold blit. rewrite take_0, length_take, Nat.min_l by done.
  cbn [app Nat.add]. rewrite drop_ge; [by rewrite app_nil_r|].
  unfold zeroed. by rewrite length_replicate.
Qed.

Lemma tcpudp_pingmsg_of_take data :
  (SIZEOF_TCPUDP_PINGMSG <= length data)%nat ->
  tcpudp_pingmsg_of (take SIZEOF_TCPUDP_PINGMSG data) = tcpudp_pingmsg_of data.
Proof.
  intros H. rewrite <- (take_drop SIZEOF_TCPUDP_PINGMSG data) at 2. unfold tcpudp_pingmsg_of.
  unfold SIZEOF_TCPUDP_PINGMSG in *.
  by rewrite !slice_prefix by (rewrite length_take; lia).
Qed.

(** When the parser accepts: the size, the two zero fields, the ping id. *)
Lemma parse_udp_message_spec data sender out :
  let m := tcpudp_pingmsg_of data in
  parse_udp_message data sender out =
  if bool_decide ((SIZEOF_TCPUDP_PINGMSG <= length data)%nat /\ um_prefix m = 0 /\ um_pad m = 0 /\
                  um_pingid m <> 0)
  then (PINGWEAVE_SUCCESS, ReceivedPing (um_pingid m) (inet_ntop4 sender) (rp_steady_ts out))
  else (PINGWEAVE_FAILURE, out).
Proof.
  intros m. unfold parse_udp_message. destruct (decide (SIZEOF_TCPUDP_PINGMSG <= length data)%nat).
  - rewrite recv_buffer, tcpudp_pingmsg_of_take by done. fold m.
    rewrite (proj2 (Nat.eqb_eq _ _)) by (by apply Nat.min_r). cbn [negb].
    case_cmp; cbn [negb orb]; case_bool_decide; try done; tauto.
  - rewrite (proj2 (Nat.eqb_neq _ _)) by lia. cbn [negb].
    rewrite bool_decide_eq_false_2 by tauto. done.
Qed.

Lemma parse_own_message p1 p2 pingid sender out :
  pad_ok 4 p1 -> pad_ok 4 p2 -> is_u64 pingid -> pingid <> 0 ->
  parse_udp_message (tcpudp_pingmsg_bytes p1 p2 (TcpUdpPingMsg 0 pingid 0)) sender out
  = (PINGWEAVE_SUCCESS, ReceivedPing pingid (inet_ntop4 sender) (rp_steady_ts out)).
Proof.
  intros H1 H2 Hid Hne. rewrite parse_udp_message_spec, tcpudp_pingmsg_of_bytes by done.
  cbn [um_prefix um_pad um_pingid].
  rewrite bool_decide_eq_true_2; [done|]. by rewrite tcpudp_pingmsg_length.
Qed.

Lemma poll_recv_again n a attempts :
  a <> RecvFail true -> poll_recv (replicate n (RecvFail true) ++ a :: attempts) = Some (a, attempts).
Proof. intros Ha. induction n; [|done]. destruct a as [[]|]; done. Qed.

Lemma close_new_fd (fd : Z) (fds : gset Z) : 0 <= fd -> fd ∉ fds -> close_fd (Some fd) ({[fd]} ∪ fds) = fds.
Proof. intros H1 H2. cbn. rewrite (proj2 (Z.leb_le _ _)) by done. set_solver. Qed.

(** Whatever happens in it, [make_ctx] opens one descriptor, which the context
    then owns, or none. *)
Lemma make_tcp_ctx_owns env ipv4 srv ip port fds :
  let '(_, ctx, fds') := make_tcp_ctx env (TcpContext None ip srv) ipv4 port fds in
  (te_socket env < 0 /\ tc_sock ctx = None /\ fds' = fds) \/
  (0 <= te_socket env /\ tc_sock ctx = Some (te_socket env) /\ fds' = {[te_socket env]} ∪ fds).
Proof.
  unfold make_tcp_ctx. destruct (Z.ltb_spec (te_socket env) 0); [by left|].
  cbn [tc_sock close_fd tc_is_server]. repeat case_match; simplify_eq; by right.
Qed.

Lemma make_tcp_ctx_closed env ipv4 srv ip port fds :
  te_socket env ∉ fds ->
  let '(_, ctx, fds') := make_tcp_ctx env (TcpContext None ip srv) ipv4 port fds in
  close_fd (tc_sock ctx) fds' = fds.
Proof.
  intros Hfd. pose proof (make_tcp_ctx_owns env ipv4 srv ip port fds) as H.
  destruct (make_tcp_ctx _ _ _ _ _) as [[r ctx] fds'].
  destruct H as [(_ & -> & ->)|(H0 & -> & ->)]; [done|]. by apply close_new_fd.
Qed.

(** The same for UDP, but for a descriptor that [fcntl] refuses: the context
    does not own it yet. *)
Lemma close_replaced (fd : Z) (old : owned_fd) (fds : gset Z) :
  0 <= fd -> fd ∉ fds -> close_fd (Some fd) (close_fd old ({[fd]} ∪ fds)) = close_fd old fds.
Proof.
  intros H1 H2. cbn. rewrite (proj2 (Z.leb_le _ _)) by done.
  destruct old as [o|]; cbn; [destruct (0 <=? o)|]; set_solver.
Qed.

(** ** Properties *)

(** A ping id survives the wire: whatever the padding bytes of the message
    and however often the polling loop found nothing, the receiver gets the
    sender's ping id, the text of its address and the time of receipt. *)
Theorem udp_message_roundtrip dst_ip dst_port pingid p1 p2 poll n rest now sender out :
  pad_ok 4 p1 -> pad_ok 4 p2 -> is_u64 pingid -> pingid <> 0 -> NetAddr.valid_ipv4 dst_ip ->
  (poll <= 0 -> n = 0%nat) ->
  exists d, send_udp_message dst_ip dst_port pingid p1 p2 24 = (PINGWEAVE_SUCCESS, Some d) /\
    dg_port d = dst_port /\ Some (dg_addr d) = inet_pton4 dst_ip /\
    receive_udp_message poll (replicate n (RecvFail true) ++ RecvData (dg_bytes d) sender :: rest)
      now out
    = Some (PINGWEAVE_SUCCESS, ReceivedPing pingid (inet_ntop4 sender) (u64 now), rest).
Proof.
  intros H1 H2 Hid Hne [addr Haddr] Hn. unfold send_udp_message. rewrite Haddr. cbn.
  eexists. split; [done|]. split_and!; [done|done|]. unfold receive_udp_message.
  set (data := RecvData (dg_bytes _) sender).
  assert ((if 0 <? poll then poll_recv (replicate n (RecvFail true) ++ data :: rest)
           else blocking_recv (replicate n (RecvFail true) ++ data :: rest)) = Some (data, rest)) as ->.
  { destruct (Z.ltb_spec 0 poll); [by apply poll_recv_again|]. by rewrite Hn. }
  cbn [mbind option_bind]. unfold data. cbn [dg_bytes].
  by rewrite (parse_own_message p1 p2 pingid sender).
Qed.

Lemma udp_message_roundtrip_witness :
  exists d, send_udp_message "10.0.0.2" 33336 4294967299 [0;0;0;0] [1;2;3;4] 24
      = (PINGWEAVE_SUCCESS, Some d) /\
    receive_udp_message 10 [RecvFail true; RecvData (dg_bytes d) [10; 0; 0; 1]] 77
      (ReceivedPing 0 "" 0)
    = Some (PINGWEAVE_SUCCESS, ReceivedPing 4294967299 "10.0.0.1" 77, []).
Proof.
  destruct (udp_message_roundtrip "10.0.0.2" 33336 4294967299 [0;0;0;0] [1;2;3;4] 10 1 [] 77
    [10; 0; 0; 1] (ReceivedPing 0 "" 0)) as (d & Hs & _ & _ & Hr).
  - split; [reflexivity|]. repeat constructor; lia.
  - split; [reflexivity|]. repeat constructor; lia.
  - unfold is_u64. lia.
  - lia.
  - eexists. vm_compute. reflexivity.
  - lia.
  - exists d. split; [exact Hs|exact Hr].
Defined.

(** The receiver accepts a datagram exactly when it is at least 24 bytes
    long with a zero prefix, a zero pad and a non-zero ping id; otherwise it
    fails, and the caller's ping id and sender keep their values. *)
Theorem udp_receive_validates poll_interval_us data sender now out :
  let m := tcpudp_pingmsg_of data in
  let accepted := (SIZEOF_TCPUDP_PINGMSG <= length data)%nat /\ um_prefix m = 0 /\
                  um_pad m = 0 /\ um_pingid m <> 0 in
  (accepted ->
   receive_udp_message poll_interval_us [RecvData data sender] now out
   = Some (PINGWEAVE_SUCCESS, ReceivedPing (um_pingid m) (inet_ntop4 sender) (u64 now), [])) /\
  (~ accepted ->
   receive_udp_message poll_interval_us [RecvData data sender] now out
   = Some (PINGWEAVE_FAILURE, ReceivedPing (rp_pingid out) (rp_sender out) (u64 now), [])).
Proof.
  intros m accepted. unfold receive_udp_message.
  assert ((if 0 <? poll_interval_us then poll_recv [RecvData data sender]
           else blocking_recv [RecvData data sender]) = Some (RecvData data sender, [])) as ->
    by (by destruct (0 <? poll_interval_us)).
  cbn [mbind option_bind]. rewrite parse_udp_message_spec. cbv zeta. fold m.
  split; intros H; [rewrite bool_decide_eq_true_2 by done|rewrite bool_decide_eq_false_2 by done];
    done.
Qed.

(** [send_tcp_message] never leaks its socket: on every path, failures
    included, the descriptors open afterwards are those open before. When the
    connection is made, the ping it inserted is reported as a success with the
    time of the handshake and is no longer pending; when it is refused, the
    ping stays pending. *)
Theorem send_tcp_message_reports `{SpscQueue Q tcpudp_result_msg_t} indet threshold_ms env
    connect_ret getsockname_ret clk src_ip dst_ip dst_port pingid fds table :
  te_socket env ∉ fds ->
  wf (tu_tbl table) -> ids_ok ti_pingid (fun _ => True) (contents (tu_tbl table)) ->
  pingid ∉ (contents (tu_tbl table)).*1 ->
  is_u64 (tk_connected clk) -> is_u64 (tk_steady clk) -> tk_steady clk <= tk_connected clk ->
  exists r table', send_tcp_message indet threshold_ms env connect_ret getsockname_ret clk
      src_ip dst_ip dst_port pingid fds table = Ret (r, fds, table') /\
    (r = PINGWEAVE_SUCCESS ->
     exists gone, gone `prefix_of` contents (tu_tbl table) /\
       tu_queue table' = enqueued (TcpUdpResultMsg pingid (NetAddr.ip2uint indet dst_ip)
           (u64 (tk_system clk)) (tk_connected clk - tk_steady clk) PINGWEAVE_RESULT_SUCCESS)
         (expired_effect (on_expire indet) gone (tu_queue table)) /\
       pingid ∉ (contents (tu_tbl table')).*1) /\
    (connect_ret = -1 -> r = PINGWEAVE_FAILURE /\
       (pingid ∈ (contents (tu_tbl table')).*1 \/ table' = table)).
Proof.
  intros Hfd Ht Hid Hnew Hc Hs Hle. unfold send_tcp_message.
  pose proof (make_tcp_ctx_closed env src_ip false "" 0 fds Hfd) as Hclosed.
  destruct (make_tcp_ctx env (TcpContext None "" false) src_ip 0 fds) as [[r ctx] fds1].
  assert (forall o, o = Ret (PINGWEAVE_FAILURE, fds, table) -> exists r table',
    o = Ret (r, fds, table') /\ r = PINGWEAVE_FAILURE /\ table' = table) as Hfail by (intros; eauto).
  rewrite Hclosed. destruct (IS_FAILURE r); [|destruct (inet_pton4 dst_ip) as [addr|]].
  1, 3: destruct (Hfail _ eq_refl) as (r' & t' & Ho & -> & ->); exists PINGWEAVE_FAILURE, table;
    split; [exact Ho|]; split; [done|]; intros _; split; [done|by right].
  destruct (udp_insert_new indet threshold_ms pingid dst_ip (tk_expire clk) (tk_steady clk)
    (tk_system clk) table Ht Hid Hnew) as (gone & t' & -> & Hpre & Ht' & Hid' & e & He & Hv).
  cbn [snd]. destruct (Z.eqb_spec connect_ret (-1)) as [Hcr|Hcr].
  - eexists _, _. split; [done|]. split; [done|]. intros _. split; [done|]. left.
    by eapply contents_key.
  - destruct (ids_ok_lookup _ _ _ _ _ Ht' Hid' He) as [Hk _].
    destruct (pong_spec indet pingid (u64 (tk_connected clk)) (TcpUdpMap t'
      (expired_effect (on_expire indet) gone (tu_queue table))) e Ht' He Hk)
      as (t2 & Hr2 & Hc2 & Hu).
    unfold Clock.get_current_timestamp_steady_ns, Clock.convert_clock_to_ns. rewrite Hu.
    cbv [mbind outcome_bind]. rewrite Hv. unfold tu_msg. cbn [ti_pingid ti_dstip ti_time_ping_send ti_network_delay].
    assert (Clock.calc_time_delta_with_bitwrap (u64 (tk_steady clk)) (u64 (tk_connected clk)) UINT64_MAX
      = tk_connected clk - tk_steady clk) as ->.
    { rewrite !u64_small by done. unfold Clock.calc_time_delta_with_bitwrap.
      rewrite (proj2 (Z.leb_le _ _)) by done. apply u64_small. unfold is_u64 in *. lia. }
    exists (if getsockname_ret =? -1 then PINGWEAVE_FAILURE else PINGWEAVE_SUCCESS). eexists.
    split; [by destruct (getsockname_ret =? -1)|]. split; [|done]. intros _. exists gone.
    split_and!; [done|done|]. cbn [tu_tbl]. rewrite Hc2.
    intros (p & Hp & Hin)%list_elem_of_fmap. apply list_elem_of_filter in Hin as [Hne _]. by rewrite Hp in Hne.
Qed.

Lemma send_tcp_message_reports_witness :
  let table := TcpUdpMap empty_table ([] : list tcpudp_result_msg_t) in
  let env := TcpEnv 7 0 0 0 0 0 in
  exists table', send_tcp_message 0 1000 env 0 0 (TcpClocks 10 20 30 120) "10.0.0.1" "10.0.0.2"
      33334 9 {[3]} table = Ret (PINGWEAVE_SUCCESS, {[3]}, table') /\
    tu_queue table' = [TcpUdpResultMsg 9 33554442 30 100 PINGWEAVE_RESULT_SUCCESS].
Proof.
  intros table env.
  destruct (send_tcp_message_reports (H := list_spsc _) 0 1000 env 0 0 (TcpClocks 10 20 30 120)
    "10.0.0.1" "10.0.0.2" 33334 9 {[3]} table) as (r & table' & Hs & Hr & _).
  - cbn. apply not_elem_of_singleton. lia.
  - apply wf_empty.
  - constructor.
  - apply not_elem_of_nil.
  - unfold is_u64. cbn. lia.
  - unfold is_u64. cbn. lia.
  - cbn. lia.
  - assert (Hs' := Hs). vm_compute in Hs'. injection Hs' as <- <-. eexists. split; [exact Hs|].
    reflexivity.
Defined.

(** A UDP context that is made is bound to the requested address and port
    and owns the new socket, the old one being closed; and once the context is
    destroyed nothing of the call is left open, unless [fcntl] fails in polling
    mode, which leaks the new descriptor. The call always returns. *)
Theorem udp_ctx_descriptors ini env ctx ipv4 port fds :
  ue_socket env ∉ fds ->
  exists r ctx' fds' bound,
    make_udp_ctx ini env ctx ipv4 port fds = Ret (r, ctx', fds', bound) /\
    (r = PINGWEAVE_SUCCESS ->
     uc_sock ctx' = Some (ue_socket env) /\ uc_ipv4 ctx' = ipv4 /\
     fds' = close_fd (uc_sock ctx) ({[ue_socket env]} ∪ fds) /\
     exists addr, inet_pton4 ipv4 = Some addr /\ bound = Some (addr, port)) /\
    (close_fd (uc_sock ctx') fds' = close_fd (uc_sock ctx) fds \/
     (ue_getfl env = -1 \/ ue_setfl env = -1) /\ r = PINGWEAVE_FAILURE /\
     uc_sock ctx' = uc_sock ctx /\ fds' = {[ue_socket env]} ∪ fds).
Proof.
  intros Hfd. unfold make_udp_ctx.
  destruct (get_int_param_total ini (uc_poll_interval_us ctx) "interval_poll_event_udp_microsec")
    as (r & poll & Hg & _). cbn [uc_sock uc_poll_interval_us]. rewrite Hg.
  cbv [mbind outcome_bind].
  destruct (IS_FAILURE r); [by do 4 eexists; split; [done|]; split; [done|left]|].
  destruct (Z.ltb_spec (ue_socket env) 0) as [|Hs];
    [by do 4 eexists; split; [done|]; split; [done|left]|].
  destruct (0 <? poll), (Z.eqb_spec (ue_getfl env) (-1)), (Z.eqb_spec (ue_setfl env) (-1)); cbn [andb];
    try (do 4 eexists; split; [done|]; split; [done|]; right; by auto).
  all: destruct (inet_pton4 ipv4) as [addr|]; [destruct (ue_bind env <? 0)|];
    do 4 eexists; (split; [done|]); (split; [by eauto 10|]); left; by apply close_replaced.
Qed.

Lemma udp_ctx_descriptors_witness :
  let ini := Some (print_items [ISection (bytes_of "param");
    IAssign (bytes_of "interval_poll_event_udp_microsec") (bytes_of "10") None]) in
  exists r ctx' fds' bound,
    make_udp_ctx ini (UdpEnv 7 2 (-1) 0) (UdpContext None 0 "") "10.0.0.1" 33335 {[3]}
    = Ret (r, ctx', fds', bound) /\ fds' = {[7; 3]} /\ uc_sock ctx' = None.
Proof.
  intros ini.
  destruct (udp_ctx_descriptors ini (UdpEnv 7 2 (-1) 0) (UdpContext None 0 "") "10.0.0.1" 33335
    {[3]}) as (r & ctx' & fds' & bound & Hm & _).
  - cbn. apply not_elem_of_singleton. lia.
  - exists r, ctx', fds', bound. split; [exact Hm|]. vm_compute in Hm.
    injection Hm as <- <- <- <-. split; reflexivity.
Defined.
