(* ===== verification/ResultThread.v ===== *)
(** * ResultThread: the result threads of the clients (udp_client.cpp,
    tcp_client.cpp, rdma_client.cpp).

    A result thread takes the messages of the ping table's queue, keeps a
    history per destination, and at every interval writes one report, a line
    per destination, into the shared-memory ring and starts over. The three
    threads share this text; what differs, the message and the history, is the
    class [ResultKind], with one instance for UDP and TCP and one for RDMA. The
    order in which the [unordered_map] lists its entries is a parameter. *)
From S2P Require Import Prelude Text CxxString Format Common Ini Ipc TcpUdpCommon.
From Stdlib Require String.
Local Open Scope Z_scope.

(** [M] is the message, [Hist] the history of a destination. *)
Class ResultKind (M Hist : Type) := {
  rk_dstip : M -> Z;
  rk_time_ping_send : M -> Z;
  rk_result : M -> Z;
  rk_init : Hist;
  rk_ts_start : Hist -> Z;
  rk_stamp : Z -> Z -> Hist -> Hist;      (* the new [ts_start] and [ts_end] *)
  rk_success : M -> Hist -> Hist;
  rk_failure : Hist -> Hist;
  rk_weird : Hist -> Hist;
  rk_line : string -> string -> Hist -> outcome string;  (* source, destination *)
}.

(** [get_int_param_from_ini] and [get_controller_info_from_ini] at the start of
    the thread: the interval of the reports, or [None] when the thread executes
    a [throw] without exception, which terminates the program. *)
Definition result_thread_start (ini : option chars) : outcome (option Z) :=
  '(r, report_interval_ms) ← get_int_param_from_ini ini 10000
     "interval_report_ping_result_millisec";
  let report_interval_ms := if IS_FAILURE r then 10000 else report_interval_ms in
  let '(r, _, _) := get_controller_info_from_ini ini "" 0 in
  if IS_FAILURE r then Ret None else Ret (Some report_interval_ms).

Section result_thread.
Context `{ResultKind M Hist}.
Context (order : gmap Z Hist -> list (Z * Hist)) (BUFFER_SIZE : Z) (MESSAGE_SIZE : nat).
Context (report_interval_ms : Z) (ipv4 : string).

Record result_state := ResultState {
  dstip2result : gmap Z Hist; last_report_time : Z; ipc_producer : producer }.

(** The message in the history; [false]: an unknown type of result. *)
Definition record_result (m : M) (d : gmap Z Hist) : bool * gmap Z Hist :=
  let info := default rk_init (d !! rk_dstip m) in
  let ts_start := if rk_ts_start info =? 0 then rk_time_ping_send m else rk_ts_start info in
  let info := rk_stamp ts_start (rk_time_ping_send m) info in
  if rk_result m =? PINGWEAVE_RESULT_SUCCESS then (true, <[rk_dstip m := rk_success m info]> d)
  else if rk_result m =? PINGWEAVE_RESULT_FAILURE then (true, <[rk_dstip m := rk_failure info]> d)
  else if rk_result m =? PINGWEAVE_RESULT_WEIRD then (true, <[rk_dstip m := rk_weird info]> d)
  else (false, <[rk_dstip m := info]> d).

Definition new_line : string := String newline "".

Fixpoint aggregate_lines (l : list (Z * Hist)) (agg_result : string) : outcome string :=
  match l with
  | [] => Ret agg_result
  | (dstip, result_info) :: l =>
      result ← rk_line ipv4 (NetAddr.uint2ip dstip) result_info;
      aggregate_lines l (agg_result +:+ (result +:+ new_line))
  end.

(** The part of the loop at the end of an interval. *)
Definition report (current_time : Z) (st : result_state) : outcome result_state :=
  agg_result ← aggregate_lines (order (dstip2result st)) "";
  '(_, p) ← writeMessage BUFFER_SIZE MESSAGE_SIZE (bytes_of agg_result) (ipc_producer st);
  Ret (ResultState ∅ current_time p).

(** One round of the loop: what [wait_dequeue_timed] gave, and the clock. *)
Definition result_round (dequeued : option M) (current_time : Z) (st : result_state)
  : outcome result_state :=
  let '(go_on, st) :=
    match dequeued with
    | None => (true, st)
    | Some result_msg =>
        let '(known, d) := record_result result_msg (dstip2result st) in
        (known, ResultState d (last_report_time st) (ipc_producer st))
    end in
  if negb go_on then Ret st
  else
    let elapsed_time := Clock.to_milliseconds (current_time - last_report_time st) in
    if report_interval_ms <=? elapsed_time then report current_time st else Ret st.

Fixpoint result_loop (rounds : list (option M * Z)) (st : result_state) : outcome result_state :=
  match rounds with
  | [] => Ret st
  | (dequeued, current_time) :: rounds =>
      st ← result_round dequeued current_time st; result_loop rounds st
  end.

(** ** What the thread means to do

    The rounds cut the messages into windows; a window closes at the first
    round past the interval, unless its message is of an unknown type. *)
Definition known_result (dequeued : option M) : bool :=
  match dequeued with
  | None => true
  | Some m => bool_decide (rk_result m ∈ [PINGWEAVE_RESULT_SUCCESS; PINGWEAVE_RESULT_FAILURE;
                                          PINGWEAVE_RESULT_WEIRD])
  end.

(** The closed windows, the open one and the time at which it was opened. *)
Fixpoint windows (rounds : list (option M * Z)) (cur : list M) (opened : Z)
  : list (list M) * list M * Z :=
  match rounds with
  | [] => ([], cur, opened)
  | (dequeued, now) :: rounds =>
      let cur := cur ++ option_list dequeued in
      if known_result dequeued && (report_interval_ms <=? Clock.to_milliseconds (now - opened)) then
        let '(ws, cur', opened') := windows rounds [] now in (cur :: ws, cur', opened')
      else windows rounds cur opened
  end.

(** The history that a window of messages leaves. *)
Definition aggregate (ms : list M) : gmap Z Hist :=
  foldl (fun d m => (record_result m d).2) ∅ ms.

(** The report of each closed window, written in turn. *)
Fixpoint publish (ws : list (list M)) (p : producer) : outcome producer :=
  match ws with
  | [] => Ret p
  | w :: ws =>
      text ← aggregate_lines (order (aggregate w)) "";
      '(_, p) ← writeMessage BUFFER_SIZE MESSAGE_SIZE (bytes_of text) p;
      publish ws p
  end.

(** ** Lemmas *)
Lemma record_known m d : (record_result m d).1 = known_result (Some m).
Proof.
  unfold record_result, known_result. case_bool_decide as Hin;
    rewrite !elem_of_cons, elem_of_nil in Hin; case_cmp; cbn [fst]; tauto.
Qed.

Lemma aggregate_snoc ms m : aggregate (ms ++ [m]) = (record_result m (aggregate ms)).2.
Proof. unfold aggregate. by rewrite foldl_app. Qed.

Lemma windows_messages rounds cur opened :
  let '(ws, cur', _) := windows rounds cur opened in
  concat ws ++ cur' = cur ++ omap fst rounds.
Proof.
  revert cur opened. induction rounds as [|[dq now] rounds IH]; intros cur opened; cbn [windows].
  - cbn. by rewrite app_nil_r.
  - assert (omap fst ((dq, now) :: rounds) = option_list dq ++ omap fst rounds) as ->
      by (by destruct dq).
    rewrite app_assoc. destruct (known_result dq && _).
    + specialize (IH [] now). destruct (windows rounds [] now) as [[ws c] o]. cbn [concat].
      by rewrite <- (app_assoc (cur ++ option_list dq)), IH.
    + apply IH.
Qed.

Lemma window_length rounds opened w :
  w ∈ (windows rounds [] opened).1.1 -> (length w <= length rounds)%nat.
Proof.
  pose proof (windows_messages rounds [] opened) as Hm.
  destruct (windows rounds [] opened) as [[ws c] o]. cbn [fst]. intros [l1 [l2 ->]]%list_elem_of_split.
  apply (f_equal length) in Hm. rewrite concat_app in Hm. cbn [concat] in Hm.
  rewrite !length_app in Hm. cbn [length] in Hm.
  assert (length (omap fst rounds) <= length rounds)%nat.
  { clear. induction rounds as [|[[] ?] rounds IH]; cbn in *; lia. }
  lia.
Qed.

(** One round is one step of the windows. *)
Lemma round_aggregate dequeued now cur opened p :
  result_round dequeued now (ResultState (aggregate cur) opened p)
  = let cur := cur ++ option_list dequeued in
    if known_result dequeued && (report_interval_ms <=? Clock.to_milliseconds (now - opened))
    then report now (ResultState (aggregate cur) opened p)
    else Ret (ResultState (aggregate cur) opened p).
Proof.
  unfold result_round. cbv zeta. destruct dequeued as [m|].
  - change (option_list (Some m)) with [m]. pose proof (record_known m (aggregate cur)) as Hk.
    rewrite aggregate_snoc. cbn [dstip2result last_report_time ipc_producer].
    destruct (record_result m (aggregate cur)) as [k d]. cbn [fst snd] in *. subst k.
    by destruct (known_result (Some m)).
  - change (option_list None) with (@nil M). by rewrite app_nil_r.
Qed.

Lemma loop_windows rounds cur opened p :
  result_loop rounds (ResultState (aggregate cur) opened p)
  = let '(ws, cur', opened') := windows rounds cur opened in
    p' ← publish ws p; Ret (ResultState (aggregate cur') opened' p').
Proof.
  revert cur opened p. induction rounds as [|[dq now] rounds IH]; intros cur opened p; [done|].
  cbn [result_loop windows]. rewrite round_aggregate. cbv zeta.
  destruct (known_result dq && _); [|by apply IH].
  unfold report. cbn [dstip2result ipc_producer].
  destruct (windows rounds [] now) as [[ws c] o] eqn:Hw. cbn [publish].
  destruct (aggregate_lines _ _) as [text|e|]; [|done..]. cbn [mbind outcome_bind].
  destruct (writeMessage _ _ _ _) as [[b p']|e|]; [|done..]. cbn [mbind outcome_bind].
  change ∅ with (aggregate []). by rewrite IH, Hw.
Qed.

(** What a message does to the history of its destination. *)
Definition update_info (m : M) (info : Hist) : Hist :=
  let info := rk_stamp (if rk_ts_start info =? 0 then rk_time_ping_send m else rk_ts_start info)
                (rk_time_ping_send m) info in
  if rk_result m =? PINGWEAVE_RESULT_SUCCESS then rk_success m info
  else if rk_result m =? PINGWEAVE_RESULT_FAILURE then rk_failure info
  else if rk_result m =? PINGWEAVE_RESULT_WEIRD then rk_weird info
  else info.

Lemma record_updates m d :
  (record_result m d).2 = <[rk_dstip m := update_info m (default rk_init (d !! rk_dstip m))]> d.
Proof. unfold record_result, update_info. cbv zeta. by repeat case_match. Qed.

Definition to_dst (dst : Z) (ms : list M) : list M := filter (fun m => rk_dstip m = dst) ms.

(** A summary that a message updates is what the thread keeps. *)
Lemma aggregate_summary (summary : list M -> Hist) :
  summary [] = rk_init ->
  (forall l m, summary (l ++ [m]) = update_info m (summary l)) ->
  forall ms dst, aggregate ms !! dst
    = match to_dst dst ms with [] => None | l => Some (summary l) end.
Proof.
  intros H0 Hs ms dst. unfold to_dst. induction ms as [|m ms IH] using rev_ind; [done|].
  rewrite aggregate_snoc, record_updates, filter_app, filter_cons, filter_nil. case_decide as Hd.
  - rewrite <- Hd in *. rewrite lookup_insert_eq, IH.
    set (l := filter (fun m' => rk_dstip m' = rk_dstip m) ms) in *.
    assert (summary l = default rk_init (match l with [] => None | m :: l => Some (summary (m :: l)) end))
      as Hdef by (by destruct l).
    rewrite <- Hdef, <- Hs. by destruct l.
  - rewrite lookup_insert_ne by done. by rewrite app_nil_r.
Qed.

Lemma aggregate_dom ms dst : dst ∈ dom (aggregate ms) <-> dst ∈ rk_dstip <$> ms.
Proof.
  induction ms as [|m ms IH] using rev_ind; [cbn; set_solver|].
  rewrite aggregate_snoc, record_updates, dom_insert, fmap_app. set_solver.
Qed.

Lemma aggregate_lines_ret l acc :
  Forall (fun '(dst, info) => exists line, rk_line ipv4 (NetAddr.uint2ip dst) info = Ret line) l ->
  exists lines,
    Forall2 (fun '(dst, info) line => rk_line ipv4 (NetAddr.uint2ip dst) info = Ret line) l lines /\
    aggregate_lines l acc
      = Ret (acc +:+ String.concat "" ((fun line => line +:+ new_line) <$> lines)).
Proof.
  intros Hl. revert acc. induction Hl as [|[dst info] l [line Hline] Hl IH]; intros acc.
  - exists []. split; [constructor|]. cbn. by rewrite string_app_nil_r.
  - cbn [aggregate_lines]. rewrite Hline. cbn [mbind outcome_bind].
    destruct (IH (acc +:+ (line +:+ new_line))) as (lines & Hf & ->).
    exists (line :: lines). split; [by constructor|]. f_equal.
    change ((fun line => line +:+ new_line) <$> line :: lines)
      with ((line +:+ new_line) :: ((fun line => line +:+ new_line) <$> lines)).
    by rewrite concat_cons, string_app_assoc.
Qed.

(** The ring takes every text. *)
Lemma writeMessage_ret message p :
  1 < BUFFER_SIZE -> (1 <= MESSAGE_SIZE)%nat -> ring_ok BUFFER_SIZE MESSAGE_SIZE (data p) ->
  exists b p', writeMessage BUFFER_SIZE MESSAGE_SIZE message p = Ret (b, p') /\
    ring_ok BUFFER_SIZE MESSAGE_SIZE (data p').
Proof.
  intros HN HM Hok. destruct (decide (message = [])) as [->|Hne]; [by do 2 eexists|].
  destruct (writeMessage_cases _ _ HN HM p message Hok Hne) as [[_ ->]|(d' & _ & -> & Hd & _)];
    by do 2 eexists.
Qed.

Lemma publish_ret ws p :
  1 < BUFFER_SIZE -> (1 <= MESSAGE_SIZE)%nat -> ring_ok BUFFER_SIZE MESSAGE_SIZE (data p) ->
  Forall (fun w => exists text, aggregate_lines (order (aggregate w)) "" = Ret text) ws ->
  exists p', publish ws p = Ret p' /\ ring_ok BUFFER_SIZE MESSAGE_SIZE (data p').
Proof.
  intros HN HM Hok Hws. revert p Hok. induction Hws as [|w ws [text Ht] Hws IH]; intros p Hok.
  - by exists p.
  - cbn [publish]. rewrite Ht. cbn [mbind outcome_bind].
    destruct (writeMessage_ret (bytes_of text) p HN HM Hok) as (b & p' & -> & Hok').
    cbn [mbind outcome_bind]. by apply IH.
Qed.

(** The report of a window [w]: a line per destination, each of the summary of
    that destination's messages. *)
Definition reported (summary : list M -> Hist) (w : list M) : Prop :=
  exists dsts lines, NoDup dsts /\ (forall dst, dst ∈ dsts <-> dst ∈ rk_dstip <$> w) /\
    Forall2 (fun dst line => rk_line ipv4 (NetAddr.uint2ip dst) (summary (to_dst dst w)) = Ret line)
      dsts lines /\
    aggregate_lines (order (aggregate w)) ""
      = Ret (String.concat "" ((fun line => line +:+ new_line) <$> lines)).

Lemma report_text (summary : list M -> Hist) w :
  (forall d, order d ≡ₚ map_to_list d) ->
  (forall dst, aggregate w !! dst = match to_dst dst w with [] => None | l => Some (summary l) end) ->
  (forall dst, exists line, rk_line ipv4 (NetAddr.uint2ip dst) (summary (to_dst dst w)) = Ret line) ->
  reported summary w.
Proof.
  intros Horder Hagg Hline. set (l := order (aggregate w)).
  assert (forall dst info, (dst, info) ∈ l -> info = summary (to_dst dst w)) as Hl.
  { intros dst info. subst l. rewrite Horder, elem_of_map_to_list, Hagg.
    destruct (to_dst dst w); [done|]. by intros [= <-]. }
  destruct (aggregate_lines_ret l "") as (lines & Hf & Ht).
  { apply list.Forall_forall. intros [dst info] Hin. rewrite (Hl _ _ Hin). apply Hline. }
  exists l.*1, lines. split_and!; [| | |exact Ht].
  - subst l. rewrite Horder. apply NoDup_fst_map_to_list.
  - intros dst. subst l. rewrite Horder, <- aggregate_dom, elem_of_dom, list_elem_of_fmap. split.
    + intros ([d i] & -> & Hin). exists i. by apply elem_of_map_to_list.
    + intros [i Hi]. exists (dst, i). split; [done|]. by apply elem_of_map_to_list.
  - apply Forall2_fmap_l. rewrite Forall2_lookup in Hf |- *. intros i. specialize (Hf i).
    destruct (l !! i) as [[dst info]|] eqn:Hin; inversion Hf as [? line Hlr|]; constructor.
    apply list_elem_of_lookup_2, Hl in Hin. by subst info.
Qed.

(** A run whose windows can be reported ends with the ring well formed. *)
Lemma loop_ret rounds start p :
  1 < BUFFER_SIZE -> (1 <= MESSAGE_SIZE)%nat -> ring_ok BUFFER_SIZE MESSAGE_SIZE (data p) ->
  Forall (fun w => exists summary, reported summary w) (windows rounds [] start).1.1 ->
  exists st', result_loop rounds (ResultState ∅ start p) = Ret st' /\
    ring_ok BUFFER_SIZE MESSAGE_SIZE (data (ipc_producer st')).
Proof.
  intros HN HM Hok Hall. pose proof (loop_windows rounds [] start p) as Hl.
  destruct (windows rounds [] start) as [[ws cur] opened].
  destruct (publish_ret ws p HN HM Hok) as (p' & Hp & Hok').
  - eapply list.Forall_impl; [exact Hall|]. intros w (summary & dsts & lines & _ & _ & _ & Ht). by eexists.
  - rewrite Hp in Hl. eexists. split; [exact Hl|]. exact Hok'.
Qed.

(** The messages of a window are as few as the rounds. *)
Lemma windows_small rounds start :
  Z.of_nat (length rounds) * 99 < 2 ^ 64 ->
  Forall (fun w => Z.of_nat (length w) * 99 < 2 ^ 64) (windows rounds [] start).1.1.
Proof.
  intros Hlen. apply list.Forall_forall. intros w Hw. apply window_length in Hw. lia.
Qed.

Lemma to_dst_length dst ms : (length (to_dst dst ms) <= length ms)%nat.
Proof. apply length_filter. Qed.
End result_thread.

Arguments ResultState {Hist} _ _ _.
Arguments dstip2result {Hist} _.
Arguments last_report_time {Hist} _.
Arguments ipc_producer {Hist} _.

(** C38: whatever the order of messages, timeouts and clock readings, the result
    thread is the fold over windows: each dequeued message, in order, is in
    exactly one closed window or in the open one; each closed window is written
    to the ring as one report, the text of the aggregate of its own messages
    only; and what the thread keeps is the aggregate of the open window. *)
Theorem result_thread_windows `{ResultKind M Hist} order BUFFER_SIZE MESSAGE_SIZE
    report_interval_ms ipv4 rounds start p :
  let '(ws, cur, opened) := windows report_interval_ms rounds [] start in
  concat ws ++ cur = omap fst rounds /\
  result_loop order BUFFER_SIZE MESSAGE_SIZE report_interval_ms ipv4 rounds (ResultState ∅ start p)
  = (p' ← publish order BUFFER_SIZE MESSAGE_SIZE ipv4 ws p;
     Ret (ResultState (aggregate cur) opened p')).
Proof.
  pose proof (windows_messages report_interval_ms rounds [] start) as Hm.
  pose proof (loop_windows order BUFFER_SIZE MESSAGE_SIZE report_interval_ms ipv4 rounds [] start p)
    as Hl.
  destruct (windows report_interval_ms rounds [] start) as [[ws cur] opened]. by split.
Qed.

(** ** The meaning of a history *)
Section counts.
Context {M : Type} (res : M -> Z).

Definition with_result (r : Z) (ms : list M) : list M := filter (fun m => res m = r) ms.

Definition n_result (r : Z) (ms : list M) : Z := u32 (Z.of_nat (length (with_result r ms))).

Lemma n_result_snoc r ms m :
  n_result r (ms ++ [m]) = if res m =? r then u32 (n_result r ms + 1) else n_result r ms.
Proof.
  unfold n_result, with_result. rewrite filter_app, filter_cons, filter_nil.
  destruct (Z.eqb_spec (res m) r); [rewrite decide_True by done|rewrite decide_False by done].
  - rewrite length_app. cbn [length]. unfold u32. rewrite Zplus_mod_idemp_l. f_equal. lia.
  - by rewrite app_nil_r.
Qed.
End counts.

(** The first non-zero time: a zero start is taken for "not set". *)
Definition first_time (ts : list Z) : Z := default 0 (hd_error (filter (fun t => t <> 0) ts)).

Lemma first_time_snoc ts t :
  first_time (ts ++ [t]) = if first_time ts =? 0 then t else first_time ts.
Proof.
  unfold first_time. rewrite filter_app, filter_cons, filter_nil.
  assert (Forall (fun t => t <> 0) (filter (fun t => t <> 0) ts)) as Hne
    by (apply list.Forall_forall; intros x Hx; by apply list_elem_of_filter in Hx as [? _]).
  destruct Hne as [|x l Hx Hl]; cbn.
  - case_decide as Ht; [done|]. by destruct (Z.eq_dec t 0) as [->|].
  - by destruct (Z.eqb_spec x 0).
Qed.

(** ** UDP and TCP *)
Section tcpudp_results.
Context (strftime_localtime : Z -> string).

#[export] Instance tcpudp_results : ResultKind tcpudp_result_msg_t tcpudp_result_info_t := {
  rk_dstip := tu_dstip;
  rk_time_ping_send := tu_time_ping_send;
  rk_result := tu_result;
  rk_init := tcpudp_result_info_init;
  rk_ts_start := tu_ts_start;
  rk_stamp ts_start ts_end i := TcpUdpResultInfo (tu_n_success i) (tu_n_failure i) (tu_n_weird i)
    ts_start ts_end (tu_network_delays i);
  rk_success m i := TcpUdpResultInfo (u32 (tu_n_success i + 1)) (tu_n_failure i) (tu_n_weird i)
    (tu_ts_start i) (tu_ts_end i) (tu_network_delays i ++ [tu_network_delay m]);
  rk_failure i := TcpUdpResultInfo (tu_n_success i) (u32 (tu_n_failure i + 1)) (tu_n_weird i)
    (tu_ts_start i) (tu_ts_end i) (tu_network_delays i);
  rk_weird i := TcpUdpResultInfo (tu_n_success i) (tu_n_failure i) (u32 (tu_n_weird i + 1))
    (tu_ts_start i) (tu_ts_end i) (tu_network_delays i);
  rk_line srcip dstip i :=
    network_stat ← Stats.calc_result_stats (tu_network_delays i);
    Ret (convert_tcpudp_result_to_str strftime_localtime srcip dstip i network_stat)
}.

(** *** The history *)
Definition tcpudp_summary (ms : list tcpudp_result_msg_t) : tcpudp_result_info_t :=
  TcpUdpResultInfo (n_result tu_result PINGWEAVE_RESULT_SUCCESS ms) (n_result tu_result PINGWEAVE_RESULT_FAILURE ms)
    (n_result tu_result PINGWEAVE_RESULT_WEIRD ms)
    (first_time (tu_time_ping_send <$> ms)) (default 0 (last (tu_time_ping_send <$> ms)))
    (tu_network_delay <$> with_result tu_result PINGWEAVE_RESULT_SUCCESS ms).

Lemma tcpudp_summary_snoc l m :
  tcpudp_summary (l ++ [m]) = update_info m (tcpudp_summary l).
Proof.
  unfold tcpudp_summary, update_info. rewrite !n_result_snoc, !fmap_app.
  cbn [fmap list_fmap rk_result rk_stamp rk_ts_start rk_time_ping_send rk_success rk_failure rk_weird
    tcpudp_results tu_ts_start tu_n_success tu_n_failure tu_n_weird tu_network_delays tu_ts_end].
  rewrite first_time_snoc, last_snoc. unfold with_result. rewrite filter_app, filter_cons, filter_nil.
  unfold PINGWEAVE_RESULT_SUCCESS, PINGWEAVE_RESULT_FAILURE, PINGWEAVE_RESULT_WEIRD.
  case_decide as Hd.
  - rewrite Hd. cbn. by rewrite fmap_app.
  - rewrite app_nil_r. destruct (Z.eqb_spec (tu_result m) 0); [done|].
    case_cmp; by try congruence.
Qed.

Lemma tcpudp_aggregate ms dst :
  aggregate ms !! dst
    = match to_dst dst ms with [] => None | l => Some (tcpudp_summary l) end.
Proof. apply aggregate_summary; [done|]. apply tcpudp_summary_snoc. Qed.

(** The report of a window: a line per destination, in the map's order. *)
Context (order : gmap Z tcpudp_result_info_t -> list (Z * tcpudp_result_info_t)).
Context (order_entries : forall d, order d ≡ₚ map_to_list d) (ipv4 : string).

Lemma tcpudp_line_exists w dst :
  Z.of_nat (length w) * 99 < 2 ^ 64 -> exists line,
    rk_line ipv4 (NetAddr.uint2ip dst) (tcpudp_summary (to_dst dst w)) = Ret line.
Proof.
  intros Hw. destruct (Stats.calc_result_stats_ret (tu_network_delays (tcpudp_summary (to_dst dst w))))
    as [s Hs].
  - unfold Stats.size_ok. cbn [tu_network_delays tcpudp_summary]. rewrite length_fmap.
    pose proof (to_dst_length dst w).
    pose proof (length_filter (fun m => tu_result m = PINGWEAVE_RESULT_SUCCESS) (to_dst dst w)).
    unfold with_result. lia.
  - eexists. cbn [rk_line tcpudp_results]. by rewrite Hs.
Qed.

(** The line of a destination: the statistics of its delays, as text. *)
Definition tcpudp_line (w : list tcpudp_result_msg_t) (dst : Z) (line : string) : Prop :=
  let info := tcpudp_summary (to_dst dst w) in
  exists stat, Stats.calc_result_stats (tu_network_delays info) = Ret stat /\
    line = convert_tcpudp_result_to_str strftime_localtime ipv4 (NetAddr.uint2ip dst) info stat.

Lemma tcpudp_line_of w dst line :
  rk_line ipv4 (NetAddr.uint2ip dst) (tcpudp_summary (to_dst dst w)) = Ret line -> tcpudp_line w dst line.
Proof.
  cbn [rk_line tcpudp_results]. unfold tcpudp_line.
  destruct (Stats.calc_result_stats _) as [s| |]; cbn [mbind outcome_bind]; [|done..].
  intros [= <-]. by exists s.
Qed.

(** The history that the UDP and TCP result threads keep for a destination:
    none if no message of the window is for it, else the 32-bit counts of its
    successes, failures and weird results, the first non-zero and the last send
    time of its messages, and the delays of its successes in order. *)
Theorem tcpudp_history ms dst :
  let mine := filter (fun m => tu_dstip m = dst) ms in
  aggregate ms !! dst =
  if bool_decide (dst ∈ tu_dstip <$> ms)
  then Some (TcpUdpResultInfo (n_result tu_result PINGWEAVE_RESULT_SUCCESS mine)
         (n_result tu_result PINGWEAVE_RESULT_FAILURE mine) (n_result tu_result PINGWEAVE_RESULT_WEIRD mine)
         (first_time (tu_time_ping_send <$> mine)) (default 0 (last (tu_time_ping_send <$> mine)))
         (tu_network_delay <$> filter (fun m => tu_result m = PINGWEAVE_RESULT_SUCCESS) mine))
  else None.
Proof.
  intros mine. rewrite tcpudp_aggregate. change (to_dst dst ms) with mine.
  case_bool_decide as Hin.
  - destruct mine as [|m l] eqn:Hm; [|done]. apply list_elem_of_fmap in Hin as (m & -> & Hin).
    assert (m ∈ mine) as Hmem by (by apply list_elem_of_filter). rewrite Hm in Hmem. inversion Hmem.
  - destruct mine as [|m l] eqn:Hm; [done|]. destruct Hin. apply list_elem_of_fmap.
    assert (m ∈ mine) as Hmem by (rewrite Hm; by left).
    apply list_elem_of_filter in Hmem as [<- Hmem]. by exists m.
Qed.

(** C39: the UDP and TCP result threads never fail on a ring that is well formed
    and a run of fewer than 2^57 rounds: every closed window is reported as one
    line per destination seen in it, each with the statistics of that
    destination's delays, and the ring stays well formed. *)
Theorem tcpudp_reports_total N M report_interval_ms rounds start p :
  1 < N -> (1 <= M)%nat -> ring_ok N M (data p) ->
  Z.of_nat (length rounds) * 99 < 2 ^ 64 ->
  (exists st', result_loop order N M report_interval_ms ipv4
      rounds (ResultState ∅ start p) = Ret st' /\ ring_ok N M (data (ipc_producer st'))) /\
  Forall (fun w => exists dsts lines, NoDup dsts /\ (forall dst, dst ∈ dsts <-> dst ∈ tu_dstip <$> w) /\
      Forall2 (tcpudp_line w) dsts lines /\
      aggregate_lines ipv4 (order (aggregate w)) ""
        = Ret (String.concat "" ((fun line => line +:+ new_line) <$> lines)))
    (windows report_interval_ms rounds [] start).1.1.
Proof.
  intros HN HM Hok Hlen. pose proof (windows_small report_interval_ms rounds start Hlen) as Hall.
  eapply list.Forall_impl in Hall; [|intros w Hw; apply (report_text order ipv4 tcpudp_summary w order_entries);
    [intros dst; apply tcpudp_aggregate|intros dst; by apply tcpudp_line_exists]].
  split.
  - apply loop_ret; [done..|]. eapply list.Forall_impl; [exact Hall|]. intros w Hw. by exists tcpudp_summary.
  - eapply list.Forall_impl; [exact Hall|]. intros w (dsts & lines & Hnd & Hin & Hf & Ht).
    exists dsts, lines. split_and!; [done|done| |done]. eapply Forall2_impl; [exact Hf|].
    intros dst line. apply tcpudp_line_of.
Qed.

End tcpudp_results.

Lemma tcpudp_reports_total_witness :
  let order := map_to_list (K := Z) (A := tcpudp_result_info_t) (M := gmap Z _) in
  let ring := Producer (Shared (replicate 4 (replicate 300 NUL)) 0 0) 0 in
  let m r d := TcpUdpResultMsg 9 33554442 777 d r in
  exists st', result_loop (H := tcpudp_results (fun _ => "t")) order 4 300 10 "10.0.0.1"
    [(Some (m PINGWEAVE_RESULT_SUCCESS 100), 5000000); (Some (m PINGWEAVE_RESULT_FAILURE 0), 10000000);
     (None, 30000000)] (ResultState ∅ 0 ring) = Ret st' /\
    pending 4 (data (ipc_producer st')) = [bytes_of
      ("10.0.0.1,10.0.0.2,t.000000777,t.000000777,1,1,0,network,100,100,100,100,100" +:+ new_line)].
Proof.
  intros order ring m.
  destruct (tcpudp_reports_total (fun _ => "t") order ltac:(done) "10.0.0.1" 4 300 10
    [(Some (m PINGWEAVE_RESULT_SUCCESS 100), 5000000); (Some (m PINGWEAVE_RESULT_FAILURE 0), 10000000);
     (None, 30000000)] 0 ring) as [(st' & Hl & _) _].
  - lia.
  - lia.
  - split; cbn; [done|by repeat constructor|lia|lia].
  - cbn. lia.
  - exists st'. split; [exact Hl|]. vm_compute in Hl. injection Hl as <-. vm_compute. reflexivity.
Defined.
