(* ===== verification/UdpPing.v ===== *)
(** * UdpPing: the UDP client's threads and the UDP server (udp_client.cpp,
    udp_server.cpp).

    One definition per round of each loop. The client's TX and RX threads and
    the result thread share the ping table, whose mutex makes their calls
    atomic: a run of the client is an interleaving of rounds. *)
From S2P Require Import Prelude Text CxxString Format Common Ini Queue KeyTable PingLedger.
From S2P Require Import TcpUdpPingInfo Yaml Scheduler Wire TcpUdpCommon.
Import Yaml.
Local Open Scope Z_scope.

(** The variables of [udp_client_tx_thread]. *)
Record udp_tx := UdpTx { ut_scheduler : scheduler string; ut_ping_uid : Z }.

(** What a TX round reads: the ping list on disk, the clocks of the scheduler
    and of [insert], the padding of the message, the result of [sendto]. *)
Record udp_tx_env := UdpTxEnv {
  xe_pinglist : option node;
  xe_load_now : Z; xe_ping_now : Z;
  xe_expire : Z; xe_steady : Z; xe_system : Z;
  xe_pad1 : list Z; xe_pad2 : list Z; xe_sent : Z }.

(** What it does: it sleeps, or issues a ping and hands a datagram to
    [sendto]. *)
Inductive tx_action :=
  | TxSleep (time_sleep_us : Z)
  | TxPing (pingid : Z) (dst_addr : string) (d : option datagram).

Section udp.
Context `{SpscQueue Q tcpudp_result_msg_t} (indet threshold_ms : Z) (ipv4 : string).

Definition udp_client_tx_round (env : udp_tx_env) (tx : udp_tx) (ping_table : tcpudp_map Q)
  : outcome (tx_action * udp_tx * tcpudp_map Q) :=
  '(r, dst_addr, time_sleep_us, scheduler) ←
    Scheduler.Udp.next "udp" ipv4 (xe_pinglist env) (xe_load_now env) (xe_ping_now env) (ut_scheduler tx);
  if IS_SUCCESS r then
    match dst_addr with
    | None => Undef
    | Some dst_addr =>
        let pingid := PingId.make_pingid (NetAddr.ip2uint indet ipv4) (ut_ping_uid tx) in
        let tx := UdpTx scheduler (u32 (ut_ping_uid tx + 1)) in
        let ping_table := (insert indet threshold_ms pingid pingid dst_addr
          (xe_expire env) (xe_steady env) (xe_system env) ping_table).2 in
        let '(_, d) := send_udp_message dst_addr PINGWEAVE_UDP_PORT_SERVER pingid
          (xe_pad1 env) (xe_pad2 env) (xe_sent env) in
        Ret (TxPing pingid dst_addr d, tx, ping_table)
    end
  else Ret (TxSleep time_sleep_us, UdpTx scheduler (ut_ping_uid tx), ping_table).

(** [None]: the thread is still waiting for a datagram. *)
Definition udp_client_rx_round (poll_interval_us : Z) (attempts : list recv_attempt) (now : Z)
  (ping_table : tcpudp_map Q) : option (outcome (tcpudp_map Q) * list recv_attempt) :=
  '(r, out, attempts) ← receive_udp_message poll_interval_us attempts now (ReceivedPing 0 "" indet);
  if IS_FAILURE r then Some (Ret ping_table, attempts)
  else Some ('(_, ping_table) ← update_pong_info indet (rp_pingid out) (rp_steady_ts out) ping_table;
             Ret ping_table, attempts).

(** The server's loop: the reply handed to [sendto], if any. *)
Definition udp_server_round (poll_interval_us : Z) (attempts : list recv_attempt) (now : Z)
  (p1 p2 : list Z) (sent : Z) : option (option datagram * list recv_attempt) :=
  '(r, out, attempts) ← receive_udp_message poll_interval_us attempts now (ReceivedPing 0 "" indet);
  if IS_FAILURE r then Some (None, attempts)
  else
    let '(_, d) := send_udp_message (rp_sender out) PINGWEAVE_UDP_PORT_CLIENT (rp_pingid out)
      p1 p2 sent in
    Some (d, attempts).

(** ** Runs of a client *)
Record udp_client := UdpClient {
  cl_tx : udp_tx;
  cl_now : Z;                                (* the last insertion *)
  cl_table : tcpudp_map Q;
  cl_delivered : list tcpudp_result_msg_t;   (* taken by the result thread *)
  cl_issued : list Z                         (* ping ids, last first *) }.

Inductive udp_step : udp_client -> udp_client -> Prop :=
  | udp_tx_step env tx now table dl ids act tx' table' :
      now <= xe_expire env -> xe_expire env <= xe_steady env ->
      udp_client_tx_round env tx table = Ret (act, tx', table') ->
      udp_step (UdpClient tx now table dl ids)
        (UdpClient tx' (match act with TxPing _ _ _ => xe_steady env | _ => now end) table' dl
           (match act with TxPing pingid _ _ => pingid :: ids | _ => ids end))
  | udp_rx_step poll attempts recv_now tx now table dl ids table' rest :
      udp_client_rx_round poll attempts recv_now table = Some (Ret table', rest) ->
      udp_step (UdpClient tx now table dl ids) (UdpClient tx now table' dl ids)
  | udp_result_step tx now t q a q' dl ids :
      wait_dequeue_timed q = Some (a, q') ->
      udp_step (UdpClient tx now (TcpUdpMap t q) dl ids)
        (UdpClient tx now (TcpUdpMap t q') (dl ++ [a]) ids).

Definition udp_reachable (scheduler : scheduler string) (q : Q) : udp_client -> Prop :=
  rtc udp_step (UdpClient (UdpTx scheduler 0) 0 (TcpUdpMap empty_table q) [] []).

Definition udp_reported (s : udp_client) : list Z :=
  tu_pingid <$> cl_delivered s ++ q_contents (tu_queue (cl_table s)).
Definition udp_pending (s : udp_client) : list Z := (contents (tu_tbl (cl_table s))).*1.

(** ** Lemmas *)

(** The id of the [n]-th ping of a client. *)
Definition nth_pingid (n : Z) : Z := PingId.make_pingid (NetAddr.ip2uint indet ipv4) (u32 n).

Lemma nth_pingid_inj m n :
  NetAddr.valid_ipv4 ipv4 -> 0 <= m < 2 ^ 32 -> 0 <= n < 2 ^ 32 ->
  nth_pingid m = nth_pingid n -> m = n.
Proof.
  intros Hv Hm Hn. unfold nth_pingid. pose proof (NetAddr.ip2uint_u32 indet ipv4 Hv).
  rewrite !u32_small by done. rewrite !PingId.make_pingid_eq by done. lia.
Qed.

(** The ids of the first [n] pings, last first. *)
Definition first_pingids (n : nat) : list Z := nth_pingid <$> reverse (seqZ 0 (Z.of_nat n)).

Lemma first_pingids_S n : first_pingids (S n) = nth_pingid (Z.of_nat n) :: first_pingids n.
Proof.
  unfold first_pingids. rewrite seqZ_S.
  by rewrite reverse_app, fmap_app.
Qed.

Lemma elem_of_first_pingids n k :
  k ∈ first_pingids n <-> exists i, k = nth_pingid i /\ 0 <= i < Z.of_nat n.
Proof.
  unfold first_pingids. rewrite list_elem_of_fmap.
  split; intros (i & Hk & Hi); exists i; (split; [done|]); revert Hi;
    rewrite elem_of_reverse, elem_of_seqZ; lia.
Qed.

Lemma first_pingids_nodup n :
  NetAddr.valid_ipv4 ipv4 -> Z.of_nat n <= 2 ^ 32 -> NoDup (first_pingids n).
Proof.
  intros Hv. induction n as [|n IH]; intros Hn; [constructor|]. rewrite first_pingids_S.
  constructor; [|apply IH; lia]. rewrite elem_of_first_pingids. intros (i & Hk & Hi).
  apply nth_pingid_inj in Hk; [lia|done|lia|lia].
Qed.

(** The client's run is a run of its table in which every insertion succeeds. *)
Definition client_ok (q : Q) (s : udp_client) : Prop :=
  client_reachable indet threshold_ms q
    (Trace (cl_now s) (cl_table s) (cl_delivered s) (cl_issued s)) /\
  cl_issued s = first_pingids (length (cl_issued s)) /\
  ut_ping_uid (cl_tx s) = u32 (Z.of_nat (length (cl_issued s))).

Lemma issued_not_pending q now table dl ids k :
  q_contents q = [] -> client_reachable indet threshold_ms q (Trace now table dl ids) ->
  k ∉ ids ->
  wf (tu_tbl table) /\ ids_ok ti_pingid (fun _ => True) (contents (tu_tbl table)) /\
  k ∉ (contents (tu_tbl table)).*1.
Proof.
  intros Hq Hr Hk. apply udp_reachable_ok in Hr as [Hwf Hid _ (lost & _ & Hp)]; [|done].
  cbn in *. split_and!; [done|done|]. rewrite Hp in Hk. set_solver.
Qed.

Lemma tx_step_ok q env tx now table dl ids act tx' table' :
  NetAddr.valid_ipv4 ipv4 -> q_contents q = [] -> client_ok q (UdpClient tx now table dl ids) ->
  Z.of_nat (length (match act with TxPing pingid _ _ => pingid :: ids | _ => ids end)) <= 2 ^ 32 ->
  now <= xe_expire env -> xe_expire env <= xe_steady env ->
  udp_client_tx_round env tx table = Ret (act, tx', table') ->
  client_ok q (UdpClient tx' (match act with TxPing _ _ _ => xe_steady env | _ => now end) table' dl
    (match act with TxPing pingid _ _ => pingid :: ids | _ => ids end)).
Proof.
  intros Hv Hq (Hr & Hids & Huid) Hlen Hn1 Hn2 Hround. revert Hlen Hround. cbn [cl_now cl_table cl_delivered cl_issued cl_tx] in *.
  unfold udp_client_tx_round. destruct (Scheduler.Udp.next _ _ _ _ _ _) as [[[[r da] us] sc]|e|];
    cbn [mbind outcome_bind]; [|done..].
  destruct (IS_SUCCESS r); [|by intros _ [= <- <- <-]]. destruct da as [dst|]; [|done].
  destruct (send_udp_message _ _ _ _ _ _) as [sr d]. intros Hlen [= <- <- <-]. cbn [length] in Hlen.
  set (n := length ids) in *. assert (is_u32 (Z.of_nat n)) as Hn by (unfold is_u32; lia).
  assert (PingId.make_pingid (NetAddr.ip2uint indet ipv4) (ut_ping_uid tx) = nth_pingid (Z.of_nat n))
    as -> by (by rewrite Huid).
  assert (nth_pingid (Z.of_nat n) ∉ ids) as Hfresh.
  { rewrite Hids, elem_of_first_pingids. intros (i & Hk & Hi).
    apply nth_pingid_inj in Hk; [lia|done|lia|lia]. }
  destruct (issued_not_pending q now table dl ids _ Hq Hr Hfresh) as (Hwf & Hok & Hnew).
  destruct (udp_insert_new indet threshold_ms (nth_pingid (Z.of_nat n)) dst (xe_expire env)
    (xe_steady env) (xe_system env) table Hwf Hok Hnew) as (gone & t' & Hi & _).
  split_and!; cbn [cl_now cl_table cl_delivered cl_issued cl_tx ut_ping_uid length].
  - eapply rtc_r; [exact Hr|].
    refine (client_insert indet threshold_ms _ dst now (xe_expire env) (xe_steady env)
      (xe_system env) table PINGWEAVE_SUCCESS _ dl ids Hn1 Hn2 _). rewrite Hi. done.
  - fold n. rewrite first_pingids_S. by rewrite <- Hids.
  - fold n. rewrite Huid, Nat2Z.inj_succ. unfold u32. rewrite Zplus_mod_idemp_l. f_equal; lia.
Qed.

Lemma rx_round_pong poll attempts now table table' rest :
  udp_client_rx_round poll attempts now table = Some (Ret table', rest) ->
  table' = table \/
  exists pingid ts r, update_pong_info indet pingid ts table = Ret (r, table').
Proof.
  unfold udp_client_rx_round. destruct (receive_udp_message _ _ _ _) as [[[r out] att]|]; [|done].
  cbn [mbind option_bind]. destruct (IS_FAILURE r); [intros [= <- _]; by left|].
  destruct (update_pong_info _ _ _ _) as [[r' t]|e|] eqn:Hu; intros [=]; subst. right. eauto.
Qed.

Lemma udp_client_step_ok q s s' :
  NetAddr.valid_ipv4 ipv4 -> q_contents q = [] -> client_ok q s -> udp_step s s' ->
  Z.of_nat (length (cl_issued s')) <= 2 ^ 32 -> client_ok q s'.
Proof.
  intros Hv Hq Hok Hstep Hlen.
  destruct Hstep as [env tx now table dl ids act tx' table' H1 H2 Hr
    |poll att rn tx now table dl ids table' rest Hr|tx now t q0 a q' dl ids Hw].
  - by eapply tx_step_ok.
  - destruct (rx_round_pong _ _ _ _ _ _ Hr) as [->|(pingid & ts & r & Hu)]; [done|].
    destruct Hok as (Hreach & Hids & Huid). split_and!; [|done|done]. cbn in *.
    eapply rtc_r; [exact Hreach|]. by eapply client_pong.
  - destruct Hok as (Hreach & Hids & Huid). split_and!; [|done|done]. cbn in *.
    eapply rtc_r; [exact Hreach|]. by apply client_dequeue.
Qed.

Lemma issued_grows s s' : udp_step s s' -> (length (cl_issued s) <= length (cl_issued s'))%nat.
Proof. destruct 1 as [env tx now table dl ids act| |]; cbn; [destruct act; cbn|..]; lia. Qed.

Lemma udp_reachable_client_ok q (scheduler : scheduler string) s :
  NetAddr.valid_ipv4 ipv4 -> q_contents q = [] -> udp_reachable scheduler q s ->
  Z.of_nat (length (cl_issued s)) <= 2 ^ 32 -> client_ok q s.
Proof.
  intros Hv Hq. unfold udp_reachable. revert s.
  apply (rtc_ind_r (fun s => Z.of_nat (length (cl_issued s)) <= 2 ^ 32 -> client_ok q s)).
  - intros _. split_and!; [apply rtc_refl|done|done].
  - intros s1 s2 _ Hstep IH Hlen. eapply udp_client_step_ok; [done..| |exact Hstep|done].
    apply IH. pose proof (issued_grows _ _ Hstep). lia.
Qed.
End udp.

Lemma inet_pton_ntop_pton s l : inet_pton4 s = Some l -> inet_pton4 (inet_ntop4 l) = Some l.
Proof.
  intros (_ & Hb & Hlen)%inet_ntop4_pton. destruct l as [|a [|b [|c [|d []]]]]; try done.
  by apply inet_pton4_ntop.
Qed.

Lemma receive_own_message indet poll pingid p1 p2 sender now rest :
  pad_ok 4 p1 -> pad_ok 4 p2 -> is_u64 pingid -> pingid <> 0 ->
  receive_udp_message poll
    (RecvData (tcpudp_pingmsg_bytes p1 p2 (TcpUdpPingMsg 0 pingid 0)) sender :: rest)
    now (ReceivedPing 0 "" indet)
  = Some (PINGWEAVE_SUCCESS, ReceivedPing pingid (inet_ntop4 sender) (u64 now), rest).
Proof.
  intros H1 H2 Hid Hne. unfold receive_udp_message.
  match goal with |- context [mbind _ ?o] => assert (o = Some (RecvData
    (tcpudp_pingmsg_bytes p1 p2 (TcpUdpPingMsg 0 pingid 0)) sender, rest)) as -> end.
  { by destruct (0 <? poll). }
  cbn [mbind option_bind]. by rewrite parse_own_message.
Qed.

(** ** Properties *)

(** C36: over any interleaving of the UDP client's TX, RX and result threads, for
    its first 2^32 pings: the ids issued are those of the ping counter, all
    distinct, and each ping issued is reported once, or still pending, or lost
    to a full queue, never two of these; if the queue always has room every
    ping issued is reported or pending. *)
Theorem udp_pings_accounted `{SpscQueue Q tcpudp_result_msg_t} indet threshold_ms ipv4
    (scheduler : scheduler string) q s :
  NetAddr.valid_ipv4 ipv4 -> q_contents q = [] ->
  udp_reachable indet threshold_ms ipv4 scheduler q s ->
  Z.of_nat (length (cl_issued s)) <= 2 ^ 32 ->
  cl_issued s = first_pingids indet ipv4 (length (cl_issued s)) /\ NoDup (cl_issued s) /\
  NoDup (udp_reported s ++ udp_pending s) /\
  exists lost, cl_issued s ≡ₚ udp_reported s ++ udp_pending s ++ lost /\
    ((forall (m : tcpudp_result_msg_t) (q : Q), has_room m q) -> lost = []).
Proof.
  intros Hv Hq Hr Hlen.
  destruct (udp_reachable_client_ok indet threshold_ms ipv4 q scheduler s Hv Hq Hr Hlen)
    as (Hreach & Hids & _).
  apply udp_reachable_ok in Hreach; [|done].
  assert (NoDup (cl_issued s)) as Hnd by (rewrite Hids; by apply first_pingids_nodup).
  split_and!; [done|done|by apply (accounted_nodup _ _ _ _ _ _ _ _ _ Hreach)|].
  destruct Hreach as [_ _ _ (lost & Hl & Hp)]. by exists lost.
Qed.

Definition example_scheduler : scheduler string :=
  Scheduler ["10.0.0.2"; "10.0.0.3"] 0 10 0 0 1000 1000000 0.

Lemma udp_pings_accounted_witness :
  let env := UdpTxEnv None 0 5000000 100 200 777 [0;0;0;0] [0;0;0;0] 24 in
  exists s, udp_reachable 0 1000 "10.0.0.1" example_scheduler ([] : list tcpudp_result_msg_t) s /\
    length (cl_issued s) = 1%nat /\ NoDup (cl_issued s).
Proof.
  intros env.
  set (init := UdpClient (UdpTx example_scheduler 0) 0
    (TcpUdpMap empty_table ([] : list tcpudp_result_msg_t)) [] []).
  destruct (udp_client_tx_round (H := list_spsc _) 0 1000 "10.0.0.1" env (cl_tx init) (cl_table init))
    as [[[act tx'] t']|e|] eqn:Hround; [|by vm_compute in Hround..].
  assert (udp_reachable (H := list_spsc _) 0 1000 "10.0.0.1" example_scheduler []
    (UdpClient tx' (match act with TxPing _ _ _ => xe_steady env | _ => 0 end) t' []
      (match act with TxPing pingid _ _ => [pingid] | _ => [] end))) as Hr.
  { eapply rtc_once. refine (udp_tx_step 0 1000 "10.0.0.1" env (cl_tx init) 0 (cl_table init) [] []
      act tx' t' _ _ Hround); cbn; lia. }
  assert (length (match act with TxPing pingid _ _ => [pingid] | _ => [] end) = 1%nat) as Hlen.
  { vm_compute in Hround. injection Hround as <- <- <-. reflexivity. }
  eexists. split; [exact Hr|]. split; [exact Hlen|].
  refine (proj1 (proj2 (udp_pings_accounted (H := list_spsc _) 0 1000 "10.0.0.1" example_scheduler []
    _ _ eq_refl Hr _))).
  - eexists. vm_compute. reflexivity.
  - cbn [cl_issued]. rewrite Hlen. lia.
Defined.

(** C35: a UDP ping end to end: when the scheduler gives a destination, the
    client records the ping and sends a datagram to the destination's server
    port; the server that receives it from the client's address replies with
    the same id to the client's port; and the client that receives the reply
    reports the ping once as a success with the time from insertion to receipt,
    and forgets it. The padding of the messages, the polling modes and the wrap
    of the clock do not matter. *)
Theorem udp_ping_pong `{SpscQueue Q tcpudp_result_msg_t} indet threshold_ms ipv4 env tx
    (table : tcpudp_map Q) dst us sc src pool pools q1 q2 sent snow server elapsed :
  let pingid := PingId.make_pingid (NetAddr.ip2uint indet ipv4) (ut_ping_uid tx) in
  Scheduler.Udp.next "udp" ipv4 (xe_pinglist env) (xe_load_now env) (xe_ping_now env)
    (ut_scheduler tx) = Ret (PINGWEAVE_SUCCESS, Some dst, us, sc) ->
  inet_pton4 ipv4 = Some src -> inet_pton4 dst = Some server ->
  pad_ok 4 (xe_pad1 env) -> pad_ok 4 (xe_pad2 env) -> pad_ok 4 q1 -> pad_ok 4 q2 ->
  is_u32 (ut_ping_uid tx) -> pingid <> 0 -> is_u64 elapsed ->
  wf (tu_tbl table) -> ids_ok ti_pingid (fun _ => True) (contents (tu_tbl table)) ->
  pingid ∉ (contents (tu_tbl table)).*1 ->
  exists d table1 reply table2 gone,
    udp_client_tx_round indet threshold_ms ipv4 env tx table
      = Ret (TxPing pingid dst (Some d), UdpTx sc (u32 (ut_ping_uid tx + 1)), table1) /\
    dg_addr d = server /\ dg_port d = PINGWEAVE_UDP_PORT_SERVER /\
    udp_server_round indet pools [RecvData (dg_bytes d) src] snow q1 q2 sent = Some (Some reply, []) /\
    dg_addr reply = src /\ dg_port reply = PINGWEAVE_UDP_PORT_CLIENT /\
    udp_client_rx_round indet pool [RecvData (dg_bytes reply) server] (xe_steady env + elapsed) table1
      = Some (Ret table2, []) /\
    gone `prefix_of` contents (tu_tbl table) /\
    tu_queue table2 = enqueued (TcpUdpResultMsg pingid (NetAddr.ip2uint indet dst)
        (u64 (xe_system env)) elapsed PINGWEAVE_RESULT_SUCCESS)
      (expired_effect (on_expire indet) gone (tu_queue table)) /\
    pingid ∉ (contents (tu_tbl table2)).*1.
Proof.
  intros pingid Hnext Hsrc Hdst Hp1 Hp2 Hq1 Hq2 Huid Hne Hel Hwf Hok Hnew.
  assert (is_u64 pingid) as Hid by
    (apply PingId.make_pingid_u64; [by apply NetAddr.ip2uint_u32; exists src|done]).
  destruct (udp_insert_new indet threshold_ms pingid dst (xe_expire env) (xe_steady env)
    (xe_system env) table Hwf Hok Hnew) as (gone & t1 & Hi & Hpre & Hwf1 & Hok1 & e & He & Hval).
  destruct (ids_ok_lookup _ _ _ _ _ Hwf1 Hok1 He) as [Hk _].
  destruct (pong_spec indet pingid (u64 (xe_steady env + elapsed)) (TcpUdpMap t1
    (expired_effect (on_expire indet) gone (tu_queue table))) e Hwf1 He Hk)
    as (t2 & Hr2 & Hc2 & Hu).
  exists (Datagram server PINGWEAVE_UDP_PORT_SERVER
    (tcpudp_pingmsg_bytes (xe_pad1 env) (xe_pad2 env) (TcpUdpPingMsg 0 pingid 0))).
  eexists _, (Datagram src PINGWEAVE_UDP_PORT_CLIENT
    (tcpudp_pingmsg_bytes q1 q2 (TcpUdpPingMsg 0 pingid 0))), _, gone.
  split; [|split; [done|split; [done|split; [|split; [done|split; [done|split]]]]]].
  - unfold udp_client_tx_round. rewrite Hnext. cbn [mbind outcome_bind IS_SUCCESS].
    fold pingid. rewrite Hi. unfold send_udp_message. rewrite Hdst. cbn [snd].
    by repeat case_match; simplify_eq.
  - unfold udp_server_round. cbn [dg_bytes]. rewrite receive_own_message by done.
    cbn [mbind option_bind]. cbn [IS_FAILURE rp_sender rp_pingid]. unfold send_udp_message.
    rewrite (inet_pton_ntop_pton _ _ Hsrc). by repeat case_match; simplify_eq.
  - unfold udp_client_rx_round. cbn [dg_bytes]. rewrite receive_own_message by done.
    cbn [mbind option_bind IS_FAILURE rp_pingid rp_steady_ts]. rewrite Hu. done.
  - cbn [tu_queue tu_tbl]. split; [done|]. split.
    + unfold tu_msg. rewrite Hval. cbn [ti_pingid ti_dstip ti_time_ping_send ti_network_delay].
      do 2 f_equal. unfold Clock.calc_time_delta_with_bitwrap, UINT64_MAX, u64, is_u64 in *.
      case_cmp; zmod.
    + rewrite Hc2. intros (p & Hp & Hin)%list_elem_of_fmap.
      apply list_elem_of_filter in Hin as [Hne' _]. by rewrite Hp in Hne'.
Qed.

Lemma udp_ping_pong_witness :
  let env := UdpTxEnv None 0 5000000 100 18446744073709551000 777 [0;0;0;0] [9;9;9;9] 24 in
  let tx := UdpTx example_scheduler 4 in
  let table := TcpUdpMap empty_table ([] : list tcpudp_result_msg_t) in
  exists d table1 reply table2,
    udp_client_tx_round 0 1000 "10.0.0.1" env tx table
      = Ret (TxPing 72057636987600900 "10.0.0.2" (Some d),
             UdpTx (with_idx 1 (with_ping_time 5000000 example_scheduler)) 5, table1) /\
    udp_server_round 0 10 [RecvData (dg_bytes d) [10;0;0;1]] 50 [1;2;3;4] [0;0;0;0] 24
      = Some (Some reply, []) /\
    udp_client_rx_round 0 10 [RecvData (dg_bytes reply) [10;0;0;2]] 18446744073709553000 table1
      = Some (Ret table2, []) /\
    tu_queue table2
      = [TcpUdpResultMsg 72057636987600900 33554442 777 2000 PINGWEAVE_RESULT_SUCCESS].
Proof.
  intros env tx table.
  destruct (udp_ping_pong (H := list_spsc _) 0 1000 "10.0.0.1" env tx table "10.0.0.2" 0
    (with_idx 1 (with_ping_time 5000000 example_scheduler)) [10;0;0;1] 10 10 [1;2;3;4] [0;0;0;0] 24 50
    [10;0;0;2] 2000)
    as (d & table1 & reply & table2 & gone & Htx & _ & _ & Hsv & _ & _ & Hrx & Hpre & Hq & _).
  1-3: vm_compute; reflexivity.
  1-4: split; [reflexivity|]; repeat constructor; lia.
  1: unfold is_u32; cbn; lia.
  1: vm_compute; discriminate.
  1: unfold is_u64; lia.
  1: apply wf_empty.
  1: constructor.
  1: apply not_elem_of_nil.
  exists d, table1, reply, table2. split; [exact Htx|]. split; [exact Hsv|]. split; [exact Hrx|].
  rewrite Hq. destruct gone; [reflexivity|]. destruct Hpre as [k Hk]. discriminate Hk.
Defined.
