(* ===== verification/TcpPing.v ===== *)
(** * TcpPing: the TCP client's threads and the TCP server (tcp_client.cpp,
    tcp_server.cpp).

    The TX thread detaches one thread per ping, which runs
    [send_tcp_message]; the server detaches one thread per connection. The
    threads interleave: a ping thread is at its start, or past the insertion
    of its ping and waiting for its connection. *)
From S2P Require Import Prelude Text CxxString Format Common Ini Queue KeyTable PingLedger.
From S2P Require Import TcpUdpPingInfo Yaml Scheduler Wire TcpUdpCommon UdpPing.
Import Yaml.
Local Open Scope Z_scope.

Inductive tcp_action :=
  | TcpSleep (time_sleep_us : Z)
  | TcpSpawn (pingid : Z) (dst_addr : string).   (* to PINGWEAVE_TCP_PORT_SERVER *)

Inductive thread_stage := Starting | Connecting.
Record ping_thread := PingThread { pt_pingid : Z; pt_dst : string; pt_stage : thread_stage }.

(** [accept] on the server's socket, then a detached thread with the result. *)
Record tcp_server := TcpServer { sv_fds : gset Z; sv_threads : list Z }.

Definition tcp_server_accept (newSockfd : Z) (s : tcp_server) : tcp_server :=
  TcpServer (if newSockfd <? 0 then sv_fds s else {[newSockfd]} ∪ sv_fds s)
    (newSockfd :: sv_threads s).

(** [accept] gives -1 or a descriptor that is not open. *)
Inductive server_step : tcp_server -> tcp_server -> Prop :=
  | server_accept newSockfd s :
      newSockfd < 0 \/ newSockfd ∉ sv_fds s ->
      server_step s (tcp_server_accept newSockfd s)
  | server_thread fds fds' l1 sockfd l2 r :
      receive_tcp_message sockfd fds = (r, fds') ->
      server_step (TcpServer fds (l1 ++ sockfd :: l2)) (TcpServer fds' (l1 ++ l2)).

Section tcp.
Context `{SpscQueue Q tcpudp_result_msg_t} (indet threshold_ms : Z) (ipv4 : string).

(** The TX thread has the variables of the UDP one. *)
Definition tcp_client_tx_round (env : udp_tx_env) (tx : udp_tx) : outcome (tcp_action * udp_tx) :=
  '(r, dst_addr, time_sleep_us, scheduler) ←
    Scheduler.Udp.next "tcp" ipv4 (xe_pinglist env) (xe_load_now env) (xe_ping_now env) (ut_scheduler tx);
  if IS_SUCCESS r then
    match dst_addr with
    | None => Undef
    | Some dst_addr =>
        let pingid := PingId.make_pingid (NetAddr.ip2uint indet ipv4) (ut_ping_uid tx) in
        Ret (TcpSpawn pingid dst_addr, UdpTx scheduler (u32 (ut_ping_uid tx + 1)))
    end
  else Ret (TcpSleep time_sleep_us, UdpTx scheduler (ut_ping_uid tx)).

Record tcp_client := TcpClient {
  tl_tx : udp_tx; tl_now : Z; tl_table : tcpudp_map Q; tl_delivered : list tcpudp_result_msg_t;
  tl_inserted : list Z; tl_threads : list ping_thread; tl_issued : list Z }.

Inductive tcp_step : tcp_client -> tcp_client -> Prop :=
  | tcp_tx_step env tx now table dl ins th ids act tx' :
      tcp_client_tx_round env tx = Ret (act, tx') ->
      tcp_step (TcpClient tx now table dl ins th ids)
        (TcpClient tx' now table dl ins
           (match act with TcpSpawn pingid dst => PingThread pingid dst Starting :: th | _ => th end)
           (match act with TcpSpawn pingid _ => pingid :: ids | _ => ids end))
  | tcp_insert_step tx now now_expire now' system_now table dl ins l1 pingid dst l2 ids r table' :
      now <= now_expire -> now_expire <= now' ->
      insert indet threshold_ms pingid pingid dst now_expire now' system_now table = (r, table') ->
      tcp_step (TcpClient tx now table dl ins (l1 ++ PingThread pingid dst Starting :: l2) ids)
        (TcpClient tx now' table' dl (if IS_SUCCESS r then pingid :: ins else ins)
           (l1 ++ PingThread pingid dst Connecting :: l2) ids)
  | tcp_connected_step tx now recv_now table dl ins l1 pingid dst l2 ids r table' :
      update_pong_info indet pingid (Clock.get_current_timestamp_steady_ns recv_now) table
        = Ret (r, table') ->
      tcp_step (TcpClient tx now table dl ins (l1 ++ PingThread pingid dst Connecting :: l2) ids)
        (TcpClient tx now table' dl ins (l1 ++ l2) ids)
  | tcp_exit_step tx now table dl ins l1 t l2 ids :
      tcp_step (TcpClient tx now table dl ins (l1 ++ t :: l2) ids)
        (TcpClient tx now table dl ins (l1 ++ l2) ids)
  | tcp_result_step tx now t q a q' dl ins th ids :
      wait_dequeue_timed q = Some (a, q') ->
      tcp_step (TcpClient tx now (TcpUdpMap t q) dl ins th ids)
        (TcpClient tx now (TcpUdpMap t q') (dl ++ [a]) ins th ids).

Definition tcp_reachable (scheduler : scheduler string) (q : Q) : tcp_client -> Prop :=
  rtc tcp_step (TcpClient (UdpTx scheduler 0) 0 (TcpUdpMap empty_table q) [] [] [] []).

Definition tcp_reported (s : tcp_client) : list Z :=
  tu_pingid <$> tl_delivered s ++ q_contents (tu_queue (tl_table s)).
Definition tcp_pending (s : tcp_client) : list Z := (contents (tu_tbl (tl_table s))).*1.

(** ** Lemmas *)
Definition starting (th : list ping_thread) : list Z :=
  omap (fun t => match pt_stage t with Starting => Some (pt_pingid t) | Connecting => None end) th.

Record tcp_ok (q : Q) (s : tcp_client) : Prop := {
  tcp_trace : client_reachable indet threshold_ms q
    (Trace (tl_now s) (tl_table s) (tl_delivered s) (tl_inserted s));
  tcp_issued : tl_issued s = first_pingids indet ipv4 (length (tl_issued s));
  tcp_uid : ut_ping_uid (tl_tx s) = u32 (Z.of_nat (length (tl_issued s)));
  tcp_distinct : NoDup (starting (tl_threads s) ++ tl_inserted s);
  tcp_from_issued : forall k, k ∈ starting (tl_threads s) ++ tl_inserted s -> k ∈ tl_issued s;
}.

Lemma starting_app l1 l2 : starting (l1 ++ l2) = starting l1 ++ starting l2.
Proof. apply omap_app. Qed.

(** A thread that ends keeps the rest in order. *)
Lemma starting_drop l1 t l2 (ins : list Z) :
  NoDup (starting (l1 ++ t :: l2) ++ ins) ->
  NoDup (starting (l1 ++ l2) ++ ins) /\
  (forall k, k ∈ starting (l1 ++ l2) ++ ins -> k ∈ starting (l1 ++ t :: l2) ++ ins).
Proof.
  rewrite !starting_app. intros Hnd. assert (sublist (starting l2) (starting (t :: l2))) as Hs.
  { unfold starting. rewrite omap_cons_eq. destruct (pt_stage t); [apply sublist_cons|]; reflexivity. }
  assert (sublist ((starting l1 ++ starting l2) ++ ins) ((starting l1 ++ starting (t :: l2)) ++ ins))
    as Hsub by (repeat apply sublist_app; [reflexivity|exact Hs|reflexivity]).
  split; [by eapply sublist_NoDup|]. intros k Hk. by eapply elem_of_sublist.
Qed.

(** A ping that is inserted moves from the starting ones to the inserted. *)
Lemma starting_moves l1 pingid dst l2 ins :
  starting (l1 ++ PingThread pingid dst Starting :: l2) ++ ins
    ≡ₚ starting (l1 ++ PingThread pingid dst Connecting :: l2) ++ pingid :: ins.
Proof.
  rewrite !starting_app. unfold starting at 2 4. rewrite !omap_cons_eq. cbn [pt_stage pt_pingid].
  fold (starting l2). by rewrite <- !Permutation_middle.
Qed.

Lemma tcp_tx_ok q env tx now table dl ins th ids act tx' :
  NetAddr.valid_ipv4 ipv4 -> tcp_ok q (TcpClient tx now table dl ins th ids) ->
  tcp_client_tx_round env tx = Ret (act, tx') ->
  Z.of_nat (length (match act with TcpSpawn pingid _ => pingid :: ids | _ => ids end)) <= 2 ^ 32 ->
  tcp_ok q (TcpClient tx' now table dl ins
    (match act with TcpSpawn pingid dst => PingThread pingid dst Starting :: th | _ => th end)
    (match act with TcpSpawn pingid _ => pingid :: ids | _ => ids end)).
Proof.
  intros Hv [Htr Hids Huid Hnd Hin]. cbn [tl_tx tl_now tl_table tl_delivered tl_inserted tl_threads tl_issued] in *.
  unfold tcp_client_tx_round. destruct (Scheduler.Udp.next _ _ _ _ _ _) as [[[[r da] us] sc]|e|];
    cbn [mbind outcome_bind]; [|done..].
  destruct (IS_SUCCESS r); [|by intros [= <- <-]]. destruct da as [dst|]; [|done].
  intros [= <- <-]. cbn [length]. intros Hlen. set (n := length ids) in *.
  assert (PingId.make_pingid (NetAddr.ip2uint indet ipv4) (ut_ping_uid tx)
    = nth_pingid indet ipv4 (Z.of_nat n)) as -> by (by rewrite Huid).
  set (k := nth_pingid indet ipv4 (Z.of_nat n)) in *.
  assert (k ∉ ids) as Hfresh.
  { rewrite Hids, elem_of_first_pingids. intros (i & Hk & Hi).
    apply nth_pingid_inj in Hk; [lia|done|lia|lia]. }
  split; cbn [tl_tx tl_now tl_table tl_delivered tl_inserted tl_threads tl_issued ut_ping_uid length].
  - done.
  - fold n. rewrite first_pingids_S. by rewrite <- Hids.
  - fold n. rewrite Huid, Nat2Z.inj_succ. unfold u32. rewrite Zplus_mod_idemp_l. f_equal; lia.
  - change (starting (PingThread k dst Starting :: th)) with (k :: starting th). cbn [app].
    constructor; [|done]. intros Hk. by apply Hin in Hk.
  - change (starting (PingThread k dst Starting :: th)) with (k :: starting th). cbn [app].
    intros k'. rewrite !elem_of_cons. intros [->|Hk']; [by left|right; by apply Hin].
Qed.

Lemma tcp_insert_ok q tx now now_expire now' system_now table dl ins l1 pingid dst l2 ids r table' :
  q_contents q = [] ->
  tcp_ok q (TcpClient tx now table dl ins (l1 ++ PingThread pingid dst Starting :: l2) ids) ->
  now <= now_expire -> now_expire <= now' ->
  insert indet threshold_ms pingid pingid dst now_expire now' system_now table = (r, table') ->
  tcp_ok q (TcpClient tx now' table' dl (if IS_SUCCESS r then pingid :: ins else ins)
    (l1 ++ PingThread pingid dst Connecting :: l2) ids) /\ r = PINGWEAVE_SUCCESS.
Proof.
  intros Hq [Htr Hids Huid Hnd Hin] H1 H2 Hi.
  cbn [tl_tx tl_now tl_table tl_delivered tl_inserted tl_threads tl_issued] in *.
  rewrite starting_moves in Hnd.
  assert (pingid ∉ ins) as Hnew by (by apply NoDup_app in Hnd as (_ & _ & [? _]%NoDup_cons)).
  destruct (issued_not_pending indet threshold_ms q now table dl ins pingid Hq Htr Hnew)
    as (Hwf & Hok & Hk).
  destruct (udp_insert_new indet threshold_ms pingid dst now_expire now' system_now table Hwf Hok Hk)
    as (gone & t' & Hi' & _). rewrite Hi in Hi'. injection Hi' as -> ->. split; [|done].
  split; cbn [tl_tx tl_now tl_table tl_delivered tl_inserted tl_threads tl_issued];
    [|done|done|exact Hnd|].
  - eapply rtc_r; [exact Htr|]. eapply (client_insert indet threshold_ms _ dst now now_expire now'
      system_now table PINGWEAVE_SUCCESS); [done|done|exact Hi].
  - intros k' Hk'. apply Hin. by rewrite starting_moves.
Qed.

Lemma tcp_step_ok q s s' :
  NetAddr.valid_ipv4 ipv4 -> q_contents q = [] -> tcp_ok q s -> tcp_step s s' ->
  Z.of_nat (length (tl_issued s')) <= 2 ^ 32 -> tcp_ok q s'.
Proof.
  intros Hv Hq Hok Hstep Hlen. destruct Hstep as
    [|tx now ne now' sn table dl ins l1 pingid dst l2 ids r table' H1 H2 Hi
     |tx now rn table dl ins l1 pingid dst l2 ids r table' Hu|tx now table dl ins l1 t l2 ids
     |tx now t q0 a q' dl ins th ids Hw].
  - by eapply tcp_tx_ok.
  - by eapply tcp_insert_ok.
  - destruct Hok as [Htr Hids Huid Hnd Hin]. cbn in *. apply starting_drop in Hnd as [Hnd Hsub].
    split; cbn; auto. eapply rtc_r; [exact Htr|]. by eapply client_pong.
  - destruct Hok as [Htr Hids Huid Hnd Hin]. cbn in *. apply starting_drop in Hnd as [Hnd Hsub].
    split; cbn; auto.
  - destruct Hok as [Htr Hids Huid Hnd Hin]. split; cbn in *; auto.
    eapply rtc_r; [exact Htr|]. by apply client_dequeue.
Qed.

Lemma tcp_issued_grows s s' : tcp_step s s' -> (length (tl_issued s) <= length (tl_issued s'))%nat.
Proof. destruct 1 as [env tx now table dl ins th ids act| | | |]; cbn; [destruct act; cbn|..]; lia. Qed.

Lemma tcp_reachable_ok q (scheduler : scheduler string) s :
  NetAddr.valid_ipv4 ipv4 -> q_contents q = [] -> tcp_reachable scheduler q s ->
  Z.of_nat (length (tl_issued s)) <= 2 ^ 32 -> tcp_ok q s.
Proof.
  intros Hv Hq. unfold tcp_reachable. revert s.
  apply (rtc_ind_r (fun s => Z.of_nat (length (tl_issued s)) <= 2 ^ 32 -> tcp_ok q s)).
  - intros _. split; cbn; [apply rtc_refl|done|done|constructor|done].
  - intros s1 s2 _ Hstep IH Hlen. eapply tcp_step_ok; [done..| |exact Hstep|done].
    apply IH. pose proof (tcp_issued_grows _ _ Hstep). lia.
Qed.

(** [send_tcp_message] on its own is a run of its thread's steps. *)
Lemma send_tcp_message_run env connect_ret getsockname_ret clk src_ip dst pingid fds table r fds' table'
    tx now dl ins l1 l2 ids :
  now <= tk_expire clk -> tk_expire clk <= tk_steady clk ->
  send_tcp_message indet threshold_ms env connect_ret getsockname_ret clk src_ip dst
    PINGWEAVE_TCP_PORT_SERVER pingid fds table = Ret (r, fds', table') ->
  exists now' ins', rtc tcp_step
    (TcpClient tx now table dl ins (l1 ++ PingThread pingid dst Starting :: l2) ids)
    (TcpClient tx now' table' dl ins' (l1 ++ l2) ids).
Proof.
  intros H1 H2. unfold send_tcp_message. destruct (make_tcp_ctx _ _ _ _ _) as [[r0 ctx] fds1].
  destruct (IS_FAILURE r0); [|destruct (inet_pton4 dst)].
  1, 3: intros [= <- <- <-]; exists now, ins; apply rtc_once, tcp_exit_step.
  destruct (insert indet threshold_ms pingid pingid dst _ _ _ table) as [r1 t1] eqn:Hi. cbn [snd].
  assert (tcp_step _ _) as Hins by
    exact (tcp_insert_step tx now _ _ _ table dl ins l1 pingid dst l2 ids r1 t1 H1 H2 Hi).
  destruct (connect_ret =? -1).
  - intros [= <- <- <-]. eexists _, _. eapply rtc_l; [exact Hins|]. apply rtc_once, tcp_exit_step.
  - destruct (update_pong_info _ _ _ _) as [[r2 t2]|e|] eqn:Hu; cbn [mbind outcome_bind]; [|done..].
    intros Hr. assert (table' = t2) as -> by (destruct (getsockname_ret =? -1); by simplify_eq).
    eexists _, _. eapply rtc_l; [exact Hins|]. apply rtc_once. by eapply tcp_connected_step.
Qed.
End tcp.

(** *** The server's descriptors *)
Definition server_ok (base : gset Z) (s : tcp_server) : Prop :=
  let live := filter (fun fd => 0 <= fd) (sv_threads s) in
  NoDup live /\ (forall fd, fd ∈ live -> fd ∉ base) /\ sv_fds s = base ∪ list_to_set live.

Lemma server_step_ok base s s' : server_ok base s -> server_step s s' -> server_ok base s'.
Proof.
  intros (Hnd & Hb & Hf) Hstep. destruct Hstep as [fd s Hfd|fds fds' l1 fd l2 r Hr]; unfold server_ok in *.
  - cbn [tcp_server_accept sv_fds sv_threads]. rewrite filter_cons.
    destruct (Z.ltb_spec fd 0); [by rewrite decide_False by lia|]. rewrite decide_True by done.
    destruct Hfd as [|Hfd]; [lia|]. rewrite Hf in *. split_and!.
    + constructor; [|done]. set_solver.
    + intros fd'. rewrite elem_of_cons. intros [->|Hin]; [set_solver|by apply Hb].
    + rewrite list_to_set_cons. set_solver.
  - cbn [sv_fds sv_threads] in *. rewrite !filter_app, filter_cons in *.
    set (f1 := filter _ l1) in *. set (f2 := filter _ l2) in *.
    unfold receive_tcp_message in Hr. destruct (Z.ltb_spec fd 0).
    + rewrite decide_False in * by lia. by injection Hr as <- <-.
    + rewrite decide_True in * by done. injection Hr as <- <-.
      rewrite <- Permutation_middle in Hnd. apply NoDup_cons in Hnd as [Hni Hnd].
      assert (fd ∉ base) as Hfb by (apply Hb; set_solver). split_and!; [done|set_solver|].
      rewrite Hf, !list_to_set_app_L, list_to_set_cons. set_solver.
Qed.

(** ** Properties *)

(** C37: over any interleaving of the TCP client's TX thread, its ping threads
    (which may also die at any point) and the result thread, for its first 2^32
    pings: the ids issued are distinct, no ping is inserted twice, only issued
    pings are inserted, and each inserted ping is reported once, or pending, or
    lost to a full queue, never two of these. [send_tcp_message] run to its end
    is a sequence of such steps. *)
Theorem tcp_pings_accounted `{SpscQueue Q tcpudp_result_msg_t} indet threshold_ms ipv4
    (scheduler : scheduler string) q s :
  NetAddr.valid_ipv4 ipv4 -> q_contents q = [] ->
  tcp_reachable indet threshold_ms ipv4 scheduler q s ->
  Z.of_nat (length (tl_issued s)) <= 2 ^ 32 ->
  NoDup (tl_issued s) /\ NoDup (tl_inserted s) /\
  (forall k, k ∈ tl_inserted s -> k ∈ tl_issued s) /\
  NoDup (tcp_reported s ++ tcp_pending s) /\
  (exists lost, tl_inserted s ≡ₚ tcp_reported s ++ tcp_pending s ++ lost /\
    ((forall (m : tcpudp_result_msg_t) (q : Q), has_room m q) -> lost = [])) /\
  (forall env cr gr clk src_ip dst pingid fds r fds' table' l1 l2,
    tl_threads s = l1 ++ PingThread pingid dst Starting :: l2 ->
    tl_now s <= tk_expire clk -> tk_expire clk <= tk_steady clk ->
    send_tcp_message indet threshold_ms env cr gr clk src_ip dst PINGWEAVE_TCP_PORT_SERVER pingid fds
      (tl_table s) = Ret (r, fds', table') ->
    exists now' ins', tcp_reachable indet threshold_ms ipv4 scheduler q
      (TcpClient (tl_tx s) now' table' (tl_delivered s) ins' (l1 ++ l2) (tl_issued s))).
Proof.
  intros Hv Hq Hr Hlen.
  destruct (tcp_reachable_ok indet threshold_ms ipv4 q scheduler s Hv Hq Hr Hlen)
    as [Htr Hids _ Hnd Hin].
  apply udp_reachable_ok in Htr; [|done]. apply NoDup_app in Hnd as (_ & _ & Hnd).
  split_and!.
  - rewrite Hids. by apply first_pingids_nodup.
  - done.
  - intros k Hk. apply Hin. set_solver.
  - by apply (accounted_nodup _ _ _ _ _ _ _ _ _ Htr).
  - destruct Htr as [_ _ _ (lost & Hl & Hp)]. by exists lost.
  - intros env cr gr clk src_ip dst pingid fds r fds' table' l1 l2 Hth H1 H2 Hs.
    destruct s as [tx now table dl ins th ids]. cbn in *. subst th.
    destruct (send_tcp_message_run indet threshold_ms ipv4 _ _ _ _ _ _ _ _ _ _ _ _ tx now dl ins l1 l2 ids
      H1 H2 Hs) as (now' & ins' & Hrun).
    exists now', ins'. unfold tcp_reachable. by etrans.
Qed.

Lemma tcp_pings_accounted_witness :
  let env := UdpTxEnv None 0 5000000 0 0 0 [] [] 0 in
  exists s, tcp_reachable 0 1000 "10.0.0.1" example_scheduler ([] : list tcpudp_result_msg_t) s /\
    length (tl_threads s) = 1%nat /\ NoDup (tl_issued s).
Proof.
  intros env.
  destruct (tcp_client_tx_round 0 "10.0.0.1" env (UdpTx example_scheduler 0))
    as [[act tx']|e|] eqn:Hround; [|by vm_compute in Hround..].
  set (s := TcpClient tx' 0 (TcpUdpMap empty_table ([] : list tcpudp_result_msg_t)) [] []
    (match act with TcpSpawn pingid dst => [PingThread pingid dst Starting] | _ => [] end)
    (match act with TcpSpawn pingid _ => [pingid] | _ => [] end)).
  assert (tcp_reachable (H := list_spsc _) 0 1000 "10.0.0.1" example_scheduler [] s) as Hr.
  { apply rtc_once. exact (tcp_tx_step 0 1000 "10.0.0.1" env _ 0 _ [] [] [] [] act tx' Hround). }
  assert (length (tl_threads s) = 1%nat /\ length (tl_issued s) = 1%nat) as [Hlen1 Hlen2].
  { vm_compute in Hround. injection Hround as <- <-. split; reflexivity. }
  exists s. split; [exact Hr|]. split; [exact Hlen1|].
  refine (proj1 (tcp_pings_accounted (H := list_spsc _) 0 1000 "10.0.0.1" example_scheduler []
    s _ eq_refl Hr _)).
  - eexists. vm_compute. reflexivity.
  - rewrite Hlen2. lia.
Defined.

(** The TCP server leaks no descriptor: over any interleaving of [accept]
    (failures included) and its detached threads, what is open is what was open
    at the start plus one descriptor per connection whose thread has not run;
    that thread closes it, and when all threads have run nothing is left. *)
Theorem tcp_server_descriptors base s :
  rtc server_step (TcpServer base []) s ->
  let live := filter (fun fd => 0 <= fd) (sv_threads s) in
  NoDup live /\ (forall fd, fd ∈ live -> fd ∉ base) /\ sv_fds s = base ∪ list_to_set live /\
  (forall fd, fd ∈ live -> receive_tcp_message fd (sv_fds s)
     = (PINGWEAVE_SUCCESS, base ∪ list_to_set (filter (fun fd' => fd' <> fd) live))) /\
  (sv_threads s = [] -> sv_fds s = base).
Proof.
  intros Hr live. assert (server_ok base s) as (Hnd & Hb & Hf).
  { revert s Hr live. intros s Hr _. revert s Hr. apply (rtc_ind_r (server_ok base)).
    - split_and!; cbn; [constructor|by intros fd ?%not_elem_of_nil|set_solver].
    - intros s1 s2 _ Hstep Hok. by eapply server_step_ok. }
  split_and!; [done|done|done| |].
  - intros fd Hfd. pose proof (Hb fd Hfd) as Hnb.
    pose proof (proj1 (list_elem_of_filter _ _ _) Hfd) as [Hpos _]. unfold receive_tcp_message.
    rewrite (proj2 (Z.ltb_ge _ _)) by done. f_equal. rewrite Hf. fold live. apply set_eq. intros x.
    rewrite elem_of_difference, !elem_of_union, !elem_of_list_to_set, list_elem_of_filter. set_solver.
  - intros Hn. rewrite Hf. unfold live. rewrite Hn. cbn. set_solver.
Qed.

Lemma tcp_server_descriptors_witness :
  let s := tcp_server_accept 7 (tcp_server_accept (-1) (TcpServer {[3]} [])) in
  rtc server_step (TcpServer {[3]} []) s /\ sv_fds s = {[3]} ∪ list_to_set [7].
Proof.
  intros s. assert (rtc server_step (TcpServer {[3]} []) s) as Hr.
  { eapply rtc_l; [apply (server_accept (-1)); left; lia|]. eapply rtc_once.
    apply (server_accept 7). right. cbn. apply not_elem_of_singleton. lia. }
  split; [exact Hr|]. exact (proj1 (proj2 (proj2 (tcp_server_descriptors {[3]} s Hr)))).
Defined.
