(* ===== verification/RdmaGid.v ===== *)
(** * RdmaGid: the text forms of a GID and the choice of a GID index
    (rdma_common.cpp: [gid_to_wire_gid], [wire_gid_to_gid], [parsed_gid],
    [get_gid_table_index]).

    A GID is its 16 bytes in network order; the host is little-endian. *)
From S2P Require Import Prelude Text CxxString Wire.
From Stdlib Require Import Ascii.
From Stdlib Require String.
Local Open Scope Z_scope.

(** ** Hexadecimal text *)

(** [be32toh] and [htobe32] of a little-endian host. *)
Definition bswap32 (v : Z) : Z := le_val (reverse (le_bytes 4 v)).

Definition hex_digit (d : Z) : ascii :=
  ascii_of_nat (Z.to_nat (if d <? 10 then 48 + d else 87 + d)).

Definition hex_val (c : ascii) : option Z :=
  let n := Z.of_nat (nat_of_ascii c) in
  if (48 <=? n) && (n <=? 57) then Some (n - 48)
  else if (97 <=? n) && (n <=? 102) then Some (n - 87)
  else if (65 <=? n) && (n <=? 70) then Some (n - 55)
  else None.

(** The [n] lowest hexadecimal digits of a number. *)
Fixpoint hex_digits (n : nat) (v : Z) : chars :=
  match n with
  | O => []
  | S n => hex_digits n (v `div` 16) ++ [hex_digit (v `mod` 16)]
  end.

(** [sprintf("%08x")] of a 32-bit value. *)
Definition hex8 (v : Z) : chars := hex_digits 8 v.

Fixpoint leading_hex (s : chars) : list Z :=
  match s with
  | c :: s => match hex_val c with Some d => d :: leading_hex s | None => [] end
  | [] => []
  end.

Definition hex_value (ds : list Z) : Z := foldl (fun acc d => 16 * acc + d) 0 ds.

(** [sscanf(s, "%x", &old)]: blanks, a sign and a prefix [0x] are accepted;
    without a digit the variable keeps its value. *)
Definition sscanf_x (s : chars) (old : Z) : Z :=
  let s := skip_spaces (c_chars s) in
  let '(neg, s) :=
    match s with
    | c :: s' => if Ascii.eqb c "-" then (true, s')
                 else if Ascii.eqb c "+" then (false, s') else (false, s)
    | [] => (false, [])
    end in
  let ds :=
    match s with
    | z :: x :: s' => if Ascii.eqb z "0" && (Ascii.eqb x "x" || Ascii.eqb x "X")
                      then 0 :: leading_hex s' else leading_hex s
    | _ => leading_hex s
    end in
  match ds with
  | [] => old
  | _ => u32 (if neg then - hex_value ds else hex_value ds)
  end.

(** ** Wire form: 32 hexadecimal digits *)
Definition gid_to_wire_gid (gid : list Z) : chars :=
  mjoin ((fun i => hex8 (bswap32 (le_val (slice (i * 4) 4 gid)))) <$> seq 0 4).

(** [v32] is not reset between the rounds, [indet] before the first one. Reading
    past the terminator of the text is undefined. *)
Fixpoint wire_gid_words (rounds i : nat) (wgid : chars) (v32 : Z) : outcome (list Z) :=
  match rounds with
  | O => Ret []
  | S rounds =>
      if (length wgid + 1 <? i * 8 + 8)%nat then Undef
      else
        let tmp := take 8 (drop (i * 8) (wgid ++ [NUL])) in
        let v32 := sscanf_x tmp v32 in
        rest ← wire_gid_words rounds (S i) wgid v32;
        Ret (le_bytes 4 (bswap32 v32) ++ rest)
  end.
Definition wire_gid_to_gid (indet : Z) (wgid : chars) : outcome (list Z) :=
  wire_gid_words 4 0 wgid indet.

(** ** The choice of an index *)
Section gid_index.
(** [inet_ntop(AF_INET6, ...)], the C library's text of the 16 bytes. *)
Context (inet_ntop6 : list Z -> string).

(** The buffer of [parsed_gid] has 33 bytes; a longer text makes [inet_ntop]
    fail, which is not looked at: the uninitialised buffer is read. *)
Definition parsed_gid (gid : list Z) : outcome string :=
  if (String.length (inet_ntop6 gid) <? 33)%nat then Ret (inet_ntop6 gid) else Undef.

(** The text of a GID fits that buffer. *)
Definition text_fits (gid : list Z) : Prop := (String.length (inet_ntop6 gid) < 33)%nat.

(** [inet_ntop] gives different addresses different texts. *)
Definition text_inj : Prop :=
  forall gid gid', length gid = 16%nat -> Forall is_byte gid -> length gid' = 16%nat ->
    Forall is_byte gid' -> inet_ntop6 gid = inet_ntop6 gid' -> gid = gid'.

(** [query i]: the GID of [ibv_query_gid] at an index, [None] on failure. The
    loop runs from the last index down; [gid_index] and [preferred] are -1
    while unset. *)
Fixpoint gid_index_loop (n : nat) (query : Z -> option (list Z)) (gid_index preferred : Z)
  : outcome (Z * Z) :=
  match n with
  | O => Ret (gid_index, preferred)
  | S n =>
      let i := Z.of_nat n in
      match query i with
      | None => gid_index_loop n query gid_index preferred
      | Some gid =>
          gid_str ← parsed_gid gid;
          if String.eqb gid_str "" || String.eqb gid_str "::" then
            gid_index_loop n query gid_index preferred
          else
            let preferred :=
              if String.prefix "::ffff:" gid_str && (preferred =? -1) then i else preferred in
            if String.eqb gid_str "fe80::" then gid_index_loop n query gid_index preferred
            else
              let gid_index := if gid_index =? -1 then i else gid_index in
              gid_index_loop n query gid_index preferred
      end
  end.

(** [gid_tbl_len]: the table's length, [None] if the port cannot be queried. *)
Definition get_gid_table_index (gid_tbl_len : option Z) (query : Z -> option (list Z)) : outcome Z :=
  match gid_tbl_len with
  | None => Ret (-1)
  | Some gid_table_size =>
      if gid_table_size <=? 0 then Ret (-1)
      else
        '(gid_index, preferred) ← gid_index_loop (Z.to_nat gid_table_size) query (-1) (-1);
        Ret (if negb (preferred =? -1) then preferred else gid_index)
  end.

(** *** What the index should be *)

(** Every GID of the table has a text that fits. *)
Definition table_fits (query : Z -> option (list Z)) : Prop :=
  forall i gid, query i = Some gid -> text_fits gid.

(** The indices with a GID whose text passes [p]. *)
Definition has_text (query : Z -> option (list Z)) (p : string -> bool) (i : Z) : Prop :=
  exists gid, query i = Some gid /\ p (inet_ntop6 gid) = true.

Definition usable (s : string) : bool := negb (String.eqb s "" || String.eqb s "::" || String.eqb s "fe80::").
Definition mapped_ipv4 (s : string) : bool := String.prefix "::ffff:" s.

(** [i] is the greatest index below [n] with a text that passes [p]; -1 if
    there is none. *)
Definition last_with (query : Z -> option (list Z)) (p : string -> bool) (n i : Z) : Prop :=
  (0 <= i < n /\ has_text query p i /\ forall j, i < j < n -> ~ has_text query p j) \/
  (i = -1 /\ forall j, 0 <= j < n -> ~ has_text query p j).
End gid_index.

(** ** Lemmas *)
Lemma hex_digit_facts d : 0 <= d < 16 ->
  hex_val (hex_digit d) = Some d /\ isspace (hex_digit d) = false /\
  Ascii.eqb (hex_digit d) NUL = false /\ Ascii.eqb (hex_digit d) "-" = false /\
  Ascii.eqb (hex_digit d) "+" = false /\
  Ascii.eqb (hex_digit d) "x" || Ascii.eqb (hex_digit d) "X" = false.
Proof. intros Hd. revert d Hd. apply (forall_range _ 0 16). vm_compute. reflexivity. Qed.

Definition is_hex (c : ascii) : Prop := exists d, 0 <= d < 16 /\ c = hex_digit d.

Lemma hex_digits_hex n v : Forall is_hex (hex_digits n v).
Proof.
  revert v. induction n as [|n IH]; intros v; [constructor|]. cbn [hex_digits].
  apply Forall_app_2; [done|]. constructor; [|constructor]. exists (v `mod` 16).
  split; [apply Z.mod_pos_bound; lia|done].
Qed.

Lemma length_hex_digits n v : length (hex_digits n v) = n.
Proof. revert v. induction n as [|n IH]; intros v; [done|]. cbn [hex_digits]. rewrite length_app, IH. cbn. lia. Qed.

Lemma leading_hex_app l d : Forall is_hex l -> 0 <= d < 16 ->
  leading_hex (l ++ [hex_digit d]) = leading_hex l ++ [d].
Proof.
  intros Hl Hd. induction Hl as [|c l (d' & Hd' & ->) Hl IH]; cbn [app leading_hex].
  - by rewrite (proj1 (hex_digit_facts d Hd)).
  - by rewrite (proj1 (hex_digit_facts d' Hd')), IH.
Qed.

Lemma hex_value_digits n v : 0 <= v < 16 ^ Z.of_nat n -> hex_value (leading_hex (hex_digits n v)) = v.
Proof.
  revert v. induction n as [|n IH]; intros v Hv; [cbn in *; lia|].
  rewrite Nat2Z.inj_succ, Z.pow_succ_r in Hv by lia. cbn [hex_digits].
  rewrite leading_hex_app by (first [apply hex_digits_hex | apply Z.mod_pos_bound; lia]).
  unfold hex_value in *. rewrite foldl_app, IH by (split; [apply Z.div_pos; lia|zmod]). cbn. zmod.
Qed.

Lemma c_chars_hex l : Forall is_hex l -> c_chars l = l.
Proof.
  induction 1 as [|c l (d & Hd & ->) Hl IH]; [done|]. cbn [c_chars].
  destruct (hex_digit_facts d Hd) as (_ & _ & -> & _). by rewrite IH.
Qed.

(** A word of eight digits reads back as its value. *)
Lemma sscanf_hex8 v old : 0 <= v < 2 ^ 32 -> sscanf_x (hex8 v) old = v.
Proof.
  intros Hv. pose proof (hex_digits_hex 8 v) as Hh. pose proof (length_hex_digits 8 v) as Hl.
  pose proof (hex_value_digits 8 v Hv) as Hval. unfold sscanf_x, hex8 in *.
  rewrite (c_chars_hex _ Hh). destruct (hex_digits 8 v) as [|z [|x l]]; [done..|].
  apply list.Forall_cons in Hh as [(d1 & H1 & ->) [(d2 & H2 & ->) _]%list.Forall_cons].
  destruct (hex_digit_facts d1 H1) as (Hv1 & Hs1 & _ & Hm & Hp & _).
  destruct (hex_digit_facts d2 H2) as (_ & _ & _ & _ & _ & Hx).
  cbn [skip_spaces]. rewrite Hs1, Hm, Hp, Hx, andb_false_r.
  cbn [leading_hex] in *. rewrite Hv1 in *. rewrite Hval. by apply u32_small.
Qed.

Lemma bswap32_range v : 0 <= bswap32 v < 2 ^ 32.
Proof.
  unfold bswap32. pose proof (le_val_range (reverse (le_bytes 4 v))) as H.
  rewrite length_reverse, le_bytes_length in H. apply H. apply Forall_reverse, le_bytes_bytes.
Qed.

Lemma bswap32_bytes v : le_bytes 4 (bswap32 v) = reverse (le_bytes 4 v).
Proof.
  unfold bswap32. pose proof (le_bytes_val (reverse (le_bytes 4 v))) as H.
  rewrite length_reverse, le_bytes_length in H. apply H. apply Forall_reverse, le_bytes_bytes.
Qed.

Lemma bswap32_twice w : length w = 4%nat -> Forall is_byte w ->
  le_bytes 4 (bswap32 (bswap32 (le_val w))) = w.
Proof.
  intros Hl Hw. rewrite bswap32_bytes, bswap32_bytes, reverse_involutive.
  rewrite <- Hl. by apply le_bytes_val.
Qed.

(** One round of [wire_gid_to_gid] on a text that has the word's digits. *)
Lemma wire_gid_word rounds i pre w post v32 :
  length pre = (i * 8)%nat -> length w = 4%nat -> Forall is_byte w ->
  wire_gid_words (S rounds) i (pre ++ hex8 (bswap32 (le_val w)) ++ post) v32
  = (rest ← wire_gid_words rounds (S i) (pre ++ hex8 (bswap32 (le_val w)) ++ post)
       (bswap32 (le_val w)); Ret (w ++ rest)).
Proof.
  intros Hp Hl Hw. set (h := hex8 _). assert (length h = 8%nat) as Hh by apply length_hex_digits.
  cbn [wire_gid_words]. rewrite (proj2 (Nat.ltb_ge _ _)) by (rewrite !length_app; lia).
  rewrite <- !app_assoc, <- Hp, drop_app_length, <- Hh, take_app_length. subst h.
  rewrite sscanf_hex8 by apply bswap32_range. by rewrite bswap32_twice.
Qed.

Definition wire_word (w : list Z) : chars := hex8 (bswap32 (le_val w)).

Lemma wire_gid_words_text ws pre i v32 :
  Forall (fun w => length w = 4%nat /\ Forall is_byte w) ws -> length pre = (i * 8)%nat ->
  wire_gid_words (length ws) i (pre ++ mjoin (wire_word <$> ws)) v32 = Ret (mjoin ws).
Proof.
  intros Hws. revert pre i v32. induction Hws as [|w ws [Hl Hb] Hws IH]; intros pre i v32 Hp; [done|].
  cbn [length fmap list_fmap mjoin list_join]. unfold wire_word at 1.
  rewrite wire_gid_word by done. fold (wire_word w). rewrite app_assoc.
  fold (fmap wire_word ws). rewrite IH; [done|]. rewrite length_app, Hp. unfold wire_word, hex8.
  rewrite length_hex_digits. lia.
Qed.

Lemma wire_roundtrip indet gid :
  length gid = 16%nat -> Forall is_byte gid -> wire_gid_to_gid indet (gid_to_wire_gid gid) = Ret gid.
Proof.
  intros Hl Hb. set (ws := (fun i => slice (i * 4) 4 gid) <$> seq 0 4).
  assert (gid_to_wire_gid gid = mjoin (wire_word <$> ws)) as -> by reflexivity.
  assert (mjoin ws = gid) as Hws.
  { subst ws. do 16 (destruct gid as [|? gid]; [done|]). destruct gid; [reflexivity|done]. }
  transitivity (Ret (mjoin ws)); [|by rewrite Hws]. apply (wire_gid_words_text ws [] 0 indet); [|done].
  apply list.Forall_forall. intros w (i & -> & Hi)%list_elem_of_fmap. apply elem_of_seq in Hi. split.
  - apply length_slice. lia.
  - by apply Forall_take, Forall_drop.
Qed.

Lemma gid_to_wire_inj gid gid' :
  length gid = 16%nat -> Forall is_byte gid -> length gid' = 16%nat -> Forall is_byte gid' ->
  gid_to_wire_gid gid = gid_to_wire_gid gid' -> gid = gid'.
Proof.
  intros H1 H2 H3 H4 He. pose proof (wire_roundtrip 0 gid H1 H2) as Hr.
  rewrite He, wire_roundtrip in Hr by done. by injection Hr.
Qed.

Lemma parsed_gid_ret inet_ntop6 gid :
  text_fits inet_ntop6 gid -> parsed_gid inet_ntop6 gid = Ret (inet_ntop6 gid).
Proof. intros Hf. unfold parsed_gid. by rewrite (proj2 (Nat.ltb_lt _ _) Hf). Qed.

(** The only undefined behaviour of the choice is a text that does not fit. *)
Lemma gid_index_loop_cases inet_ntop6 query n gi pf :
  match gid_index_loop inet_ntop6 n query gi pf with
  | Ret _ => True
  | Throw _ => False
  | Undef => exists i gid, 0 <= i < Z.of_nat n /\ query i = Some gid /\ ~ text_fits inet_ntop6 gid
  end.
Proof.
  revert gi pf. induction n as [|n IH]; intros gi pf; [done|]. cbn [gid_index_loop].
  assert (forall gi pf, match gid_index_loop inet_ntop6 n query gi pf with
    | Ret _ => True | Throw _ => False
    | Undef => exists i gid, 0 <= i < Z.of_nat (S n) /\ query i = Some gid /\ ~ text_fits inet_ntop6 gid
    end) as IH'.
  { intros gi' pf'. specialize (IH gi' pf'). destruct (gid_index_loop _ _ _ _ _); [done|done|].
    destruct IH as (i & gid & Hi & Hq). exists i, gid. split; [lia|done]. }
  destruct (query (Z.of_nat n)) as [gid|] eqn:Hq; [|apply IH'].
  unfold parsed_gid. destruct (Nat.ltb_spec (String.length (inet_ntop6 gid)) 33) as [Hf|Hf].
  - cbn [mbind outcome_bind]. destruct (_ || _); [apply IH'|]. destruct (String.eqb _ "fe80::"); apply IH'.
  - exists (Z.of_nat n), gid. unfold text_fits. split_and!; [lia|lia|done|lia].
Qed.

Lemma gid_table_cases inet_ntop6 len query :
  match get_gid_table_index inet_ntop6 len query with
  | Ret _ => True
  | Throw _ => False
  | Undef => exists size i gid, len = Some size /\ 0 <= i < size /\ query i = Some gid /\
               ~ text_fits inet_ntop6 gid
  end.
Proof.
  unfold get_gid_table_index. destruct len as [size|]; [|done]. destruct (Z.leb_spec size 0); [done|].
  pose proof (gid_index_loop_cases inet_ntop6 query (Z.to_nat size) (-1) (-1)) as Hc.
  destruct (gid_index_loop _ _ _ _ _) as [[gi pf]|e|]; [done|done|].
  destruct Hc as (i & gid & Hi & Hq). exists size, i, gid. split; [done|]. split; [lia|done].
Qed.

Section gid_index_facts.
Context (inet_ntop6 : list Z -> string) (query : Z -> option (list Z)).
Context (fits : table_fits inet_ntop6 query).

(** Setting a variable that is unset to the index at hand. *)
Definition settle (p : string -> bool) (i cur : Z) (found : option (list Z)) : Z :=
  match found with
  | Some gid => if p (inet_ntop6 gid) && (cur =? -1) then i else cur
  | None => cur
  end.

Lemma gid_index_loop_S n gi pf :
  gid_index_loop inet_ntop6 (S n) query gi pf
  = gid_index_loop inet_ntop6 n query (settle usable (Z.of_nat n) gi (query (Z.of_nat n)))
      (settle mapped_ipv4 (Z.of_nat n) pf (query (Z.of_nat n))).
Proof.
  cbn [gid_index_loop]. destruct (query (Z.of_nat n)) as [gid|] eqn:Hq; [|done].
  rewrite parsed_gid_ret by (by eapply fits). cbn [mbind outcome_bind settle]. unfold usable, mapped_ipv4.
  set (s := inet_ntop6 gid).
  destruct (String.eqb_spec s ""); [subst s; by rewrite e|].
  destruct (String.eqb_spec s "::"); [by rewrite e|].
  destruct (String.eqb_spec s "fe80::"); [by rewrite e|].
  done.
Qed.

Lemma settle_cases p n cur : 0 <= n ->
  (cur <> -1 /\ settle p n cur (query n) = cur) \/
  (cur = -1 /\ has_text inet_ntop6 query p n /\ settle p n cur (query n) = n) \/
  (cur = -1 /\ ~ has_text inet_ntop6 query p n /\ settle p n cur (query n) = -1).
Proof.
  intros Hn. unfold settle, has_text. destruct (Z.eqb_spec cur (-1)) as [->|Hne].
  - right. destruct (query n) as [gid|]; [|right; split_and!; [done|by intros (g & [=] & _)|done]].
    destruct (p (inet_ntop6 gid)) eqn:Hp; cbn [andb].
    + left. split_and!; [done|by exists gid|done].
    + right. split_and!; [done| |done]. intros (g & [= <-] & Hg). by rewrite Hp in Hg.
  - left. split; [done|]. destruct (query n); [by rewrite andb_false_r|done].
Qed.

Lemma last_with_skip p n i :
  ~ has_text inet_ntop6 query p n -> last_with inet_ntop6 query p n i ->
  last_with inet_ntop6 query p (n + 1) i.
Proof.
  intros Hn [(Hi & Hh & Hj)|(-> & Hj)]; [left|right]; split_and!; [lia|lia|done| |done|].
  - intros j H. destruct (decide (j = n)) as [->|]; [done|]. apply Hj. lia.
  - intros j H. destruct (decide (j = n)) as [->|]; [done|]. apply Hj. lia.
Qed.

(** What a variable is after the round of index [n] and the rounds below. *)
Lemma settle_last p n cur cur' : 0 <= n -> -1 <= cur ->
  (let s := settle p n cur (query n) in
   if s =? -1 then last_with inet_ntop6 query p n cur' else cur' = s) ->
  if cur =? -1 then last_with inet_ntop6 query p (n + 1) cur' else cur' = cur.
Proof.
  intros Hn Hcur. cbv zeta.
  destruct (settle_cases p n cur Hn) as [(Hc & ->)|[(-> & Hh & ->)|(-> & Hh & ->)]].
  - by rewrite (proj2 (Z.eqb_neq _ _)).
  - rewrite (proj2 (Z.eqb_neq n _)) by lia. intros ->. left. split_and!; [lia|lia|done|]. intros j ?; lia.
  - cbn. by apply last_with_skip.
Qed.

(** An unset variable ends as the last index with a text that passes. *)
Lemma gid_index_loop_spec n gi pf : -1 <= gi -> -1 <= pf ->
  exists gi' pf', gid_index_loop inet_ntop6 n query gi pf = Ret (gi', pf') /\
    (if gi =? -1 then last_with inet_ntop6 query usable (Z.of_nat n) gi' else gi' = gi) /\
    (if pf =? -1 then last_with inet_ntop6 query mapped_ipv4 (Z.of_nat n) pf' else pf' = pf).
Proof.
  assert (forall p n cur, 0 <= n -> -1 <= cur -> -1 <= settle p n cur (query n)) as Hs.
  { intros p k cur Hk Hcur. destruct (settle_cases p k cur Hk) as [(_ & ->)|[(_ & _ & ->)|(_ & _ & ->)]]; lia. }
  revert gi pf. induction n as [|n IH]; intros gi pf Hgi Hpf.
  - exists gi, pf. split; [done|]. assert (forall p, last_with inet_ntop6 query p 0 (-1)) as H0.
    { intros p. right. split; [done|]. intros j Hj. cbn in Hj. lia. }
    split; [destruct (Z.eqb_spec gi (-1)) as [->|]|destruct (Z.eqb_spec pf (-1)) as [->|]]; done.
  - rewrite gid_index_loop_S. rewrite Nat2Z.inj_succ.
    destruct (IH (settle usable (Z.of_nat n) gi (query (Z.of_nat n)))
      (settle mapped_ipv4 (Z.of_nat n) pf (query (Z.of_nat n)))) as (gi' & pf' & -> & H1 & H2);
      [apply Hs; lia..|].
    exists gi', pf'. split; [done|].
    split; (eapply settle_last; [lia|done|]); [exact H1|exact H2].
Qed.
End gid_index_facts.

(** ** Properties *)

(** A GID survives the text of the address files: the 32 digits written by
    [gid_to_wire_gid] are read back by [wire_gid_to_gid] as the same 16 bytes,
    whatever the uninitialised word held, and differ for different GIDs. *)
Theorem gid_wire_roundtrip indet gid gid' :
  length gid = 16%nat -> Forall is_byte gid -> length gid' = 16%nat -> Forall is_byte gid' ->
  wire_gid_to_gid indet (gid_to_wire_gid gid) = Ret gid /\
  length (gid_to_wire_gid gid) = 32%nat /\
  (gid_to_wire_gid gid = gid_to_wire_gid gid' -> gid = gid').
Proof.
  intros H1 H2 H3 H4. split_and!; [by apply wire_roundtrip| |by apply gid_to_wire_inj].
  unfold gid_to_wire_gid. cbn [seq fmap list_fmap mjoin list_join].
  rewrite !length_app. unfold hex8. by rewrite !length_hex_digits.
Qed.

Definition example_gid : list Z := [254; 128; 0; 0; 0; 0; 0; 0; 10; 219; 3; 255; 254; 190; 172; 1].

Lemma gid_wire_roundtrip_witness :
  gid_to_wire_gid example_gid = bytes_of "fe800000000000000adb03fffebeac01" /\
  wire_gid_to_gid 77 (bytes_of "fe800000000000000adb03fffebeac01") = Ret example_gid.
Proof.
  split; [vm_compute; reflexivity|].
  apply (gid_wire_roundtrip 77 example_gid example_gid); try reflexivity; repeat constructor; lia.
Defined.

(** [get_gid_table_index] gives the last index of the table whose GID is an
    IPv4-mapped one, or, when there is none, the last one whose GID is neither
    empty, nor "::", nor "fe80::", or else -1; and -1 when the port cannot be
    queried or the table is empty. *)
Theorem gid_table_index_spec inet_ntop6 size query :
  table_fits inet_ntop6 query ->
  get_gid_table_index inet_ntop6 None query = Ret (-1) /\
  exists i, get_gid_table_index inet_ntop6 (Some size) query = Ret i /\
    ((exists j, 0 <= j < size /\ has_text inet_ntop6 query mapped_ipv4 j) ->
     last_with inet_ntop6 query mapped_ipv4 size i /\ 0 <= i) /\
    (~ (exists j, 0 <= j < size /\ has_text inet_ntop6 query mapped_ipv4 j) ->
     last_with inet_ntop6 query usable size i).
Proof.
  intros Hfit. split; [done|]. unfold get_gid_table_index. destruct (Z.leb_spec size 0).
  - exists (-1). split; [done|]. split; [intros (j & ? & _); lia|]. right. split; [done|]. intros j ?; lia.
  - destruct (gid_index_loop_spec inet_ntop6 query Hfit (Z.to_nat size) (-1) (-1))
      as (gi & pf & -> & Hg & Hp); [lia|lia|].
    rewrite Z2Nat.id in Hg, Hp by lia. cbn [Z.eqb] in Hg, Hp.
    cbn [mbind outcome_bind]. eexists. split; [done|].
    destruct Hp as [(Hi & Hh & Hj)|(-> & Hj)].
    + rewrite (proj2 (Z.eqb_neq pf _)) by lia. cbn [negb]. split; [|intros Hn; destruct Hn; by exists pf].
      intros _. split; [by left|lia].
    + cbn [Z.eqb negb]. split; [intros (j & Hj1 & Hj2); by destruct (Hj j)|done].
Qed.

(** A text function for a table of RoCE: IPv4-mapped GIDs and link-local ones. *)
Definition example_ntop6 (gid : list Z) : string :=
  if bool_decide (take 12 gid = [0; 0; 0; 0; 0; 0; 0; 0; 0; 0; 255; 255]) then "::ffff:10.0.0.1"
  else "fe80::adb:3ff:febe:ac01".

Lemma example_ntop6_fits gid : text_fits example_ntop6 gid.
Proof. unfold text_fits, example_ntop6. destruct (bool_decide _); cbn; lia. Qed.

Lemma gid_table_index_spec_witness :
  let query := fun i : Z => if i =? 1 then Some [0; 0; 0; 0; 0; 0; 0; 0; 0; 0; 255; 255; 10; 0; 0; 1]
                        else if i <? 3 then Some example_gid else None in
  get_gid_table_index example_ntop6 (Some 4) query = Ret 1 /\
  last_with example_ntop6 query mapped_ipv4 4 1.
Proof.
  intros query. destruct (gid_table_index_spec example_ntop6 4 query) as (_ & i & Hi & Hm & _).
  - intros i gid _. apply example_ntop6_fits.
  - assert (i = 1) as -> by (vm_compute in Hi; by injection Hi as <-).
    split; [exact Hi|]. apply Hm. exists 1. split; [lia|]. eexists. split; reflexivity.
Defined.
