(* ===== verification/YamlParse.v ===== *)
(** * YamlParse: from a scalar token to a node (libs/fkyaml: [scalar_parser],
    [yaml_escaper], [utf8::from_utf32]).

    A token is the text between the quotes, or the indented lines of a block.
    The parser keeps a view of it and a buffer: here the text that is left and
    the text made so far. *)
From S2P Require Import Prelude Text CxxString Common Yaml YamlScan YamlConv.
From Stdlib Require Import Ascii.
From Stdlib Require String.
Local Open Scope Z_scope.

Inductive lexical_token_t :=
  | END_OF_BUFFER | EXPLICIT_KEY_PREFIX | KEY_SEPARATOR | VALUE_SEPARATOR | ANCHOR_PREFIX | ALIAS_PREFIX
  | YAML_VER_DIRECTIVE | TAG_DIRECTIVE | TAG_PREFIX | INVALID_DIRECTIVE | SEQUENCE_BLOCK_PREFIX
  | SEQUENCE_FLOW_BEGIN | SEQUENCE_FLOW_END | MAPPING_FLOW_BEGIN | MAPPING_FLOW_END
  | PLAIN_SCALAR | SINGLE_QUOTED_SCALAR | DOUBLE_QUOTED_SCALAR | BLOCK_LITERAL_SCALAR | BLOCK_FOLDED_SCALAR
  | END_OF_DIRECTIVES | END_OF_DOCUMENT.

Inductive tag_t :=
  | TAG_NONE | NON_SPECIFIC | CUSTOM_TAG | TAG_SEQUENCE | TAG_MAPPING | NULL_VALUE | TAG_BOOLEAN | TAG_INTEGER
  | FLOATING_NUMBER | TAG_STRING.

Inductive chomping_indicator_t := STRIP | CLIP | KEEP.
Record block_scalar_header := BlockHeader { chomp : chomping_indicator_t; indent : nat }.

(** ** [str_view] *)
Definition one_of (filter : chars) (c : ascii) : bool := existsb (Ascii.eqb c) filter.
Definition find_first_of (filter s : chars) : option nat := find_first (one_of filter) s.
Definition find_first_not_of (filter s : chars) : option nat := find_first (fun c => negb (one_of filter c)) s.

(** The loop counts down from [pos]. *)
Fixpoint last_not_of (filter s : chars) (pos : nat) : option nat :=
  match pos with
  | O => None
  | S pos =>
      match s !! pos with
      | Some c => if one_of filter c then last_not_of filter s pos else Some pos
      | None => None
      end
  end.
(** It starts at [size() - n], [n] the size of the filter: the last [n - 1]
    characters are not looked at. *)
Definition find_last_not_of (filter s : chars) : option nat :=
  if (length filter <=? length s)%nat then last_not_of filter s (S (length s - length filter)) else None.

Definition space : ascii := " ".
Definition tab : ascii := "009".
Definition space_tab : chars := [space; tab].

(** ** UTF-8 *)
Definition byte_char (b : Z) : ascii := ascii_of_N (Z.to_N b).

Definition from_utf32 (utf32 : Z) : outcome chars :=
  if utf32 <? 128 then Ret [byte_char (Z.land utf32 127)]
  else if utf32 <=? 2047 then
    let utf8_chunk := Z.lor (Z.lor 49280 (Z.shiftl (Z.land utf32 1984) 2)) (Z.land utf32 63) in
    Ret [byte_char (Z.shiftr (Z.land utf8_chunk 65280) 8); byte_char (Z.land utf8_chunk 255)]
  else if utf32 <=? 65535 then
    let utf8_chunk := Z.lor (Z.lor (Z.lor 14712960 (Z.shiftl (Z.land utf32 61440) 4))
                              (Z.shiftl (Z.land utf32 4032) 2)) (Z.land utf32 63) in
    Ret [byte_char (Z.shiftr (Z.land utf8_chunk 16711680) 16);
         byte_char (Z.shiftr (Z.land utf8_chunk 65280) 8); byte_char (Z.land utf8_chunk 255)]
  else if utf32 <=? 1114111 then
    let utf8_chunk := Z.lor (Z.lor (Z.lor (Z.lor 4034953344 (Z.shiftl (Z.land utf32 1835008) 6))
                              (Z.shiftl (Z.land utf32 258048) 4)) (Z.shiftl (Z.land utf32 4032) 2))
                              (Z.land utf32 63) in
    Ret [byte_char (Z.shiftr (Z.land utf8_chunk 4278190080) 24);
         byte_char (Z.shiftr (Z.land utf8_chunk 16711680) 16);
         byte_char (Z.shiftr (Z.land utf8_chunk 65280) 8); byte_char (Z.land utf8_chunk 255)]
  else Throw YamlEncodingError.

(** ** Escapes *)

(** [begin] is at the letter, [s] what follows it. The test for enough room asks
    for less than is read; what is then read past the token is its closing quote,
    which is no digit. *)
Fixpoint read_hex (n : nat) (s : chars) (codepoint : Z) : option (Z * chars) :=
  match n with
  | O => Some (codepoint, s)
  | S i =>
      match s with
      | [] => None
      | c :: s =>
          match hex_digit c with
          | Some byte => read_hex i s (Z.lor codepoint (Z.shiftl byte (4 * Z.of_nat i)))
          | None => None
          end
      end
  end.
Definition extract_codepoint (s : chars) (bytes_to_read : nat) : option (Z * chars) :=
  if (S (length s) <? bytes_to_read - 1)%nat then None
  else read_hex (bytes_to_read * 2) s 0.

Definition unescape_hex (bytes_to_read : nat) (s : chars) : outcome (option (chars * chars)) :=
  match extract_codepoint s bytes_to_read with
  | Some (codepoint, s) => text ← from_utf32 codepoint; Ret (Some (text, s))
  | None => Ret None
  end.

(** [s] is what follows the backslash; the text and the rest, or not valid. *)
Definition unescape (s : chars) : outcome (option (chars * chars)) :=
  let one (b : Z) (s : chars) := Ret (Some ([byte_char b], s)) in
  let unicode (u : Z) (s : chars) := text ← from_utf32 u; Ret (Some (text, s)) in
  match s with
  | [] => Undef
  | c :: s =>
      if Ascii.eqb c "a" then one 7 s
      else if Ascii.eqb c "b" then one 8 s
      else if Ascii.eqb c "t" || Ascii.eqb c tab then one 9 s
      else if Ascii.eqb c "n" then one 10 s
      else if Ascii.eqb c "v" then one 11 s
      else if Ascii.eqb c "f" then one 12 s
      else if Ascii.eqb c "r" then one 13 s
      else if Ascii.eqb c "e" then one 27 s
      else if Ascii.eqb c space then one 32 s
      else if Ascii.eqb c "034" then one 34 s
      else if Ascii.eqb c "/" then one 47 s
      else if Ascii.eqb c "\" then one 92 s
      else if Ascii.eqb c "N" then unicode 133 s
      else if Ascii.eqb c "_" then unicode 160 s
      else if Ascii.eqb c "L" then unicode 8232 s
      else if Ascii.eqb c "P" then unicode 8233 s
      else if Ascii.eqb c "x" then unescape_hex 1 s
      else if Ascii.eqb c "u" then unescape_hex 2 s
      else if Ascii.eqb c "U" then unescape_hex 4 s
      else Ret None
  end.

(** One character, if it needs an escape of its own. *)
Definition escape_char (c : ascii) : option string :=
  let n := code c in
  if n =? 7 then Some "\a" else if n =? 8 then Some "\b" else if n =? 9 then Some "\t"
  else if n =? 10 then Some "\n" else if n =? 11 then Some "\v" else if n =? 12 then Some "\f"
  else if n =? 13 then Some "\r" else if n =? 27 then Some "\e"
  else if n =? 34 then Some (String "\" (String "034" "")) else if n =? 92 then Some "\\"
  else if (1 <=? n) && (n <=? 31) then
    let hex (d : Z) := if d <? 10 then byte_char (48 + d) else byte_char (55 + d) in
    Some ("\u00" +:+ String (hex (n / 16)) (String (hex (n mod 16)) ""))
  else None.

(** The text and whether anything was escaped. The characters NEL, NBSP, LS and
    PS are recognised by their UTF-8 bytes. *)
Fixpoint escape (s : chars) : chars * bool :=
  match s with
  | [] => ([], false)
  | c :: s1 =>
      match escape_char c with
      | Some e => (bytes_of e ++ (escape s1).1, true)
      | None =>
          let plain := (c :: (escape s1).1, (escape s1).2) in
          match s1 with
          | [] => plain
          | c2 :: s2 =>
              if (code c =? 194) && (code c2 =? 133) then (bytes_of "\N" ++ (escape s2).1, true)
              else if (code c =? 194) && (code c2 =? 160) then (bytes_of "\_" ++ (escape s2).1, true)
              else
                match s2 with
                | [] => plain
                | c3 :: s3 =>
                    if (code c =? 226) && (code c2 =? 128) && (code c3 =? 168)
                    then (bytes_of "\L" ++ (escape s3).1, true)
                    else if (code c =? 226) && (code c2 =? 128) && (code c3 =? 169)
                    then (bytes_of "\P" ++ (escape s3).1, true)
                    else plain
                end
          end
      end
  end.

(** ** Flow scalars

    The loops take what is left of the token and what is in the buffer; each
    round takes something off the token, so that its length is enough fuel. *)

(** Empty lines: how many, and what follows them. *)
Fixpoint skip_empty_lines (fuel : nat) (token : chars) (empty_line_counts : nat) : chars * nat :=
  match fuel with
  | O => (token, empty_line_counts)
  | S fuel =>
      match find_first_not_of space_tab token with
      | None => ([], empty_line_counts)
      | Some non_space_pos =>
          if bool_decide (token !! non_space_pos = Some newline)
          then skip_empty_lines fuel (drop (S non_space_pos) token) (S empty_line_counts)
          else (drop non_space_pos token, empty_line_counts)
      end
  end.

Definition process_line_folding (token : chars) (newline_pos : nat) (buffer : chars) : chars * chars :=
  let kept :=
    match find_last_not_of space_tab (take (S newline_pos) token) with
    | None => take newline_pos token
    | Some last_non_space_pos => take (S last_non_space_pos) token
    end in
  let token := drop (S newline_pos) token in
  let '(token, empty_line_counts) := skip_empty_lines (S (length token)) token 0 in
  (token, buffer ++ kept ++
    if (0 <? empty_line_counts)%nat then replicate empty_line_counts newline else [space]).

Definition quote : ascii := "'".

Fixpoint single_quoted_loop (fuel : nat) (token buffer : chars) : chars :=
  match fuel with
  | O => buffer ++ token
  | S fuel =>
      match find_first_of [quote; newline] token with
      | None => buffer ++ token
      | Some pos =>
          if bool_decide (token !! pos = Some quote)
          then single_quoted_loop fuel (drop (pos + 2) token) (buffer ++ take (S pos) token)
          else let '(token, buffer) := process_line_folding token pos buffer in
               single_quoted_loop fuel token buffer
      end
  end.
Definition parse_single_quoted_scalar (token : chars) : chars :=
  single_quoted_loop (length token) token [].

Definition backslash : ascii := "\".

Fixpoint double_quoted_loop (fuel : nat) (token buffer : chars) : outcome chars :=
  match fuel with
  | O => Ret (buffer ++ token)
  | S fuel =>
      match find_first_of [backslash; newline] token with
      | None => Ret (buffer ++ token)
      | Some pos =>
          if bool_decide (token !! pos = Some backslash) then
            let buffer := buffer ++ take pos token in
            if bool_decide (token !! S pos = Some newline) then
              let rest := drop (pos + 2) token in
              let non_space_pos := default (length rest) (find_first_not_of space_tab rest) in
              double_quoted_loop fuel (drop non_space_pos rest) buffer
            else
              valid ← unescape (drop (S pos) token);
              match valid with
              | None => Throw YamlParseError
              | Some (text, token) => double_quoted_loop fuel token (buffer ++ text)
              end
          else let '(token, buffer) := process_line_folding token pos buffer in
               double_quoted_loop fuel token buffer
      end
  end.
Definition parse_double_quoted_scalar (token : chars) : outcome chars :=
  double_quoted_loop (length token) token [].

(** ** Block scalars *)

(** The current line, and what follows its line break, if it has one. *)
Fixpoint cut_line (token : chars) : chars * option chars :=
  match token with
  | [] => ([], None)
  | c :: token =>
      if Ascii.eqb c newline then ([], Some token)
      else let '(line, rest) := cut_line token in (c :: line, rest)
  end.

Definition last_not_newline (buffer : chars) : option nat := last_not_of [newline] buffer (length buffer).

Definition process_chomping (chomp : chomping_indicator_t) (buffer : chars) : chars :=
  match chomp with
  | STRIP =>
      match last_not_newline buffer with
      | None => []
      | Some content_end_pos => take (content_end_pos + 1) buffer
      end
  | CLIP =>
      match last_not_newline buffer with
      | None => []
      | Some content_end_pos =>
          if bool_decide (content_end_pos = (length buffer - 1)%nat) then buffer
          else take (content_end_pos + 2) buffer
      end
  | KEEP => buffer
  end.

Fixpoint literal_loop (fuel : nat) (indent : nat) (token buffer : chars) : chars :=
  match fuel with
  | O => buffer
  | S fuel =>
      let '(line, rest) := cut_line token in
      let buffer := buffer ++ (if (indent <? length line)%nat then drop indent line else []) in
      match rest with
      | None => buffer
      | Some rest =>
          let buffer := buffer ++ [newline] in
          match rest with [] => buffer | _ => literal_loop fuel indent rest buffer end
      end
  end.
Definition parse_block_literal_scalar (token : chars) (header : block_scalar_header) : chars :=
  match token with
  | [] => []
  | _ => process_chomping (chomp header) (literal_loop (length token) (indent header) token [])
  end.

(** One line of a folded block: the buffer, and whether the line may be folded
    with the next one. *)
Definition folded_line (indent : nat) (line : chars) (has_newline_at_end can_be_folded : bool) (buffer : chars)
  : chars * bool :=
  if (length line <=? indent)%nat then (buffer ++ [newline], false)
  else
    let is_more_indented :=
      match find_first (fun c => negb (Ascii.eqb c space)) line with
      | Some non_space_pos => (indent <? non_space_pos)%nat
      | None => false
      end in
    let buffer := if can_be_folded then buffer ++ [if is_more_indented then newline else space] else buffer in
    let buffer := buffer ++ drop indent line in
    if is_more_indented && has_newline_at_end then (buffer ++ [newline], false)
    else (buffer, true).

Fixpoint folded_loop (fuel : nat) (indent : nat) (token buffer : chars) (can_be_folded : bool) : chars :=
  match fuel with
  | O => buffer
  | S fuel =>
      let '(line, rest) := cut_line token in
      let '(buffer, can_be_folded) :=
        folded_line indent line (match rest with Some _ => true | None => false end) can_be_folded buffer in
      match rest with
      | None => buffer
      | Some [] => if can_be_folded then buffer ++ [newline] else buffer
      | Some rest => folded_loop fuel indent rest buffer can_be_folded
      end
  end.
Definition parse_block_folded_scalar (token : chars) (header : block_scalar_header) : chars :=
  match token with
  | [] => []
  | _ => process_chomping (chomp header) (folded_loop (length token) (indent header) token [] false)
  end.

(** ** Nodes *)
Section nodes.
(** The conversion of a decimal text to a [double], by [std::from_chars] or
    [std::stod]: its bits, when the whole text is a number it can hold. *)
Context (from_chars : chars -> option Z).

Definition infinity_bits : Z := Z.shiftl 2047 52.
Definition minus_infinity_bits : Z := Z.lor (Z.shiftl 1 63) infinity_bits.
Definition nan_bits : Z := Z.lor infinity_bits (Z.shiftl 1 51).

Definition atof (s : chars) : option Z :=
  match s with
  | [] => None
  | c :: rest =>
      if Ascii.eqb c "-" || Ascii.eqb c "+" then
        if bool_decide (length s = 5%nat) && any_word [".inf"; ".Inf"; ".INF"] rest
        then Some (if Ascii.eqb c "-" then minus_infinity_bits else infinity_bits)
        else from_chars (if Ascii.eqb c "+" then rest else s)
      else if bool_decide (length s = 4%nat) && any_word [".inf"; ".Inf"; ".INF"] s then Some infinity_bits
      else if bool_decide (length s = 4%nat) && any_word [".nan"; ".NaN"; ".NAN"] s then Some nan_bits
      else from_chars s
  end.

Definition decide_value_type (lex_type : lexical_token_t) (tag_type : tag_t) (token : chars) : node_type :=
  let value_type := match lex_type with PLAIN_SCALAR => scan token | _ => STRING end in
  match tag_type with
  | NULL_VALUE => NULL_OBJECT
  | TAG_BOOLEAN => BOOLEAN
  | TAG_INTEGER => INTEGER
  | FLOATING_NUMBER => FLOAT
  | TAG_STRING | NON_SPECIFIC => STRING
  | _ => value_type
  end.

Definition create_scalar_node (type : node_type) (token : chars) : outcome Yaml.node :=
  match type with
  | NULL_OBJECT => if aton token then Ret Yaml.Null else Throw YamlParseError
  | BOOLEAN => match atob token with Some b => Ret (Yaml.Bool b) | None => Throw YamlParseError end
  | INTEGER => match atoi token with Some i => Ret (Yaml.Int i) | None => Throw YamlParseError end
  | FLOAT => match atof token with Some f => Ret (Yaml.Float f) | None => Throw YamlParseError end
  | STRING => Ret (Yaml.Str (of_bytes token))
  | SEQUENCE | MAPPING => Undef
  end.

Definition parse_flow_scalar_token (lex_type : lexical_token_t) (token : chars) : outcome chars :=
  match lex_type with
  | SINGLE_QUOTED_SCALAR => Ret (parse_single_quoted_scalar token)
  | DOUBLE_QUOTED_SCALAR => parse_double_quoted_scalar token
  | _ => Ret token
  end.

Definition parse_flow (lex_type : lexical_token_t) (tag_type : tag_t) (token : chars) : outcome Yaml.node :=
  token ← parse_flow_scalar_token lex_type token;
  create_scalar_node (decide_value_type lex_type tag_type token) token.

Definition parse_block (lex_type : lexical_token_t) (tag_type : tag_t) (token : chars) (header : block_scalar_header)
  : outcome Yaml.node :=
  let token :=
    match lex_type with
    | BLOCK_LITERAL_SCALAR => parse_block_literal_scalar token header
    | _ => parse_block_folded_scalar token header
    end in
  create_scalar_node (decide_value_type lex_type tag_type token) token.
End nodes.

Example folding :
  let text := bytes_of "a  " ++ [newline] ++ bytes_of "  b" ++ [newline; newline] ++ bytes_of "c" in
  parse_single_quoted_scalar text = bytes_of "a b" ++ [newline] ++ bytes_of "c" /\
  parse_double_quoted_scalar text = Ret (bytes_of "a b" ++ [newline] ++ bytes_of "c").
Proof. vm_compute. split; reflexivity. Qed.

Example blocks :
  let text := bytes_of "  ab" ++ [newline] ++ bytes_of "  c" ++ [newline] ++ bytes_of "   d" ++ [newline; newline] in
  parse_block_literal_scalar text (BlockHeader CLIP 2)
  = bytes_of "ab" ++ [newline] ++ bytes_of "c" ++ [newline] ++ bytes_of " d" ++ [newline] /\
  parse_block_folded_scalar text (BlockHeader STRIP 2) = bytes_of "ab c" ++ [newline] ++ bytes_of " d".
Proof. vm_compute. split; reflexivity. Qed.

(** ** Lemmas *)

(** *** Single quotes *)

(** How a text without line breaks is written in single quotes. *)
Definition in_single_quotes (s : chars) : chars :=
  concat ((fun c => if Ascii.eqb c quote then [quote; quote] else [c]) <$> s).

Lemma find_first_cons p c s :
  find_first p (c :: s) = if p c then Some 0%nat else S <$> find_first p s.
Proof.
  unfold find_first. cbn. destruct (p c) eqn:Hc; [by rewrite decide_True|].
  rewrite decide_False by congruence. by destruct (list_find _ s) as [[]|].
Qed.

Lemma one_of_false filter c : c ∉ filter -> one_of filter c = false.
Proof.
  intros Hc. unfold one_of. apply not_true_iff_false. intros (a & Ha & Hca)%existsb_exists.
  apply Ascii.eqb_eq in Hca as ->. apply Hc. by apply list_elem_of_In.
Qed.

(** A character that is not looked for only moves to the buffer, as long as no
    line is folded. *)
Lemma single_quoted_plain fuel c t buffer :
  c <> quote -> c <> newline -> newline ∉ t ->
  single_quoted_loop fuel (c :: t) buffer = single_quoted_loop fuel t (buffer ++ [c]).
Proof.
  intros Hq Hn Ht. destruct fuel as [|fuel]; cbn [single_quoted_loop]; [by rewrite <- app_assoc|].
  unfold find_first_of. rewrite find_first_cons, one_of_false by set_solver.
  destruct (find_first _ t) as [pos|] eqn:Hpos; cbn [fmap option_fmap option_map]; [|by rewrite <- app_assoc].
  cbn [lookup list_lookup take drop]. change ((S pos + 2)%nat) with (S (pos + 2)). cbn [drop].
  destruct (bool_decide _) eqn:Hb; [by rewrite <- app_assoc|].
  exfalso. unfold find_first in Hpos. destruct (list_find _ t) as [[i x]|] eqn:Hf; [|done].
  apply list_find_Some in Hf as (Hx & Hone & _). injection Hpos as <-.
  apply bool_decide_eq_false in Hb. cbn in Hone. unfold one_of in Hone. cbn in Hone.
  destruct (Ascii.eqb_spec x quote) as [->|_]; [done|].
  destruct (Ascii.eqb_spec x newline) as [->|_]; [|done]. apply Ht. by eapply list_elem_of_lookup_2.
Qed.

Lemma no_newline_quoted s : newline ∉ s -> newline ∉ in_single_quotes s.
Proof.
  unfold in_single_quotes. induction s as [|c s IH]; [done|]. intros [Hc Hs]%not_elem_of_cons. cbn.
  apply not_elem_of_app. split; [|by apply IH].
  destruct (Ascii.eqb c quote); [|set_solver]. by apply (bool_decide_unpack _).
Qed.

Lemma single_quoted_back s fuel buffer :
  newline ∉ s -> (length (in_single_quotes s) <= fuel)%nat ->
  single_quoted_loop fuel (in_single_quotes s) buffer = buffer ++ s.
Proof.
  revert fuel buffer. induction s as [|c s IH]; intros fuel buffer Hs Hf.
  { destruct fuel; by cbn; rewrite app_nil_r. }
  apply not_elem_of_cons in Hs as [Hc Hs]. pose proof (no_newline_quoted s Hs) as Hn.
  unfold in_single_quotes in *. cbn [fmap list_fmap concat] in *.
  destruct (Ascii.eqb_spec c quote) as [->|Hq].
  - cbn [app] in *. destruct fuel as [|fuel]; [cbn in Hf; lia|]. cbn [single_quoted_loop].
    unfold find_first_of. rewrite find_first_cons. cbn [one_of existsb Ascii.eqb].
    change (Ascii.eqb quote quote || _) with true. cbv iota.
    rewrite bool_decide_eq_true_2 by done. cbn [drop take]. rewrite IH; [by rewrite <- app_assoc|done|cbn in Hf; lia].
  - cbn [app] in *. rewrite single_quoted_plain by done. rewrite IH; [by rewrite <- app_assoc|done|cbn in Hf; lia].
Qed.

(** *** Double quotes *)
Lemma double_quoted_plain fuel c t buffer :
  c <> backslash -> c <> newline -> newline ∉ t ->
  double_quoted_loop fuel (c :: t) buffer = double_quoted_loop fuel t (buffer ++ [c]).
Proof.
  intros Hq Hn Ht. destruct fuel as [|fuel]; cbn [double_quoted_loop]; [by rewrite <- app_assoc|].
  unfold find_first_of. rewrite find_first_cons, one_of_false by set_solver.
  destruct (find_first _ t) as [pos|] eqn:Hpos; cbn [fmap option_fmap option_map]; [|by rewrite <- app_assoc].
  cbn [lookup list_lookup take drop]. change ((S pos + 2)%nat) with (S (pos + 2)). cbn [drop].
  destruct (bool_decide (t !! pos = Some backslash)) eqn:Hb; [by rewrite <- !app_assoc|].
  exfalso. unfold find_first in Hpos. destruct (list_find _ t) as [[i x]|] eqn:Hf; [|done].
  apply list_find_Some in Hf as (Hx & Hone & _). injection Hpos as <-.
  apply bool_decide_eq_false in Hb. cbn in Hone. unfold one_of in Hone. cbn in Hone.
  destruct (Ascii.eqb_spec x backslash) as [->|_]; [done|].
  destruct (Ascii.eqb_spec x newline) as [->|_]; [|done]. apply Ht. by eapply list_elem_of_lookup_2.
Qed.

(** A backslash, a character, and no more of what could end or continue it; no
    control characters. *)
Definition escape_shape (e : chars) : bool :=
  match e with
  | _ :: x :: r =>
      (31 <? code x) && forallb (fun c => (31 <? code c) && negb (Ascii.eqb c backslash) && negb (Ascii.eqb c "034")) r
  | _ => false
  end.

(** An escape sequence that is read back as a text. *)
Definition reads_as (e text : chars) : Prop :=
  exists r, e = backslash :: r /\ (forall t, unescape (r ++ t) = Ret (Some (text, t))) /\ head r <> Some newline /\
    newline ∉ e /\ escape_shape e = true.

Lemma double_quoted_escape fuel e text t buffer :
  reads_as e text -> double_quoted_loop (S fuel) (e ++ t) buffer = double_quoted_loop fuel t (buffer ++ text).
Proof.
  intros (r & -> & Hr & Hh & _ & _). cbn [app double_quoted_loop]. unfold find_first_of. rewrite find_first_cons.
  change (one_of [backslash; newline] backslash) with true. cbv iota. cbn [lookup list_lookup drop take].
  rewrite bool_decide_eq_true_2 by done.
  destruct r as [|c r]; [by specialize (Hr [])|]. cbn [app]. rewrite bool_decide_eq_false_2.
  - specialize (Hr t). cbn [app] in Hr. rewrite ?drop_0, Hr. cbn [mbind outcome_bind]. by rewrite app_nil_r.
  - cbn. intros [= ->]. by apply Hh.
Qed.

(** The escape of one character, for all of them. *)
Definition escape_ok (c : ascii) : bool :=
  match escape_char c with
  | Some e =>
      match bytes_of e with
      | b :: r :: _ => Ascii.eqb b backslash && negb (Ascii.eqb r newline) && escape_shape (bytes_of e) &&
                       forallb (fun x => negb (Ascii.eqb x newline)) (bytes_of e)
      | _ => false
      end
  | None => negb (Ascii.eqb c backslash) && negb (Ascii.eqb c newline)
  end.
Lemma escape_char_ok c : escape_ok c = true.
Proof. by destruct c as [[] [] [] [] [] [] [] []]. Qed.

Lemma unescape_escape_char c t :
  match escape_char c with
  | Some e => unescape (tail (bytes_of e) ++ t) = Ret (Some ([c], t))
  | None => True
  end.
Proof. destruct c as [[] [] [] [] [] [] [] []]; first [exact I|vm_compute; reflexivity]. Qed.

Lemma escape_char_reads c e : escape_char c = Some e -> reads_as (bytes_of e) [c].
Proof.
  intros He. pose proof (escape_char_ok c) as Hok. unfold escape_ok in Hok. rewrite He in Hok.
  destruct (bytes_of e) as [|b [|r l]] eqn:Hb; [done..|].
  apply andb_true_iff in Hok as [[[Hbs Hnl]%andb_true_iff Hshape]%andb_true_iff Hall].
  apply Ascii.eqb_eq in Hbs as ->. exists (r :: l). split; [done|]. split; [|split; [|split; [|done]]].
  - intros t. pose proof (unescape_escape_char c t) as Hu. rewrite He, Hb in Hu. exact Hu.
  - cbn. intros [= ->]. done.
  - intros Hin. rewrite forallb_forall in Hall. apply list_elem_of_In in Hin. by specialize (Hall _ Hin).
Qed.
Lemma escape_char_plain c : escape_char c = None -> c <> backslash /\ c <> newline.
Proof.
  intros He. pose proof (escape_char_ok c) as Hok. unfold escape_ok in Hok. rewrite He in Hok.
  apply andb_true_iff in Hok as [H1 H2]. split; by intros ->.
Qed.

(** The four characters that are recognised by their bytes. *)
Lemma wide_escapes :
  reads_as (bytes_of "\N") [byte_char 194; byte_char 133] /\ reads_as (bytes_of "\_") [byte_char 194; byte_char 160] /\
  reads_as (bytes_of "\L") [byte_char 226; byte_char 128; byte_char 168] /\
  reads_as (bytes_of "\P") [byte_char 226; byte_char 128; byte_char 169].
Proof.
  split_and!; eexists; (split; [reflexivity|]); (split; [intros t; vm_compute; reflexivity|]);
    (split; [by vm_compute|split; [apply (bool_decide_unpack _); vm_compute; exact I|reflexivity]]).
Qed.

Lemma code_char c n : code c = n -> c = byte_char n.
Proof. intros <-. unfold code, byte_char. by rewrite N2Z.id, ascii_N_embedding. Qed.

(** One step of [escape]: a character as it is, or an escape of one or more. *)
Lemma escape_step c s :
  (escape_char c = None /\ c <> backslash /\ c <> newline /\ (escape (c :: s)).1 = c :: (escape s).1) \/
  (exists e text s', c :: s = text ++ s' /\ reads_as e text /\ (escape (c :: s)).1 = e ++ (escape s').1 /\
     text <> []).
Proof.
  destruct (escape_char c) as [e|] eqn:He.
  { right. exists (bytes_of e), [c], s. split_and!; [done|by apply escape_char_reads| |done]. cbn [escape]. by rewrite He. }
  destruct (escape_char_plain c He) as [Hb Hn]. destruct wide_escapes as (HN & Hu & HL & HP).
  cbn [escape]. rewrite He. destruct s as [|c2 s2]; [by left|].
  destruct ((code c =? 194) && (code c2 =? 133)) eqn:E1.
  { apply andb_true_iff in E1 as [?%Z.eqb_eq%code_char ?%Z.eqb_eq%code_char]. subst. right.
    exists (bytes_of "\N"), [byte_char 194; byte_char 133], s2. split; [done|split; [exact HN|by split]]. }
  destruct ((code c =? 194) && (code c2 =? 160)) eqn:E2.
  { apply andb_true_iff in E2 as [?%Z.eqb_eq%code_char ?%Z.eqb_eq%code_char]. subst. right.
    exists (bytes_of "\_"), [byte_char 194; byte_char 160], s2. split; [done|split; [exact Hu|by split]]. }
  destruct s2 as [|c3 s3]; [by left|].
  destruct ((code c =? 226) && (code c2 =? 128) && (code c3 =? 168)) eqn:E3.
  { apply andb_true_iff in E3 as [[?%Z.eqb_eq%code_char ?%Z.eqb_eq%code_char]%andb_true_iff ?%Z.eqb_eq%code_char].
    subst. right. exists (bytes_of "\L"), [byte_char 226; byte_char 128; byte_char 168], s3. split; [done|split; [exact HL|by split]]. }
  destruct ((code c =? 226) && (code c2 =? 128) && (code c3 =? 169)) eqn:E4; [|by left].
  apply andb_true_iff in E4 as [[?%Z.eqb_eq%code_char ?%Z.eqb_eq%code_char]%andb_true_iff ?%Z.eqb_eq%code_char].
  subst. right. exists (bytes_of "\P"), [byte_char 226; byte_char 128; byte_char 169], s3.
  split; [done|split; [exact HP|by split]].
Qed.

Lemma no_newline_escaped n s : (length s <= n)%nat -> newline ∉ (escape s).1.
Proof.
  revert s. induction n as [|n IH]; intros [|c s] Hl; cbn in Hl; try lia; [by apply not_elem_of_nil..|].
  destruct (escape_step c s) as [(_ & Hb & Hn & ->)|(e & text & s' & Hs & (r & _ & _ & _ & He & _) & -> & Hne)].
  - apply not_elem_of_cons. split; [congruence|]. apply IH. lia.
  - apply not_elem_of_app. split; [exact He|]. apply IH.
    apply (f_equal length) in Hs. rewrite length_app in Hs. destruct text; [done|cbn in Hs; lia].
Qed.

Lemma double_quoted_back n s fuel buffer :
  (length s <= n)%nat -> (length (escape s).1 <= fuel)%nat ->
  double_quoted_loop fuel (escape s).1 buffer = Ret (buffer ++ s).
Proof.
  revert s fuel buffer. induction n as [|n IH]; intros [|c s] fuel buffer Hl Hf; cbn [length] in Hl; try lia;
    try (destruct fuel; by cbn; rewrite app_nil_r).
  destruct (escape_step c s) as [(_ & Hb & Hn & Heq)|(e & text & s' & Hs & He & Heq & Hne)]; rewrite Heq in *.
  - rewrite double_quoted_plain by (done || by apply (no_newline_escaped n); lia).
    cbn [length] in Hf. rewrite IH by lia. by rewrite <- app_assoc.
  - rewrite length_app in Hf. pose proof (f_equal length Hs) as Hlen. rewrite length_app in Hlen. cbn [length] in Hlen.
    assert (length e <> 0%nat /\ length text <> 0%nat) as [He0 Ht0].
    { destruct He as (r & -> & _). split; [done|by destruct text]. }
    destruct fuel as [|fuel]; [lia|]. rewrite double_quoted_escape with (text := text) by done.
    rewrite IH by lia. by rewrite <- app_assoc, <- Hs.
Qed.

(** The value of a content in single quotes. *)
Lemma single_quoted_flow from_chars s :
  newline ∉ s ->
  parse_flow from_chars SINGLE_QUOTED_SCALAR TAG_NONE (in_single_quotes s) = Ret (Yaml.Str (of_bytes s)).
Proof.
  intros Hs. unfold parse_flow, parse_flow_scalar_token, parse_single_quoted_scalar.
  by rewrite single_quoted_back.
Qed.

Lemma in_single_quotes_plain s : quote ∉ s -> in_single_quotes s = s.
Proof.
  unfold in_single_quotes. induction s as [|c s IH]; [done|]. intros [Hc Hs]%not_elem_of_cons. cbn.
  rewrite (proj2 (Ascii.eqb_neq _ _)) by congruence. cbn. f_equal. by apply IH.
Qed.

(** ** Properties *)

(** C33: the value of a quoted scalar whose token has been cut out. The content
    between double quotes, written with the library's own escapes, gives back the
    text, whatever its bytes; so does the content between single quotes, with the
    quotes doubled, when the text has no line break. In both cases the node is a
    string, also when the text looks like a number. This says nothing about the
    cutting: which texts the lexer closes at the right quote is
    [YamlLex.double_quoted_token], and it refuses control characters. *)
Theorem quoted_roundtrip from_chars s :
  parse_flow from_chars DOUBLE_QUOTED_SCALAR TAG_NONE (escape s).1 = Ret (Yaml.Str (of_bytes s)) /\
  (newline ∉ s ->
   parse_flow from_chars SINGLE_QUOTED_SCALAR TAG_NONE (in_single_quotes s) = Ret (Yaml.Str (of_bytes s))).
Proof.
  split; [|apply single_quoted_flow]. unfold parse_flow, parse_flow_scalar_token, parse_double_quoted_scalar.
  rewrite (double_quoted_back (length s)) by done. done.
Qed.

Lemma quoted_roundtrip_witness :
  let s := bytes_of "it's 1e5" in
  newline ∉ s /\ in_single_quotes s = bytes_of "it''s 1e5" /\
  parse_flow (fun _ => None) SINGLE_QUOTED_SCALAR TAG_NONE (in_single_quotes s) = Ret (Yaml.Str "it's 1e5").
Proof.
  intros s. assert (newline ∉ s) as Hs by (apply (bool_decide_unpack _); vm_compute; exact I).
  split; [exact Hs|]. split; [reflexivity|]. exact (proj2 (quoted_roundtrip (fun _ => None) s) Hs).
Defined.
