(* ===== verification/YamlPlain.v ===== *)
(** * YamlPlain: how the plain scalars of a ping list and of an address store
    read.

    The schedulers take addresses and GIDs as strings, LIDs and queue pair
    numbers as integers. The YAML library decides by the text alone: here, when
    it decides as they expect. *)
From S2P Require Import Prelude Text CxxString Common RdmaGid Yaml YamlScan YamlConv YamlParse.
From Stdlib Require Import Ascii.
From Stdlib Require String.
Local Open Scope Z_scope.

Definition plain (from_chars : chars -> option Z) : chars -> outcome Yaml.node :=
  parse_flow from_chars PLAIN_SCALAR TAG_NONE.

Lemma plain_string from_chars s : scan s = STRING -> plain from_chars s = Ret (Yaml.Str (of_bytes s)).
Proof. intros Hs. unfold plain, parse_flow. cbn. by rewrite Hs. Qed.
Lemma plain_integer from_chars s i : scan s = INTEGER -> atoi s = Some i -> plain from_chars s = Ret (Yaml.Int i).
Proof.
  intros Hs Hi. unfold plain, parse_flow. cbn [parse_flow_scalar_token mbind outcome_bind decide_value_type].
  rewrite Hs. cbn [create_scalar_node]. by rewrite Hi.
Qed.

(** ** Two points make a string *)
Definition points (s : chars) : nat := length (filter (fun c => c = "."%char) s).

Lemma points_app s t : points (s ++ t) = (points s + points t)%nat.
Proof. unfold points. by rewrite filter_app, length_app. Qed.
Lemma points_none s : Forall (fun c => c <> "."%char) s -> points s = 0%nat.
Proof.
  unfold points. induction s as [|c s IH]; [done|]. intros [Hc Hs]%list.Forall_cons.
  rewrite filter_cons_False by done. by apply IH.
Qed.

(** Characters of one kind that are no points. *)
Lemma kind_no_points (p : ascii -> bool) s : p "."%char = false -> Forall (fun c => p c = true) s -> points s = 0%nat.
Proof. intros Hp Hs. apply points_none. apply (list.Forall_impl _ _ _ Hs). intros c Hc ->. congruence. Qed.
Lemma digits_points s : digits s -> points s = 0%nat.
Proof. by apply kind_no_points. Qed.
Lemma sign_points s : sign_text s -> points s = 0%nat.
Proof. by intros [-> | [-> | ->]]. Qed.
Lemma exponent_points s : exponent s -> points s = 0%nat.
Proof.
  intros (e & sign & ds & -> & He & Hs & Hd & _). change (e :: sign ++ ds) with ([e] ++ sign ++ ds).
  rewrite !points_app, (sign_points sign Hs), (digits_points ds Hd), !Nat.add_0_r.
  apply (kind_no_points is_exponent); [done|by constructor].
Qed.
Lemma fraction_points s : fraction s -> points s = 1%nat.
Proof.
  intros (ds & x & -> & Hd & Hx). change ("."%char :: ds ++ x) with (["."%char] ++ ds ++ x).
  rewrite !points_app, (digits_points ds Hd). destruct Hx as [->|Hx]; [done|by rewrite (exponent_points x Hx)].
Qed.

Lemma integer_points s : integer_text s -> points s = 0%nat.
Proof.
  intros [(sign & ds & -> & Hs & Hd & _)|[(ds & -> & _ & Hd)|(ds & -> & _ & Hd)]].
  - by rewrite points_app, (sign_points sign Hs), (digits_points ds Hd).
  - change (points (["0"; "o"]%char ++ ds) = 0%nat). rewrite points_app. by apply (kind_no_points (between "0" "7")).
  - change (points (["0"; "x"]%char ++ ds) = 0%nat). rewrite points_app. by apply (kind_no_points is_xdigit).
Qed.
Lemma float_points s : float_number s -> (points s <= 1)%nat.
Proof.
  intros (sign & ds & t & -> & Hs & Hd & Ht & _). rewrite !points_app, (sign_points sign Hs), (digits_points ds Hd).
  destruct Ht as [Ht|Ht]; [rewrite (fraction_points t Ht)|rewrite (exponent_points t Ht)]; lia.
Qed.
Lemma words_points ws s : forallb (fun w => (points (bytes_of w) <=? 1)%nat) ws = true ->
  (2 <= points s)%nat -> any_word ws s = false.
Proof.
  intros Hws Hs. apply not_true_iff_false. intros (w & Hw & Hws')%existsb_exists.
  apply bool_decide_eq_true in Hws' as ->. rewrite forallb_forall in Hws. specialize (Hws w Hw).
  apply Nat.leb_le in Hws. lia.
Qed.

Lemma scan_two_points s : (2 <= points s)%nat -> scan s = STRING.
Proof.
  intros Hs. apply scan_number_string; try (by apply words_points).
  - intros H%integer_points. lia.
  - intros H%float_points. lia.
Qed.

(** ** Decimal numbers *)
Lemma dec_go_app fuel n acc : dec_go fuel n acc = dec_go fuel n "" +:+ acc.
Proof.
  revert n acc. induction fuel as [|fuel IH]; intros n acc; [done|]. cbn [dec_go].
  destruct (n <? 10); [done|]. rewrite IH, (IH _ (String _ "")). by rewrite string_app_assoc.
Qed.

Lemma digit_ascii d : 0 <= d < 10 -> is_digit (digit d) = true /\ digit_value (digit d) = d /\ (digit d = "0"%char <-> d = 0).
Proof.
  intros Hd. assert (d = 0 \/ d = 1 \/ d = 2 \/ d = 3 \/ d = 4 \/ d = 5 \/ d = 6 \/ d = 7 \/ d = 8 \/ d = 9) as Hc by lia.
  repeat destruct Hc as [->|Hc]; [by split_and!..|subst; by split_and!].
Qed.

Lemma bytes_of_app a b : bytes_of (a +:+ b) = bytes_of a ++ bytes_of b.
Proof. induction a as [|c a IH]; [done|]. change (c :: bytes_of (a +:+ b) = c :: (bytes_of a ++ bytes_of b)). by rewrite IH. Qed.

Lemma dec_go_S fuel n acc :
  dec_go (S fuel) n acc =
  if n <? 10 then String (digit (n mod 10)) acc else dec_go fuel (n / 10) (String (digit (n mod 10)) acc).
Proof. done. Qed.

(** The text of a number: its digits, without a leading zero. *)
Lemma dec_string_text n : 0 <= n ->
  let s := bytes_of (dec_string n) in
  digits s /\ s <> [] /\ (n <> 0 -> head s <> Some "0"%char) /\ (n = 0 -> s = ["0"%char]) /\ radix_value 10 s = n.
Proof.
  intros Hn. unfold dec_string. pose proof (dec_fuel_enough n Hn) as Hf. revert Hf. unfold dec_fuel.
  generalize (Z.to_nat (Z.log2 n)) as fuel. intros fuel. revert n Hn. induction fuel as [|fuel IH]; intros n Hn Hf.
  all: rewrite dec_go_S; pose proof (Z.mod_pos_bound n 10 ltac:(lia)) as Hm;
    destruct (digit_ascii (n mod 10) Hm) as (Hd & Hv & H0); destruct (Z.ltb_spec n 10) as [Hlt|Hge]; try lia.
  1, 2: rewrite Z.mod_small in * by lia; change (bytes_of (String (digit n) "")) with [digit n]; cbv zeta;
    (split_and!; [by constructor|done|cbn; intros Hne [= H]; by apply H0 in H|by intros ->|]);
    unfold radix_value; cbn [foldl]; lia.
  - rewrite dec_go_app, bytes_of_app. change (bytes_of (String ?c "")) with [c].
    destruct (IH (n / 10)) as (H1 & H2 & H3 & H4 & H5); [apply Z.div_pos; lia| |].
    { rewrite Nat2Z.inj_succ, Z.pow_succ_r in Hf by lia. split; [apply Z.div_pos; lia|].
      apply Z.div_lt_upper_bound; lia. }
    assert (n / 10 <> 0) by (pose proof (Z.div_le_mono 10 n 10); rewrite Z.div_same in *; lia).
    cbv zeta. split_and!.
    + apply list.Forall_app. split; [done|by constructor].
    + intros Hnil. by apply app_nil in Hnil as [_ ?].
    + intros _. destruct (bytes_of _); [done|]. cbn. by apply H3.
    + lia.
    + unfold radix_value in *. rewrite foldl_app, H5. cbn [foldl]. rewrite Hv.
      pose proof (Z.div_mod n 10). lia.
Qed.

(** A number without a leading zero has no more digits than its value needs. *)
Lemma digits_length s k :
  digits s -> head s <> Some "0"%char -> radix_value 10 s < 10 ^ Z.of_nat k -> (length s <= k)%nat.
Proof.
  intros Hs Hh Hv. destruct s as [|c s]; [cbn; lia|].
  pose proof (digits_kind _ Hs) as Hk. apply list.Forall_cons in Hk as [[_ Hc] Hk].
  pose proof (radix_value_range 10 dec_digit s ltac:(lia) Hk) as Hr. rewrite radix_value_cons in Hv.
  apply digits_cons in Hs as [Hd _].
  assert (digit_value c <> 0) as Hne.
  { intros H0. apply Hh. cbn. f_equal.
    pose proof (forall_ascii (fun c => negb (is_digit c && (digit_value c =? 0)) || Ascii.eqb c "0") eq_refl c) as H.
    cbn beta in H. rewrite Hd, H0 in H. cbn in H. by apply Ascii.eqb_eq. }
  cbn [length]. destruct (decide (k <= length s)%nat) as [Hle|]; [|lia]. exfalso.
  assert (10 ^ Z.of_nat k <= 10 ^ Z.of_nat (length s)) by (apply Z.pow_le_mono_r; lia). nia.
Qed.

Lemma plain_decimal from_chars n : 0 <= n < 2 ^ 63 -> plain from_chars (bytes_of (dec_string n)) = Ret (Yaml.Int n).
Proof.
  intros Hn. destruct (dec_string_text n ltac:(lia)) as (Hd & Hne & Hh & H0 & Hv). set (s := bytes_of _) in *.
  assert (no_leading_zero [] s) as Hz.
  { intros _. destruct (decide (n = 0)); [left; by apply H0|right; by apply Hh]. }
  apply plain_integer.
  - apply scan_integer. left. exists [], s. split_and!; [done|by left|done|done|done].
  - change s with ([] ++ s). rewrite atoi_decimal; [|by left|done|done|done].
    cbn [signed]. rewrite Hv, (proj2 (Z.leb_le _ _)), (proj2 (Z.ltb_lt _ _)), !andb_true_r by lia.
    rewrite (proj2 (Nat.leb_le _ _)); [done|]. unfold max_chars_dec. destruct (decide (n = 0)) as [->|Hnz].
    + rewrite H0 by done. cbn. lia.
    + apply digits_length; [done|by apply Hh|]. rewrite Hv. change (10 ^ Z.of_nat 19) with 10000000000000000000. lia.
Qed.

(** ** Addresses *)
Lemma dec_string_points n : 0 <= n -> points (bytes_of (dec_string n)) = 0%nat.
Proof. intros Hn. by apply digits_points, dec_string_text. Qed.

Lemma ntop_points a b c d : Forall is_byte [a; b; c; d] -> points (bytes_of (inet_ntop4 [a; b; c; d])) = 3%nat.
Proof.
  intros Hall. repeat (apply list.Forall_cons in Hall as [? Hall]). unfold is_byte in *.
  unfold inet_ntop4. cbn [join_dot]. rewrite !bytes_of_app, !points_app, !dec_string_points by lia. done.
Qed.

(** ** GIDs *)

(** A letter other than [e] in a text of hexadecimal digits. *)
Definition other_letter (c : ascii) : bool := is_xdigit c && negb (is_digit c) && negb (is_exponent c).

Lemma kind_ascii (p q : ascii -> bool) c :
  forallb (fun n => negb (p (ascii_of_nat n)) || q (ascii_of_nat n)) (seq 0 256) = true -> p c = true -> q c = true.
Proof.
  intros H Hp. pose proof (forall_ascii (fun c => negb (p c) || q c) H c) as Hc. cbn beta in Hc. by rewrite Hp in Hc.
Qed.

(** Hexadecimal digits are neither signs, points nor the marks of octal and
    hexadecimal. *)
Definition no_mark (c : ascii) : bool :=
  negb (one_of ["+"; "-"; "."; "o"; "x"; "~"; "n"; "N"; "t"; "T"; "u"; "r"; "l"; "s"; "L"; "S"]%char c).
Lemma xdigit_no_mark c : is_xdigit c = true -> no_mark c = true.
Proof. apply kind_ascii. vm_compute. reflexivity. Qed.

Lemma hex_integer s : Forall (fun c => is_xdigit c = true) s -> integer_text s -> digits s.
Proof.
  intros Hs [(sign & ds & -> & Hsign & Hd & _)|[(ds & -> & _)|(ds & -> & _)]].
  - apply list.Forall_app in Hs as [Hs _]. destruct Hsign as [-> | [-> | ->]]; [done|by inversion Hs..].
  - apply list.Forall_cons in Hs as [_ Hs]. by inversion Hs.
  - apply list.Forall_cons in Hs as [_ Hs]. by inversion Hs.
Qed.
Lemma hex_float s : Forall (fun c => is_xdigit c = true) s -> float_number s ->
  exists ds e ds', s = ds ++ e :: ds' /\ digits ds /\ is_exponent e = true /\ digits ds' /\ ds <> [] /\ ds' <> [] /\
    no_leading_zero [] ds.
Proof.
  intros Hs (sign & ds & t & -> & Hsign & Hd & Ht & Hz & Hn).
  apply list.Forall_app in Hs as [Hs1 Hs]. apply list.Forall_app in Hs as [_ Hs].
  destruct Hsign as [-> | [-> | ->]]; [|by inversion Hs1..].
  destruct Ht as [(ds' & x & -> & _)|(e & sign & ds' & -> & He & Hsign & Hd' & Hne)]; [by inversion Hs|].
  apply list.Forall_cons in Hs as [_ Hs]. apply list.Forall_app in Hs as [Hs _].
  destruct Hsign as [-> | [-> | ->]]; [|by inversion Hs..].
  exists ds, e, ds'. split_and!; [done|done|done|done| |done|done].
  intros ->. destruct (Hn eq_refl) as [[=]|[(? & ? & [= -> _] & _) _]]. done.
Qed.
Lemma hex_words ws s : forallb (fun w => existsb (fun c => negb (is_xdigit c)) (bytes_of w)) ws = true ->
  Forall (fun c => is_xdigit c = true) s -> any_word ws s = false.
Proof.
  intros Hws Hs. apply not_true_iff_false. intros (w & Hw & Hws')%existsb_exists.
  apply bool_decide_eq_true in Hws' as ->. rewrite forallb_forall in Hws. specialize (Hws w Hw).
  apply existsb_exists in Hws as (c & Hc & Hx). rewrite list.Forall_forall in Hs.
  apply list_elem_of_In, Hs in Hc. by rewrite Hc in Hx.
Qed.

(** A text of hexadecimal digits that looks like a number: digits only, or
    digits, one [e], digits; without a leading zero. *)
Definition numeric (g : chars) : Prop :=
  (digits g /\ no_leading_zero [] g) \/
  (exists ds e ds', g = ds ++ e :: ds' /\ digits ds /\ is_exponent e = true /\ digits ds' /\
     ds <> [] /\ ds' <> [] /\ no_leading_zero [] ds).

Lemma hex_scan g : Forall (fun c => is_xdigit c = true) g -> g <> [] ->
  (numeric g -> scan g = INTEGER \/ scan g = FLOAT) /\ (~ numeric g -> scan g = STRING).
Proof.
  intros Hg Hne. split.
  - intros [[Hd Hz]|(ds & e & ds' & -> & Hd & He & Hd' & Hn & Hn' & Hz)].
    + left. apply scan_integer. left. exists [], g. split_and!; [done|by left|done|done|done].
    + right. apply scan_float. exists [], ds, (e :: ds'). split_and!; [done|by left|done| |done|done].
      right. exists e, [], ds'. split_and!; [done|done|by left|done|done].
  - intros Hnum. apply scan_number_string; try (by apply hex_words).
    + intros Hi. apply Hnum. left. split; [by apply hex_integer|].
      destruct Hi as [(sign & ds & -> & [-> | [-> | ->]] & Hd & Hnd & Hz)|[(ds & -> & _)|(ds & -> & _)]]; [done| | | |];
        repeat (apply list.Forall_cons in Hg as [? Hg]); by cbn in *.
    + intros Hf. apply Hnum. right. by apply hex_float.
Qed.

(** The wire form of a GID that maps an IPv4 address. *)
Definition mapped_gid (a b c d : Z) : list Z := replicate 10 0 ++ [255; 255; a; b; c; d].

Lemma hex_digits_xdigit n v : Forall (fun c => is_xdigit c = true) (hex_digits n v).
Proof.
  revert v. induction n as [|n IH]; intros v; [constructor|]. cbn [hex_digits].
  apply list.Forall_app. split; [apply IH|]. constructor; [|constructor].
  pose proof (Z.mod_pos_bound v 16 ltac:(lia)) as Hm. revert Hm. generalize (v mod 16) as x. intros x Hx.
  apply (forall_range (fun x => is_xdigit (RdmaGid.hex_digit x) = true) 0 16); [|lia].
  apply (bool_decide_unpack _). vm_compute. exact I.
Qed.
Lemma wire_gid_xdigit gid : Forall (fun c => is_xdigit c = true) (gid_to_wire_gid gid).
Proof.
  unfold gid_to_wire_gid. generalize (seq 0 4). intros l. induction l as [|i l IH]; [constructor|].
  change (mjoin (?f <$> i :: l)) with (f i ++ mjoin (f <$> l)). apply list.Forall_app. split; [|exact IH].
  apply hex_digits_xdigit.
Qed.

Lemma wire_gid_nonempty gid : gid_to_wire_gid gid <> [].
Proof.
  unfold gid_to_wire_gid. cbn [seq fmap list_fmap mjoin list_join]. unfold hex8 at 1. cbn [hex_digits].
  intros H. apply app_nil in H as [H _]. by apply app_nil in H as [_ H].
Qed.

Lemma mapped_gid_wire a b c d :
  exists rest, gid_to_wire_gid (mapped_gid a b c d) = bytes_of "00000000000000000000ffff" ++ rest.
Proof.
  unfold gid_to_wire_gid, mapped_gid. eexists (hex8 (bswap32 (le_val [a; b; c; d])) ++ []).
  reflexivity.
Qed.

Lemma numeric_no_letter g c : c ∈ g -> other_letter c = true -> ~ numeric g.
Proof.
  unfold other_letter. intros Hc Hl. apply andb_true_iff in Hl as [[_ Hd]%andb_true_iff He].
  apply negb_true_iff in Hd, He.
  assert (forall ds, digits ds -> c ∉ ds) as Hnd.
  { intros ds Hds Hin. unfold digits in Hds. rewrite list.Forall_forall in Hds. specialize (Hds _ Hin). congruence. }
  intros [[H _]|(ds & e & ds' & -> & H1 & H2 & H3 & _)]; [by apply (Hnd g)|].
  apply elem_of_app in Hc as [Hc|Hc]; [by apply (Hnd ds)|].
  apply elem_of_cons in Hc as [->|Hc]; [congruence|by apply (Hnd ds')].
Qed.

(** ** Properties *)

(** C26: how the scalars of a ping list and of an address store read when they are
    not quoted. The text of an IPv4 address reads as that string; the decimal
    text of a number below 2^63, such as a LID or a queue pair number, as that
    integer; the wire form of a GID as that string, unless it looks like a
    number, when it never reads as a string: digits only, or digits with one
    letter e between them, and no leading zero. The GID of an IPv4-mapped
    address never looks like a number. *)
Theorem pinglist_scalars from_chars :
  (forall a b c d, Forall is_byte [a; b; c; d] ->
     plain from_chars (bytes_of (inet_ntop4 [a; b; c; d])) = Ret (Yaml.Str (inet_ntop4 [a; b; c; d]))) /\
  (forall n, 0 <= n < 2 ^ 63 -> plain from_chars (bytes_of (dec_string n)) = Ret (Yaml.Int n)) /\
  (forall gid, let g := gid_to_wire_gid gid in
     (~ numeric g -> plain from_chars g = Ret (Yaml.Str (of_bytes g))) /\
     (numeric g -> forall s, plain from_chars g <> Ret (Yaml.Str s))) /\
  (forall a b c d, ~ numeric (gid_to_wire_gid (mapped_gid a b c d))).
Proof.
  split_and!.
  - intros a b c d Hall. rewrite plain_string; [by rewrite String.string_of_list_ascii_of_string|].
    apply scan_two_points. rewrite ntop_points by done. lia.
  - intros n Hn. by apply plain_decimal.
  - intros gid g. destruct (hex_scan g (wire_gid_xdigit gid) (wire_gid_nonempty gid)) as [Hnum Hstr]. split.
    + intros H. by apply plain_string, Hstr.
    + intros H s. unfold plain, parse_flow. cbn [parse_flow_scalar_token mbind outcome_bind decide_value_type].
      destruct (Hnum H) as [-> | ->]; cbn [create_scalar_node]; by case_match.
  - intros a b c d. destruct (mapped_gid_wire a b c d) as [rest Hr]. apply (numeric_no_letter _ "f"%char); [|done].
    rewrite Hr. apply elem_of_app. left. apply (bool_decide_unpack _). vm_compute. exact I.
Qed.

(** A GID whose wire form is the digits of a number with an exponent. *)
Definition numeric_gid : list Z := [18; 52; 86; 120; 144; 18; 52; 86; 120; 144; 18; 52; 86; 120; 158; 18].

Lemma pinglist_scalars_witness :
  plain (fun _ => Some 0) (bytes_of "10.0.0.1") = Ret (Yaml.Str "10.0.0.1") /\
  plain (fun _ => Some 0) (bytes_of "1234") = Ret (Yaml.Int 1234) /\
  gid_to_wire_gid numeric_gid = bytes_of "12345678901234567890123456789e12" /\
  forall s, plain (fun _ => Some 0) (gid_to_wire_gid numeric_gid) <> Ret (Yaml.Str s).
Proof.
  destruct (pinglist_scalars (fun _ => Some 0)) as (Hip & Hdec & Hgid & _). split_and!.
  - apply (Hip 10 0 0 1). repeat constructor; lia.
  - apply (Hdec 1234). lia.
  - reflexivity.
  - apply (Hgid numeric_gid). right.
    exists (bytes_of "12345678901234567890123456789"), "e"%char, (bytes_of "12").
    split_and!; try discriminate; try reflexivity; try (by apply all_digits_spec). intros _. right. discriminate.
Defined.
