(* ===== verification/YamlInput.v ===== *)
(** * YamlInput: from the bytes of a file to the text that is parsed
    (libs/fkyaml: [stream_utf_encode_detector], [stream_input_adapter],
    the namespace [utf8]).

    The schedulers hand an [std::ifstream] to the library. Its encoding is
    guessed from the first bytes, then it is read in chunks, converted to UTF-8,
    and the carriage returns are left out. A file is the list of its bytes. *)
From S2P Require Import Prelude Text CxxString Yaml YamlScan YamlConv YamlParse.
From Stdlib Require Import Ascii.
From Stdlib Require String.
Local Open Scope Z_scope.

(** ** UTF-8 *)
Definition in_range (a b x : Z) : bool := (a <=? x) && (x <=? b).

Definition get_num_bytes (first_byte : Z) : outcome nat :=
  if first_byte <? 128 then Ret 1%nat
  else if Z.land first_byte 224 =? 192 then Ret 2%nat
  else if Z.land first_byte 240 =? 224 then Ret 3%nat
  else if Z.land first_byte 248 =? 240 then Ret 4%nat
  else Throw YamlEncodingError.

Definition validate (byte_array : list Z) : bool :=
  match byte_array with
  | [first] => first <=? 127
  | [first; second] => in_range 194 223 first && in_range 128 191 second
  | [first; second; third] =>
      if in_range 224 236 first then in_range 128 191 second && in_range 128 191 third
      else if first =? 237 then in_range 128 159 second && in_range 128 191 third
      else if (first =? 238) || (first =? 239) then in_range 128 191 second && in_range 128 191 third
      else false
  | [first; second; third; fourth] =>
      if first =? 240 then in_range 144 191 second && in_range 128 191 third && in_range 128 191 fourth
      else if in_range 241 243 first then in_range 128 191 second && in_range 128 191 third && in_range 128 191 fourth
      else if first =? 244 then in_range 128 143 second && in_range 128 191 third && in_range 128 191 fourth
      else false
  | _ => false
  end.

Definition checked (byte_array : list ascii) (rest : outcome unit) : outcome unit :=
  if validate (code <$> byte_array) then rest else Throw YamlEncodingError.

(** The loop over the buffer. A character that the end cuts off is completed by
    the terminator of the buffer, and by what lies behind it. *)
Fixpoint check_utf8 (s : chars) : outcome unit :=
  match s with
  | [] => Ret tt
  | first :: s =>
      num_bytes ← get_num_bytes (code first);
      match num_bytes with
      | 2%nat =>
          match s with
          | c2 :: s => checked [first; c2] (check_utf8 s)
          | [] => checked [first; NUL] Undef
          end
      | 3%nat =>
          match s with
          | c2 :: c3 :: s => checked [first; c2; c3] (check_utf8 s)
          | [c2] => checked [first; c2; NUL] Undef
          | [] => Undef
          end
      | 4%nat =>
          match s with
          | c2 :: c3 :: c4 :: s => checked [first; c2; c3; c4] (check_utf8 s)
          | [c2; c3] => checked [first; c2; c3; NUL] Undef
          | _ => Undef
          end
      | _ => check_utf8 s
      end
  end.

(** Two UTF-16 units to UTF-8: how many were used, and the bytes. *)
Definition from_utf16 (u0 u1 : Z) : outcome (nat * chars) :=
  if u0 <? 128 then Ret (1%nat, [byte_char (Z.land u0 127)])
  else if u0 <=? 2047 then
    let utf8_chunk := Z.lor (Z.lor 49280 (Z.shiftl (Z.land u0 1984) 2)) (Z.land u0 63) in
    Ret (1%nat, [byte_char (Z.shiftr (Z.land utf8_chunk 65280) 8); byte_char (Z.land utf8_chunk 255)])
  else if (u0 <? 55296) || (57344 <=? u0) then
    let utf8_chunk := Z.lor (Z.lor (Z.lor 14712960 (Z.shiftl (Z.land u0 61440) 4))
                              (Z.shiftl (Z.land u0 4032) 2)) (Z.land u0 63) in
    Ret (1%nat, [byte_char (Z.shiftr (Z.land utf8_chunk 16711680) 16);
                 byte_char (Z.shiftr (Z.land utf8_chunk 65280) 8); byte_char (Z.land utf8_chunk 255)])
  else if (u0 <=? 56319) && (56320 <=? u1) && (u1 <=? 57343) then
    let code_point := 65536 + Z.shiftl (Z.land u0 1023) 10 + Z.land u1 1023 in
    let utf8_chunk := u32 (Z.lor (Z.lor (Z.lor (Z.lor 4034953344 (Z.shiftl (Z.land code_point 1835008) 6))
                              (Z.shiftl (Z.land code_point 258048) 4)) (Z.shiftl (Z.land code_point 4032) 2))
                              (Z.land code_point 63)) in
    Ret (2%nat, [byte_char (Z.shiftr (Z.land utf8_chunk 4278190080) 24);
                 byte_char (Z.shiftr (Z.land utf8_chunk 16711680) 16);
                 byte_char (Z.shiftr (Z.land utf8_chunk 65280) 8); byte_char (Z.land utf8_chunk 255)])
  else Throw YamlEncodingError.

(** ** The encoding *)
Inductive utf_encode_t := UTF_8 | UTF_16BE | UTF_16LE | UTF_32BE | UTF_32LE.

(** The encoding, and whether a byte order mark tells it. *)
Definition detect_encoding_type (byte0 byte1 byte2 byte3 : Z) : utf_encode_t * bool :=
  let ascii_byte (b : Z) := (0 <? b) && (b <? 128) in
  if (byte0 =? 239) && (byte1 =? 187) && (byte2 =? 191) then (UTF_8, true)
  else if (byte0 =? 0) && (byte1 =? 0) && (byte2 =? 254) && (byte3 =? 255) then (UTF_32BE, true)
  else if (byte0 =? 255) && (byte1 =? 254) && (byte2 =? 0) && (byte3 =? 0) then (UTF_32LE, true)
  else if (byte0 =? 254) && (byte1 =? 255) then (UTF_16BE, true)
  else if (byte0 =? 255) && (byte1 =? 254) then (UTF_16LE, true)
  else if (byte0 =? 0) && (byte1 =? 0) && (byte2 =? 0) && ascii_byte byte3 then (UTF_32BE, false)
  else if ascii_byte byte0 && (byte1 =? 0) && (byte2 =? 0) && (byte3 =? 0) then (UTF_32LE, false)
  else if (byte0 =? 0) && ascii_byte byte1 then (UTF_16BE, false)
  else if ascii_byte byte0 && (byte1 =? 0) then (UTF_16LE, false)
  else (UTF_8, false).

(** [stream_utf_encode_detector]: the encoding, and where reading begins. Bytes
    that the file does not have count as 255. *)
Definition stream_detect (file : chars) : utf_encode_t * nat :=
  let byte (i : nat) := match file !! i with Some c => code c | None => 255 end in
  let '(encode_type, has_bom) := detect_encoding_type (byte 0%nat) (byte 1%nat) (byte 2%nat) (byte 3%nat) in
  let offset :=
    if has_bom then
      match encode_type with
      | UTF_8 => 3
      | UTF_16BE | UTF_16LE => 2
      | UTF_32BE | UTF_32LE => 4
      end%nat
    else 0%nat in
  (encode_type, offset).

(** ** [stream_input_adapter] *)
Definition CR : ascii := "013".

(** The pieces between the carriage returns of a chunk. *)
Fixpoint without_cr (chunk : chars) : chars :=
  match chunk with
  | [] => []
  | c :: chunk => if Ascii.eqb c CR then without_cr chunk else c :: without_cr chunk
  end.

(** A read of 256 bytes that comes short has met the end of the file. *)
Fixpoint read_chunks (fuel : nat) (file m_buffer : chars) : chars :=
  match fuel with
  | O => m_buffer
  | S fuel =>
      let chunk := take 256 file in
      let m_buffer := m_buffer ++ without_cr chunk in
      if (length chunk <? 256)%nat then m_buffer else read_chunks fuel (drop 256 file) m_buffer
  end.

Definition get_buffer_view_utf8 (file : chars) : outcome chars :=
  let m_buffer := read_chunks (S (length file)) file [] in
  check_utf8 m_buffer;;
  Ret m_buffer.

(** [encoded_buffer] and [encoded_buf_size]: two units and how many of them are
    new. *)
Definition unit16 (be : bool) (c0 c1 : ascii) : Z :=
  if be then Z.lor (Z.shiftl (code c0) 8) (code c1) else Z.lor (code c0) (Z.shiftl (code c1) 8).

Fixpoint fill_utf16 (be : bool) (fuel : nat) (file : chars) (u0 u1 encoded_buf_size : Z) : chars * (Z * Z * Z) * bool :=
  match fuel with
  | O => (file, (u0, u1, encoded_buf_size), true)
  | S fuel =>
      if encoded_buf_size <? 2 then
        match file with
        | c0 :: c1 :: file =>
            let utf16 := unit16 be c0 c1 in
            if utf16 =? 13 then fill_utf16 be fuel file u0 u1 encoded_buf_size
            else if encoded_buf_size =? 0 then fill_utf16 be fuel file utf16 u1 1
            else fill_utf16 be fuel file u0 utf16 2
        | _ => ([], (u0, u1, encoded_buf_size), true)
        end
      else (file, (u0, u1, encoded_buf_size), false)
  end.

Fixpoint utf16_loop (be : bool) (fuel : nat) (file : chars) (u0 u1 encoded_buf_size : Z) (m_buffer : chars)
  : outcome chars :=
  match fuel with
  | O => Ret m_buffer
  | S fuel =>
      let '(file, (u0, u1, encoded_buf_size), eof) := fill_utf16 be (S (length file)) file u0 u1 encoded_buf_size in
      '(consumed_size, utf8) ← from_utf16 u0 u1;
      let u0 := if (consumed_size =? 1)%nat then u1 else u0 in
      let encoded_buf_size := u32 (encoded_buf_size - Z.of_nat consumed_size) in
      let m_buffer := m_buffer ++ utf8 in
      if (eof : bool) then Ret m_buffer else utf16_loop be fuel file u0 u1 encoded_buf_size m_buffer
  end.

Definition get_buffer_view_utf16 (be : bool) (file : chars) : outcome chars :=
  utf16_loop be (S (S (length file))) file 0 0 0 [].

Definition unit32 (be : bool) (c0 c1 c2 c3 : ascii) : Z :=
  let shift (c : ascii) (n : Z) := u32 (Z.shiftl (code c) n) in
  if be then Z.lor (Z.lor (Z.lor (shift c0 24) (shift c1 16)) (shift c2 8)) (shift c3 0)
  else Z.lor (Z.lor (Z.lor (shift c0 0) (shift c1 8)) (shift c2 16)) (shift c3 24).

Fixpoint get_buffer_view_utf32 (be : bool) (file : chars) : outcome chars :=
  match file with
  | c0 :: c1 :: c2 :: c3 :: file =>
      let utf32 := unit32 be c0 c1 c2 c3 in
      if utf32 =? 13 then get_buffer_view_utf32 be file
      else utf8 ← from_utf32 utf32; rest ← get_buffer_view_utf32 be file; Ret (utf8 ++ rest)
  | _ => Ret []
  end.

(** [input_adapter(std::istream&)], then [get_buffer_view]; a file is [None] when
    it could not be opened. *)
Definition get_buffer_view (stream : option chars) : outcome chars :=
  match stream with
  | None => Throw YamlError
  | Some file =>
      let '(encode_type, offset) := stream_detect file in
      let file := drop offset file in
      match encode_type with
      | UTF_8 => get_buffer_view_utf8 file
      | UTF_16BE => get_buffer_view_utf16 true file
      | UTF_16LE => get_buffer_view_utf16 false file
      | UTF_32BE => get_buffer_view_utf32 true file
      | UTF_32LE => get_buffer_view_utf32 false file
      end
  end.

(** ** What a text becomes *)
Lemma without_cr_app a b : without_cr (a ++ b) = without_cr a ++ without_cr b.
Proof. induction a as [|c a IH]; [done|]. cbn. destruct (Ascii.eqb c CR); [done|]. cbn. by rewrite IH. Qed.

Lemma read_chunks_all fuel file m_buffer :
  (length file < fuel)%nat -> read_chunks fuel file m_buffer = m_buffer ++ without_cr file.
Proof.
  revert file m_buffer. induction fuel as [|fuel IH]; intros file m_buffer Hf; [lia|]. cbn [read_chunks].
  rewrite length_take. destruct (Nat.ltb_spec (Nat.min 256 (length file)) 256) as [Hs|Hl].
  - by rewrite take_ge by lia.
  - rewrite IH by (rewrite length_drop; lia). rewrite <- app_assoc, <- without_cr_app. by rewrite take_drop.
Qed.

(** ASCII, without the terminator. *)
Definition plain_ascii (c : ascii) : Prop := 0 < code c < 128.

Lemma ascii_char c : plain_ascii c -> byte_char (Z.land (code c) 127) = c.
Proof.
  intros Hc. pose proof (forall_ascii (fun c => negb (in_range 1 127 (code c)) ||
    Ascii.eqb (byte_char (Z.land (code c) 127)) c) eq_refl c) as H. cbn beta in H.
  unfold plain_ascii, in_range in *. replace ((1 <=? code c) && (code c <=? 127)) with true in H by (symmetry; lia).
  by apply Ascii.eqb_eq.
Qed.
Lemma code_cr c : code c = 13 <-> c = CR.
Proof. split; [|by intros ->]. intros H. by apply (code_char c 13). Qed.

Lemma ascii_checked s : Forall plain_ascii s -> check_utf8 s = Ret tt.
Proof.
  induction 1 as [|c s Hc Hs IH]; [done|]. cbn. unfold get_num_bytes. unfold plain_ascii in Hc.
  replace (code c <? 128) with true by lia. cbn. done.
Qed.

Lemma without_cr_Forall (P : ascii -> Prop) s : Forall P s -> Forall P (without_cr s).
Proof. induction 1 as [|c s Hc Hs IH]; [done|]. cbn. destruct (Ascii.eqb c CR); [done|by constructor]. Qed.

Lemma utf8_ascii file : Forall plain_ascii file -> get_buffer_view_utf8 file = Ret (without_cr file).
Proof.
  intros Hf. unfold get_buffer_view_utf8. rewrite read_chunks_all by lia. cbn [app].
  by rewrite ascii_checked by (by apply without_cr_Forall).
Qed.

(** An ASCII character in an encoding, and the mark of the encoding. *)
Definition encoded (e : utf_encode_t) (c : ascii) : chars :=
  match e with
  | UTF_8 => [c]
  | UTF_16BE => [NUL; c]
  | UTF_16LE => [c; NUL]
  | UTF_32BE => [NUL; NUL; NUL; c]
  | UTF_32LE => [c; NUL; NUL; NUL]
  end.
Definition byte_order_mark (e : utf_encode_t) : chars :=
  byte_char <$>
  match e with
  | UTF_8 => [239; 187; 191]
  | UTF_16BE => [254; 255]
  | UTF_16LE => [255; 254]
  | UTF_32BE => [0; 0; 254; 255]
  | UTF_32LE => [255; 254; 0; 0]
  end.
Definition file_of (e : utf_encode_t) (bom : bool) (text : chars) : chars :=
  (if bom then byte_order_mark e else []) ++ mjoin (encoded e <$> text).

Definition utf16_chars (be : bool) (text : chars) : chars :=
  mjoin (encoded (if be then UTF_16BE else UTF_16LE) <$> text).
Definition utf32_chars (be : bool) (text : chars) : chars :=
  mjoin (encoded (if be then UTF_32BE else UTF_32LE) <$> text).

Lemma unit16_ascii be c : unit16 be (if be then NUL else c) (if be then c else NUL) = code c.
Proof. destruct be; unfold unit16; change (code NUL) with 0; rewrite ?Z.shiftl_0_l, ?Z.lor_0_r; done. Qed.
Lemma utf16_chars_cons be c text :
  utf16_chars be (c :: text) = (if be then NUL else c) :: (if be then c else NUL) :: utf16_chars be text.
Proof. by destruct be. Qed.

(** Filling up with the first character that is not a carriage return. *)
Lemma fill_utf16_1 be text fuel u0 u1 :
  (length (utf16_chars be text) < fuel)%nat ->
  match without_cr text with
  | [] => fill_utf16 be fuel (utf16_chars be text) u0 u1 1 = ([], (u0, u1, 1), true)
  | c :: t => exists text', without_cr text' = t /\ (length (utf16_chars be text') < length (utf16_chars be text))%nat /\
      fill_utf16 be fuel (utf16_chars be text) u0 u1 1 = (utf16_chars be text', (u0, code c, 2), false)
  end.
Proof.
  revert fuel. induction text as [|c text IH]; intros fuel Hf; (destruct fuel as [|fuel]; [cbn in Hf; lia|]); [done|].
  cbn [without_cr]. rewrite utf16_chars_cons in *. cbn [length] in Hf. cbn [fill_utf16]. rewrite unit16_ascii. cbn [Z.ltb Z.eqb].
  destruct (Ascii.eqb_spec c CR) as [->|Hc].
  - specialize (IH fuel ltac:(lia)). change (code CR =? 13) with true. cbn iota.
    destruct (without_cr text) as [|c' t]; [done|]. destruct IH as (text' & H1 & H2 & H3).
    exists text'. cbn [length]. split_and!; [done|lia|done].
  - replace (code c =? 13) with false by (symmetry; apply Z.eqb_neq; by rewrite code_cr).
    exists text. cbn [length]. split_and!; [done|lia|]. destruct fuel as [|fuel]; [lia|done].
Qed.

Lemma fill_utf16_0 be text fuel u0 u1 c t :
  (length (utf16_chars be text) < fuel)%nat -> without_cr text = c :: t ->
  exists text' fuel', without_cr text' = t /\ (length (utf16_chars be text') < fuel')%nat /\
    (length (utf16_chars be text') < length (utf16_chars be text))%nat /\
    fill_utf16 be fuel (utf16_chars be text) u0 u1 0 = fill_utf16 be fuel' (utf16_chars be text') (code c) u1 1.
Proof.
  revert fuel. induction text as [|d text IH]; intros fuel Hf Ht; [done|].
  destruct fuel as [|fuel]; [lia|]. rewrite utf16_chars_cons in *. cbn [length] in Hf.
  cbn [fill_utf16]. rewrite unit16_ascii. cbn [Z.ltb Z.eqb]. cbn [without_cr] in Ht.
  destruct (Ascii.eqb_spec d CR) as [->|Hd].
  - change (code CR =? 13) with true. cbn iota. destruct (IH fuel ltac:(lia) Ht) as (text' & fuel' & H1 & H2 & H3 & H4).
    exists text', fuel'. cbn [length]. split_and!; [done|done|lia|done].
  - injection Ht as -> <-.
    replace (code c =? 13) with false by (symmetry; apply Z.eqb_neq; by rewrite code_cr).
    exists text, fuel. cbn [length]. split_and!; [done|lia|lia|done].
Qed.

Lemma from_utf16_ascii c u1 : plain_ascii c -> from_utf16 (code c) u1 = Ret (1%nat, [c]).
Proof.
  intros Hc. unfold from_utf16. rewrite ascii_char by done. unfold plain_ascii in Hc.
  by replace (code c <? 128) with true by lia.
Qed.

Lemma utf16_loop_S be fuel file u0 u1 encoded_buf_size m_buffer :
  utf16_loop be (S fuel) file u0 u1 encoded_buf_size m_buffer =
  (let '(file, (u0, u1, encoded_buf_size), eof) := fill_utf16 be (S (length file)) file u0 u1 encoded_buf_size in
   '(consumed_size, utf8) ← from_utf16 u0 u1;
   let u0 := if (consumed_size =? 1)%nat then u1 else u0 in
   let encoded_buf_size := u32 (encoded_buf_size - Z.of_nat consumed_size) in
   let m_buffer := m_buffer ++ utf8 in
   if (eof : bool) then Ret m_buffer else utf16_loop be fuel file u0 u1 encoded_buf_size m_buffer).
Proof. done. Qed.

(** The loop from where one unit is in hand after the filling has begun. *)
Lemma utf16_from be fuel file u0 u1 size fuel' text c v m_buffer :
  fill_utf16 be (S (length file)) file u0 u1 size = fill_utf16 be fuel' (utf16_chars be text) (code c) v 1 ->
  (length (utf16_chars be text) < fuel')%nat -> (length (utf16_chars be text) < S fuel)%nat ->
  plain_ascii c -> Forall plain_ascii (without_cr text) ->
  utf16_loop be (S fuel) file u0 u1 size m_buffer = Ret (m_buffer ++ c :: without_cr text).
Proof.
  revert file u0 u1 size fuel' text c v m_buffer.
  induction fuel as [|fuel IH]; intros file u0 u1 size fuel' text c v m_buffer Hfill Hf' Hf Hc Ht;
    rewrite utf16_loop_S, Hfill; pose proof (fill_utf16_1 be text fuel' (code c) v Hf') as H1;
    destruct (without_cr text) as [|c' t] eqn:Hw.
  1, 3: by rewrite H1, (from_utf16_ascii c).
  - destruct H1 as (text' & _ & Hl & _). destruct text; [done|]. rewrite utf16_chars_cons in Hf. cbn in Hf. lia.
  - destruct H1 as (text' & <- & Hl & ->). rewrite (from_utf16_ascii c) by done. cbn [mbind outcome_bind].
    apply list.Forall_cons in Ht as [Hc' Ht]. change (1 =? 1)%nat with true. cbn iota.
    change (u32 (2 - Z.of_nat 1)) with 1.
    rewrite (IH _ _ _ _ (S (length (utf16_chars be text'))) text' c' (code c')); [|done|lia|lia|done|done].
    by rewrite <- app_assoc.
Qed.

Lemma utf16_ascii be text :
  Forall plain_ascii text -> without_cr text <> [] ->
  get_buffer_view_utf16 be (utf16_chars be text) = Ret (without_cr text).
Proof.
  intros Ht Hne. unfold get_buffer_view_utf16. destruct (without_cr text) as [|c t] eqn:Hw; [done|].
  destruct (fill_utf16_0 be text (S (length (utf16_chars be text))) 0 0 c t) as (text' & fuel' & <- & H2 & H3 & H4);
    [lia|done|].
  pose proof (without_cr_Forall _ _ Ht) as Hwt. rewrite Hw in Hwt. apply list.Forall_cons in Hwt as [Hc Hwt].
  by rewrite (utf16_from _ _ _ _ _ _ _ _ _ _ _ H4 H2) by (done || lia).
Qed.

(** With nothing but carriage returns, the buffer is converted although no unit
    was read: it holds 0. *)
Lemma fill_utf16_blank be text fuel u0 u1 :
  (length (utf16_chars be text) < fuel)%nat -> without_cr text = [] ->
  fill_utf16 be fuel (utf16_chars be text) u0 u1 0 = ([], (u0, u1, 0), true).
Proof.
  revert fuel. induction text as [|d text IH]; intros fuel Hf Ht; (destruct fuel as [|fuel]; [cbn in Hf; lia|]); [done|].
  rewrite utf16_chars_cons in *. cbn [length] in Hf. cbn [fill_utf16]. rewrite unit16_ascii. cbn [Z.ltb Z.eqb].
  cbn [without_cr] in Ht. destruct (Ascii.eqb_spec d CR) as [->|Hd]; [|done].
  change (code CR =? 13) with true. cbn iota. apply IH; [lia|done].
Qed.

Lemma utf16_blank be text :
  without_cr text = [] -> get_buffer_view_utf16 be (utf16_chars be text) = Ret [NUL].
Proof.
  intros Ht. unfold get_buffer_view_utf16. rewrite utf16_loop_S, fill_utf16_blank by (done || lia). reflexivity.
Qed.

Lemma unit32_ascii be c :
  plain_ascii c ->
  unit32 be (if be then NUL else c) NUL NUL (if be then c else NUL) = code c.
Proof.
  intros Hc. unfold plain_ascii in Hc. unfold unit32. change (code NUL) with 0.
  destruct be; rewrite ?Z.shiftl_0_l, Z.shiftl_0_r; change (u32 0) with 0; rewrite ?Z.lor_0_r, ?Z.lor_0_l;
    apply u32_small; unfold is_u32; lia.
Qed.

Lemma utf32_ascii be text :
  Forall plain_ascii text -> get_buffer_view_utf32 be (utf32_chars be text) = Ret (without_cr text).
Proof.
  induction 1 as [|c text Hc Ht IH]; [done|].
  replace (utf32_chars be (c :: text)) with
    ((if be then NUL else c) :: NUL :: NUL :: (if be then c else NUL) :: utf32_chars be text) by (by destruct be).
  cbn [get_buffer_view_utf32 without_cr]. rewrite unit32_ascii by done.
  destruct (Ascii.eqb_spec c CR) as [->|Hne]; [done|].
  replace (code c =? 13) with false by (symmetry; apply Z.eqb_neq; by rewrite code_cr).
  rewrite IH. unfold from_utf32. rewrite ascii_char by done. unfold plain_ascii in Hc.
  by replace (code c <? 128) with true by lia.
Qed.

(** ** Which encoding is found *)
Ltac decide_eqb :=
  repeat match goal with
  | |- context [(?a =? ?b)%Z] =>
      first [replace (a =? b)%Z with false by (symmetry; apply Z.eqb_neq; lia)
            |replace (a =? b)%Z with true by (symmetry; apply Z.eqb_eq; lia)]
  | |- context [(?a <? ?b)%Z] =>
      first [replace (a <? b)%Z with false by (symmetry; apply Z.ltb_ge; lia)
            |replace (a <? b)%Z with true by (symmetry; apply Z.ltb_lt; lia)]
  end.

Lemma stream_detect_found e bom c text :
  Forall plain_ascii (c :: text) ->
  stream_detect (file_of e bom (c :: text)) = (e, length (if bom then byte_order_mark e else [])).
Proof.
  intros [Hc Ht]%list.Forall_cons. unfold plain_ascii in Hc.
  assert (match text with [] => True | d :: _ => plain_ascii d end) as Hd by (by destruct Ht).
  unfold stream_detect, detect_encoding_type.
  destruct e, bom, text as [|d text]; unfold plain_ascii in Hd;
    cbn [file_of mjoin list_join fmap list_fmap encoded byte_order_mark app lookup list_lookup length];
    change (code NUL) with 0;
    repeat match goal with |- context [code (byte_char ?n)] => change (code (byte_char n)) with n end;
    decide_eqb; cbn [andb]; try reflexivity;
    try (by destruct text as [|? [|? text]]).
Qed.

Lemma file_of_utf8 text : file_of UTF_8 false text = text.
Proof. unfold file_of. cbn [app]. induction text as [|c text IH]; [done|]. cbn. by f_equal. Qed.

(** A text in ASCII, as it is. *)
Lemma ascii_view text :
  text <> [] -> Forall plain_ascii text -> CR ∉ text -> get_buffer_view (Some text) = Ret text.
Proof.
  intros Hne Ht Hcr. unfold get_buffer_view. destruct text as [|c text]; [done|].
  rewrite <- (file_of_utf8 (c :: text)) at 1. rewrite stream_detect_found by done. cbn [length drop].
  rewrite utf8_ascii by done. f_equal. clear Ht Hne. generalize dependent (c :: text). intros s Hs.
  induction s as [|d s IH]; [done|]. apply not_elem_of_cons in Hs as [Hd Hs]. cbn.
  rewrite (proj2 (Ascii.eqb_neq _ _)) by done. by rewrite IH.
Qed.

Definition is_utf16 (e : utf_encode_t) : bool := match e with UTF_16BE | UTF_16LE => true | _ => false end.

(** What the parser gets of a text in a file. An empty file without a mark is
    one in UTF-8. *)
Definition read_as (e : utf_encode_t) (bom : bool) (text : chars) : chars :=
  if bool_decide (without_cr text = []) && is_utf16 e && (bom || bool_decide (text <> []))
  then [NUL] else without_cr text.

Lemma empty_view e bom : get_buffer_view (Some (file_of e bom [])) = Ret (read_as e bom []).
Proof. destruct e, bom; vm_compute; reflexivity. Qed.

Lemma utf16_view be text :
  Forall plain_ascii text -> text <> [] -> forall bom,
  get_buffer_view_utf16 be (utf16_chars be text) = Ret (read_as (if be then UTF_16BE else UTF_16LE) bom text).
Proof.
  intros Ht Hne bom. unfold read_as. replace (is_utf16 _) with true by (by destruct be).
  rewrite (bool_decide_eq_true_2 (text <> [])) by done. rewrite orb_true_r, !andb_true_r.
  case_bool_decide as Hw; [by apply utf16_blank|by apply utf16_ascii].
Qed.

Lemma read_as_other e bom text : is_utf16 e = false -> read_as e bom text = without_cr text.
Proof. intros He. unfold read_as. by rewrite He, andb_false_r. Qed.

(** C32: an ASCII text (without NULs) is read the same in each of the five
    encodings, with or without a byte order mark: what the parser gets is the
    text without its carriage returns. The one exception is a text that has
    nothing but carriage returns, or nothing at all, in a UTF-16 file that is
    not empty: the parser gets a NUL. *)
Theorem encodings_agree e bom text :
  Forall plain_ascii text ->
  get_buffer_view (Some (file_of e bom text)) = Ret (read_as e bom text) /\
  (without_cr text <> [] -> read_as e bom text = without_cr text).
Proof.
  intros Ht. split.
  2: { intros Hw. unfold read_as. by rewrite bool_decide_eq_false_2. }
  destruct text as [|c text]; [apply empty_view|]. unfold get_buffer_view.
  rewrite stream_detect_found by done. unfold file_of. rewrite drop_app_length.
  destruct e.
  - change (mjoin (encoded UTF_8 <$> c :: text)) with (file_of UTF_8 false (c :: text)). rewrite file_of_utf8.
    rewrite read_as_other by done. by apply utf8_ascii.
  - by apply (utf16_view true).
  - by apply (utf16_view false).
  - rewrite read_as_other by done. by apply (utf32_ascii true).
  - rewrite read_as_other by done. by apply (utf32_ascii false).
Qed.

Lemma encodings_agree_witness :
  get_buffer_view (Some (file_of UTF_16LE true (bytes_of "a:" ++ [CR; newline]))) = Ret (bytes_of "a:" ++ [newline]) /\
  get_buffer_view (Some (file_of UTF_16LE true [CR])) = Ret [NUL].
Proof.
  split.
  - destruct (encodings_agree UTF_16LE true (bytes_of "a:" ++ [CR; newline])) as [Hv Hr].
    + repeat (apply list.Forall_cons; split; [split; reflexivity|]). apply list.Forall_nil_2.
    + rewrite Hv. rewrite Hr by discriminate. reflexivity.
  - apply (encodings_agree UTF_16LE true [CR]).
    repeat (apply list.Forall_cons; split; [split; reflexivity|]). apply list.Forall_nil_2.
Defined.

(** Where it goes wrong: an overlong form of three bytes is taken for a
    character; a character that the end of the file cuts off is read past the end
    of the buffer; the last character of a UTF-16 file is doubled if it takes two
    units. *)
Example overlong_accepted : get_buffer_view (Some (byte_char <$> [224; 128; 128])) = Ret (byte_char <$> [224; 128; 128]).
Proof. vm_compute. reflexivity. Qed.
Example cut_off_reads_past_end : get_buffer_view (Some (byte_char <$> [97; 226])) = Undef.
Proof. vm_compute. reflexivity. Qed.
Example last_pair_doubled :
  get_buffer_view (Some (byte_char <$> [255; 254; 97; 0; 61; 216; 0; 222])) =
  Ret (byte_char <$> [97; 240; 159; 152; 128; 240; 159; 152; 128]).
Proof. vm_compute. reflexivity. Qed.
