(* ===== verification/YamlLex.v ===== *)
(** * YamlLex: a YAML text cut into tokens (libs/fkyaml: [lexical_analyzer],
    [position_tracker], [uri_encoding]).

    The analyzer walks over the buffer with an iterator. Here the buffer is
    split where the iterator is: [before] is what it has passed, the last
    character first, [rest] what is left. A [str_view] is its characters. One
    character past the end the buffer holds a terminator, which the code reads
    in some places; what it reads further is undefined. *)
From S2P Require Import Prelude Text CxxString Yaml YamlScan YamlConv YamlParse.
From Stdlib Require Import Ascii.
From Stdlib Require String.
Local Open Scope Z_scope.

(** ** [position_tracker] *)
Record position_tracker := PositionTracker {
  m_last : nat;             (* how many characters [m_last] has passed *)
  m_cur_pos : Z;
  m_cur_pos_in_line : Z;
  m_lines_read : Z
}.

(** From [p_current] back to the newline, or to the beginning of the buffer. *)
Fixpoint back_to_newline (before : chars) : Z :=
  match before with
  | [] | [_] => 0
  | c :: before => if Ascii.eqb c newline then 0 else 1 + back_to_newline before
  end.

Definition newlines (s : chars) : Z := Z.of_nat (length (filter (fun c => c = newline) s)).

Definition update_position (before : chars) (t : position_tracker) : position_tracker :=
  let p_current := length before in
  let diff := u32 (Z.of_nat p_current - Z.of_nat t.(m_last)) in
  if diff =? 0 then t
  else
    let lines_read := u32 (t.(m_lines_read) + u32 (newlines (take (p_current - t.(m_last)) before))) in
    let pos_in_line :=
      if t.(m_lines_read) =? lines_read then u32 (t.(m_cur_pos_in_line) + diff)
      else u32 (back_to_newline before) in
    PositionTracker p_current (u32 (t.(m_cur_pos) + diff)) pos_in_line lines_read.

(** ** The state *)
#[export] Instance lexical_token_t_eq_dec : EqDecision lexical_token_t.
Proof. solve_decision. Defined.

Record lexical_token := Token { type : lexical_token_t; str : chars }.

Record lexer := Lexer {
  before : chars;
  rest : chars;
  m_pos_tracker : position_tracker;
  m_yaml_version : chars;
  m_tag_handle : chars;
  m_tag_prefix : chars;
  m_block_scalar_header : block_scalar_header;
  m_last_token_begin_pos : Z;
  m_last_token_begin_line : Z;
  flow_context : bool;              (* the bits of [m_state] *)
  document_directive : bool
}.

Definition lexical_analyzer (input_buffer : chars) : lexer :=
  Lexer [] input_buffer (PositionTracker 0 0 0 0) [] [] [] (BlockHeader CLIP 0) 0 0 false false.

(** [m_cur_itr += n]. *)
Definition advance (n : nat) (l : lexer) : lexer :=
  Lexer (rev_append (take n l.(rest)) l.(before)) (drop n l.(rest)) l.(m_pos_tracker) l.(m_yaml_version)
    l.(m_tag_handle) l.(m_tag_prefix) l.(m_block_scalar_header) l.(m_last_token_begin_pos)
    l.(m_last_token_begin_line) l.(flow_context) l.(document_directive).

Definition set_yaml_version (v : chars) (l : lexer) : lexer :=
  Lexer l.(before) l.(rest) l.(m_pos_tracker) v l.(m_tag_handle) l.(m_tag_prefix) l.(m_block_scalar_header)
    l.(m_last_token_begin_pos) l.(m_last_token_begin_line) l.(flow_context) l.(document_directive).
Definition set_tag (handle prefix : chars) (l : lexer) : lexer :=
  Lexer l.(before) l.(rest) l.(m_pos_tracker) l.(m_yaml_version) handle prefix l.(m_block_scalar_header)
    l.(m_last_token_begin_pos) l.(m_last_token_begin_line) l.(flow_context) l.(document_directive).
Definition set_block_scalar_header (h : block_scalar_header) (l : lexer) : lexer :=
  Lexer l.(before) l.(rest) l.(m_pos_tracker) l.(m_yaml_version) l.(m_tag_handle) l.(m_tag_prefix) h
    l.(m_last_token_begin_pos) l.(m_last_token_begin_line) l.(flow_context) l.(document_directive).
Definition set_context_state (is_flow_context : bool) (l : lexer) : lexer :=
  Lexer l.(before) l.(rest) l.(m_pos_tracker) l.(m_yaml_version) l.(m_tag_handle) l.(m_tag_prefix)
    l.(m_block_scalar_header) l.(m_last_token_begin_pos) l.(m_last_token_begin_line) is_flow_context
    l.(document_directive).
Definition set_document_state (is_directive : bool) (l : lexer) : lexer :=
  Lexer l.(before) l.(rest) l.(m_pos_tracker) l.(m_yaml_version) l.(m_tag_handle) l.(m_tag_prefix)
    l.(m_block_scalar_header) l.(m_last_token_begin_pos) l.(m_last_token_begin_line) l.(flow_context)
    is_directive.

Definition get_last_token_begin_pos (l : lexer) : Z := l.(m_last_token_begin_pos).
Definition get_lines_processed (l : lexer) : Z := l.(m_last_token_begin_line).

(** A message tells the position; here an error is an exception. *)
Definition emit_error {A} : outcome A := Throw YamlParseError.

(** A failed [FK_YAML_ASSERT] ends the process: nothing is caught. *)
Definition assertion_failed {A} : outcome A := Undef.

(** ** Characters *)
Definition white_space (c : ascii) : bool := Ascii.eqb c space || Ascii.eqb c tab.
Definition white_space_or_newline (c : ascii) : bool := white_space c || Ascii.eqb c newline.
Definition flow_indicator (c : ascii) : bool := one_of ["{"; "}"; "["; "]"; ","]%char c.
Definition isalnum (c : ascii) : bool := between "0" "9" c || between "A" "Z" c || between "a" "z" c.

(** How many characters [std::find_if_not] passes. *)
Fixpoint run_of (p : ascii -> bool) (s : chars) : nat :=
  match s with
  | c :: s => if p c then S (run_of p s) else O
  | [] => O
  end.

Definition skip_white_spaces (l : lexer) : lexer := advance (run_of white_space l.(rest)) l.
Definition skip_white_spaces_and_newline_codes (l : lexer) : lexer :=
  advance (run_of white_space_or_newline l.(rest)) l.

(** The newline is skipped too. *)
Definition skip_until_line_end (l : lexer) : lexer :=
  advance (S (run_of (fun c => negb (Ascii.eqb c newline)) l.(rest))) l.

Definition scan_comment (l : lexer) : lexer := skip_until_line_end l.

(** ** [uri_encoding] *)
Definition validate_character (c : ascii) : bool :=
  one_of (bytes_of ":/?#[]@!$&'()*+,;=-._~") c || isalnum c.

(** Past the end of the text nothing stops the loop but a character that is not
    allowed, such as the terminator of the buffer. *)
Fixpoint uri_overrun (beyond : chars) : outcome bool :=
  match beyond with
  | [] => Ret false
  | c :: beyond =>
      if Ascii.eqb c "%" then
        match beyond with
        | o1 :: o2 :: beyond =>
            if is_xdigit o1 && is_xdigit o2 then
              match beyond with [] => Undef | _ :: beyond => uri_overrun beyond end
            else Ret false
        | _ => Ret false
        end
      else if validate_character c then uri_overrun beyond
      else Ret false
  end.

(** After an escape the iterator stands behind it, and the loop steps on: the
    next character is not looked at, and it may be the end that is passed.
    [beyond] is what the buffer holds behind the text. *)
Fixpoint uri_validate (s beyond : chars) : outcome bool :=
  match s with
  | [] => Ret true
  | c :: s =>
      if Ascii.eqb c "%" then
        match s with
        | o1 :: o2 :: s =>
            if is_xdigit o1 && is_xdigit o2 then
              match s with
              | [] => match beyond with [] => Undef | _ :: beyond => uri_overrun beyond end
              | _ :: s => uri_validate s beyond
              end
            else Ret false
        | _ => Ret false
        end
      else if validate_character c then uri_validate s beyond
      else Ret false
  end.

Definition require_uri (s beyond : chars) : outcome unit :=
  is_valid ← uri_validate s beyond; if (is_valid : bool) then Ret tt else emit_error.

(** ** Directives *)

(** A named handle: how many characters it has, up to its last [!]. *)
Fixpoint named_handle (s : chars) : outcome nat :=
  match s with
  | [] => emit_error
  | c :: s =>
      if white_space c then emit_error
      else if Ascii.eqb c "!" then
        match s with
        | [] => emit_error
        | next :: _ => if white_space next then Ret 1%nat else emit_error
        end
      else if Ascii.eqb c "-" || isalnum c then n ← named_handle s; Ret (S n)
      else emit_error
  end.

(** [s] is what follows the directive's name; the length of the handle. *)
Definition tag_handle_length (s : chars) : outcome nat :=
  match s with
  | [] => emit_error
  | c :: s =>
      if negb (Ascii.eqb c "!") then emit_error
      else
        match s with
        | [] => emit_error
        | c :: s' =>
            if white_space c then Ret 1%nat
            else if Ascii.eqb c "!" then
              match s' with
              | [] => emit_error
              | c :: _ => if white_space c then Ret 2%nat else emit_error
              end
            else n ← named_handle s; Ret (S n)
        end
  end.

(** The prefix ends at a space or at the end; at the end already, the loop steps
    over it. *)
Definition scan_tag_directive (l : lexer) : outcome (lexer * lexical_token_t) :=
  n ← tag_handle_length l.(rest);
  let tag_handle := take n l.(rest) in
  let l := skip_white_spaces (advance n l) in
  match l.(rest) with
  | [] => Undef
  | c :: _ =>
      if flow_indicator c then emit_error
      else
        let n := run_of (fun c => negb (white_space_or_newline c)) l.(rest) in
        let tag_prefix := take n l.(rest) in
        require_uri tag_prefix (drop n l.(rest));;
        Ret (set_tag tag_handle tag_prefix (advance n l), TAG_DIRECTIVE)
  end.

Definition scan_yaml_version_directive (l : lexer) : outcome (lexer * lexical_token_t) :=
  let n := run_of (fun c => negb (white_space_or_newline c)) l.(rest) in
  let yaml_version := take n l.(rest) in
  if word "1.1" yaml_version || word "1.2" yaml_version
  then Ret (set_yaml_version yaml_version (advance n l), YAML_VER_DIRECTIVE)
  else emit_error.

(** [l] is at the percent sign. A name that the end of the line cuts off is of an
    unknown directive. *)
Definition scan_directive (l : lexer) : outcome (lexer * lexical_token_t) :=
  let l := advance 1 l in
  let n := run_of (fun c => negb (white_space_or_newline c)) l.(rest) in
  let dir_name := take n l.(rest) in
  let l := advance n l in
  let ends_loop := match l.(rest) with [] => false | _ => true end in
  if match l.(rest) with c :: _ => Ascii.eqb c newline | [] => false end
  then Ret (skip_until_line_end l, INVALID_DIRECTIVE)
  else if word "TAG" dir_name then
    if negb ends_loop then emit_error else scan_tag_directive (skip_white_spaces l)
  else if word "YAML" dir_name then
    if negb ends_loop then emit_error else scan_yaml_version_directive (skip_white_spaces l)
  else Ret (skip_until_line_end l, INVALID_DIRECTIVE).

(** ** Anchors and tags *)

(** [s] is what follows the prefix. *)
Definition extract_anchor_name (s : chars) : chars :=
  take (run_of (fun c => negb (white_space_or_newline c || flow_indicator c)) s) s.

(** From the character that the loop begins with: what the name has more, and
    whether it names a handle. The loop steps before it looks. *)
Fixpoint tag_name_loop (allows_another_tag_prefix : bool) (s : chars) : outcome (nat * bool) :=
  match s with
  | [] => Ret (0%nat, false)
  | c :: s =>
      if white_space_or_newline c then Ret (0%nat, false)
      else if Ascii.eqb c "!" then
        if negb allows_another_tag_prefix then emit_error
        else '(n, _) ← tag_name_loop false s; Ret (S n, true)
      else '(n, is_named_handle) ← tag_name_loop allows_another_tag_prefix s; Ret (S n, is_named_handle)
  end.

(** The checks of a name; [beyond] is what follows it. *)
Definition check_verbatim_tag (name beyond : chars) : outcome unit :=
  match last name with
  | Some ">"%char =>
      let tag_body := substr 2 (length name - 3) name in
      match tag_body with
      | [] => emit_error
      | _ => require_uri tag_body (drop (length name - 1) name ++ beyond)
      end
  | _ => emit_error
  end.

Definition check_tag_shorthand (is_named_handle : bool) (name beyond : chars) : outcome unit :=
  if is_named_handle && match last name with Some "!"%char => true | _ => false end then emit_error
  else
    match find_last (fun c => Ascii.eqb c "!") name with
    | None => assertion_failed
    | Some last_tag_prefix_pos =>
        let tag_uri := drop (S last_tag_prefix_pos) name in
        require_uri tag_uri beyond;;
        if existsb flow_indicator tag_uri then emit_error else Ret tt
    end.

(** [s] is what follows the [!]; the name with it. *)
Definition extract_tag_name (s : chars) : outcome chars :=
  match s with
  | [] => Ret ["!"%char]
  | c :: s =>
      if Ascii.eqb c space || Ascii.eqb c newline then Ret ["!"%char]
      else if Ascii.eqb c "<" then
        match s with
        | [] => Undef
        | c2 :: s =>
            '(n, _) ← tag_name_loop false s;
            let name := "!"%char :: c :: c2 :: take n s in
            check_verbatim_tag name (drop n s);;
            Ret name
        end
      else
        '(n, is_named_handle) ← tag_name_loop (negb (Ascii.eqb c "!")) s;
        let name := "!"%char :: c :: take n s in
        check_tag_shorthand is_named_handle name (drop n s);;
        Ret name
  end.

(** ** Quoted scalars: [s] is what follows the opening quote *)

(** The length of the text before the closing quote. *)
Fixpoint single_quoted_length (s : chars) : option nat :=
  match s with
  | [] => None
  | c :: s =>
      if Ascii.eqb c quote then
        match s with
        | c2 :: s' => if Ascii.eqb c2 quote then (fun n => S (S n)) <$> single_quoted_length s' else Some 0%nat
        | [] => Some 0%nat
        end
      else S <$> single_quoted_length s
  end.

Definition double_quote : ascii := "034".

(** The backslashes before a quote: [l] is the text before it, its last
    character first. The loop ends when it reaches the first character of the
    scalar, before it looks at it; a scalar of one character it passes, and looks
    at the opening quote. *)
Fixpoint backslash_counts (l : chars) : nat :=
  match l with
  | c :: l =>
      if Ascii.eqb c backslash then match l with [_] => 1%nat | _ => S (backslash_counts l) end else O
  | [] => O
  end.

(** [l]: the characters passed, the last one first. *)
Fixpoint double_quoted_length (l s : chars) : option nat :=
  match s with
  | [] => None
  | c :: s =>
      if Ascii.eqb c double_quote && Nat.even (backslash_counts l) then Some (length l)
      else double_quoted_length (c :: l) s
  end.

(** ** Plain scalars *)

(** Whether a character ends the scalar, from what follows it. *)
Definition ends_plain (flow : bool) (c : ascii) (s : chars) : bool :=
  if Ascii.eqb c newline then true
  else if Ascii.eqb c space then
    match s with
    | [] => true
    | n :: s =>
        if white_space_or_newline n || Ascii.eqb n "#" then true
        else if Ascii.eqb n ":" then match s with n2 :: _ => Ascii.eqb n2 space | [] => false end
        else flow_indicator n && flow
    end
  else if Ascii.eqb c ":" then
    match s with
    | n :: _ => white_space_or_newline n
    | [] => false
    end
  else flow_indicator c && flow.

Fixpoint plain_length (flow : bool) (s : chars) : nat :=
  match s with
  | [] => O
  | c :: s => if ends_plain flow c s then O else S (plain_length flow s)
  end.

(** ** Control characters *)
Definition must_be_escaped (c : ascii) : bool :=
  let n := code c in
  (1 <=? n) && (n <=? 31) && negb ((n =? 9) || (n =? 10) || (n =? 13)).

Definition check_scalar_content (scalar : chars) : outcome unit :=
  if existsb must_be_escaped scalar then emit_error else Ret tt.

(** ** Block scalars *)

(** Where a word begins in a text. *)
Fixpoint find_word (w s : chars) : option nat :=
  if bool_decide (take (length w) s = w) then Some 0%nat
  else match s with [] => None | _ :: s => S <$> find_word w s end.

Fixpoint block_header_loop (line : chars) (header : block_scalar_header) : outcome block_scalar_header :=
  match line with
  | [] => Ret header
  | c :: line =>
      let chomp_with (ch : chomping_indicator_t) :=
        match header.(chomp) with CLIP => block_header_loop line (BlockHeader ch header.(indent)) | _ => emit_error end in
      if Ascii.eqb c "-" then chomp_with STRIP
      else if Ascii.eqb c "+" then chomp_with KEEP
      else if between "1" "9" c then
        if (0 <? header.(indent))%nat then emit_error
        else block_header_loop line (BlockHeader header.(chomp) (Z.to_nat (code c - code "0")))
      else if white_space c then block_header_loop line header
      else emit_error
  end.

Definition convert_to_block_scalar_header (line : chars) : outcome block_scalar_header :=
  let line := match find_word [space; "#"%char] line with Some pos => take pos line | None => line end in
  block_header_loop line (BlockHeader CLIP 0).

(** Where the lines of a block end: [s] is what follows a newline at
    [last_newline_pos]. *)
Fixpoint block_lines (fuel : nat) (indent : nat) (s : chars) (last_newline_pos : nat) : nat :=
  match fuel with
  | O => last_newline_pos
  | S fuel =>
      let cur_line_length := run_of (fun c => negb (Ascii.eqb c newline)) s in
      let cur_line_end_pos := (last_newline_pos + 1 + cur_line_length)%nat in
      let cur_indent := run_of (Ascii.eqb space) s in
      let go_on :=
        match drop cur_line_length s with
        | [] => cur_line_end_pos
        | _ :: s => block_lines fuel indent s cur_line_end_pos
        end in
      match drop cur_indent s with
      | [] => go_on
      | c :: _ => if (cur_indent <? indent)%nat && negb (Ascii.eqb c newline) then last_newline_pos else go_on
      end
  end.

(** The token and its indentation. *)
Definition scan_block_style_string_token (indent : nat) (sv : chars) : outcome (nat * chars) :=
  match find_first_not_of [space; tab; newline] sv with
  | None => Ret (length sv, sv)
  | Some first_non_space_pos =>
      let cur_indent :=
        match find_last (fun c => Ascii.eqb c newline) (take first_non_space_pos sv) with
        | None => first_non_space_pos
        | Some last_newline_pos => (first_non_space_pos - last_newline_pos - 1)%nat
        end in
      if negb (indent =? 0)%nat && (cur_indent <? indent)%nat then emit_error
      else
        let indent := if (indent =? 0)%nat then cur_indent else indent in
        let after_first := drop (S first_non_space_pos) sv in
        let line_length := run_of (fun c => negb (Ascii.eqb c newline)) after_first in
        let first_newline_pos := (S first_non_space_pos + line_length)%nat in
        let last_newline_pos :=
          match drop line_length after_first with
          | [] => first_newline_pos
          | _ :: s => block_lines (length sv) indent s first_newline_pos
          end in
        let token_length := if (last_newline_pos <? length sv)%nat then S last_newline_pos else last_newline_pos in
        Ret (indent, take token_length sv)
  end.

(** ** [get_next_token] *)

(** Up to the next token, whose position is noted. *)
Definition begin_token (l : lexer) : lexer :=
  let l := skip_white_spaces_and_newline_codes l in
  let t := update_position l.(before) l.(m_pos_tracker) in
  Lexer l.(before) l.(rest) t l.(m_yaml_version) l.(m_tag_handle) l.(m_tag_prefix) l.(m_block_scalar_header)
    t.(m_cur_pos_in_line) t.(m_lines_read) l.(flow_context) l.(document_directive).

(** A token of [n] characters. *)
Definition token_of (n : nat) (type : lexical_token_t) (l : lexer) : outcome (lexer * lexical_token) :=
  Ret (advance n l, Token type []).

Definition plain_token (l : lexer) : outcome (lexer * lexical_token) :=
  let n := plain_length l.(flow_context) l.(rest) in
  let s := take n l.(rest) in
  check_scalar_content s;;
  Ret (advance n l, Token PLAIN_SCALAR s).

Definition quoted_token (type : lexical_token_t) (length : option nat) (s : chars) (l : lexer)
  : outcome (lexer * lexical_token) :=
  match length with
  | None => emit_error
  | Some n =>
      check_scalar_content (take n s);;
      Ret (advance (S (S n)) l, Token type (take n s))
  end.

Definition anchor_token (type : lexical_token_t) (s : chars) (l : lexer) : outcome (lexer * lexical_token) :=
  let name := extract_anchor_name s in
  match name with
  | [] => emit_error
  | _ => Ret (advance (S (length name)) l, Token type name)
  end.

(** [s]: the header and what follows. *)
Definition block_token (type : lexical_token_t) (s : chars) (l : lexer) : outcome (lexer * lexical_token) :=
  match find_first (fun c => Ascii.eqb c newline) s with
  | None => assertion_failed
  | Some n =>
      header ← convert_to_block_scalar_header (take n s);
      '(indent, token) ← scan_block_style_string_token header.(indent) (drop (S n) s);
      Ret (advance (S (S n) + length token) (set_block_scalar_header (BlockHeader header.(chomp) indent) l),
           Token type token)
  end.

(** [l] is at the character [c], [s] follows. *)
Definition scan_token (c : ascii) (s : chars) (l : lexer) : outcome (lexer * lexical_token) :=
  let next_is (p : ascii -> bool) := match s with n :: _ => p n | [] => false end in
  let marker (w : string) := bool_decide (take 3 (c :: s) = bytes_of w) in
  if Ascii.eqb c "?" then
    match s with
    | [] => Ret (advance 1 l, Token PLAIN_SCALAR [c])
    | _ => if next_is (Ascii.eqb space) then token_of 1 EXPLICIT_KEY_PREFIX l else plain_token l
    end
  else if Ascii.eqb c ":" then
    match s with
    | [] => token_of 1 KEY_SEPARATOR l
    | _ =>
        if next_is white_space_or_newline then token_of 1 KEY_SEPARATOR l
        else if next_is flow_indicator && l.(flow_context) then token_of 1 KEY_SEPARATOR l
        else plain_token l
    end
  else if Ascii.eqb c "," then token_of 1 VALUE_SEPARATOR l
  else if Ascii.eqb c "&" then anchor_token ANCHOR_PREFIX s l
  else if Ascii.eqb c "*" then anchor_token ALIAS_PREFIX s l
  else if Ascii.eqb c "!" then
    name ← extract_tag_name s;
    Ret (advance (length name) l, Token TAG_PREFIX name)
  else if Ascii.eqb c "%" && l.(document_directive) then
    '(l, type) ← scan_directive l;
    Ret (l, Token type [])
  else if Ascii.eqb c "-" && next_is white_space_or_newline then token_of 2 SEQUENCE_BLOCK_PREFIX l
  else if Ascii.eqb c "-" && marker "---" then token_of 3 END_OF_DIRECTIVES l
  else if Ascii.eqb c "[" then token_of 1 SEQUENCE_FLOW_BEGIN l
  else if Ascii.eqb c "]" then token_of 1 SEQUENCE_FLOW_END l
  else if Ascii.eqb c "{" then token_of 1 MAPPING_FLOW_BEGIN l
  else if Ascii.eqb c "}" then token_of 1 MAPPING_FLOW_END l
  else if Ascii.eqb c "@" || Ascii.eqb c "`" then emit_error
  else if Ascii.eqb c double_quote then quoted_token DOUBLE_QUOTED_SCALAR (double_quoted_length [] s) s l
  else if Ascii.eqb c quote then quoted_token SINGLE_QUOTED_SCALAR (single_quoted_length s) s l
  else if Ascii.eqb c "." && marker "..." then token_of 3 END_OF_DOCUMENT l
  else if Ascii.eqb c "|" then block_token BLOCK_LITERAL_SCALAR s l
  else if Ascii.eqb c ">" then block_token BLOCK_FOLDED_SCALAR s l
  else plain_token l.

(** One call for each comment that is skipped. *)
Fixpoint next_token (fuel : nat) (l : lexer) : outcome (lexer * lexical_token) :=
  let l := begin_token l in
  match l.(rest) with
  | [] => Ret (l, Token END_OF_BUFFER [])
  | c :: s =>
      if Ascii.eqb c "#" then
        match fuel with
        | O => Undef
        | S fuel => next_token fuel (scan_comment l)
        end
      else scan_token c s l
  end.

Definition get_next_token (l : lexer) : outcome (lexer * lexical_token) := next_token (S (length l.(rest))) l.

(** The tokens of a text, with the line and the column of each, up to the first
    that ends a document. *)
Fixpoint tokens (fuel : nat) (l : lexer) : outcome (list (Z * Z * lexical_token)) :=
  match fuel with
  | O => Ret []
  | S fuel =>
      '(l, token) ← get_next_token l;
      let here := (get_lines_processed l, get_last_token_begin_pos l, token) in
      match token.(type) with
      | END_OF_BUFFER => Ret [here]
      | _ => ts ← tokens fuel l; Ret (here :: ts)
      end
  end.

Example ping_list_tokens :
  tokens 20 (lexical_analyzer (bytes_of "mesh:" ++ [newline] ++ bytes_of "  udp: # hosts" ++ [newline] ++
    bytes_of "  - 10.0.0.1" ++ [newline]))
  = Ret [(0, 0, Token PLAIN_SCALAR (bytes_of "mesh")); (0, 4, Token KEY_SEPARATOR []);
         (1, 2, Token PLAIN_SCALAR (bytes_of "udp")); (1, 5, Token KEY_SEPARATOR []);
         (2, 2, Token SEQUENCE_BLOCK_PREFIX []); (2, 4, Token PLAIN_SCALAR (bytes_of "10.0.0.1"));
         (3, 0, Token END_OF_BUFFER [])].
Proof. vm_compute. reflexivity. Qed.

(** ** The text is kept, and each token takes some of it *)
Definition text (l : lexer) : chars := rev l.(before) ++ l.(rest).

(** [l'] is reached from [l] by passing characters. *)
Definition passes (l l' : lexer) : Prop := exists n, (n <= length l.(rest))%nat /\
  l'.(before) = rev_append (take n l.(rest)) l.(before) /\ l'.(rest) = drop n l.(rest).

Lemma advance_passes n l : passes l (advance n l).
Proof.
  exists (Nat.min n (length l.(rest))). split_and!; [lia| |]; cbn.
  - f_equal. destruct (Nat.min_spec n (length l.(rest))) as [[_ ->]|[Hn ->]]; [done|].
    by rewrite !firstn_all2 by lia.
  - destruct (Nat.min_spec n (length l.(rest))) as [[_ ->]|[Hn ->]]; [done|].
    by rewrite !skipn_all2 by lia.
Qed.

Lemma passes_refl l l' : l'.(before) = l.(before) -> l'.(rest) = l.(rest) -> passes l l'.
Proof. intros Hb Hr. exists 0%nat. cbn. split_and!; [lia|done|done]. Qed.

Lemma passes_trans l1 l2 l3 : passes l1 l2 -> passes l2 l3 -> passes l1 l3.
Proof.
  intros (n & Hn & Hb & Hr) (m & Hm & Hb' & Hr'). exists (n + m)%nat. rewrite Hr in Hm. rewrite length_drop in Hm.
  split_and!; [lia| |].
  - rewrite Hb', Hr, Hb. rewrite !rev_append_rev, app_assoc, <- rev_app_distr. do 2 f_equal.
    rewrite take_take_drop. done.
  - by rewrite Hr', Hr, drop_drop.
Qed.

Lemma passes_text l l' : passes l l' -> text l' = text l.
Proof.
  intros (n & _ & Hb & Hr). unfold text. rewrite Hb, Hr, rev_append_rev, rev_app_distr, rev_involutive, <- app_assoc.
  by rewrite take_drop.
Qed.
Lemma passes_length l l' : passes l l' -> (length l'.(rest) <= length l.(rest))%nat.
Proof. intros (n & Hn & _ & ->). rewrite length_drop. lia. Qed.

Lemma advance_length n l : length (advance n l).(rest) = (length l.(rest) - n)%nat.
Proof. cbn. by rewrite length_drop. Qed.

Lemma begin_token_passes l : passes l (begin_token l).
Proof. apply (passes_trans _ (skip_white_spaces_and_newline_codes l)); [apply advance_passes|by apply passes_refl]. Qed.

(** The same, and the position of the token and the context stay. *)
Definition scans (l l' : lexer) : Prop :=
  passes l l' /\ l'.(m_pos_tracker) = l.(m_pos_tracker) /\
  get_lines_processed l' = get_lines_processed l /\ get_last_token_begin_pos l' = get_last_token_begin_pos l /\
  l'.(flow_context) = l.(flow_context) /\ l'.(document_directive) = l.(document_directive).

Lemma advance_scans n l : scans l (advance n l).
Proof. split_and!; [apply advance_passes|done..]. Qed.
Lemma scans_trans l1 l2 l3 : scans l1 l2 -> scans l2 l3 -> scans l1 l3.
Proof.
  intros (H1 & H2 & H3 & H4 & H5 & H6) (H1' & H2' & H3' & H4' & H5' & H6').
  split_and!; [by eapply passes_trans|congruence..].
Qed.
Lemma set_tag_scans h p l : scans l (set_tag h p l).
Proof. split_and!; [by apply passes_refl|done..]. Qed.
Lemma set_yaml_version_scans v l : scans l (set_yaml_version v l).
Proof. split_and!; [by apply passes_refl|done..]. Qed.
Lemma set_block_scalar_header_scans h l : scans l (set_block_scalar_header h l).
Proof. split_and!; [by apply passes_refl|done..]. Qed.

(** A result of a scan from [l]: it has passed at least one character. *)
Definition takes_some (l : lexer) (r : outcome (lexer * lexical_token)) : Prop :=
  forall l' tk, r = Ret (l', tk) ->
  scans l l' /\ (length l'.(rest) < length l.(rest))%nat /\ tk.(type) <> END_OF_BUFFER.

Lemma advance_takes n tk l : l.(rest) <> [] -> n <> 0%nat -> tk.(type) <> END_OF_BUFFER ->
  takes_some l (Ret (advance n l, tk)).
Proof.
  intros Hl Hn Ht l' tk' [= <- <-]. split_and!; [apply advance_scans| |done].
  rewrite advance_length. destruct l.(rest); [done|]. cbn. lia.
Qed.

Lemma takes_bind {A} l (o : outcome A) f :
  (forall a, o = Ret a -> takes_some l (f a)) -> takes_some l (o ≫= f).
Proof. intros Hf l' tk. destruct o as [a| |]; [|done..]. cbn. by apply Hf. Qed.
Lemma takes_throw l e : takes_some l (Throw e).
Proof. done. Qed.
Lemma takes_undef l : takes_some l Undef.
Proof. done. Qed.
#[local] Hint Resolve takes_throw takes_undef : core.

Lemma plain_not_empty flow c s :
  ends_plain flow c s = false -> plain_length flow (c :: s) <> 0%nat.
Proof. intros H. cbn. by rewrite H. Qed.

Lemma plain_takes c s l :
  l.(rest) = c :: s -> ends_plain l.(flow_context) c s = false -> takes_some l (plain_token l).
Proof.
  intros Hr Hc. apply takes_bind. intros _ _. apply advance_takes; rewrite ?Hr; [done|by apply plain_not_empty|done].
Qed.

(** The directives take the percent sign at least. *)
Definition takes_type (l : lexer) (r : outcome (lexer * lexical_token_t)) : Prop :=
  forall l' t, r = Ret (l', t) -> scans l l' /\ t <> END_OF_BUFFER.

Lemma takes_type_then l1 l2 r : scans l1 l2 -> takes_type l2 r -> takes_type l1 r.
Proof. intros Hp Hr l' t Ht. destruct (Hr _ _ Ht). split; [|done]. by apply (scans_trans _ l2). Qed.
Lemma takes_type_bind {A} l (o : outcome A) f :
  (forall a, o = Ret a -> takes_type l (f a)) -> takes_type l (o ≫= f).
Proof. intros Hf l' tk. destruct o as [a| |]; [|done..]. cbn. by apply Hf. Qed.
Lemma takes_type_ret l l' t : scans l l' -> t <> END_OF_BUFFER -> takes_type l (Ret (l', t)).
Proof. by intros ?? ?? [= <- <-]. Qed.

Lemma scan_tag_directive_takes l : takes_type l (scan_tag_directive l).
Proof.
  apply takes_type_bind. intros n _. cbv zeta.
  apply (takes_type_then _ (skip_white_spaces (advance n l))).
  { apply (scans_trans _ (advance n l)); apply advance_scans. }
  destruct (skip_white_spaces (advance n l)).(rest) as [|c s] eqn:Hr; [done|].
  destruct (flow_indicator c); [done|]. apply takes_type_bind. intros _ _. apply takes_type_ret; [|done].
  eapply scans_trans; [apply advance_scans|apply set_tag_scans].
Qed.

Lemma scan_directive_takes l : takes_type (advance 1 l) (scan_directive l).
Proof.
  unfold scan_directive. cbv zeta. set (l1 := advance 1 l). set (n := run_of _ l1.(rest)).
  eapply takes_type_then; [apply (advance_scans n)|]. set (l2 := advance n l1).
  assert (takes_type l2 (Ret (skip_until_line_end l2, INVALID_DIRECTIVE))) as Hinv
    by (apply takes_type_ret; [apply advance_scans|done]).
  destruct (match l2.(rest) with c :: _ => _ | [] => _ end); [done|].
  destruct (word "TAG" _).
  { destruct (negb _); [done|]. eapply takes_type_then; [apply advance_scans|apply scan_tag_directive_takes]. }
  destruct (word "YAML" _); [|done]. destruct (negb _); [done|].
  eapply takes_type_then; [apply advance_scans|]. fold (skip_white_spaces l2).
  unfold scan_yaml_version_directive. cbv zeta. destruct (_ || _); [|done]. apply takes_type_ret; [|done].
  eapply scans_trans; [apply advance_scans|apply set_yaml_version_scans].
Qed.

Lemma block_takes ty s l : l.(rest) <> [] -> ty <> END_OF_BUFFER -> takes_some l (block_token ty s l).
Proof.
  intros Hl Ht. unfold block_token. destruct (find_first _ s) as [n|]; [|done].
  apply takes_bind. intros header _. apply takes_bind. intros [indent token] _.
  intros l' tk [= <- <-]. split_and!; [| |done].
  - eapply scans_trans; [|apply advance_scans]. apply set_block_scalar_header_scans.
  - rewrite advance_length. cbn. destruct l.(rest); [done|]. cbn. lia.
Qed.

Lemma extract_tag_name_not_empty s name : extract_tag_name s = Ret name -> name <> [].
Proof.
  unfold extract_tag_name. destruct s as [|c s]; [by intros [= <-]|].
  destruct (_ || _); [by intros [= <-]|]. destruct (Ascii.eqb c "<").
  - destruct s as [|c2 s]; [done|]. destruct (tag_name_loop _ _) as [[n ?]| |]; cbn; [|done..].
    destruct (check_verbatim_tag _ _); cbn; [|done..]. by intros [= <-].
  - destruct (tag_name_loop _ _) as [[n ?]| |]; cbn; [|done..].
    destruct (check_tag_shorthand _ _ _); cbn; [|done..]. by intros [= <-].
Qed.

(** Nothing that begins a token is white space; what is not handled before
    begins a plain scalar. *)
Lemma scan_token_takes c s l :
  l.(rest) = c :: s -> white_space_or_newline c = false -> takes_some l (scan_token c s l).
Proof.
  intros Hr Hw. assert (l.(rest) <> []) as Hne by (by rewrite Hr). unfold scan_token. cbv zeta.
  assert (forall n ty, n <> 0%nat -> ty <> END_OF_BUFFER -> takes_some l (token_of n ty l)) as Htok.
  { intros n ty Hn Ht. by apply advance_takes. }
  assert (forall ty o r, ty <> END_OF_BUFFER -> takes_some l (quoted_token ty o r l)) as Hquo.
  { intros ty [n|] r Ht; [|done]. apply takes_bind. intros _ _. by apply advance_takes. }
  assert (forall ty r, ty <> END_OF_BUFFER -> takes_some l (anchor_token ty r l)) as Hanc.
  { intros ty r Ht. unfold anchor_token. destruct (extract_anchor_name r); [done|]. by apply advance_takes. }
  unfold white_space_or_newline, white_space in Hw. apply orb_false_iff in Hw as [[Hsp Htab]%orb_false_iff Hnl].
  destruct (Ascii.eqb_spec c "?") as [->|_].
  { destruct s as [|d s]; [by apply advance_takes|]. destruct (Ascii.eqb _ d); [by apply Htok|].
    by apply (plain_takes "?" (d :: s)). }
  destruct (Ascii.eqb_spec c ":") as [->|Hcol].
  { destruct s as [|d s]; [by apply Htok|]. destruct (white_space_or_newline d) eqn:Hd; [by apply Htok|].
    destruct (_ && _); [by apply Htok|]. apply (plain_takes ":" (d :: s)); [done|]. done. }
  destruct (Ascii.eqb_spec c ",") as [->|Hcom]; [by apply Htok|].
  destruct (Ascii.eqb c "&"); [by apply Hanc|]. destruct (Ascii.eqb c "*"); [by apply Hanc|].
  destruct (Ascii.eqb c "!").
  { apply takes_bind. intros name Hn%extract_tag_name_not_empty. apply advance_takes; [done|by destruct name|done]. }
  destruct (_ && _).
  { apply takes_bind. intros [l2 ty] Hd l' tk [= <- <-].
    destruct (scan_directive_takes l _ _ Hd) as [Hp Ht]. split_and!; [| |done].
    - eapply scans_trans; [apply (advance_scans 1)|done].
    - pose proof (passes_length _ _ (proj1 Hp)) as Hl. rewrite advance_length, Hr in Hl. rewrite Hr. cbn in *. lia. }
  destruct (_ && _); [by apply Htok|]. destruct (_ && _); [by apply Htok|].
  destruct (Ascii.eqb_spec c "[") as [->|Hb1]; [by apply Htok|].
  destruct (Ascii.eqb_spec c "]") as [->|Hb2]; [by apply Htok|].
  destruct (Ascii.eqb_spec c "{") as [->|Hb3]; [by apply Htok|].
  destruct (Ascii.eqb_spec c "}") as [->|Hb4]; [by apply Htok|].
  destruct (_ || _); [done|]. destruct (Ascii.eqb c double_quote); [by apply Hquo|].
  destruct (Ascii.eqb c quote); [by apply Hquo|]. destruct (_ && _); [by apply Htok|].
  destruct (Ascii.eqb c "|"); [by apply block_takes|]. destruct (Ascii.eqb c ">"); [by apply block_takes|].
  apply (plain_takes c s); [done|]. unfold ends_plain. rewrite Hnl, Hsp.
  destruct (Ascii.eqb_spec c ":"); [done|]. unfold flow_indicator. rewrite one_of_false; [done|].
  rewrite !not_elem_of_cons. split_and!; try done. by apply not_elem_of_nil.
Qed.

Lemma drop_run p s : match drop (run_of p s) s with c :: _ => p c = false | [] => True end.
Proof. induction s as [|c s IH]; [done|]. cbn [run_of]. destruct (p c) eqn:Hc; [done|]. cbn. done. Qed.

Lemma next_token_takes fuel l l' tk :
  next_token fuel l = Ret (l', tk) ->
  passes l l' /\ (tk.(type) = END_OF_BUFFER -> l'.(rest) = []) /\
  (tk.(type) <> END_OF_BUFFER -> (length l'.(rest) < length l.(rest))%nat).
Proof.
  revert l. induction fuel as [|fuel IH]; intros l; cbn [next_token]; pose proof (begin_token_passes l) as Hb;
    pose proof (passes_length _ _ Hb) as Hl;
    pose proof (drop_run white_space_or_newline l.(rest)) as Hd;
    change (drop (run_of white_space_or_newline l.(rest)) l.(rest)) with (begin_token l).(rest) in Hd;
    destruct (begin_token l).(rest) as [|c s] eqn:Hr.
  1, 3: intros [= <- <-]; by split_and!.
  - destruct (Ascii.eqb c "#"); [done|]. intros Ht.
    destruct (scan_token_takes c s _ Hr Hd _ _ Ht) as ((H1 & _) & H2 & H3). rewrite Hr in H2.
    split_and!; [by eapply passes_trans|done|intros _; lia].
  - destruct (Ascii.eqb c "#").
    + intros Ht. destruct (IH _ Ht) as (H1 & H2 & H3).
      assert (passes l (scan_comment (begin_token l))) as Hp by (eapply passes_trans; [done|apply advance_passes]).
      split_and!; [by eapply passes_trans|done|]. intros Hty. specialize (H3 Hty).
      pose proof (passes_length _ _ Hp). lia.
    + intros Ht. destruct (scan_token_takes c s _ Hr Hd _ _ Ht) as ((H1 & _) & H2 & H3). rewrite Hr in H2.
      split_and!; [by eapply passes_trans|done|intros _; lia].
Qed.

(** There are never more comments than characters. *)
Lemma next_token_fuel fuel fuel' l :
  (length l.(rest) <= fuel)%nat -> (length l.(rest) <= fuel')%nat -> next_token fuel l = next_token fuel' l.
Proof.
  revert fuel' l. induction fuel as [|fuel IH]; intros fuel' l Hf Hf'; pose proof (passes_length _ _ (begin_token_passes l)) as Hl;
    destruct fuel' as [|fuel']; cbn [next_token]; try done;
    destruct (begin_token l).(rest) as [|c s] eqn:Hr; try done; cbn in Hl; try lia.
  destruct (Ascii.eqb c "#"); [|done].
  assert (length (scan_comment (begin_token l)).(rest) <= length s)%nat.
  { unfold scan_comment, skip_until_line_end. rewrite advance_length, Hr. cbn. lia. }
  apply IH; lia.
Qed.

Lemma tokens_end fuel l ts :
  (length l.(rest) < fuel)%nat -> tokens fuel l = Ret ts ->
  exists ts' here, ts = ts' ++ [here] /\ here.2.(type) = END_OF_BUFFER /\ Forall (fun t => t.2.(type) <> END_OF_BUFFER) ts'.
Proof.
  revert l ts. induction fuel as [|fuel IH]; intros l ts Hf; [lia|]. cbn [tokens].
  destruct (get_next_token l) as [[l1 tk]| |] eqn:Ht; [|done..]. cbn [mbind outcome_bind].
  destruct (next_token_takes _ _ _ _ Ht) as (_ & _ & Hs).
  destruct (decide (tk.(type) = END_OF_BUFFER)) as [He|He].
  - rewrite He. intros [= <-]. exists [], (get_lines_processed l1, get_last_token_begin_pos l1, tk). by split_and!.
  - specialize (Hs He). intros Hts.
    assert (exists ts1, tokens fuel l1 = Ret ts1 /\ ts = (get_lines_processed l1, get_last_token_begin_pos l1, tk) :: ts1)
      as (ts1 & H1 & ->).
    { destruct tk as [ty st]; cbn [type] in *. destruct (tokens fuel l1) as [ts1| |]; destruct ty; cbn in Hts; try done;
        injection Hts as <-; by exists ts1. }
    destruct (IH l1 ts1 ltac:(lia) H1) as (ts' & here & -> & H2 & H3).
    exists ((get_lines_processed l1, get_last_token_begin_pos l1, tk) :: ts'), here. split_and!; [done|done|by constructor].
Qed.

(** C29: cutting a text into tokens ends: as many calls as the text has
    characters, and one more, give an error or reach the end of the buffer; a
    call is a scan behind the comments, of which each takes a character at least,
    so that no text has too many of them; and a call neither changes the text nor
    goes back in it. *)
Theorem lexer_terminates s :
  match tokens (S (length s)) (lexical_analyzer s) with
  | Ret ts => exists ts' here, ts = ts' ++ [here] /\ here.2.(type) = END_OF_BUFFER /\
      Forall (fun t => t.2.(type) <> END_OF_BUFFER) ts'
  | Throw _ | Undef => True
  end /\
  (forall l, let l' := begin_token l in
    get_next_token l = match l'.(rest) with
                       | [] => Ret (l', Token END_OF_BUFFER [])
                       | c :: s => if Ascii.eqb c "#" then get_next_token (scan_comment l') else scan_token c s l'
                       end /\
    (l'.(rest) <> [] -> (length (scan_comment l').(rest) < length l.(rest))%nat)) /\
  (forall l l' tk, get_next_token l = Ret (l', tk) -> text l' = text l /\
    (length l'.(rest) + (if decide (tk.(type) = END_OF_BUFFER) then 0 else 1) <= length l.(rest))%nat).
Proof.
  split_and!.
  - destruct (tokens (S (length s)) (lexical_analyzer s)) as [ts| |] eqn:Ht; [|done..].
    apply tokens_end in Ht; [done|cbn; lia].
  - intros l l'. pose proof (passes_length _ _ (begin_token_passes l)) as Hl. fold l' in Hl.
    assert (l'.(rest) <> [] -> (length (scan_comment l').(rest) < length l.(rest))%nat) as Hc.
    { intros Hne. unfold scan_comment, skip_until_line_end. rewrite advance_length.
      destruct l'.(rest) as [|c r]; [done|]. cbn [length] in *. lia. }
    split; [|done]. unfold get_next_token at 1. cbn [next_token]. fold l'. destruct l'.(rest) as [|c r]; [done|].
    destruct (Ascii.eqb c "#"); [|done]. specialize (Hc ltac:(done)). apply next_token_fuel; lia.
  - intros l l' tk (Hp & He & Hs)%next_token_takes. split; [by apply passes_text|].
    pose proof (passes_length _ _ Hp). destruct (decide _) as [Hty|Hty]; [lia|]. specialize (Hs Hty). lia.
Qed.

(** ** Positions *)

(** Lines and columns of what has been passed, counted from zero. *)
Definition column (before : chars) : Z := Z.of_nat (run_of (fun c => negb (Ascii.eqb c newline)) before).

(** The tracker knows the position it was asked for last. *)
Definition tracked (l : lexer) : Prop :=
  let t := l.(m_pos_tracker) in
  (t.(m_last) <= length l.(before))%nat /\
  let passed := drop (length l.(before) - t.(m_last)) l.(before) in
  t.(m_lines_read) = newlines passed /\ t.(m_cur_pos_in_line) = column passed.

Lemma newlines_app a b : newlines (a ++ b) = newlines a + newlines b.
Proof. unfold newlines. rewrite filter_app, length_app. lia. Qed.
Lemma newlines_length a : 0 <= newlines a <= Z.of_nat (length a).
Proof. unfold newlines. pose proof (length_filter (fun c => c = newline) a). lia. Qed.
Lemma run_of_length p s : (run_of p s <= length s)%nat.
Proof. induction s as [|c s IH]; [done|]. cbn. destruct (p c); lia. Qed.

Lemma newlines_none a : newlines a = 0 -> Forall (fun c => c <> newline) a.
Proof.
  unfold newlines. induction a as [|c a IH]; [done|]. destruct (decide (c = newline)) as [Hc|Hc].
  - rewrite filter_cons_True by done. cbn [length]. lia.
  - rewrite filter_cons_False by done. intros H. constructor; [done|]. by apply IH.
Qed.

Lemma column_app a b : newlines a = 0 -> column (a ++ b) = Z.of_nat (length a) + column b.
Proof.
  intros Ha%newlines_none. unfold column. induction Ha as [|c a Hc Ha IH]; [done|].
  cbn [app run_of length]. rewrite (proj2 (Ascii.eqb_neq _ _)) by done. cbn [negb]. lia.
Qed.

Lemma back_to_newline_column a b : newlines a <> 0 -> back_to_newline (a ++ b) = column (a ++ b).
Proof.
  unfold column. induction a as [|c a IH]; intros Ha; [done|]. cbn [app run_of back_to_newline].
  assert (newlines (c :: a) = if decide (c = newline) then 1 + newlines a else newlines a) as Hc.
  { unfold newlines. destruct (decide (c = newline)) as [He|He];
      [rewrite filter_cons_True by done; cbn [length]; lia|by rewrite filter_cons_False by done]. }
  rewrite Hc in Ha. destruct (Ascii.eqb_spec c newline) as [->|Hne].
  - cbn [negb]. by destruct (a ++ b).
  - rewrite decide_False in Ha by done. specialize (IH Ha). cbn [negb].
    destruct (a ++ b) as [|d r] eqn:Hab.
    { destruct a; done. }
    rewrite IH. lia.
Qed.

Lemma update_position_at l :
  tracked l -> Z.of_nat (length l.(before)) < 2 ^ 32 ->
  exists p, update_position l.(before) l.(m_pos_tracker) =
    PositionTracker (length l.(before)) p (column l.(before)) (newlines l.(before)).
Proof.
  destruct l as [before' ? [last p col lines] ? ? ? ? ? ? ? ?]. unfold tracked. cbn [before m_pos_tracker m_last m_lines_read m_cur_pos_in_line].
  intros (Hl & -> & ->) Hs. set (k := (length before' - last)%nat). set (a := take k before'). set (b := drop k before').
  assert (before' = a ++ b) as Hab by (symmetry; apply take_drop).
  assert (length a = k) as Hk by (unfold a; rewrite length_take; lia).
  unfold update_position. cbn [m_last m_lines_read m_cur_pos_in_line m_cur_pos]. fold k. fold a.
  replace (Z.of_nat (length before') - Z.of_nat last) with (Z.of_nat k) by lia.
  pose proof (newlines_length a). pose proof (newlines_length b). pose proof (run_of_length (fun c => negb (Ascii.eqb c newline)) b).
  assert (length before' = (length a + length b)%nat) as Hlen by (rewrite Hab, length_app; done).
  assert (newlines before' = newlines a + newlines b) as Hnl by (rewrite Hab; apply newlines_app).
  rewrite (u32_small (Z.of_nat k)) by (unfold is_u32; lia).
  destruct (Z.eqb_spec (Z.of_nat k) 0) as [Hk0|Hk0].
  - exists p. assert (a = []) as Ha by (apply nil_length_inv; lia). rewrite Ha in Hab. cbn in Hab. rewrite Hab at 2 3. f_equal. lia.
  - rewrite (u32_small (newlines a)), (u32_small (newlines b + _)) by (unfold is_u32; lia).
    eexists. f_equal; [|lia]. destruct (Z.eqb_spec (newlines b) (newlines b + newlines a)) as [He|He].
    + rewrite Hab, column_app by lia. unfold column in *. rewrite u32_small by (unfold is_u32; lia). lia.
    + rewrite Hab at 1. rewrite back_to_newline_column by lia. rewrite <- Hab. apply u32_small.
      pose proof (run_of_length (fun c => negb (Ascii.eqb c newline)) before'). unfold column, is_u32. lia.
Qed.

(** Where a lexer is: after [pre], before [s]. *)
Definition lexer_at (pre s : chars) (l : lexer) : Prop := l.(before) = rev pre /\ l.(rest) = s /\ tracked l.

Definition line_of (pre : chars) : Z := newlines (rev pre).
Definition column_of (pre : chars) : Z := column (rev pre).

Lemma tracked_longer l b r :
  tracked l -> tracked (Lexer (b ++ l.(before)) r l.(m_pos_tracker) l.(m_yaml_version) l.(m_tag_handle) l.(m_tag_prefix)
    l.(m_block_scalar_header) l.(m_last_token_begin_pos) l.(m_last_token_begin_line) l.(flow_context) l.(document_directive)).
Proof.
  unfold tracked. cbn [before m_pos_tracker]. intros (Hl & H1 & H2). rewrite length_app. split; [lia|].
  replace (length b + length l.(before) - m_last l.(m_pos_tracker))%nat
    with (length b + (length l.(before) - m_last l.(m_pos_tracker)))%nat by lia.
  by rewrite <- drop_drop, drop_app_length.
Qed.

Lemma advance_at n pre s l : lexer_at pre s l -> lexer_at (pre ++ take n s) (drop n s) (advance n l).
Proof.
  intros (Hb & Hr & Ht). unfold advance. rewrite Hr, rev_append_rev. split_and!; cbn [before rest].
  - by rewrite Hb, rev_app_distr.
  - done.
  - by apply tracked_longer.
Qed.

Lemma begin_token_at pre s l n :
  lexer_at pre s l -> Z.of_nat (length (pre ++ s)) < 2 ^ 32 -> run_of white_space_or_newline s = n ->
  lexer_at (pre ++ take n s) (drop n s) (begin_token l) /\
  get_lines_processed (begin_token l) = line_of (pre ++ take n s) /\
  get_last_token_begin_pos (begin_token l) = column_of (pre ++ take n s) /\
  (begin_token l).(flow_context) = l.(flow_context) /\ (begin_token l).(document_directive) = l.(document_directive).
Proof.
  intros Hat Hs Hn. unfold begin_token, skip_white_spaces_and_newline_codes. pose proof Hat as (_ & Hr & _). rewrite Hr, Hn.
  pose proof (advance_at n _ _ _ Hat) as Hat'. set (l1 := advance n l) in *. destruct Hat' as (Hb' & Hr' & Ht').
  destruct (update_position_at l1 Ht') as (p & Hp).
  { rewrite Hb'. rewrite length_rev, length_app, length_take. rewrite length_app in Hs. lia. }
  rewrite Hp. unfold lexer_at, tracked, get_lines_processed, get_last_token_begin_pos.
  cbn [before rest m_pos_tracker m_last_token_begin_line m_last_token_begin_pos flow_context document_directive m_last m_lines_read m_cur_pos_in_line].
  unfold line_of, column_of. rewrite <- Hb'. rewrite Nat.sub_diag, drop_0. by split_and!.
Qed.

Lemma scans_tracked l l' : scans l l' -> tracked l -> tracked l'.
Proof.
  intros ((n & _ & Hb & _) & Ht & _) Hl. unfold tracked. rewrite Hb, Ht, rev_append_rev.
  exact (tracked_longer l (rev (take n l.(rest))) [] Hl).
Qed.

Lemma tracked_at l : tracked l -> lexer_at (rev l.(before)) l.(rest) l.
Proof. intros Ht. by split_and!; [rewrite rev_involutive|..]. Qed.

(** What begins a token: nothing is left, or there is no blank and no comment. *)
Definition starts_token (s : chars) : Prop :=
  match s with [] => True | c :: _ => white_space_or_newline c = false /\ c <> "#"%char end.

Lemma next_token_position fuel l l' tk :
  tracked l -> Z.of_nat (length (text l)) < 2 ^ 32 -> next_token fuel l = Ret (l', tk) ->
  tracked l' /\ exists pre s, text l = pre ++ s /\ (length l.(before) <= length pre)%nat /\ starts_token s /\
    get_lines_processed l' = line_of pre /\ get_last_token_begin_pos l' = column_of pre /\
    match s with
    | [] => tk = Token END_OF_BUFFER []
    | c :: s => exists l0, l0.(before) = rev pre /\ l0.(rest) = c :: s /\ scan_token c s l0 = Ret (l', tk)
    end.
Proof.
  revert l. induction fuel as [|fuel IH]; intros l Hl Hs; cbn [next_token];
    pose proof (drop_run white_space_or_newline l.(rest)) as Hd;
    change (drop (run_of white_space_or_newline l.(rest)) l.(rest)) with (begin_token l).(rest) in Hd;
    pose proof (begin_token_at _ _ l _ (tracked_at l Hl) Hs eq_refl) as ((Hb & Hr & Ht) & Hline & Hcol & _);
    pose proof (passes_text _ _ (begin_token_passes l)) as Htext;
    set (pre := rev (before l) ++ take _ (rest l)) in *;
    assert (length l.(before) <= length pre)%nat as Hpre by (unfold pre; rewrite length_app, length_rev; lia);
    assert (text l = pre ++ (begin_token l).(rest)) as Hsplit
      by (rewrite <- Htext; unfold text; rewrite Hb, rev_involutive; done);
    destruct (begin_token l).(rest) as [|c s] eqn:Hrest.
  1, 3: intros [= <- <-]; split; [done|]; exists pre, []; by split_and!.
  - destruct (Ascii.eqb_spec c "#") as [->|Hc]; [done|]. intros Htk.
    destruct (scan_token_takes c s _ Hrest Hd _ _ Htk) as (Hsc & _ & _).
    split; [by eapply scans_tracked|]. destruct Hsc as (_ & _ & H1 & H2 & _).
    exists pre, (c :: s). split_and!; try done; try congruence. by exists (begin_token l).
  - destruct (Ascii.eqb_spec c "#") as [->|Hc].
    + assert (scans (begin_token l) (scan_comment (begin_token l))) as Hsc by apply advance_scans. intros Htk.
      pose proof (passes_text _ _ (proj1 Hsc)) as Htext'.
      destruct (IH (scan_comment (begin_token l))) as (H1 & pre' & s' & H2 & H3 & H4); [by eapply scans_tracked| |done|].
      { by rewrite Htext', Htext. }
      split; [done|]. exists pre', s'. split; [congruence|]. split; [|done].
      destruct Hsc as ((n & _ & Hn & _) & _). rewrite Hn, rev_append_rev, length_app, Hb, !length_rev in H3. lia.
    + intros Htk. destruct (scan_token_takes c s _ Hrest Hd _ _ Htk) as (Hsc & _ & _).
      split; [by eapply scans_tracked|]. destruct Hsc as (_ & _ & H1 & H2 & _).
      exists pre, (c :: s). split_and!; try done; try congruence. by exists (begin_token l).
Qed.

(** The positions of a run of the analyzer: a token is what is scanned at a place
    of the text, and its position is that of the place. *)
Definition scanned_at (s : chars) (tk : lexical_token) : Prop :=
  match s with
  | [] => tk = Token END_OF_BUFFER []
  | c :: r => exists l l', l.(rest) = s /\ scan_token c r l = Ret (l', tk)
  end.
Definition positions_right (s : chars) (ts : list (Z * Z * lexical_token)) : Prop :=
  Forall (fun t => exists pre s', s = pre ++ s' /\ starts_token s' /\ scanned_at s' t.2 /\
    t.1 = (line_of pre, column_of pre)) ts.

Lemma tokens_positions fuel l ts :
  tracked l -> Z.of_nat (length (text l)) < 2 ^ 32 -> tokens fuel l = Ret ts -> positions_right (text l) ts.
Proof.
  revert l ts. induction fuel as [|fuel IH]; intros l ts Hl Hs; cbn [tokens]; [intros [= <-]; constructor|].
  destruct (get_next_token l) as [[l1 tk]| |] eqn:Ht; [|done..]. cbn [mbind outcome_bind].
  destruct (next_token_position _ _ _ _ Hl Hs Ht) as (Hl1 & pre & s & Htext & _ & Hst & Hline & Hcol & Hsc).
  destruct (next_token_takes _ _ _ _ Ht) as (Hp & _ & _). apply passes_text in Hp.
  assert (exists pre s', text l = pre ++ s' /\ starts_token s' /\ scanned_at s' tk /\
    (get_lines_processed l1, get_last_token_begin_pos l1) = (line_of pre, column_of pre)) as Hhere.
  { exists pre, s. split_and!; [done|done| |congruence]. destruct s as [|c s]; [done|].
    destruct Hsc as (l0 & _ & Hr & Hsc). by exists l0, l1. }
  assert (forall ts1, tokens fuel l1 = Ret ts1 -> positions_right (text l) ts1) as Hrest.
  { intros ts1 H1. rewrite <- Hp. apply IH; [done|by rewrite Hp|done]. }
  destruct tk as [ty st]; cbn [type].
  destruct ty; try (destruct (tokens fuel l1) as [ts1| |]; [|done..]; cbn; intros [= <-]; constructor; [exact Hhere|by apply Hrest]).
  intros [= <-]. constructor; [exact Hhere|constructor].
Qed.

(** C30: the line and the column that the analyzer keeps for each token, updating
    them by what it has passed since the last one, are the number of newlines
    before the token and its distance from the last of them. *)
Theorem token_positions s fuel ts :
  Z.of_nat (length s) < 2 ^ 32 -> tokens fuel (lexical_analyzer s) = Ret ts -> positions_right s ts.
Proof.
  intros Hs. apply (tokens_positions fuel (lexical_analyzer s)); [|done].
  split; [done|]. by split.
Qed.

Lemma token_positions_witness :
  exists ts, tokens 3 (lexical_analyzer (bytes_of "a: # b" ++ [newline] ++ bytes_of "  c")) = Ret ts /\
    fst <$> ts = [(0, 0); (0, 1); (1, 2)] /\
    positions_right (bytes_of "a: # b" ++ [newline] ++ bytes_of "  c") ts.
Proof.
  eexists. split; [vm_compute; reflexivity|]. split; [reflexivity|].
  eapply (token_positions _ 3); [reflexivity|vm_compute; reflexivity].
Defined.

(** ** The end of a double-quoted scalar

    Backslashes before a quote are counted back to the first character of the
    scalar, which is left out. *)
Lemma backslash_counts_run l : Exists (fun c => c <> backslash) l -> backslash_counts l = run_of (Ascii.eqb backslash) l.
Proof.
  induction l as [|c l IH]; intros Hl; [done|]. cbn [backslash_counts run_of].
  rewrite Ascii.eqb_sym. destruct (Ascii.eqb_spec backslash c) as [<-|Hc]; [|done].
  apply List.Exists_cons in Hl as [?|Hl]; [done|]. rewrite <- IH by done.
  destruct l as [|d [|d' l]]; [by apply List.Exists_nil in Hl| |done].
  apply List.Exists_cons in Hl as [Hd|Hl]; [|by apply List.Exists_nil in Hl]. cbn.
  by rewrite (proj2 (Ascii.eqb_neq _ _) Hd).
Qed.

Lemma backslash_counts_all n : backslash_counts (replicate (S (S n)) backslash) = S n.
Proof. induction n as [|n IH]; [done|]. cbn [replicate backslash_counts] in *. cbn in *. by rewrite IH. Qed.

Lemma double_quoted_skip l c s :
  c <> double_quote -> double_quoted_length l (c :: s) = double_quoted_length (c :: l) s.
Proof. intros Hc. cbn [double_quoted_length]. by rewrite (proj2 (Ascii.eqb_neq _ _) Hc). Qed.

Lemma double_quoted_skip_all l r s :
  Forall (fun c => c <> double_quote) r -> double_quoted_length l (r ++ s) = double_quoted_length (rev r ++ l) s.
Proof.
  intros Hr. revert l. induction Hr as [|c r Hc Hr IH]; intros l; [done|].
  cbn [app rev]. rewrite double_quoted_skip, IH by done. by rewrite <- app_assoc.
Qed.

Lemma escape_char_dq c e : escape_char c = Some e -> double_quote ∈ bytes_of e -> c = double_quote.
Proof.
  intros He Hin. pose proof (forall_ascii (fun c =>
    match escape_char c with
    | Some e => negb (one_of (bytes_of e) double_quote) || Ascii.eqb c double_quote
    | None => true
    end) eq_refl c) as H. cbn beta in H. rewrite He in H. apply orb_true_iff in H as [H|H]; [|by apply Ascii.eqb_eq].
  apply negb_true_iff in H. unfold one_of in H. apply not_true_iff_false in H. exfalso. apply H.
  apply existsb_exists. exists double_quote. split; [by apply list_elem_of_In|done].
Qed.
Lemma escape_char_none c : escape_char c = None -> c <> double_quote /\ must_be_escaped c = false.
Proof.
  intros He. pose proof (forall_ascii (fun c =>
    match escape_char c with
    | Some _ => true
    | None => negb (Ascii.eqb c double_quote) && negb (must_be_escaped c)
    end) eq_refl c) as H. cbn beta in H. rewrite He in H. apply andb_true_iff in H as [H1%negb_true_iff H2%negb_true_iff].
  split; [|done]. by intros ->.
Qed.

(** The units of an escaped text: a character as it is, or an escape. *)
Lemma reads_as_units e text :
  reads_as e text -> exists x r, e = backslash :: x :: r /\ Forall (fun c => c <> double_quote /\ c <> backslash) r /\
    (x = double_quote -> text = [double_quote] /\ r = []) /\ (x = backslash -> text = [backslash] /\ r = []) /\
    existsb must_be_escaped e = false.
Proof.
  intros (r0 & -> & Hr & _ & _ & Hs). destruct r0 as [|x r]; [done|]. cbn [escape_shape] in Hs.
  apply andb_true_iff in Hs as [Hx Hall]. exists x, r. split; [done|]. split; [|split; [|split]].
  - apply list.Forall_forall. intros c Hc. rewrite forallb_forall in Hall.
    apply list_elem_of_In in Hc. specialize (Hall c Hc). apply andb_true_iff in Hall as [[_ H1]%andb_true_iff H2].
    apply negb_true_iff in H1, H2. split; intros ->; done.
  - intros ->. specialize (Hr []). rewrite app_nil_r in Hr. cbn in Hr. by injection Hr as <- <-.
  - intros ->. specialize (Hr []). rewrite app_nil_r in Hr. cbn in Hr. by injection Hr as <- <-.
  - apply not_true_iff_false. intros (c & Hc & Hm)%existsb_exists. unfold must_be_escaped in Hm.
    assert (31 < code c) as Hlt; [|lia].
    destruct Hc as [<-|[<-|Hc]]; [reflexivity|lia|]. rewrite forallb_forall in Hall. specialize (Hall c Hc). lia.
Qed.

Abbreviation backslashes := (run_of (Ascii.eqb backslash)).

Lemma backslashes_other c l : c <> backslash -> backslashes (c :: l) = 0%nat.
Proof. intros Hc. cbn [run_of]. rewrite Ascii.eqb_sym. by rewrite (proj2 (Ascii.eqb_neq _ _) Hc). Qed.
Lemma backslashes_more l : backslashes (backslash :: l) = S (backslashes l).
Proof. done. Qed.

Lemma unit_step l e text s :
  reads_as e text -> Nat.even (backslashes l) = true ->
  (text = [double_quote] -> Nat.even (backslash_counts (backslash :: l)) = false) ->
  double_quoted_length l (e ++ s) = double_quoted_length (rev e ++ l) s /\
  Nat.even (backslashes (rev e ++ l)) = true /\
  (text <> [backslash] -> Exists (fun c => c <> backslash) (rev e ++ l)).
Proof.
  intros (x & r & -> & Hr & Hdq & Hbs & _)%reads_as_units He Hodd.
  assert (double_quoted_length l ((backslash :: x :: r) ++ s) = double_quoted_length (x :: backslash :: l) (r ++ s)) as ->.
  { cbn [app]. rewrite double_quoted_skip by done. destruct (Ascii.eqb_spec x double_quote) as [->|Hx].
    - destruct (Hdq eq_refl) as [Ht _]. cbn [double_quoted_length]. by rewrite (Hodd Ht).
    - by rewrite double_quoted_skip. }
  rewrite double_quoted_skip_all by (by eapply list.Forall_impl; [exact Hr|intros c []]).
  cbn [rev]. rewrite <- !app_assoc. cbn [app]. split; [done|].
  destruct (Ascii.eqb_spec x backslash) as [->|Hx].
  - destruct (Hbs eq_refl) as [-> ->]. by split.
  - split; [|intros _; apply List.Exists_app; right; by constructor].
    destruct r as [|c r _] using rev_ind; cbn [rev app]; [by rewrite backslashes_other|].
    rewrite rev_app_distr. cbn [rev app]. apply list.Forall_app in Hr as [_ [[_ Hc] _]%list.Forall_cons].
    by rewrite backslashes_other.
Qed.

Lemma closed_after n s l t :
  (length s <= n)%nat -> Exists (fun c => c <> backslash) l -> Nat.even (backslashes l) = true ->
  double_quoted_length l ((escape s).1 ++ double_quote :: t) = Some (length l + length (escape s).1)%nat.
Proof.
  revert s l. induction n as [|n IH]; intros [|c s] l Hn Hl He; cbn [length] in Hn; try lia.
  1, 2: cbn [escape fst app double_quoted_length length];
    rewrite backslash_counts_run, He by done; cbn [Ascii.eqb andb]; by rewrite Nat.add_0_r.
  destruct (escape_step c s) as [(Hc & Hb & Hnl & ->)|(e & text & s' & Hs & Hr & -> & Hne)].
  - destruct (escape_char_none c Hc) as [Hdq _]. cbn [app]. rewrite double_quoted_skip, IH;
      [cbn [length]; f_equal; lia|lia|by constructor|by rewrite backslashes_other|done].
  - destruct (unit_step l e text ((escape s').1 ++ double_quote :: t) Hr He) as (H1 & H2 & H3).
    { intros _. rewrite backslash_counts_run by (by apply List.Exists_cons; right). rewrite backslashes_more.
      by rewrite Nat.even_succ, <- Nat.negb_even, He. }
    rewrite <- app_assoc, H1, IH; [|apply (f_equal length) in Hs; rewrite length_app in Hs; cbn in Hs; destruct text; [done|cbn in Hs; lia]| |done].
    + rewrite !length_app, length_rev. f_equal. lia.
    + apply List.Exists_app. by right.
Qed.

Lemma no_control_escaped n s : (length s <= n)%nat -> existsb must_be_escaped (escape s).1 = false.
Proof.
  revert s. induction n as [|n IH]; intros [|c s] Hl; cbn [length] in Hl; try done; try lia.
  destruct (escape_step c s) as [(Hc & _ & _ & ->)|(e & text & s' & Hs & Hr & -> & Hne)].
  - cbn [existsb]. rewrite (proj2 (escape_char_none c Hc)). apply IH. lia.
  - rewrite existsb_app. destruct (reads_as_units _ _ Hr) as (? & ? & _ & _ & _ & _ & ->). apply IH.
    apply (f_equal length) in Hs. rewrite length_app in Hs. destruct text; [done|cbn in Hs; lia].
Qed.

(** The text begins with backslashes that go on to its end or to a quote. *)
Definition quote_follows (s : chars) : bool :=
  match drop (backslashes s) s with [] => true | c :: _ => Ascii.eqb c double_quote end.
Definition closes_wrong (s : chars) : bool := negb (backslashes s =? 0)%nat && quote_follows s.

Lemma quote_follows_other c s : c <> backslash -> quote_follows (c :: s) = Ascii.eqb c double_quote.
Proof. intros Hc. unfold quote_follows. by rewrite backslashes_other by done. Qed.
Lemma escape_backslash s : (escape (backslash :: s)).1 = backslash :: backslash :: (escape s).1.
Proof. done. Qed.
Lemma replicate_two k : backslash :: backslash :: replicate (2 * k) backslash = replicate (2 * S k) backslash.
Proof. replace (2 * S k)%nat with (S (S (2 * k))) by lia. done. Qed.
Lemma backslashes_replicate n : backslashes (replicate n backslash) = n.
Proof. induction n as [|n IH]; [done|]. cbn [replicate]. by rewrite backslashes_more, IH. Qed.

Lemma closed_from s k t :
  (k + backslashes s)%nat = 0%nat \/ quote_follows s = false ->
  double_quoted_length (replicate (2 * k) backslash) ((escape s).1 ++ double_quote :: t)
  = Some (2 * k + length (escape s).1)%nat.
Proof.
  revert k. induction s as [|c s IH]; intros k Hk.
  - destruct Hk as [Hk|]; [|done]. destruct k; [done|cbn in Hk; lia].
  - destruct (Ascii.eqb_spec c backslash) as [->|Hc].
    + rewrite escape_backslash. cbn [app]. rewrite !double_quoted_skip, replicate_two, IH by
        (done || (destruct Hk as [Hk|Hk]; [rewrite backslashes_more in Hk; lia|by right])).
      f_equal. cbn [length]. lia.
    + rewrite backslashes_other, quote_follows_other in Hk by done.
      assert (Nat.even (backslashes (replicate (2 * k) backslash)) = true) as Heven
        by (rewrite backslashes_replicate; apply Nat.even_spec; by exists k).
      destruct (escape_step c s) as [(He & _ & _ & ->)|(e & text & s' & Hs & Hr & -> & Hne)].
      * destruct (escape_char_none c He) as [Hdq _]. cbn [app]. rewrite double_quoted_skip, (closed_after (length s));
          [cbn [length]; rewrite length_replicate; f_equal; lia|done|by constructor|by rewrite backslashes_other|done].
      * destruct (unit_step (replicate (2 * k) backslash) e text ((escape s').1 ++ double_quote :: t) Hr Heven) as (H1 & H2 & H3).
        { intros ->. injection Hs as -> _. destruct Hk as [Hk|Hk]; [|done]. by replace k with 0%nat by lia. }
        rewrite <- app_assoc, H1, (closed_after (length s')); [|done| |done].
        -- rewrite !length_app, length_rev, length_replicate. f_equal. lia.
        -- apply H3. intros ->. by injection Hs.
Qed.

Lemma double_quoted_length_ge l s n : double_quoted_length l s = Some n -> (length l <= n)%nat.
Proof.
  revert l. induction s as [|c s IH]; intros l; [done|]. cbn [double_quoted_length].
  destruct (_ && _); [by intros [= <-]|]. intros H%IH. cbn in H. lia.
Qed.

Lemma closed_elsewhere s k t :
  (k + backslashes s)%nat <> 0%nat -> quote_follows s = true ->
  double_quoted_length (replicate (2 * k) backslash) ((escape s).1 ++ double_quote :: t)
  <> Some (2 * k + length (escape s).1)%nat.
Proof.
  revert k. induction s as [|c s IH]; intros k Hk Hq.
  - destruct k as [|k]; [done|]. cbn [escape fst app double_quoted_length].
    replace (2 * S k)%nat with (S (S (2 * k))) by lia. rewrite backslash_counts_all.
    replace (Nat.even (S (2 * k))) with false by (rewrite Nat.even_succ, <- Nat.negb_even, Nat.even_mul; done).
    rewrite andb_false_r. intros H%double_quoted_length_ge. cbn [length] in H. rewrite length_replicate in H. lia.
  - destruct (Ascii.eqb_spec c backslash) as [->|Hc].
    + rewrite escape_backslash. cbn [app]. rewrite !double_quoted_skip, replicate_two by done. cbn [length].
      replace (2 * k + S (S (length (escape s).1)))%nat with (2 * S k + length (escape s).1)%nat by lia.
      apply IH; [lia|done].
    + rewrite backslashes_other in Hk by done. rewrite quote_follows_other in Hq by done. apply Ascii.eqb_eq in Hq as ->.
      destruct k as [|k]; [done|].
      change ((escape (double_quote :: s)).1) with (backslash :: double_quote :: (escape s).1). cbn [app length].
      rewrite double_quoted_skip by done. change (backslash :: replicate (2 * S k) backslash) with (replicate (S (2 * S k)) backslash).
      cbn [double_quoted_length]. replace (S (2 * S k)) with (S (S (S (2 * k)))) by lia. rewrite backslash_counts_all.
      replace (Nat.even (S (S (2 * k)))) with true by (symmetry; apply Nat.even_spec; exists (S k); lia).
      cbn [Ascii.eqb andb]. rewrite length_replicate. intros [= H]. lia.
Qed.

(** C31: a text between double quotes, with the escapes of the library, is cut
    out whole, whatever follows, and reads back as the text; but for a text that
    begins with a backslash, or with several, followed by its end or by a double
    quote: there the count of the backslashes misses the first one, the scalar is
    not closed where it should be, and the token is another. *)
Theorem double_quoted_token from_chars s t l :
  if closes_wrong s then
    forall l', scan_token double_quote ((escape s).1 ++ double_quote :: t) l
      <> Ret (l', Token DOUBLE_QUOTED_SCALAR (escape s).1)
  else
    scan_token double_quote ((escape s).1 ++ double_quote :: t) l
      = Ret (advance (S (S (length (escape s).1))) l, Token DOUBLE_QUOTED_SCALAR (escape s).1) /\
    parse_flow from_chars DOUBLE_QUOTED_SCALAR TAG_NONE (escape s).1 = Ret (Yaml.Str (of_bytes s)).
Proof.
  change (scan_token double_quote ?r l) with (quoted_token DOUBLE_QUOTED_SCALAR (double_quoted_length [] r) r l).
  unfold closes_wrong. destruct (negb (backslashes s =? 0)%nat && quote_follows s) eqn:Hw.
  - apply andb_true_iff in Hw as [Hk%negb_true_iff%Nat.eqb_neq Hq]. intros l'.
    pose proof (closed_elsewhere s 0 t Hk Hq) as Hne. cbn [Nat.mul Nat.add replicate] in Hne.
    unfold quoted_token. destruct (double_quoted_length [] _) as [n|]; [|done].
    destruct (check_scalar_content _); [|done..]. cbn [mbind outcome_bind]. intros [= _ Htake]. apply Hne. f_equal.
    apply (f_equal length) in Htake. rewrite length_take, length_app in Htake. cbn [length] in Htake. lia.
  - assert ((0 + backslashes s)%nat = 0%nat \/ quote_follows s = false) as Hok.
    { apply andb_false_iff in Hw as [Hw|Hw]; [left; apply negb_false_iff, Nat.eqb_eq in Hw; lia|by right]. }
    pose proof (closed_from s 0 t Hok) as Hc. cbn [Nat.mul Nat.add replicate] in Hc. rewrite Hc. split.
    + unfold quoted_token, check_scalar_content. rewrite take_app_length.
      by rewrite (no_control_escaped (length s)).
    + unfold parse_flow, parse_flow_scalar_token, parse_double_quoted_scalar. by rewrite (double_quoted_back (length s)).
Qed.

Example closes_wrong_texts :
  closes_wrong (bytes_of "a\b") = false /\ closes_wrong (bytes_of "\") = true /\
  get_next_token (lexical_analyzer (double_quote :: bytes_of "\\" ++ [double_quote])) = Throw YamlParseError.
Proof. vm_compute. split_and!; reflexivity. Qed.

(** Other ends of a text that the analyzer does not meet as it should: a block
    scalar without a line break, a verbatim tag, a tag directive, and an escape at
    the end of a tag. A key at the end of the text, before its colon, is a scalar
    with the colon. *)
Example ends_of_text :
  let next (s : string) := get_next_token (set_document_state true (lexical_analyzer (bytes_of s))) in
  next "|" = Undef /\ next "!<" = Undef /\ next "%TAG ! " = Undef /\ next "!a%20" = Undef /\
  (snd <$> match next "mesh:" with Ret r => Some r | _ => None end) = Some (Token PLAIN_SCALAR (bytes_of "mesh:")).
Proof. vm_compute. split_and!; reflexivity. Qed.
