(* ===== verification/YamlNode.v ===== *)
(** * YamlNode: the nodes that the parser builds (libs/fkyaml: [basic_node],
    [document_metainfo]).

    A node that is being built may have been given an anchor: then its value
    stands in a table of the document, and the node itself is a reference to it,
    as an alias is. An entry of a mapping keeps a number of its own, that of its
    insertion, so that a pointer to a value stays good when other entries are
    inserted before it: the nodes of a [std::map] do not move. The elements of a
    [std::vector] do when it grows. *)
From S2P Require Import Prelude CxxString Yaml YamlScan YamlConv YamlParse.
From Stdlib Require Import Ascii.
From Stdlib Require String.
From Stdlib Require SpecFloat.
Local Open Scope Z_scope.

(** [Leaf] holds a scalar. [Ref] has the anchor's table, name and offset, and
    whether the node is the anchor or an alias. *)
Inductive dnode :=
  | Leaf (v : Yaml.node)
  | DSeq (l : list dnode)
  | DMap (l : list (nat * (dnode * dnode)))
  | Ref (is_anchor : bool) (table : nat) (anchor : chars) (offset : nat).

Definition null_node : dnode := Leaf Yaml.Null.
Definition sequence : dnode := DSeq [].
Definition mapping : dnode := DMap [].

(** ** Anchors *)

(** [anchor_table]: a multimap, here in the order of insertion. Table 0 is the
    document's. *)
Abbreviation anchor_table := (list (chars * dnode)).
Abbreviation anchor_tables := (list anchor_table).

Definition count (anchor : chars) (t : anchor_table) : nat :=
  length (filter (fun e : chars * dnode => e.1 = anchor) t).

Fixpoint nth_entry (anchor : chars) (offset : nat) (t : anchor_table) : option dnode :=
  match t with
  | [] => None
  | (a, n) :: t =>
      if bool_decide (a = anchor) then match offset with O => Some n | S offset => nth_entry anchor offset t end
      else nth_entry anchor offset t
  end.
Fixpoint set_entry (anchor : chars) (offset : nat) (v : dnode) (t : anchor_table) : anchor_table :=
  match t with
  | [] => []
  | (a, n) :: t =>
      if bool_decide (a = anchor)
      then match offset with O => (a, v) :: t | S offset => (a, n) :: set_entry anchor offset v t end
      else (a, n) :: set_entry anchor offset v t
  end.

Definition entry (tables : anchor_tables) (table : nat) (anchor : chars) (offset : nat) : dnode :=
  default null_node (nth_entry anchor offset (default [] (tables !! table))).
Definition put_entry (tables : anchor_tables) (table : nat) (anchor : chars) (offset : nat) (v : dnode) : anchor_tables :=
  alter (set_entry anchor offset v) table tables.

(** The value that a node shows: of a reference, that of its anchor, one step
    far. *)
Definition shown (tables : anchor_tables) (n : dnode) : dnode :=
  match n with
  | Ref _ table anchor offset =>
      match entry tables table anchor offset with Ref _ _ _ _ => null_node | v => v end
  | _ => n
  end.

Definition is_sequence (n : dnode) : bool := match n with DSeq _ => true | _ => false end.
Definition is_mapping (n : dnode) : bool := match n with DMap _ => true | _ => false end.
Definition is_null (n : dnode) : bool := match n with Leaf Yaml.Null => true | _ => false end.
Definition is_scalar (n : dnode) : bool := match n with Leaf _ => true | _ => false end.

(** [add_anchor_name], of a node that is no anchor yet. The offset has six bits. *)
Definition add_anchor_name (table : nat) (anchor : chars) (n : dnode) (tables : anchor_tables) : dnode * anchor_tables :=
  let t := default [] (tables !! table) in
  (Ref true table anchor (Nat.modulo (count anchor t) 64), <[table := t ++ [(anchor, n)]]> tables).

(** The size of a node, more than its depth. *)
Fixpoint node_size (n : dnode) : nat :=
  match n with
  | DSeq l => S (list_sum (node_size <$> l))
  | DMap l => S (list_sum ((fun e => let '(_, (k, v)) := e in node_size k + node_size v)%nat <$> l))
  | _ => 1
  end.
Definition tables_size (tables : anchor_tables) : nat :=
  list_sum ((fun e : chars * dnode => node_size e.2) <$> mjoin tables).

(** The destructor: an anchor's value goes with its node. *)
Fixpoint destroy_node (fuel : nat) (n : dnode) (tables : anchor_tables) : anchor_tables :=
  match fuel with
  | O => tables
  | S fuel =>
      let destroy_value (n : dnode) (tables : anchor_tables) :=
        match n with
        | DSeq l => foldl (fun tables n => destroy_node fuel n tables) tables l
        | DMap l => foldl (fun tables (e : nat * (dnode * dnode)) =>
                      destroy_node fuel e.2.2 (destroy_node fuel e.2.1 tables)) tables l
        | _ => tables
        end in
      match n with
      | Ref true table anchor offset =>
          put_entry (destroy_value (entry tables table anchor offset) tables) table anchor offset null_node
      | Ref false _ _ _ => tables
      | _ => destroy_value n tables
      end
  end.
Definition destroy (n : dnode) (tables : anchor_tables) : anchor_tables :=
  destroy_node (S (node_size n + tables_size tables)) n tables.

(** ** The order of nodes *)

(** A [double] by its bits. *)
Definition float_of_bits (bits : Z) : SpecFloat.spec_float :=
  let sign := Z.testbit bits 63 in
  let exponent := Z.land (Z.shiftr bits 52) 2047 in
  let fraction := Z.land bits (2 ^ 52 - 1) in
  if exponent =? 2047 then
    if fraction =? 0 then SpecFloat.S754_infinity sign else SpecFloat.S754_nan
  else if exponent =? 0 then
    match fraction with
    | Zpos m => SpecFloat.S754_finite sign m (-1074)
    | _ => SpecFloat.S754_zero sign
    end
  else
    match fraction + 2 ^ 52 with
    | Zpos m => SpecFloat.S754_finite sign m (exponent - 1075)
    | _ => SpecFloat.S754_nan
    end.

(** Equal up to [std::numeric_limits<double>::epsilon()], 2^-52. *)
Definition float_eq (x y : Z) : bool :=
  SpecFloat.SFltb (SpecFloat.SFabs (SpecFloat.SFsub 53 1024 (float_of_bits x) (float_of_bits y)))
    (SpecFloat.S754_finite false (2 ^ 52) (-104)).
Definition float_lt (x y : Z) : bool := SpecFloat.SFltb (float_of_bits x) (float_of_bits y).

Definition string_lt (s t : string) : bool := match String.compare s t with Lt => true | _ => false end.

(** The bit of the type, which orders nodes of different types. *)
Definition type_bit (n : dnode) : Z :=
  match n with
  | DSeq _ => 1
  | DMap _ => 2
  | Leaf (Yaml.Bool _) => 8
  | Leaf (Yaml.Int _) => 16
  | Leaf (Yaml.Float _) => 32
  | Leaf (Yaml.Str _) => 64
  | Leaf _ | Ref _ _ _ _ => 4
  end.

Definition scalar_eq (x y : Yaml.node) : bool :=
  match x, y with
  | Yaml.Bool x, Yaml.Bool y => Bool.eqb x y
  | Yaml.Int x, Yaml.Int y => x =? y
  | Yaml.Float x, Yaml.Float y => float_eq x y
  | Yaml.Str x, Yaml.Str y => String.eqb x y
  | _, _ => true
  end.
Definition scalar_lt (x y : Yaml.node) : bool :=
  match x, y with
  | Yaml.Bool x, Yaml.Bool y => negb x && y
  | Yaml.Int x, Yaml.Int y => x <? y
  | Yaml.Float x, Yaml.Float y => float_lt x y
  | Yaml.Str x, Yaml.Str y => string_lt x y
  | _, _ => false
  end.

Section order.
Context (tables : anchor_tables).

(** The comparisons follow references: if an alias stands within its own anchor
    they do not end. *)
Fixpoint lists_eq {A} (eq : A -> A -> outcome bool) (l l' : list A) : outcome bool :=
  match l, l' with
  | [], [] => Ret true
  | x :: l, y :: l' => e ← eq x y; if (e : bool) then lists_eq eq l l' else Ret false
  | _, _ => Ret false
  end.
(** [std::lexicographical_compare]. *)
Fixpoint lists_lt {A} (lt : A -> A -> outcome bool) (l l' : list A) : outcome bool :=
  match l, l' with
  | _, [] => Ret false
  | [], _ => Ret true
  | x :: l, y :: l' =>
      less ← lt x y;
      if (less : bool) then Ret true
      else greater ← lt y x; if (greater : bool) then Ret false else lists_lt lt l l'
  end.
Definition pair_eq (eq : dnode -> dnode -> outcome bool) (x y : nat * (dnode * dnode)) : outcome bool :=
  e ← eq x.2.1 y.2.1; if (e : bool) then eq x.2.2 y.2.2 else Ret false.
Definition pair_lt (lt : dnode -> dnode -> outcome bool) (x y : nat * (dnode * dnode)) : outcome bool :=
  less ← lt x.2.1 y.2.1;
  if (less : bool) then Ret true
  else greater ← lt y.2.1 x.2.1; if (greater : bool) then Ret false else lt x.2.2 y.2.2.

Fixpoint node_eq (fuel : nat) (n m : dnode) : outcome bool :=
  match fuel with
  | O => Undef
  | S fuel =>
      match shown tables n, shown tables m with
      | DSeq l, DSeq l' =>
          if (length l =? length l')%nat then lists_eq (node_eq fuel) l l' else Ret false
      | DMap l, DMap l' =>
          if (length l =? length l')%nat then lists_eq (pair_eq (node_eq fuel)) l l' else Ret false
      | x, y =>
          if type_bit x =? type_bit y then
            match x, y with Leaf x, Leaf y => Ret (scalar_eq x y) | _, _ => Ret true end
          else Ret false
      end
  end.

Fixpoint node_lt (fuel : nat) (n m : dnode) : outcome bool :=
  match fuel with
  | O => Undef
  | S fuel' =>
      equal ← node_eq fuel n m;
      if (equal : bool) then Ret false
      else
        let x := shown tables n in
        let y := shown tables m in
        if type_bit x <? type_bit y then Ret true
        else if negb (type_bit x =? type_bit y) then Ret false
        else
          match x, y with
          | DSeq l, DSeq l' => lists_lt (node_lt fuel') l l'
          | DMap l, DMap l' => lists_lt (pair_lt (node_lt fuel')) l l'
          | Leaf x, Leaf y => Ret (scalar_lt x y)
          | _, _ => Ret false
          end
  end.

Definition key_less (n m : dnode) : outcome bool :=
  node_lt (S (node_size n + node_size m + tables_size tables)) n m.

(** [std::map::emplace]: the number of the entry with the key, the entries, and
    whether the key is new. Entries are in the order of their keys; where the
    order is a strict weak one it makes no difference in which order a tree
    compares. *)
Fixpoint insert_entry (id : nat) (k v : dnode) (l : list (nat * (dnode * dnode)))
  : outcome (nat * list (nat * (dnode * dnode)) * bool) :=
  match l with
  | [] => Ret (id, [(id, (k, v))], true)
  | (i, (k', v')) :: l' =>
      before ← key_less k' k;
      if (before : bool) then
        '(j, l', is_new) ← insert_entry id k v l';
        Ret (j, (i, (k', v')) :: l', is_new)
      else
        after ← key_less k k';
        Ret (if (after : bool) then (id, (id, (k, v)) :: l, true) else (i, l, false))
  end.
Definition emplace (k v : dnode) (l : list (nat * (dnode * dnode))) :
  outcome (nat * list (nat * (dnode * dnode)) * bool) := insert_entry (length l) k v l.
End order.

Example keys_in_order :
  emplace [] (Leaf (Yaml.Str "b")) null_node [(0%nat, (Leaf (Yaml.Int 3), null_node)); (1%nat, (Leaf (Yaml.Str "c"), null_node))]
  = Ret (2%nat, [(0%nat, (Leaf (Yaml.Int 3), null_node)); (2%nat, (Leaf (Yaml.Str "b"), null_node));
                 (1%nat, (Leaf (Yaml.Str "c"), null_node))], true).
Proof. vm_compute. reflexivity. Qed.
Example floats_in_order :
  float_lt 4607182418800017408 4611686018427387904 = true (* 1.0 < 2.0 *) /\
  float_eq 4607182418800017408 4607182418800017409 = false (* 1.0 and the next *) /\
  float_eq 4602678819172646912 4602678819172646913 = true (* 0.5 and the next *).
Proof. vm_compute. split_and!; reflexivity. Qed.

(** ** Pointers

    The parser keeps pointers into the tree that it builds, and to keys that it
    has made with [new]. A pointer is the way to its node: the last element of a
    sequence, or a value of a mapping. Once a sequence has grown, its elements
    may have moved: a pointer to an element that is no longer the last one is
    taken to dangle. *)
Inductive step := Elem (i : nat) | Val (id : nat).
Record pointer := Pointer { base : option nat; path : list step }.

Definition child (p : pointer) (s : step) : pointer := Pointer p.(base) (p.(path) ++ [s]).

Record memory := Memory {
  root : dnode;
  keys : gmap nat dnode;        (* the nodes made with [new] *)
  next_key : nat;
  tables : anchor_tables
}.

Fixpoint find_value (id : nat) (l : list (nat * (dnode * dnode))) : option dnode :=
  match l with
  | [] => None
  | (i, (_, v)) :: l => if (i =? id)%nat then Some v else find_value id l
  end.
Fixpoint set_value (id : nat) (v : dnode) (l : list (nat * (dnode * dnode))) : list (nat * (dnode * dnode)) :=
  match l with
  | [] => []
  | (i, (k, w)) :: l => if (i =? id)%nat then (i, (k, v)) :: l else (i, (k, w)) :: set_value id v l
  end.

Definition get_child (s : step) (n : dnode) : option dnode :=
  match n, s with
  | DSeq l, Elem i => if (S i =? length l)%nat then last l else None
  | DMap l, Val id => find_value id l
  | _, _ => None
  end.
Definition set_child (s : step) (v : dnode) (n : dnode) : dnode :=
  match n, s with
  | DSeq l, Elem i => DSeq (take i l ++ [v])
  | DMap l, Val id => DMap (set_value id v l)
  | _, _ => n
  end.

Fixpoint get_path (tables : anchor_tables) (p : list step) (n : dnode) : option dnode :=
  match p with
  | [] => Some n
  | s :: p => c ← get_child s (shown tables n); get_path tables p c
  end.

(** A change of what a node shows: of a reference, of the value of its anchor. *)
Definition on_shown (f : dnode -> anchor_tables -> outcome (dnode * anchor_tables)) (n : dnode) (tables : anchor_tables)
  : outcome (dnode * anchor_tables) :=
  match n with
  | Ref _ table anchor offset =>
      '(v, tables) ← f (shown tables n) tables; Ret (n, put_entry tables table anchor offset v)
  | _ => f n tables
  end.

Fixpoint alter_path (f : dnode -> anchor_tables -> outcome (dnode * anchor_tables)) (p : list step)
  : dnode -> anchor_tables -> outcome (dnode * anchor_tables) :=
  match p with
  | [] => f
  | s :: p => on_shown (fun n tables =>
      match get_child s n with
      | Some c => '(c, tables) ← alter_path f p c tables; Ret (set_child s c n, tables)
      | None => Undef
      end)
  end.

Definition deref (p : pointer) (m : memory) : outcome dnode :=
  let start := match p.(base) with None => Some m.(root) | Some key => m.(keys) !! key end in
  match n ← start; get_path m.(tables) p.(path) n with
  | Some n => Ret n
  | None => Undef
  end.

Definition alter_at (p : pointer) (f : dnode -> anchor_tables -> outcome (dnode * anchor_tables)) (m : memory)
  : outcome memory :=
  match p.(base) with
  | None =>
      '(n, tables) ← alter_path f p.(path) m.(root) m.(tables);
      Ret (Memory n m.(keys) m.(next_key) tables)
  | Some key =>
      match m.(keys) !! key with
      | Some n =>
          '(n, tables) ← alter_path f p.(path) n m.(tables);
          Ret (Memory m.(root) (<[key := n]> m.(keys)) m.(next_key) tables)
      | None => Undef
      end
  end.

(** [*p = v]: the old node is destroyed. *)
Definition assign (p : pointer) (v : dnode) : memory -> outcome memory :=
  alter_at p (fun old tables => Ret (v, destroy old tables)).

(** [get_value_ref<sequence_type&>().emplace_back(v)]; a pointer to the new
    element. *)
Definition emplace_back (p : pointer) (v : dnode) (m : memory) : outcome (memory * pointer) :=
  n ← deref p m;
  match shown m.(tables) n with
  | DSeq l =>
      m ← alter_at p (on_shown (fun n tables =>
            match n with DSeq l => Ret (DSeq (l ++ [v]), tables) | _ => Throw YamlTypeError end)) m;
      Ret (m, child p (Elem (length l)))
  | _ => Throw YamlTypeError
  end.

(** [get_value_ref<mapping_type&>().emplace(key, basic_node_type())]; a pointer to
    the value, and whether the key is new. *)
Definition emplace_key (p : pointer) (key : dnode) (m : memory) : outcome (memory * pointer * bool) :=
  n ← deref p m;
  match shown m.(tables) n with
  | DMap l =>
      '(id, l, is_new) ← emplace m.(tables) key null_node l;
      m ← alter_at p (on_shown (fun _ tables => Ret (DMap l, tables))) m;
      Ret (m, child p (Val id), is_new)
  | _ => Throw YamlTypeError
  end.

(** [new basic_node_type(...)] and [delete]. *)
Definition new_node (n : dnode) (m : memory) : memory * pointer :=
  (Memory m.(root) (<[m.(next_key) := n]> m.(keys)) (S m.(next_key)) m.(tables), Pointer (Some m.(next_key)) []).
Definition delete_node (p : pointer) (m : memory) : outcome memory :=
  match p.(base) with
  | Some key =>
      match m.(keys) !! key with
      | Some n => Ret (Memory m.(root) (delete key m.(keys)) m.(next_key) (destroy n m.(tables)))
      | None => Undef
      end
  | None => Undef
  end.

(** What [std::move] takes from a pointer: the node that is left is null. *)
Definition move_from (p : pointer) (m : memory) : outcome (dnode * memory) :=
  n ← deref p m;
  m ← alter_at p (fun _ tables => Ret (null_node, tables)) m;
  Ret (n, m).

Definition destroy_in (n : dnode) (m : memory) : memory :=
  Memory m.(root) m.(keys) m.(next_key) (destroy n m.(tables)).
