(* ===== verification/YamlDoc.v ===== *)
(** * YamlDoc: a document built from tokens (libs/fkyaml: [tag_resolver],
    [basic_deserializer], [basic_node::deserialize]).

    The parser keeps a stack of contexts, each with the line and the column where
    its node began, and a pointer to the current node. Each of its methods is a
    program over this state ([Prog]). *)
From S2P Require Import Prelude Prog Text CxxString Yaml YamlScan YamlConv YamlParse YamlInput YamlLex YamlNode.
From Stdlib Require Import Ascii.
From Stdlib Require String.
Local Open Scope Z_scope.

(** ** [tag_resolver] *)

(** [document_metainfo], without its anchors. *)
Record metainfo := MetaInfo {
  is_version_specified : bool;
  version_1_1 : bool;
  primary_handle_prefix : chars;
  secondary_handle_prefix : chars;
  named_handle_map : list (chars * chars)
}.

Definition default_primary_handle_prefix : chars := ["!"%char].
Definition default_secondary_handle_prefix : chars := bytes_of "tag:yaml.org,2002:".
Definition or_default (prefix dflt : chars) : chars := match prefix with [] => dflt | _ => prefix end.

Fixpoint find_handle (handle : chars) (l : list (chars * chars)) : option chars :=
  match l with
  | [] => None
  | (h, prefix) :: l => if bool_decide (h = handle) then Some prefix else find_handle handle l
  end.

Definition normalize_tag_name (tag : chars) (directives : metainfo) : outcome chars :=
  let opening := bytes_of "!<" in
  let primary := or_default directives.(primary_handle_prefix) default_primary_handle_prefix in
  match tag with
  | [] => Throw YamlInvalidTag
  | c :: suffix =>
      if negb (Ascii.eqb c "!") then Throw YamlInvalidTag
      else
        match suffix with
        | [] => Ret tag
        | c1 :: suffix1 =>
            if Ascii.eqb c1 "!" then
              Ret (opening ++ or_default directives.(secondary_handle_prefix) default_secondary_handle_prefix
                     ++ suffix1 ++ [">"%char])
            else if Ascii.eqb c1 "<" then
              match suffix1 with
              | c2 :: suffix2 => if Ascii.eqb c2 "!" then Ret (opening ++ primary ++ suffix2) else Ret tag
              | [] => Ret tag
              end
            else
              match find_first (fun c => Ascii.eqb c "!") suffix with
              | Some pos =>
                  let tag_end_pos := S pos in
                  if (length tag - 1 <=? tag_end_pos)%nat then assertion_failed
                  else
                    match find_handle (take (S tag_end_pos) tag) directives.(named_handle_map) with
                    | Some prefix => Ret (opening ++ prefix ++ drop (S tag_end_pos) tag ++ [">"%char])
                    | None => Throw YamlInvalidTag
                    end
              | None => Ret (opening ++ primary ++ suffix ++ [">"%char])
              end
        end
  end.

Definition convert_to_tag_type (normalized : chars) : tag_t :=
  if word "!" normalized then NON_SPECIFIC
  else if (length normalized <? 24)%nat then CUSTOM_TAG
  else if negb (bool_decide (take 20 normalized = bytes_of "!<tag:yaml.org,2002:")) then CUSTOM_TAG
  else if word "!<tag:yaml.org,2002:seq>" normalized then TAG_SEQUENCE
  else if word "!<tag:yaml.org,2002:map>" normalized then TAG_MAPPING
  else if word "!<tag:yaml.org,2002:null>" normalized then NULL_VALUE
  else if word "!<tag:yaml.org,2002:bool>" normalized then TAG_BOOLEAN
  else if word "!<tag:yaml.org,2002:int>" normalized then TAG_INTEGER
  else if word "!<tag:yaml.org,2002:float>" normalized then FLOATING_NUMBER
  else if word "!<tag:yaml.org,2002:str>" normalized then TAG_STRING
  else CUSTOM_TAG.

Definition resolve_tag (tag : chars) (directives : metainfo) : outcome tag_t :=
  normalized ← normalize_tag_name tag directives; Ret (convert_to_tag_type normalized).

(** ** The state *)
Inductive context_state_t :=
  | BLOCK_MAPPING | BLOCK_MAPPING_EXPLICIT_KEY | BLOCK_MAPPING_EXPLICIT_VALUE | MAPPING_VALUE | BLOCK_SEQUENCE
  | FLOW_SEQUENCE | FLOW_SEQUENCE_KEY | FLOW_MAPPING | FLOW_MAPPING_KEY.
#[export] Instance context_state_t_eq_dec : EqDecision context_state_t.
Proof. solve_decision. Defined.

Record parse_context := Context {
  line : Z;
  indent : Z;
  state : context_state_t;
  p_node : option pointer
}.

Inductive flow_token_state_t := NEEDS_VALUE_OR_SUFFIX | NEEDS_SEPARATOR_OR_SUFFIX.

(** [m_needs_anchor_impl], [m_needs_tag_impl] and the names that go with them. A
    tag's name stays with its node and is read by no one here; what it does to a
    scalar is in [tag_t]. *)
Record node_properties := NodeProperties {
  needs_anchor_impl : bool;
  needs_tag_impl : bool;
  anchor_name : chars;
  tag_name : chars;
  root_anchor_name : chars;
  root_tag_name : chars
}.

Record deserializer := Deserializer {
  lx : lexer;
  mem : memory;
  mp_current_node : option pointer;
  m_context_stack : list parse_context;      (* the back comes first *)
  m_flow_context_depth : Z;
  m_flow_token_state : flow_token_state_t;
  mp_meta : metainfo;
  props : node_properties
}.

Definition set_lx (l : lexer) (d : deserializer) : deserializer :=
  Deserializer l d.(mem) d.(mp_current_node) d.(m_context_stack) d.(m_flow_context_depth) d.(m_flow_token_state)
    d.(mp_meta) d.(props).
Definition set_mem (m : memory) (d : deserializer) : deserializer :=
  Deserializer d.(lx) m d.(mp_current_node) d.(m_context_stack) d.(m_flow_context_depth) d.(m_flow_token_state)
    d.(mp_meta) d.(props).
Definition set_current_node (p : option pointer) (d : deserializer) : deserializer :=
  Deserializer d.(lx) d.(mem) p d.(m_context_stack) d.(m_flow_context_depth) d.(m_flow_token_state) d.(mp_meta)
    d.(props).
Definition set_context_stack (s : list parse_context) (d : deserializer) : deserializer :=
  Deserializer d.(lx) d.(mem) d.(mp_current_node) s d.(m_flow_context_depth) d.(m_flow_token_state) d.(mp_meta)
    d.(props).
Definition set_flow_context_depth (n : Z) (d : deserializer) : deserializer :=
  Deserializer d.(lx) d.(mem) d.(mp_current_node) d.(m_context_stack) n d.(m_flow_token_state) d.(mp_meta) d.(props).
Definition set_flow_token_state (s : flow_token_state_t) (d : deserializer) : deserializer :=
  Deserializer d.(lx) d.(mem) d.(mp_current_node) d.(m_context_stack) d.(m_flow_context_depth) s d.(mp_meta) d.(props).
Definition set_meta (m : metainfo) (d : deserializer) : deserializer :=
  Deserializer d.(lx) d.(mem) d.(mp_current_node) d.(m_context_stack) d.(m_flow_context_depth) d.(m_flow_token_state)
    m d.(props).
Definition set_props (p : node_properties) (d : deserializer) : deserializer :=
  Deserializer d.(lx) d.(mem) d.(mp_current_node) d.(m_context_stack) d.(m_flow_context_depth) d.(m_flow_token_state)
    d.(mp_meta) p.

Abbreviation parser := (prog deserializer).

Definition gets {A} (f : deserializer -> A) : parser A := fun d => (d, Ret (f d)).
Definition undefined {A} : parser A := fun d => (d, Undef).
Definition parse_error {A} : parser A := throw YamlParseError.

(** ** The state's parts *)

Definition next : parser lexical_token := fun d =>
  match get_next_token d.(lx) with
  | Ret (l, token) => (set_lx l d, Ret token)
  | Throw e => (d, Throw e)
  | Undef => (d, Undef)
  end.
Definition lines_processed : parser Z := gets (fun d => get_lines_processed d.(lx)).
Definition last_token_begin_pos : parser Z := gets (fun d => get_last_token_begin_pos d.(lx)).

(** A change of the memory. *)
Definition in_memory {A} (f : memory -> outcome (memory * A)) : parser A := fun d =>
  match f d.(mem) with
  | Ret (m, a) => (set_mem m d, Ret a)
  | Throw e => (d, Throw e)
  | Undef => (d, Undef)
  end.
Definition in_memory_ (f : memory -> outcome memory) : parser unit :=
  in_memory (fun m => m ← f m; Ret (m, tt)).

(** A pointer that is followed must not be null. *)
Definition pointing (p : option pointer) : parser pointer :=
  match p with Some p => mret p | None => undefined end.
Definition current : parser pointer := p ← gets mp_current_node; pointing p.
(** What a node shows. *)
Definition value_of (p : pointer) : parser dnode := fun d =>
  match deref p d.(mem) with
  | Ret n => (d, Ret (shown d.(mem).(tables) n))
  | Throw e => (d, Throw e)
  | Undef => (d, Undef)
  end.
Definition current_value : parser dnode := p ← current; value_of p.

(** The context stack: its back must be there. *)
Definition back : parser parse_context :=
  s ← gets m_context_stack;
  match s with c :: _ => mret c | [] => undefined end.
Definition push (c : parse_context) : parser unit := modify (fun d => set_context_stack (c :: d.(m_context_stack)) d).
Definition set_back (c : parse_context) : parser unit :=
  modify (fun d => set_context_stack (c :: tail d.(m_context_stack)) d).

(** [pop_back], and the destructor of the context: it deletes a key. *)
Definition is_key_state (s : context_state_t) : bool :=
  match s with BLOCK_MAPPING_EXPLICIT_KEY | FLOW_SEQUENCE_KEY | FLOW_MAPPING_KEY => true | _ => false end.
Definition destroy_context (c : parse_context) : parser unit :=
  match c.(p_node) with
  | Some p => if is_key_state c.(state) then in_memory_ (delete_node p) else mret tt
  | None => mret tt
  end.
Definition pop_back : parser unit :=
  c ← back;
  destroy_context c;;
  modify (fun d => set_context_stack (tail d.(m_context_stack)) d).
Fixpoint pop_many (pop_num : nat) : parser unit :=
  match pop_num with O => mret tt | S n => pop_back;; pop_many n end.

(** Move back to a container: nothing happens if nothing is popped. *)
Definition move_back (pop_num : nat) : parser unit :=
  match pop_num with
  | O => mret tt
  | _ =>
      pop_many pop_num;;
      c ← back;
      modify (set_current_node c.(p_node))
  end.

(** [size() - 1]; of an empty stack it is more than can be popped. *)
Definition all_but_first : parser nat :=
  s ← gets m_context_stack;
  match s with [] => undefined | _ :: s => mret (length s) end.

(** How many contexts are above the first that meets [p], from the back. *)
Fixpoint find_context (p : parse_context -> bool) (s : list parse_context) : option nat :=
  match s with
  | [] => None
  | c :: s => if p c then Some 0%nat else S <$> find_context p s
  end.

(** ** Node properties *)
Definition apply_node_properties (table : nat) (n : dnode) : parser dnode := fun d =>
  let p := d.(props) in
  let '(n, m) :=
    if p.(needs_anchor_impl) then
      let '(n, tables) := add_anchor_name table p.(anchor_name) n d.(mem).(tables) in
      (n, Memory d.(mem).(root) d.(mem).(keys) d.(mem).(next_key) tables)
    else (n, d.(mem)) in
  let p := NodeProperties false false
    (if p.(needs_anchor_impl) then [] else p.(anchor_name)) (if p.(needs_tag_impl) then [] else p.(tag_name))
    p.(root_anchor_name) p.(root_tag_name) in
  (set_props p (set_mem m d), Ret n).

(** A new container in place of the current node. The old one is destroyed before
    the properties are applied. *)
Definition assign_node (p : pointer) (n : dnode) : parser unit := in_memory_ (assign p n).
Definition replace_current (n : dnode) : parser unit :=
  p ← current;
  assign_node p null_node;;
  n ← apply_node_properties 0 n;
  assign_node p n.

Definition set_needs (anchor tag : bool) : parser unit :=
  modify (fun d => let p := d.(props) in
    set_props (NodeProperties anchor tag p.(anchor_name) p.(tag_name) p.(root_anchor_name) p.(root_tag_name)) d).
Definition set_anchor (name : chars) : parser unit :=
  modify (fun d => let p := d.(props) in
    set_props (NodeProperties true p.(needs_tag_impl) name p.(tag_name) p.(root_anchor_name) p.(root_tag_name)) d).
Definition set_tag_name (name : chars) : parser unit :=
  modify (fun d => let p := d.(props) in
    set_props (NodeProperties p.(needs_anchor_impl) true p.(anchor_name) name p.(root_anchor_name) p.(root_tag_name)) d).

(** The loop of [deserialize_node_properties]: the token, line and column after
    it. A property on a later line is left. *)
Fixpoint properties_loop (fuel : nat) (token : lexical_token) (line indent : Z) : parser (lexical_token * Z * Z) :=
  match fuel with
  | O => undefined
  | S fuel =>
      processed ← lines_processed;
      if line <? processed then mret (token, line, indent)
      else
        p ← gets props;
        pos ← last_token_begin_pos;
        match token.(type) with
        | ANCHOR_PREFIX =>
            if p.(needs_anchor_impl) then parse_error
            else
              set_anchor token.(str);;
              token ← next;
              if p.(needs_tag_impl) then properties_loop fuel token line indent
              else properties_loop fuel token processed pos
        | TAG_PREFIX =>
            if p.(needs_tag_impl) then parse_error
            else
              set_tag_name token.(str);;
              token ← next;
              if p.(needs_anchor_impl) then properties_loop fuel token line indent
              else properties_loop fuel token processed pos
        | _ => mret (token, line, indent)
        end
  end.

(** Each kind of property is read once at most. *)
Definition deserialize_node_properties (token : lexical_token) (line indent : Z)
  : parser (bool * lexical_token * Z * Z) :=
  set_needs false false;;
  '(token, line, indent) ← properties_loop 4 token line indent;
  p ← gets props;
  if p.(needs_anchor_impl) || p.(needs_tag_impl) then mret (true, token, line, indent)
  else
    line ← lines_processed;
    indent ← last_token_begin_pos;
    mret (false, token, line, indent).

(** ** Keys and values *)
Definition in_flow : parser bool := gets (fun d => 0 <? d.(m_flow_context_depth)).
Definition flow_state_is_value : parser bool :=
  gets (fun d => match d.(m_flow_token_state) with NEEDS_VALUE_OR_SUFFIX => true | _ => false end).

Definition add_new_key (key : dnode) (line indent : Z) : parser unit :=
  flow ← in_flow;
  (if (flow : bool) then
     is_value ← flow_state_is_value;
     if (is_value : bool) then mret tt else parse_error
   else if indent =? 0 then
     pop_num ← all_but_first;
     move_back pop_num
   else
     c ← back;
     if indent <=? c.(YamlDoc.indent) then
       s ← gets m_context_stack;
       match find_context (fun c => (indent =? c.(YamlDoc.indent)) && bool_decide (c.(state) = BLOCK_MAPPING)) s with
       | Some pop_num => move_back pop_num
       | None => parse_error
       end
     else mret tt);;
  n ← current_value;
  (if is_sequence n then
     p ← current;
     p ← in_memory (emplace_back p mapping);
     modify (set_current_node (Some p));;
     push (Context line indent BLOCK_MAPPING (Some p))
   else mret tt);;
  p ← current;
  '(p, is_new) ← in_memory (fun m => '(m, p, is_new) ← emplace_key p key m; Ret (m, (p, is_new)));
  if negb is_new then parse_error
  else
    modify (set_current_node (Some p));;
    key_context ← back;
    push (Context key_context.(YamlDoc.line) key_context.(YamlDoc.indent) MAPPING_VALUE (Some p)).

Definition assign_node_value (node_value : dnode) : parser unit :=
  flow ← in_flow;
  n ← current_value;
  p ← current;
  if is_sequence n then
    (if (flow : bool) then
       is_value ← flow_state_is_value;
       if (is_value : bool) then modify (set_flow_token_state NEEDS_SEPARATOR_OR_SUFFIX) else parse_error
     else mret tt);;
    in_memory (emplace_back p node_value);;
    mret tt
  else
    assign_node p node_value;;
    s ← gets m_context_stack;
    match s with
    | [] => mret tt
    | c :: _ =>
        if (flow : bool) || negb (bool_decide (c.(state) = BLOCK_MAPPING_EXPLICIT_KEY)) then
          pop_back;;
          c ← back;
          modify (set_current_node c.(p_node));;
          (if (flow : bool) then modify (set_flow_token_state NEEDS_SEPARATOR_OR_SUFFIX) else mret tt)
        else mret tt
    end.

(** The token, the column and the line afterwards, and whether the token is new. *)
Definition deserialize_scalar (node : dnode) (indent line : Z) (token : lexical_token)
  : parser (bool * lexical_token * Z * Z) :=
  n ← current_value;
  if is_mapping n then
    add_new_key node line indent;;
    mret (false, token, indent, line)
  else
    token ← next;
    processed ← lines_processed;
    pos ← last_token_begin_pos;
    if bool_decide (token.(type) = KEY_SEPARATOR) then
      if negb (line =? processed) then
        assign_node_value node;;
        c ← back;
        (if bool_decide (c.(state) = BLOCK_MAPPING_EXPLICIT_KEY) then mret tt
         else modify (set_current_node c.(p_node));; pop_back);;
        mret (true, token, pos, processed)
      else
        n ← current_value;
        (if is_scalar n then
           p ← current;
           s ← gets m_context_stack;
           match s with
           | c :: _ =>
               (if bool_decide (c.(state) = BLOCK_MAPPING_EXPLICIT_KEY)
                   || bool_decide (c.(state) = BLOCK_MAPPING_EXPLICIT_VALUE)
                then push (Context line indent BLOCK_MAPPING (Some p))
                else if c.(YamlDoc.line) =? line then parse_error
                else set_back (Context line indent BLOCK_MAPPING c.(p_node)));;
               assign_node p mapping
           | [] =>
               push (Context line indent BLOCK_MAPPING (Some p));;
               assign_node p mapping;;
               props ← gets props;
               (match props.(root_anchor_name) with
                | [] => mret tt
                | name => in_memory_ (alter_at p (fun n tables => Ret (add_anchor_name 0 name n tables)))
                end);;
               modify (set_props (NodeProperties props.(needs_anchor_impl) props.(needs_tag_impl) props.(anchor_name)
                         props.(tag_name) [] []))
           end
         else mret tt);;
        add_new_key node line indent;;
        mret (true, token, pos, processed)
    else
      assign_node_value node;;
      mret (true, token, pos, processed).

(** ** The tokens of a document

    What a token leads to: the next token is fetched; the loop goes on with a
    token that has been; the document ends. *)
Inductive continuation :=
  | Fetch
  | Continue (token : lexical_token) (line indent : Z)
  | Return (last_type : lexical_token_t).

Definition continue_here (token : lexical_token) : parser continuation :=
  line ← lines_processed;
  indent ← last_token_begin_pos;
  mret (Continue token line indent).

Definition on_explicit_key (line indent : Z) : parser continuation :=
  (if indent =? 0 then
     pop_num ← all_but_first;
     move_back pop_num
   else
     c ← back;
     if indent <? c.(YamlDoc.indent) then
       s ← gets m_context_stack;
       move_back (default (length s) (find_context (fun c => c.(YamlDoc.indent) <? indent) s))
     else mret tt);;
  n ← current_value;
  (if is_null n then p ← current; assign_node p mapping else mret tt);;
  c ← back;
  (if bool_decide (c.(state) = BLOCK_SEQUENCE) then
     p ← current;
     p ← in_memory (emplace_back p mapping);
     push (Context line indent BLOCK_MAPPING (Some p))
   else mret tt);;
  token ← next;
  if bool_decide (token.(type) = SEQUENCE_BLOCK_PREFIX) then
    p ← in_memory (fun m => Ret (new_node sequence m));
    push (Context line indent BLOCK_MAPPING_EXPLICIT_KEY (Some p));;
    modify (set_current_node (Some p));;
    line ← lines_processed;
    indent ← last_token_begin_pos;
    push (Context line indent BLOCK_SEQUENCE (Some p));;
    mret Fetch
  else
    p ← in_memory (fun m => Ret (new_node null_node m));
    push (Context line indent BLOCK_MAPPING_EXPLICIT_KEY (Some p));;
    modify (set_current_node (Some p));;
    continue_here token.

(** Back to the key that the separator ends. *)
Fixpoint pop_to_explicit_key (fuel : nat) : parser unit :=
  match fuel with
  | O => undefined
  | S fuel =>
      c ← back;
      if bool_decide (c.(state) = BLOCK_MAPPING_EXPLICIT_KEY) then mret tt
      else pop_back;; pop_to_explicit_key fuel
  end.

(** The key is copied into the mapping; the copy shares the key's anchors, which
    end with the key. *)
Definition on_explicit_value (token : lexical_token) (line indent : Z) : parser continuation :=
  s ← gets m_context_stack;
  pop_to_explicit_key (S (length s));;
  c ← back;
  key ← pointing c.(p_node);
  key_node ← in_memory (fun m => '(n, m) ← move_from key m; Ret (m, n));
  pop_back;;
  c ← back;
  p ← pointing c.(p_node);
  p ← in_memory (fun m => '(m, p, _) ← emplace_key p key_node m; Ret (m, p));
  modify (set_current_node (Some p));;
  push (Context line indent BLOCK_MAPPING_EXPLICIT_VALUE (Some p));;
  result ← (if bool_decide (token.(type) = SEQUENCE_BLOCK_PREFIX) then
              replace_current sequence;;
              push (Context line indent BLOCK_SEQUENCE (Some p));;
              mret Fetch
            else mret (Continue token line indent));
  modify (fun d => set_mem (destroy_in key_node d.(mem)) d);;
  mret result.

(** Entries of a sequence below the key. A node of its own table has the anchor
    of the first entry. *)
Definition on_key_of_sequence (line indent : Z) : parser continuation :=
  replace_current sequence;;
  c ← back;
  set_back (Context line indent BLOCK_SEQUENCE c.(p_node));;
  token ← next;
  line ← lines_processed;
  indent ← last_token_begin_pos;
  '(has_props, token, line, indent) ← deserialize_node_properties token line indent;
  if has_props : bool then
    line_after_props ← lines_processed;
    if line =? line_after_props then mret (Continue token line indent)
    else
      indent ← last_token_begin_pos;
      p ← current;
      p ← in_memory (emplace_back p mapping);
      modify (set_current_node (Some p));;
      push (Context line_after_props indent BLOCK_MAPPING (Some p));;
      table ← gets (fun d => length d.(mem).(tables));
      modify (fun d => let m := d.(mem) in
        set_mem (Memory m.(root) m.(keys) m.(next_key) (m.(tables) ++ [[]])) d);;
      n ← apply_node_properties table mapping;
      assign_node p n;;
      mret (Continue token line_after_props indent)
  else mret (Continue token line indent).

Definition on_key_separator (line indent : Z) : parser continuation :=
  n ← current_value;
  if match n with DSeq [] => true | _ => false end then parse_error
  else
    let old_indent := indent in
    let old_line := line in
    token ← next;
    line ← lines_processed;
    indent ← last_token_begin_pos;
    '(found_props, token, line, indent) ← deserialize_node_properties token line indent;
    processed ← lines_processed;
    if (found_props : bool) && (line =? processed) then mret (Continue token line indent)
    else
      let line := processed in
      indent ← last_token_begin_pos;
      flow ← in_flow;
      if flow : bool then mret (Continue token line indent)
      else
        s ← gets m_context_stack;
        if (line =? old_line) && match s with c :: _ => c.(YamlDoc.indent) <? old_indent | [] => true end
        then mret (Continue token line indent)
        else if old_line <? line then
          p ← gets props;
          meta ← gets mp_meta;
          tag_type ← (if p.(needs_tag_impl) then lift (resolve_tag p.(tag_name) meta) else mret TAG_NONE);
          match tag_type with
          | TAG_MAPPING | CUSTOM_TAG =>
              replace_current mapping;;
              p ← current;
              push (Context line indent BLOCK_MAPPING (Some p));;
              mret (Continue token line indent)
          | _ =>
              if bool_decide (token.(type) = SEQUENCE_BLOCK_PREFIX) then on_key_of_sequence line indent
              else mret (Continue token line indent)
          end
        else on_explicit_value token line indent.

Definition on_sequence_prefix (line indent : Z) : parser continuation :=
  c ← back;
  if c.(YamlDoc.indent) <? indent then
    p ← current;
    p ← in_memory (emplace_back p sequence);
    modify (set_current_node (Some p));;
    push (Context line indent BLOCK_SEQUENCE (Some p));;
    n ← apply_node_properties 0 sequence;
    assign_node p n;;
    mret Fetch
  else
    s ← gets m_context_stack;
    match find_context (fun c => bool_decide (c.(state) = BLOCK_SEQUENCE) && (indent =? c.(YamlDoc.indent))) s with
    | Some pop_num =>
        pop_many pop_num;;
        c ← back;
        modify (set_current_node c.(p_node));;
        mret Fetch
    | None => pop_many (length s);; undefined
    end.

(** The beginning of a flow sequence or a flow mapping; [key_state] is the state
    of a container that is a key. *)
Definition on_flow_begin (container : dnode) (flow_state key_state : context_state_t) (line indent : Z)
  : parser continuation :=
  depth ← gets m_flow_context_depth;
  (if depth =? 0 then
     modify (fun d => set_lx (set_context_state true d.(lx)) d);;
     if indent =? 0 then
       pop_num ← all_but_first;
       move_back pop_num
     else
       c ← back;
       if indent <=? c.(YamlDoc.indent) then
         s ← gets m_context_stack;
         match find_context (fun c => (indent =? c.(YamlDoc.indent)) &&
                 (bool_decide (c.(state) = BLOCK_MAPPING) || bool_decide (c.(state) = MAPPING_VALUE))) s with
         | Some pop_num => move_back pop_num
         | None => parse_error
         end
       else mret tt
   else
     is_value ← flow_state_is_value;
     if (is_value : bool) then mret tt else parse_error);;
  modify (set_flow_context_depth (u32 (depth + 1)));;
  c ← back;
  match c.(state) with
  | BLOCK_SEQUENCE | FLOW_SEQUENCE =>
      p ← current;
      p ← in_memory (emplace_back p container);
      modify (set_current_node (Some p));;
      push (Context line indent flow_state (Some p))
  | BLOCK_MAPPING | FLOW_MAPPING =>
      p ← in_memory (fun m => Ret (new_node container m));
      push (Context line indent key_state (Some p));;
      modify (set_current_node (Some p))
  | _ =>
      p ← current;
      assign_node p container;;
      set_back (Context line indent flow_state c.(p_node))
  end;;
  p ← current;
  n ← apply_node_properties 0 container;
  assign_node p n;;
  modify (set_flow_token_state NEEDS_VALUE_OR_SUFFIX);;
  mret Fetch.

(** Its end. The context at the back is closed, whatever its state, once there is
    one that fits. *)
Definition on_flow_end (flow_state key_state : context_state_t) (line : Z) : parser continuation :=
  depth ← gets m_flow_context_depth;
  if depth =? 0 then parse_error
  else
    modify (set_flow_context_depth (depth - 1));;
    (if depth - 1 =? 0 then modify (fun d => set_lx (set_context_state false d.(lx)) d) else mret tt);;
    s ← gets m_context_stack;
    match find_context (fun c => bool_decide (c.(state) = key_state) || bool_decide (c.(state) = flow_state)) s with
    | None => parse_error
    | Some _ =>
        last_context ← back;
        modify (set_current_node last_context.(p_node));;
        modify (fun d => set_context_stack (tail d.(m_context_stack)) d);;
        let indent := last_context.(YamlDoc.indent) in
        p ← pointing last_context.(p_node);
        s ← gets m_context_stack;
        if negb (bool_decide (s = [])) && bool_decide (last_context.(state) = key_state) then
          key_node ← in_memory (fun m => '(n, m) ← move_from p m; Ret (m, n));
          in_memory_ (delete_node p);;
          c ← back;
          modify (set_current_node c.(p_node));;
          modify (set_flow_token_state NEEDS_VALUE_OR_SUFFIX);;
          add_new_key key_node line indent;;
          mret Fetch
        else
          token ← next;
          (if bool_decide (token.(type) = KEY_SEPARATOR) then
             key_node ← in_memory (fun m => '(n, m) ← move_from p m; Ret (m, n));
             assign_node p mapping;;
             push (Context line indent BLOCK_MAPPING (Some p));;
             modify (set_flow_token_state NEEDS_VALUE_OR_SUFFIX);;
             add_new_key key_node line indent
           else
             (match s with c :: _ => modify (set_current_node c.(p_node)) | [] => mret tt end);;
             if 0 <? depth - 1 then modify (set_flow_token_state NEEDS_SEPARATOR_OR_SUFFIX) else mret tt);;
          continue_here token
    end.

Definition on_sequence_flow_begin := on_flow_begin sequence FLOW_SEQUENCE FLOW_SEQUENCE_KEY.
Definition on_sequence_flow_end := on_flow_end FLOW_SEQUENCE FLOW_SEQUENCE_KEY.
Definition on_mapping_flow_begin := on_flow_begin mapping FLOW_MAPPING FLOW_MAPPING_KEY.
Definition on_mapping_flow_end := on_flow_end FLOW_MAPPING FLOW_MAPPING_KEY.

Definition on_value_separator : parser continuation :=
  flow ← in_flow;
  if negb flow then undefined
  else
    is_value ← flow_state_is_value;
    if (is_value : bool) then parse_error
    else
      modify (set_flow_token_state NEEDS_VALUE_OR_SUFFIX);;
      mret Fetch.

Definition on_alias (token : lexical_token) (line indent : Z) : parser continuation :=
  p ← gets props;
  if p.(needs_tag_impl) then parse_error
  else
    tables ← gets (fun d => d.(mem).(tables));
    let anchor_counts := count token.(str) (default [] (tables !! 0%nat)) in
    if (anchor_counts =? 0)%nat then parse_error
    else
      node ← apply_node_properties 0 (Ref false 0 token.(str) (Nat.modulo (anchor_counts - 1) 64));
      '(should_continue, token, indent, line) ← deserialize_scalar node indent line token;
      mret (if should_continue : bool then Continue token line indent else Fetch).

Section scalars.
Context (from_chars : chars -> option Z).

Definition scalar_tag : parser tag_t :=
  p ← gets props;
  meta ← gets mp_meta;
  if p.(needs_tag_impl) then lift (resolve_tag p.(tag_name) meta) else mret TAG_NONE.

Definition on_scalar (token : lexical_token) (line indent : Z) : parser continuation :=
  tag_type ← scalar_tag;
  v ← lift (parse_flow from_chars token.(type) tag_type token.(str));
  node ← apply_node_properties 0 (Leaf v);
  '(do_continue, token, indent, line) ← deserialize_scalar node indent line token;
  mret (if do_continue : bool then Continue token line indent else Fetch).

(** Here the loop goes on with the same token if it has become a key. *)
Definition on_block_scalar (token : lexical_token) (line indent : Z) : parser continuation :=
  tag_type ← scalar_tag;
  header ← gets (fun d => d.(lx).(m_block_scalar_header));
  v ← lift (parse_block from_chars token.(type) tag_type token.(str) header);
  node ← apply_node_properties 0 (Leaf v);
  '(_, token, indent, line) ← deserialize_scalar node indent line token;
  mret (Continue token line indent).

Definition on_token (token : lexical_token) (line indent : Z) : parser continuation :=
  match token.(type) with
  | EXPLICIT_KEY_PREFIX => on_explicit_key line indent
  | KEY_SEPARATOR => on_key_separator line indent
  | ANCHOR_PREFIX | TAG_PREFIX =>
      '(_, token, line, indent) ← deserialize_node_properties token line indent;
      mret (Continue token line indent)
  | SEQUENCE_BLOCK_PREFIX => on_sequence_prefix line indent
  | SEQUENCE_FLOW_BEGIN => on_sequence_flow_begin line indent
  | SEQUENCE_FLOW_END => on_sequence_flow_end line
  | MAPPING_FLOW_BEGIN => on_mapping_flow_begin line indent
  | MAPPING_FLOW_END => on_mapping_flow_end line
  | VALUE_SEPARATOR => on_value_separator
  | ALIAS_PREFIX => on_alias token line indent
  | PLAIN_SCALAR | SINGLE_QUOTED_SCALAR | DOUBLE_QUOTED_SCALAR => on_scalar token line indent
  | BLOCK_LITERAL_SCALAR | BLOCK_FOLDED_SCALAR => on_block_scalar token line indent
  | END_OF_BUFFER | END_OF_DIRECTIVES | END_OF_DOCUMENT => mret (Return token.(type))
  | YAML_VER_DIRECTIVE | TAG_DIRECTIVE | INVALID_DIRECTIVE => undefined
  end.

Fixpoint deserialize_loop (fuel : nat) (token : lexical_token) (line indent : Z) : parser lexical_token_t :=
  match fuel with
  | O => undefined
  | S fuel =>
      r ← on_token token line indent;
      match r with
      | Return last_type => mret last_type
      | Continue token line indent =>
          if bool_decide (token.(type) = END_OF_BUFFER) then mret END_OF_BUFFER
          else deserialize_loop fuel token line indent
      | Fetch =>
          token ← next;
          indent ← last_token_begin_pos;
          line ← lines_processed;
          if bool_decide (token.(type) = END_OF_BUFFER) then mret END_OF_BUFFER
          else deserialize_loop fuel token line indent
      end
  end.

(** Each token takes a character at least, and is handled twice at most. *)
Definition deserialize_node (token : lexical_token) : parser lexical_token_t :=
  line ← lines_processed;
  indent ← last_token_begin_pos;
  left ← gets (fun d => length d.(lx).(rest));
  deserialize_loop (3 * S left) token line indent.

(** ** Directives and documents *)
Definition set_version (v : chars) (m : metainfo) : metainfo :=
  MetaInfo true (word "1.1" v) m.(primary_handle_prefix) m.(secondary_handle_prefix) m.(named_handle_map).

(** A tag handle and its prefix: [!], [!!] or a named one; none twice. *)
Definition add_tag_handle (handle prefix : chars) (m : metainfo) : outcome metainfo :=
  match length handle with
  | 1%nat =>
      match m.(primary_handle_prefix) with
      | [] => Ret (MetaInfo m.(is_version_specified) m.(version_1_1) prefix m.(secondary_handle_prefix) m.(named_handle_map))
      | _ => Throw YamlParseError
      end
  | 2%nat =>
      match m.(secondary_handle_prefix) with
      | [] => Ret (MetaInfo m.(is_version_specified) m.(version_1_1) m.(primary_handle_prefix) prefix m.(named_handle_map))
      | _ => Throw YamlParseError
      end
  | _ =>
      match find_handle handle m.(named_handle_map) with
      | None => Ret (MetaInfo m.(is_version_specified) m.(version_1_1) m.(primary_handle_prefix)
                       m.(secondary_handle_prefix) ((handle, prefix) :: m.(named_handle_map)))
      | Some _ => Throw YamlParseError
      end
  end.

Fixpoint directives_loop (fuel : nat) (lacks_end_of_directives_marker : bool) : parser lexical_token :=
  match fuel with
  | O => undefined
  | S fuel =>
      token ← next;
      meta ← gets mp_meta;
      l ← gets lx;
      match token.(type) with
      | YAML_VER_DIRECTIVE =>
          if meta.(is_version_specified) then parse_error
          else
            modify (set_meta (set_version l.(m_yaml_version) meta));;
            directives_loop fuel true
      | TAG_DIRECTIVE =>
          meta ← lift (add_tag_handle l.(m_tag_handle) l.(m_tag_prefix) meta);
          modify (set_meta meta);;
          directives_loop fuel true
      | INVALID_DIRECTIVE => directives_loop fuel lacks_end_of_directives_marker
      | END_OF_DIRECTIVES => directives_loop fuel false
      | _ =>
          if lacks_end_of_directives_marker then parse_error
          else
            modify (fun d => set_lx (set_document_state false d.(lx)) d);;
            mret token
      end
  end.

Definition deserialize_directives : parser lexical_token :=
  modify (fun d => set_lx (set_document_state true d.(lx)) d);;
  left ← gets (fun d => length d.(lx).(rest));
  directives_loop (S (S left)) false.

Definition root_pointer : pointer := Pointer None [].

(** The container at the root, its properties, its context. *)
Definition begin_root (container : dnode) (state : context_state_t) : parser unit :=
  n ← apply_node_properties 0 container;
  assign_node root_pointer n;;
  line ← lines_processed;
  indent ← last_token_begin_pos;
  push (Context line indent state (Some root_pointer)).
Definition begin_flow_root (container : dnode) (state : context_state_t) : parser unit :=
  modify (fun d => set_flow_context_depth (u32 (d.(m_flow_context_depth) + 1)) d);;
  modify (fun d => set_lx (set_context_state true d.(lx)) d);;
  begin_root container state.

(** Properties on a line before that of the first scalar are the root's. *)
Definition defer_root_properties : parser unit :=
  modify (fun d => let p := d.(props) in
    set_props (NodeProperties false false
      (if p.(needs_anchor_impl) then [] else p.(anchor_name)) (if p.(needs_tag_impl) then [] else p.(tag_name))
      (if p.(needs_anchor_impl) then p.(anchor_name) else p.(root_anchor_name))
      (if p.(needs_tag_impl) then p.(tag_name) else p.(root_tag_name))) d).

Definition begin_document (token : lexical_token) (found_props : bool) (line : Z) : parser lexical_token :=
  match token.(type) with
  | SEQUENCE_BLOCK_PREFIX => begin_root sequence BLOCK_SEQUENCE;; next
  | SEQUENCE_FLOW_BEGIN => begin_flow_root sequence FLOW_SEQUENCE;; next
  | MAPPING_FLOW_BEGIN => begin_flow_root mapping FLOW_MAPPING;; next
  | EXPLICIT_KEY_PREFIX => begin_root mapping BLOCK_MAPPING;; mret token
  | PLAIN_SCALAR | SINGLE_QUOTED_SCALAR | DOUBLE_QUOTED_SCALAR | ALIAS_PREFIX =>
      processed ← lines_processed;
      (if found_props && (line <? processed) then defer_root_properties else mret tt);;
      mret token
  | _ => mret token
  end.

Fixpoint clear_contexts (s : list parse_context) : parser unit :=
  match s with
  | [] => mret tt
  | c :: s => destroy_context c;; clear_contexts s
  end.

(** The type of the token that ended the document. The parser can be used again,
    but for the names of properties that were not used. *)
Definition deserialize_document : parser lexical_token_t :=
  token ← deserialize_directives;
  line ← lines_processed;
  indent ← last_token_begin_pos;
  '(found_props, token, line, _) ← deserialize_node_properties token line indent;
  token ← begin_document token found_props line;
  modify (set_current_node (Some root_pointer));;
  last_type ← deserialize_node token;
  s ← gets m_context_stack;
  clear_contexts (rev s);;
  modify (fun d => set_context_stack [] (set_flow_token_state NEEDS_VALUE_OR_SUFFIX
            (set_flow_context_depth 0 (set_current_node None d))));;
  set_needs false false;;
  mret last_type.

Definition new_deserializer (input_view : chars) : deserializer :=
  Deserializer (lexical_analyzer input_view) (Memory null_node ∅ 0 [[]]) None [] 0 NEEDS_VALUE_OR_SUFFIX
    (MetaInfo false false [] [] []) (NodeProperties false false [] [] [] []).

(** [basic_node::deserialize], of a stream: the root, and the tables of anchors
    that it refers to. *)
Definition deserialize_view (input_view : chars) : outcome (dnode * anchor_tables) :=
  match deserialize_document (new_deserializer input_view) with
  | (d, Ret _) => Ret (d.(mem).(root), d.(mem).(tables))
  | (_, Throw e) => Throw e
  | (_, Undef) => Undef
  end.
Definition deserialize (stream : option chars) : outcome (dnode * anchor_tables) :=
  view ← get_buffer_view stream;
  deserialize_view view.
End scalars.

(** What the program sees of a document: a tree. One that refers to a node it is
    in has none. *)
Section trees.
Context (tables : anchor_tables).
Fixpoint trees (f : dnode -> outcome Yaml.node) (l : list dnode) : outcome (list Yaml.node) :=
  match l with
  | [] => Ret []
  | n :: l => t ← f n; ts ← trees f l; Ret (t :: ts)
  end.
Fixpoint pairs (f : dnode -> outcome Yaml.node) (l : list (nat * (dnode * dnode))) : outcome (list (Yaml.node * Yaml.node)) :=
  match l with
  | [] => Ret []
  | (_, (k, v)) :: l => tk ← f k; tv ← f v; ts ← pairs f l; Ret ((tk, tv) :: ts)
  end.
Fixpoint tree_of (fuel : nat) (n : dnode) : outcome Yaml.node :=
  match fuel with
  | O => Undef
  | S fuel =>
      match shown tables n with
      | Leaf v => Ret v
      | DSeq l => ts ← trees (tree_of fuel) l; Ret (Yaml.Seq ts)
      | DMap l => ts ← pairs (tree_of fuel) l; Ret (Yaml.Map ts)
      | Ref _ _ _ _ => Ret Yaml.Null
      end
  end.
End trees.

Definition document (from_chars : chars -> option Z) (stream : option chars) : outcome Yaml.node :=
  '(n, tables) ← deserialize from_chars stream;
  tree_of tables (S (node_size n + tables_size tables)) n.

Definition lines (l : list string) : chars := mjoin ((fun s => bytes_of s ++ [newline]) <$> l).

Example a_ping_list :
  document (fun _ => None) (Some (lines ["mesh:"; "  udp:"; "    group1:"; "    - 10.0.0.1 # one"; "    - 10.0.0.2";
    "    group2: []"; "  tcp: null"; "arrow: {a: [1, 'two']}"]))
  = Ret (Yaml.Map
      [(Yaml.Str "arrow", Yaml.Map [(Yaml.Str "a", Yaml.Seq [Yaml.Int 1; Yaml.Str "two"])]);
       (Yaml.Str "mesh", Yaml.Map
         [(Yaml.Str "tcp", Yaml.Null);
          (Yaml.Str "udp", Yaml.Map
            [(Yaml.Str "group1", Yaml.Seq [Yaml.Str "10.0.0.1"; Yaml.Str "10.0.0.2"]); (Yaml.Str "group2", Yaml.Seq [])])])]).
Proof. vm_compute. reflexivity. Qed.

(** Where a document is taken for another: a key without a value takes in its
    sibling; a flow container need not end; the last of several scalars at the
    root counts; and an entry below a scalar is sought on an empty stack. *)
Example empty_value_takes_sibling :
  document (fun _ => None) (Some (lines ["mesh:"; "  udp:"; "  tcp:"; "    g: 1"]))
  = Ret (Yaml.Map [(Yaml.Str "mesh", Yaml.Map [(Yaml.Str "udp", Yaml.Map [(Yaml.Str "tcp", Yaml.Map [(Yaml.Str "g", Yaml.Int 1)])])])]).
Proof. vm_compute. reflexivity. Qed.
Example open_container : document (fun _ => None) (Some (lines ["a: [1, 2"]))
  = Ret (Yaml.Map [(Yaml.Str "a", Yaml.Seq [Yaml.Int 1; Yaml.Int 2])]).
Proof. vm_compute. reflexivity. Qed.
Example scalars_at_root :
  document (fun _ => None) (Some (lines ["foo"; "bar"])) = Ret (Yaml.Str "bar") /\
  document (fun _ => None) (Some (lines ["foo"; "- bar"])) = Undef.
Proof. vm_compute. split; reflexivity. Qed.
