(* ===== verification/YamlBlock.v ===== *)
(** * YamlBlock: the parser on text in block style.

    Lemmas on single steps: a mapping with a hole as the place where the parser
    is, the tokens of plain keys and values with their positions, and the
    parser's operations while nothing but block mappings and sequences is open.
    [YamlDump] puts them together. *)
From S2P Require Import Prelude Prog Text CxxString Yaml YamlScan YamlConv YamlParse YamlPlain YamlInput YamlLex YamlNode YamlDoc.
From Stdlib Require Import Ascii.
From Stdlib Require String.
Local Open Scope Z_scope.

(** ** Keys that are strings *)
Abbreviation entries := (list (nat * (dnode * dnode))).
Definition str_key (k : chars) : dnode := Leaf (Yaml.Str (of_bytes k)).

Lemma string_lt_total a b : a <> b -> string_lt a b = negb (string_lt b a).
Proof.
  intros Hab. unfold string_lt. rewrite (String.compare_antisym b a).
  destruct (String.compare a b) eqn:Hc; [|done..]. by apply String.compare_eq_iff in Hc.
Qed.
Lemma string_lt_irrefl a : string_lt a a = false.
Proof.
  destruct (string_lt a a) eqn:H; [|done]. unfold string_lt in H.
  pose proof (String.compare_antisym a a) as Ha. by destruct (String.compare a a).
Qed.

Lemma key_less_str tables a b :
  key_less tables (Leaf (Yaml.Str a)) (Leaf (Yaml.Str b)) = Ret (string_lt a b).
Proof.
  unfold key_less. cbn. destruct (String.eqb_spec a b) as [->|Hab]; [|done]. by rewrite string_lt_irrefl.
Qed.

(** Where a key goes. *)
Fixpoint place (k : chars) (l : entries) : entries * entries :=
  match l with
  | [] => ([], [])
  | (i, (Leaf (Yaml.Str k'), v)) :: l' =>
      if string_lt k' (of_bytes k) then let '(a, b) := place k l' in ((i, (Leaf (Yaml.Str k'), v)) :: a, b)
      else ([], l)
  | _ => ([], l)
  end.
Definition str_keys (l : entries) : Prop := Forall (fun e : nat * (dnode * dnode) => exists k, e.2.1 = Leaf (Yaml.Str k)) l.
Definition key_of (e : nat * (dnode * dnode)) : dnode := e.2.1.

Lemma place_app k l : let '(a, b) := place k l in l = a ++ b.
Proof.
  induction l as [|[i [[[| | | |k'| |]| | |] v]] l IH]; cbn; try done.
  destruct (string_lt _ _); [|done]. destruct (place k l) as [a b]. cbn. by rewrite IH.
Qed.

Lemma insert_entry_new tables id k v l :
  str_keys l -> str_key k ∉ (key_of <$> l) ->
  insert_entry tables id (str_key k) v l =
  Ret (id, (let '(a, b) := place k l in a ++ (id, (str_key k, v)) :: b), true).
Proof.
  intros Hl Hk. induction Hl as [|[i [k0 w]] l [k' Hk'] Hl IH]; [done|]. cbn in Hk'. subst k0.
  rewrite fmap_cons in Hk. apply not_elem_of_cons in Hk as [Hne Hk]. cbn [insert_entry place].
  rewrite (key_less_str tables k' (of_bytes k) : key_less tables (Leaf (Yaml.Str k')) (str_key k) = _).
  cbn [mbind outcome_bind].
  assert (k' <> of_bytes k) as Hne' by (intros ->; by apply Hne).
  destruct (string_lt k' (of_bytes k)) eqn:Hlt.
  - rewrite IH by done. cbn [mbind outcome_bind]. by destruct (place k l).
  - rewrite (key_less_str tables (of_bytes k) k' : key_less tables (str_key k) (Leaf (Yaml.Str k')) = _).
    cbn [mbind outcome_bind]. by rewrite string_lt_total, Hlt by done.
Qed.

(** ** The tree around a node *)

(** A mapping with a hole: the entries before and after that of the hole. *)
Record frame := Frame { f_before : entries; f_id : nat; f_key : dnode; f_after : entries }.
Definition fill_frame (f : frame) (n : dnode) : dnode := DMap (f.(f_before) ++ (f.(f_id), (f.(f_key), n)) :: f.(f_after)).
Definition frame_ok (f : frame) : Prop := f.(f_id) ∉ f.(f_before).*1.

(** From the hole outwards. *)
Fixpoint plug (c : list frame) (n : dnode) : dnode :=
  match c with [] => n | f :: c => plug c (fill_frame f n) end.
Fixpoint way (c : list frame) : list step :=
  match c with [] => [] | f :: c => way c ++ [Val f.(f_id)] end.

Lemma find_value_hole f n : frame_ok f -> find_value f.(f_id) (f.(f_before) ++ (f.(f_id), (f.(f_key), n)) :: f.(f_after)) = Some n.
Proof.
  unfold frame_ok. intros Hf. induction f.(f_before) as [|[i [k v]] l IH]; cbn; [by rewrite Nat.eqb_refl|].
  rewrite fmap_cons in Hf. apply not_elem_of_cons in Hf as [Hne Hf]. cbn in Hne.
  destruct (Nat.eqb_spec i (f_id f)); [congruence|]. by apply IH.
Qed.
Lemma set_value_hole f n m : frame_ok f ->
  set_value f.(f_id) m (f.(f_before) ++ (f.(f_id), (f.(f_key), n)) :: f.(f_after))
  = f.(f_before) ++ (f.(f_id), (f.(f_key), m)) :: f.(f_after).
Proof.
  unfold frame_ok. intros Hf. induction f.(f_before) as [|[i [k v]] l IH]; cbn; [by rewrite Nat.eqb_refl|].
  rewrite fmap_cons in Hf. apply not_elem_of_cons in Hf as [Hne Hf]. cbn in Hne.
  destruct (Nat.eqb_spec i (f_id f)); [congruence|]. by rewrite IH.
Qed.

Lemma get_path_app tables p q n :
  get_path tables (p ++ q) n = (c ← get_path tables p n; get_path tables q c).
Proof.
  revert n. induction p as [|s p IH]; intros n; [done|]. cbn [app get_path].
  destruct (get_child s (shown tables n)); [|done]. cbn. apply IH.
Qed.
Lemma get_path_plug tables c n : Forall frame_ok c -> get_path tables (way c) (plug c n) = Some n.
Proof.
  intros Hc. revert n. induction Hc as [|f c Hf Hc IH]; intros n; [done|]. cbn [plug way].
  rewrite get_path_app, IH. cbn. unfold fill_frame. cbn. by rewrite find_value_hole.
Qed.

Lemma alter_path_app f p q n tables :
  alter_path f (p ++ q) n tables = alter_path (alter_path f q) p n tables.
Proof.
  revert n tables. induction p as [|s p IH]; intros n tables; [done|]. cbn [app alter_path]. unfold on_shown.
  destruct n; try (destruct (get_child s _) as [c|]; [|done]; by rewrite IH). 
Qed.
Lemma alter_path_plug f c n tables : Forall frame_ok c ->
  alter_path f (way c) (plug c n) tables = ('(n, tables) ← f n tables; Ret (plug c n, tables)).
Proof.
  intros Hc. revert f n tables. induction Hc as [|fr c Hf Hc IH]; intros f n tables.
  - cbn. by destruct (f n tables) as [[]| |].
  - cbn [plug way]. rewrite alter_path_app, IH. unfold fill_frame. cbn [alter_path on_shown get_child].
    rewrite find_value_hole by done. destruct (f n tables) as [[m tables']| |]; cbn; [|done..].
    by rewrite set_value_hole.
Qed.

(** ** Tokens of a plain text *)

(** Letters, digits and some marks; a letter or a digit first, no colon at the
    end. *)
Definition plain_char (c : ascii) : bool := isalnum c || one_of (bytes_of "._-/:") c.
Definition plain_text (s : chars) : Prop :=
  Forall (fun c => plain_char c = true) s /\
  match s with c :: _ => isalnum c = true | [] => False end /\ last s <> Some ":"%char.

(** Within a flow container, or outside of one. *)
Definition reads_in (flow : bool) (pre s : chars) (l : lexer) : Prop := lexer_at pre s l /\ l.(flow_context) = flow.
Abbreviation reads := (reads_in false).

Definition small (s : chars) : Prop := Z.of_nat (length s) < 2 ^ 32.

Lemma reads_advance flow pre s n l : reads_in flow pre s l -> reads_in flow (pre ++ take n s) (drop n s) (advance n l).
Proof. intros (H & Hf). split; [by apply advance_at|done]. Qed.

Lemma run_blanks ws s :
  Forall (fun c => white_space_or_newline c = true) ws ->
  match s with c :: _ => white_space_or_newline c = false | [] => True end ->
  run_of white_space_or_newline (ws ++ s) = length ws.
Proof.
  intros Hw Hs. induction Hw as [|c ws Hc Hw IH]; cbn.
  - destruct s as [|c s]; [done|]. cbn. by rewrite Hs.
  - by rewrite Hc, IH.
Qed.

Lemma begin_token_reads flow pre ws s l :
  reads_in flow pre (ws ++ s) l -> small (pre ++ ws ++ s) ->
  Forall (fun c => white_space_or_newline c = true) ws ->
  match s with c :: _ => white_space_or_newline c = false | [] => True end ->
  reads_in flow (pre ++ ws) s (begin_token l) /\ get_lines_processed (begin_token l) = line_of (pre ++ ws) /\
  get_last_token_begin_pos (begin_token l) = column_of (pre ++ ws).
Proof.
  intros (Hat & Hf) Hs Hw Hhd.
  destruct (begin_token_at pre (ws ++ s) l _ Hat Hs (run_blanks ws s Hw Hhd)) as (H1 & H2 & H3 & H4 & H5).
  rewrite take_app_length, drop_app_length in *. split_and!; [split; [done|congruence]|done|done].
Qed.

(** The next token, from what [scan_token] gives at its first character. *)
Lemma fetch flow pre ws c s l n tk :
  reads_in flow pre (ws ++ c :: s) l -> small (pre ++ ws ++ c :: s) ->
  Forall (fun c => white_space_or_newline c = true) ws -> white_space_or_newline c = false -> c <> "#"%char ->
  (forall l, l.(rest) = c :: s -> l.(flow_context) = flow -> scan_token c s l = Ret (advance n l, tk)) ->
  exists l', get_next_token l = Ret (l', tk) /\ reads_in flow (pre ++ ws ++ take n (c :: s)) (drop n (c :: s)) l' /\
    get_lines_processed l' = line_of (pre ++ ws) /\ get_last_token_begin_pos l' = column_of (pre ++ ws).
Proof.
  intros Hr Hs Hw Hc Hne Hscan. destruct (begin_token_reads _ pre ws (c :: s) l Hr Hs Hw Hc) as (Hb & Hl & Hp).
  unfold get_next_token. cbn [next_token]. destruct Hb as ((Hb1 & Hb2 & Hb3) & Hf). rewrite Hb2.
  rewrite (proj2 (Ascii.eqb_neq _ _)) by done. rewrite Hscan by done. eexists. split; [done|].
  rewrite app_assoc. split_and!; [|done|done]. by apply reads_advance.
Qed.

Lemma fetch_end pre ws l :
  reads pre ws l -> small (pre ++ ws) -> Forall (fun c => white_space_or_newline c = true) ws ->
  exists l', get_next_token l = Ret (l', Token END_OF_BUFFER []) /\ l'.(rest) = [].
Proof.
  intros Hr Hs Hw. rewrite <- (app_nil_r ws) in Hr, Hs. destruct (begin_token_reads _ pre ws [] l Hr Hs Hw I) as (Hb & _).
  unfold get_next_token. cbn [next_token]. destruct Hb as ((_ & Hb & _) & _). rewrite Hb. by exists (begin_token l).
Qed.

(** What ends a plain scalar here. *)
Definition ends_here (s : chars) : Prop :=
  match s with
  | c :: s => c = newline \/ (c = ":"%char /\ match s with c :: _ => white_space_or_newline c = true | [] => False end)
  | [] => False
  end.

Lemma plain_char_safe c :
  plain_char c = true ->
  white_space_or_newline c = false /\ flow_indicator c = false /\ must_be_escaped c = false /\ c <> newline /\ c <> space.
Proof.
  intros Hc. pose proof (forall_ascii (fun c => negb (plain_char c) ||
    (negb (white_space_or_newline c) && negb (flow_indicator c) && negb (must_be_escaped c)
      && negb (Ascii.eqb c newline) && negb (Ascii.eqb c space))) eq_refl c) as H. cbn beta in H.
  rewrite Hc in H. cbn [negb orb] in H. repeat apply andb_true_iff in H as [H ?%negb_true_iff]. apply negb_true_iff in H.
  split_and!; try done; by apply Ascii.eqb_neq.
Qed.

Lemma plain_length_text s r :
  Forall (fun c => plain_char c = true) s -> last s <> Some ":"%char -> ends_here r ->
  plain_length false (s ++ r) = length s.
Proof.
  intros Hs Hl Hr. induction Hs as [|c s Hc Hs IH].
  - destruct r as [|c r]; [done|]. cbn [app plain_length length]. unfold ends_plain. destruct Hr as [->|[-> Hr]]; [done|].
    cbn [Ascii.eqb]. destruct r as [|c r]; [done|]. by rewrite Hr.
  - cbn [app plain_length length]. assert (ends_plain false c (s ++ r) = false) as ->.
    + destruct (plain_char_safe c Hc) as (_ & Hfl & _ & Hn & Hsp). unfold ends_plain.
      rewrite (proj2 (Ascii.eqb_neq _ _) Hn), (proj2 (Ascii.eqb_neq _ _) Hsp). rewrite Hfl.
      destruct (Ascii.eqb_spec c ":") as [->|_]; [|done]. destruct s as [|d s]; [done|].
      apply list.Forall_cons in Hs as [Hd _]. cbn [app]. by destruct (plain_char_safe d Hd) as (-> & _).
    + f_equal. apply IH. destruct s as [|d s]; [done|]. by rewrite last_cons_cons in Hl.
Qed.

Lemma plain_text_scan c s l :
  isalnum c = true -> scan_token c s l = plain_token l.
Proof. intros Hc. destruct c as [[] [] [] [] [] [] [] []]; try discriminate Hc; reflexivity. Qed.

Lemma plain_content s : Forall (fun c => plain_char c = true) s -> check_scalar_content s = Ret tt.
Proof.
  intros Hs. unfold check_scalar_content. replace (existsb must_be_escaped s) with false; [done|].
  induction Hs as [|c s Hc Hs IH]; [done|]. cbn [existsb]. by destruct (plain_char_safe c Hc) as (_ & _ & -> & _).
Qed.

Lemma fetch_plain pre ws t r l :
  reads pre (ws ++ t ++ r) l -> small (pre ++ ws ++ t ++ r) ->
  Forall (fun c => white_space_or_newline c = true) ws -> plain_text t -> ends_here r ->
  exists l', get_next_token l = Ret (l', Token PLAIN_SCALAR t) /\ reads (pre ++ ws ++ t) r l' /\
    get_lines_processed l' = line_of (pre ++ ws) /\ get_last_token_begin_pos l' = column_of (pre ++ ws).
Proof.
  intros Hr Hs Hw (Ht & Hhd & Hlast) Hend. destruct t as [|c t]; [done|].
  pose proof Ht as [Hc _]%list.Forall_cons. destruct (plain_char_safe c Hc) as (Hb & _ & _ & _).
  assert (c <> "#"%char) as Hne by (intros ->; discriminate Hhd).
  destruct (fetch false pre ws c (t ++ r) l (length (c :: t)) (Token PLAIN_SCALAR (c :: t)) Hr Hs Hw Hb Hne) as (l' & H1 & H2 & H3).
  - intros l0 Hl0 Hf. rewrite plain_text_scan by done. unfold plain_token. rewrite Hl0, Hf.
    change (c :: t ++ r) with ((c :: t) ++ r). rewrite plain_length_text by done. rewrite take_app_length.
    by rewrite plain_content.
  - exists l'. split; [done|]. change (c :: t ++ r) with ((c :: t) ++ r) in H2.
    by rewrite take_app_length, drop_app_length in H2.
Qed.

(** *** A scalar, plain or in single quotes

    In quotes there are blanks too, but no quote. *)
Inductive atom := Plain (t : chars) | Quoted (t : chars).
Definition atom_type (a : atom) : lexical_token_t := match a with Plain _ => PLAIN_SCALAR | Quoted _ => SINGLE_QUOTED_SCALAR end.
Definition atom_str (a : atom) : chars := match a with Plain t | Quoted t => t end.
Definition atom_token (a : atom) : lexical_token := Token (atom_type a) (atom_str a).
Definition atom_text (a : atom) : chars := match a with Plain t => t | Quoted t => quote :: t ++ [quote] end.

Definition quoted_char (c : ascii) : bool := plain_char c || Ascii.eqb c space.
Definition quoted_text (s : chars) : Prop := Forall (fun c => quoted_char c = true) s.
Definition atom_ok (a : atom) : Prop := match a with Plain t => plain_text t | Quoted t => quoted_text t end.

Lemma quoted_char_safe c :
  quoted_char c = true -> c <> quote /\ c <> newline /\ must_be_escaped c = false.
Proof.
  intros Hc. pose proof (forall_ascii (fun c => negb (quoted_char c) ||
    (negb (Ascii.eqb c quote) && negb (Ascii.eqb c newline) && negb (must_be_escaped c))) eq_refl c) as H. cbn beta in H.
  rewrite Hc in H. cbn [negb orb] in H. repeat apply andb_true_iff in H as [H ?%negb_true_iff]. apply negb_true_iff in H.
  split_and!; try done; by apply Ascii.eqb_neq.
Qed.

Lemma single_quoted_text t r :
  quoted_text t -> ends_here r -> single_quoted_length (t ++ quote :: r) = Some (length t).
Proof.
  intros Ht Hr. induction Ht as [|c t Hc Ht IH].
  - destruct r as [|c r]; [done|]. cbn [app single_quoted_length length]. rewrite Ascii.eqb_refl.
    by destruct Hr as [->|[-> _]].
  - cbn [app single_quoted_length length]. destruct (quoted_char_safe c Hc) as (Hq & _).
    by rewrite (proj2 (Ascii.eqb_neq _ _) Hq), IH.
Qed.

Lemma quoted_content s : quoted_text s -> check_scalar_content s = Ret tt.
Proof.
  intros Hs. unfold check_scalar_content. replace (existsb must_be_escaped s) with false; [done|].
  induction Hs as [|c s Hc Hs IH]; [done|]. cbn [existsb]. by destruct (quoted_char_safe c Hc) as (_ & _ & ->).
Qed.

Lemma fetch_atom pre ws a r l :
  reads pre (ws ++ atom_text a ++ r) l -> small (pre ++ ws ++ atom_text a ++ r) ->
  Forall (fun c => white_space_or_newline c = true) ws -> atom_ok a -> ends_here r ->
  exists l', get_next_token l = Ret (l', atom_token a) /\ reads (pre ++ ws ++ atom_text a) r l' /\
    get_lines_processed l' = line_of (pre ++ ws) /\ get_last_token_begin_pos l' = column_of (pre ++ ws).
Proof.
  destruct a as [t|t]; [apply fetch_plain|]. intros Hr Hs Hw Ht Hend. cbn [atom_text app atom_ok] in *.
  rewrite <- app_assoc in Hr, Hs. cbn [app] in Hr, Hs.
  destruct (fetch false pre ws quote (t ++ quote :: r) l (S (S (length t))) (Token SINGLE_QUOTED_SCALAR t) Hr Hs Hw)
    as (l' & H1 & H2 & H3); [done|done| |].
  - intros l0 Hl0 Hf.
    change (scan_token quote ?s l0) with (quoted_token SINGLE_QUOTED_SCALAR (single_quoted_length s) s l0).
    rewrite single_quoted_text by done. unfold quoted_token. by rewrite take_app_length, quoted_content.
  - exists l'. split; [done|].
    assert (quote :: t ++ quote :: r = (quote :: t ++ [quote]) ++ r) as He by (cbn; by rewrite <- app_assoc).
    rewrite He in H2. replace (S (S (length t))) with (length (quote :: t ++ [quote])) in H2
      by (cbn [length]; rewrite length_app; cbn; lia).
    by rewrite take_app_length, drop_app_length in H2.
Qed.

Lemma atom_text_length a : atom_ok a -> (1 <= length (atom_text a))%nat.
Proof. destruct a as [t|t]; cbn; [|lia]. intros (_ & Ht & _). destruct t; [done|]. cbn. lia. Qed.

Lemma fetch_colon pre c r l :
  reads pre (":"%char :: c :: r) l -> small (pre ++ ":"%char :: c :: r) -> white_space_or_newline c = true ->
  exists l', get_next_token l = Ret (l', Token KEY_SEPARATOR []) /\ reads (pre ++ [":"%char]) (c :: r) l' /\
    get_lines_processed l' = line_of pre /\ get_last_token_begin_pos l' = column_of pre.
Proof.
  intros Hr Hs Hc. destruct (fetch false pre [] ":" (c :: r) l 1 (Token KEY_SEPARATOR [])) as (l' & H1 & H2 & H3); try done.
  - intros l0 _ _. unfold scan_token. cbn [Ascii.eqb]. cbv beta iota zeta. cbn [Bool.eqb]. by rewrite Hc.
  - exists l'. cbn [app] in H3. by rewrite app_nil_r in H3.
Qed.

Lemma fetch_dash pre ws r l :
  reads pre (ws ++ "-"%char :: space :: r) l -> small (pre ++ ws ++ "-"%char :: space :: r) ->
  Forall (fun c => white_space_or_newline c = true) ws ->
  exists l', get_next_token l = Ret (l', Token SEQUENCE_BLOCK_PREFIX []) /\
    reads (pre ++ ws ++ ["-"%char; space]) r l' /\
    get_lines_processed l' = line_of (pre ++ ws) /\ get_last_token_begin_pos l' = column_of (pre ++ ws).
Proof.
  intros Hr Hs Hw. destruct (fetch false pre ws "-" (space :: r) l 2 (Token SEQUENCE_BLOCK_PREFIX [])) as (l' & H1 & H2 & H3); try done.
  by exists l'.
Qed.

(** A mark of one character, whatever follows. *)
Lemma fetch_mark flow pre ws c s l ty :
  reads_in flow pre (ws ++ c :: s) l -> small (pre ++ ws ++ c :: s) ->
  Forall (fun c => white_space_or_newline c = true) ws -> white_space_or_newline c = false -> c <> "#"%char ->
  (forall s l, scan_token c s l = token_of 1 ty l) ->
  exists l', get_next_token l = Ret (l', Token ty []) /\ reads_in flow (pre ++ ws ++ [c]) s l' /\
    get_lines_processed l' = line_of (pre ++ ws) /\ get_last_token_begin_pos l' = column_of (pre ++ ws).
Proof.
  intros Hr Hs Hw Hc Hne Hscan. destruct (fetch flow pre ws c s l 1 (Token ty []) Hr Hs Hw Hc Hne) as (l' & H); [by intros|].
  by exists l'.
Qed.

(** *** Positions at the beginning of a line *)
Definition indentation (n : nat) : chars := newline :: replicate n space.

Lemma indentation_blank n : Forall (fun c => white_space_or_newline c = true) (indentation n).
Proof. constructor; [done|]. apply list.Forall_replicate. done. Qed.

Lemma newlines_replicate n : newlines (replicate n space) = 0.
Proof. induction n as [|n IH]; [done|]. cbn [replicate]. change (space :: ?l) with ([space] ++ l). by rewrite newlines_app. Qed.
Lemma newlines_rev s : newlines (rev s) = newlines s.
Proof. induction s as [|c s IH]; [done|]. cbn [rev]. rewrite newlines_app, IH, Z.add_comm. by rewrite <- (newlines_app [c] s). Qed.
Lemma line_of_app a b : line_of (a ++ b) = line_of a + newlines b.
Proof. unfold line_of. by rewrite !newlines_rev, newlines_app. Qed.

Lemma no_newlines s : newline ∉ s -> newlines s = 0.
Proof.
  intros Hs. induction s as [|c s IH]; [done|]. apply not_elem_of_cons in Hs as [Hc Hs].
  change (c :: s) with ([c] ++ s). rewrite newlines_app, IH by done. unfold newlines.
  by rewrite filter_cons_False by done.
Qed.
Lemma plain_no_newline t : plain_text t -> newline ∉ t.
Proof.
  intros (Ht & _) Hin. rewrite list.Forall_forall in Ht. specialize (Ht _ Hin). discriminate Ht.
Qed.

Lemma column_of_app a b : newline ∉ b -> column_of (a ++ b) = column_of a + Z.of_nat (length b).
Proof.
  intros Hb. unfold column_of. rewrite rev_app_distr, column_app by (by rewrite newlines_rev, no_newlines).
  rewrite length_rev. lia.
Qed.
Lemma column_of_indentation pre n : column_of (pre ++ indentation n) = Z.of_nat n.
Proof.
  unfold indentation. change (newline :: replicate n space) with ([newline] ++ replicate n space).
  rewrite app_assoc, column_of_app.
  - unfold column_of. rewrite rev_app_distr. cbn. rewrite length_replicate. unfold column. cbn. lia.
  - intros H%elem_of_replicate. by destruct H.
Qed.
Lemma newlines_indentation n : newlines (indentation n) = 1.
Proof. unfold indentation. change (newline :: ?l) with ([newline] ++ l). by rewrite newlines_app, newlines_replicate. Qed.

(** ** The parser between two tokens

    No key of its own is on the heap, there are no properties and no flow
    containers. *)
Definition St (l : lexer) (n : dnode) (cur : list step) (s : list parse_context) : deserializer :=
  Deserializer l (Memory n ∅ 0 [[]]) (Some (Pointer None cur)) s 0 NEEDS_VALUE_OR_SUFFIX
    (MetaInfo false false [] [] []) (NodeProperties false false [] [] [] []).

Definition unanchored (n : dnode) : Prop := match n with Ref _ _ _ _ => False | _ => True end.
(** A node whose end changes no anchor: a scalar or an empty container. *)
Definition slight (n : dnode) : Prop := match n with Leaf _ | DSeq [] | DMap [] => True | _ => False end.

Lemma shown_unanchored tables n : unanchored n -> shown tables n = n.
Proof. by destruct n. Qed.
Lemma destroy_slight n tables : slight n -> destroy n tables = tables.
Proof. by destruct n as [|[]|[]|]. Qed.

Ltac prog_step H := rewrite (prog_bind_ret _ _ _ _ _ H).

Lemma next_St l l' tk n cur s :
  get_next_token l = Ret (l', tk) -> next (St l n cur s) = (St l' n cur s, Ret tk).
Proof. intros Hn. unfold next. cbn [St lx]. by rewrite Hn. Qed.

Lemma current_value_St l c n s : Forall frame_ok c -> unanchored n ->
  current_value (St l (plug c n) (way c) s) = (St l (plug c n) (way c) s, Ret n).
Proof.
  intros Hc Hn. unfold current_value.
  prog_step (eq_refl : current (St l (plug c n) (way c) s) = (_, Ret (Pointer None (way c)))).
  unfold value_of, deref. cbn [St mem base path root YamlNode.tables mbind option_bind].
  rewrite get_path_plug by done. by rewrite shown_unanchored.
Qed.

(** With the tree [n] in memory. *)
Abbreviation memory_of n := (Memory n ∅ 0 [[]]).
Lemma assign_at c n v d : Forall frame_ok c -> slight n -> d.(mem) = memory_of (plug c n) ->
  assign_node (Pointer None (way c)) v d = (set_mem (memory_of (plug c v)) d, Ret tt).
Proof.
  intros Hc Hn Hm. unfold assign_node, in_memory_, in_memory, assign, alter_at. rewrite Hm. cbn [base path root YamlNode.tables].
  rewrite alter_path_plug by done. cbn [mbind outcome_bind]. by rewrite destroy_slight.
Qed.
Lemma assign_St l c n v cur s : Forall frame_ok c -> slight n ->
  assign_node (Pointer None (way c)) v (St l (plug c n) cur s) = (St l (plug c v) cur s, Ret tt).
Proof. intros Hc Hn. by rewrite (assign_at c n). Qed.

Lemma apply_St l m n cur s : apply_node_properties 0 n (St l m cur s) = (St l m cur s, Ret n).
Proof. done. Qed.

Lemma replace_current_St l c n v s : Forall frame_ok c -> slight n ->
  replace_current v (St l (plug c n) (way c) s) = (St l (plug c v) (way c) s, Ret tt).
Proof.
  intros Hc Hn. unfold replace_current.
  prog_step (eq_refl : current (St l (plug c n) (way c) s) = (_, Ret (Pointer None (way c)))).
  prog_step (assign_St l c n null_node (way c) s Hc Hn). prog_step (apply_St l (plug c null_node) v (way c) s).
  by apply assign_St.
Qed.

Definition no_property (t : lexical_token_t) : Prop := t <> ANCHOR_PREFIX /\ t <> TAG_PREFIX.
Definition unnamed : node_properties := NodeProperties false false [] [] [] [].
Lemma no_properties l m cur s depth state meta tk indent : no_property tk.(type) ->
  let d := Deserializer l m cur s depth state meta unnamed in
  deserialize_node_properties tk (get_lines_processed l) indent d
  = (d, Ret (false, tk, get_lines_processed l, get_last_token_begin_pos l)).
Proof.
  intros [H1 H2] d. unfold deserialize_node_properties.
  prog_step (eq_refl : set_needs false false d = (d, Ret tt)).
  assert (properties_loop 4 tk (get_lines_processed l) indent d = (d, Ret (tk, get_lines_processed l, indent))) as Hloop.
  { cbn [properties_loop]. prog_step (eq_refl : lines_processed d = (_, Ret (get_lines_processed l))).
    rewrite Z.ltb_irrefl. prog_step (eq_refl : gets props d = (_, Ret _)).
    prog_step (eq_refl : last_token_begin_pos d = (_, Ret _)). by destruct tk.(type). }
  by prog_step Hloop.
Qed.
Lemma node_properties_St l n cur s tk indent : no_property tk.(type) ->
  deserialize_node_properties tk (get_lines_processed l) indent (St l n cur s)
  = (St l n cur s, Ret (false, tk, get_lines_processed l, get_last_token_begin_pos l)).
Proof. apply no_properties. Qed.

Lemma emplace_back_St l c xs v cur s : Forall frame_ok c ->
  in_memory (emplace_back (Pointer None (way c)) v) (St l (plug c (DSeq xs)) cur s)
  = (St l (plug c (DSeq (xs ++ [v]))) cur s, Ret (child (Pointer None (way c)) (Elem (length xs)))).
Proof.
  intros Hc. unfold in_memory, emplace_back, deref, alter_at. cbn [St mem base path root YamlNode.tables mbind option_bind].
  rewrite get_path_plug by done. cbn [mbind outcome_bind shown]. by rewrite alter_path_plug.
Qed.

(** The entries made so far: keys are strings, the numbers are below the length. *)
Definition entries_ok (es : entries) : Prop := str_keys es /\ Forall (fun e => (e.1 < length es)%nat) es.
Definition new_frame (k : chars) (es : entries) : frame :=
  let '(a, b) := place k es in Frame a (length es) (str_key k) b.

Lemma new_frame_ok k es : entries_ok es -> frame_ok (new_frame k es).
Proof.
  intros [_ Hes]. unfold new_frame, frame_ok. pose proof (place_app k es) as Hab. destruct (place k es) as [a b]. cbn.
  intros (e & He & Hin)%list_elem_of_fmap. rewrite list.Forall_forall in Hes. specialize (Hes e).
  rewrite Hab in Hes at 1. assert (e ∈ a ++ b) as Hin' by (apply elem_of_app; by left). specialize (Hes Hin'). lia.
Qed.

Lemma emplace_key_St l c k es cur s : Forall frame_ok c -> entries_ok es -> str_key k ∉ (key_of <$> es) ->
  in_memory (fun m => '(m, p, is_new) ← emplace_key (Pointer None (way c)) (str_key k) m; Ret (m, (p, is_new)))
    (St l (plug c (DMap es)) cur s)
  = (St l (plug (new_frame k es :: c) null_node) cur s, Ret (Pointer None (way (new_frame k es :: c)), true)).
Proof.
  intros Hc [Hes _] Hk. unfold in_memory, emplace_key, deref, alter_at.
  cbn [St mem base path root YamlNode.tables mbind option_bind]. rewrite get_path_plug by done.
  cbn [mbind outcome_bind shown]. unfold emplace. rewrite insert_entry_new by done. cbn [mbind outcome_bind].
  rewrite alter_path_plug by done. cbn. unfold new_frame. by destruct (place k es).
Qed.
