(* ===== verification/YamlDump.v ===== *)
(** * YamlDump: what [yaml.dump] writes is read back.

    The agent stores the ping list and the addresses with the block style of
    PyYAML: nested mappings, their keys indented, and sequences of scalars, plain or
    in single quotes. Here
    such a text is cut into tokens, handed to the parser, and the document that
    comes out is the one that was printed. The proof follows the contexts that the
    parser leaves on its stack. *)
From S2P Require Import Prelude Prog Text CxxString Yaml YamlScan YamlConv YamlParse YamlPlain YamlInput YamlLex YamlNode YamlDoc YamlBlock.
From Stdlib Require Import Ascii.
From Stdlib Require String.
Local Open Scope Z_scope.

(** ** Contexts that the parser leaves behind

    Those above a mapping that is indented by [i], once what they belong to has
    ended. *)
Definition idle (i : Z) (c : parse_context) : Prop :=
  i <= c.(indent) /\ is_key_state c.(state) = false /\ ~ (c.(indent) = i /\ c.(state) = BLOCK_MAPPING).

Lemma idle_deeper i j c : i <= j -> idle j c -> c.(state) <> BLOCK_MAPPING \/ i < j -> idle i c.
Proof. intros Hij (H1 & H2 & H3) H4. split_and!; [lia|done|]. intros [H5 H6]. destruct H4; [done|lia]. Qed.

Lemma destroy_St c l n cur s : is_key_state c.(state) = false -> destroy_context c (St l n cur s) = (St l n cur s, Ret tt).
Proof. intros Hc. unfold destroy_context. rewrite Hc. by destruct (p_node c). Qed.

Lemma pop_back_St l n cur c s :
  is_key_state c.(state) = false -> pop_back (St l n cur (c :: s)) = (St l n cur s, Ret tt).
Proof.
  intros Hc. unfold pop_back. prog_step (eq_refl : back (St l n cur (c :: s)) = (_, Ret c)).
  by prog_step (destroy_St c l n cur (c :: s) Hc).
Qed.

Lemma pop_many_St l n cur extra s :
  Forall (fun c => is_key_state c.(state) = false) extra ->
  pop_many (length extra) (St l n cur (extra ++ s)) = (St l n cur s, Ret tt).
Proof.
  intros He. induction He as [|c extra Hc He IH]; [done|]. cbn [pop_many length app].
  by prog_step (pop_back_St l n cur c (extra ++ s) Hc).
Qed.

Lemma move_back_St l n cur p extra ln i st s :
  Forall (fun c => is_key_state c.(state) = false) extra -> (extra = [] -> cur = p) ->
  move_back (length extra) (St l n cur (extra ++ Context ln i st (Some (Pointer None p)) :: s))
  = (St l n p (Context ln i st (Some (Pointer None p)) :: s), Ret tt).
Proof.
  intros He Hc. unfold move_back. destruct extra as [|c extra]; [by rewrite Hc|].
  change (length (c :: extra)) with (S (length extra)) at 1. cbv iota.
  by prog_step (pop_many_St l n cur (c :: extra) (Context ln i st (Some (Pointer None p)) :: s) He).
Qed.

Lemma find_context_app p extra c s :
  Forall (fun c => p c = false) extra -> p c = true -> find_context p (extra ++ c :: s) = Some (length extra).
Proof.
  intros He Hc. induction He as [|e extra Hp He IH]; cbn; [by rewrite Hc|]. by rewrite Hp, IH.
Qed.

(** The back of the stack is as far to the right as the mapping. *)
Lemma back_St l n cur extra c s : exists b,
  back (St l n cur (extra ++ c :: s)) = (St l n cur (extra ++ c :: s), Ret b) /\ b ∈ extra ++ [c].
Proof. destruct extra as [|b extra]; [exists c|exists b]; (split; [done|apply elem_of_list_here || by left]). Qed.

(** ** A key that is added to an open mapping *)
Definition pointer_to (c : list frame) : option pointer := Some (Pointer None (way c)).
Definition in_mapping (ln i : Z) (c : list frame) : parse_context := Context ln i BLOCK_MAPPING (pointer_to c).
Definition in_value (ln i : Z) (c : list frame) : parse_context := Context ln i MAPPING_VALUE (pointer_to c).
Definition in_sequence (ln i : Z) (c : list frame) : parse_context := Context ln i BLOCK_SEQUENCE (pointer_to c).

Lemma to_mapping_St {A} l n cur c extra ln i s (error : parser unit) (f : unit -> parser A) :
  Forall (idle i) extra -> (extra = [] -> cur = way c) -> 0 <= i -> (i = 0 -> s = []) ->
  ((if i =? 0 then pop_num ← all_but_first; move_back pop_num
    else
      c ← back;
      if i <=? c.(indent) then
        s ← gets m_context_stack;
        match find_context (fun c => (i =? c.(indent)) && bool_decide (c.(state) = BLOCK_MAPPING)) s with
        | Some pop_num => move_back pop_num
        | None => error
        end
      else mret tt) ≫= f) (St l n cur (extra ++ in_mapping ln i c :: s))
  = f tt (St l n (way c) (in_mapping ln i c :: s)).
Proof.
  intros Hex Hcur Hi H0. rewrite (prog_bind_ret _ _ _ (St l n (way c) (in_mapping ln i c :: s)) tt); [done|].
  assert (Forall (fun c => is_key_state c.(state) = false) extra) as Hk by (eapply Forall_impl; [exact Hex|intros ? H; apply H]).
  pose proof (move_back_St l n cur (way c) extra ln i BLOCK_MAPPING s Hk Hcur) as Hm.
  destruct (Z.eqb_spec i 0) as [->|Hne].
  - rewrite (H0 eq_refl) in *. rewrite (prog_bind_ret _ _ _ (St l n cur (extra ++ [in_mapping ln 0 c])) (length extra)); [done|].
    unfold all_but_first. prog_step (eq_refl : gets m_context_stack (St l n cur (extra ++ [in_mapping ln 0 c])) = (_, Ret (extra ++ [in_mapping ln 0 c]))).
    destruct extra as [|e extra]; [done|]. cbn [app]. rewrite length_app. cbn [length]. by rewrite Nat.add_1_r.
  - destruct (back_St l n cur extra (in_mapping ln i c) s) as (b & Hb & Hin). prog_step Hb.
    assert (i <= b.(indent)) as Hle.
    { apply elem_of_app in Hin as [Hin|Hin%list_elem_of_singleton]; [|by subst].
      rewrite list.Forall_forall in Hex. by apply Hex. }
    rewrite (proj2 (Z.leb_le _ _) Hle).
    prog_step (eq_refl : gets m_context_stack (St l n cur (extra ++ in_mapping ln i c :: s)) = (_, Ret (extra ++ in_mapping ln i c :: s))).
    rewrite find_context_app; [done| |].
    + eapply Forall_impl; [exact Hex|]. intros e (_ & _ & He). apply andb_false_iff.
      destruct (Z.eqb_spec i (indent e)) as [Heq|]; [right|by left]. apply bool_decide_eq_false. intros Hst. by apply He.
    + cbn. by rewrite Z.eqb_refl.
Qed.

Lemma add_new_key_St l c k es cur extra ln i line s :
  Forall frame_ok c -> entries_ok es -> str_key k ∉ (key_of <$> es) ->
  Forall (idle i) extra -> (extra = [] -> cur = way c) -> 0 <= i -> (i = 0 -> s = []) ->
  let c' := new_frame k es :: c in
  add_new_key (str_key k) line i (St l (plug c (DMap es)) cur (extra ++ in_mapping ln i c :: s))
  = (St l (plug c' null_node) (way c') (in_value ln i c' :: in_mapping ln i c :: s), Ret tt).
Proof.
  intros Hc Hes Hk Hex Hcur Hi H0 c'. unfold add_new_key.
  prog_step (eq_refl : in_flow (St l (plug c (DMap es)) cur (extra ++ in_mapping ln i c :: s)) = (_, Ret false)).
  cbv iota. rewrite to_mapping_St by done.
  prog_step (current_value_St l c (DMap es) (in_mapping ln i c :: s) Hc I). cbn [is_sequence].
  prog_step (eq_refl : (mret tt : parser unit) (St l (plug c (DMap es)) (way c) (in_mapping ln i c :: s)) = (_, Ret tt)).
  prog_step (eq_refl : current (St l (plug c (DMap es)) (way c) (in_mapping ln i c :: s)) = (_, Ret (Pointer None (way c)))).
  by prog_step (emplace_key_St l c k es (way c) (in_mapping ln i c :: s) Hc Hes Hk).
Qed.

(** ** Blocks

    A scalar, a sequence of scalars or a mapping. *)
Inductive block :=
  | Scalar (t : atom)
  | Items (l : list atom)
  | Entries (l : list (chars * block)).

Section block_induction.
Context (P : block -> Prop).
Context (scalar_case : forall t, P (Scalar t)) (items_case : forall l, P (Items l)).
Context (entries_case : forall l, Forall (fun e => P e.2) l -> P (Entries l)).
Fixpoint block_induction (b : block) : P b :=
  match b with
  | Scalar t => scalar_case t
  | Items l => items_case l
  | Entries l => entries_case l ((fix all (l : list (chars * block)) : Forall (fun e => P e.2) l :=
      match l with [] => Forall_nil_2 _ | e :: l => Forall_cons_2 _ e l (block_induction e.2) (all l) end) l)
  end.
End block_induction.

(** ** Runs of the parser's loop *)
Section runs.
Context (from_chars : chars -> option Z).

(** A state, and the token that has been fetched. *)
Abbreviation config := (deserializer * lexical_token)%type.
Definition run (fuel : nat) (x : config) : deserializer * outcome lexical_token_t :=
  let '(d, token) := x in
  if bool_decide (token.(type) = END_OF_BUFFER) then (d, Ret END_OF_BUFFER)
  else deserialize_loop from_chars fuel token (get_lines_processed d.(lx)) (get_last_token_begin_pos d.(lx)) d.
Definition remaining (x : config) : nat := length x.1.(lx).(rest).

(** No more rounds than characters. *)
Definition leads (x y : config) : Prop :=
  exists n, (n + remaining y <= remaining x)%nat /\ forall fuel, run (n + fuel) x = run fuel y.

Lemma leads_refl x : leads x x.
Proof. by exists 0%nat. Qed.
Lemma leads_trans x y z : leads x y -> leads y z -> leads x z.
Proof.
  intros (n & Hn & Hx) (m & Hm & Hy). exists (n + m)%nat. split; [lia|]. intros fuel.
  by rewrite <- Nat.add_assoc, Hx, Hy.
Qed.

Lemma leads_continue d tk d' tk' :
  tk.(type) <> END_OF_BUFFER ->
  on_token from_chars tk (get_lines_processed d.(lx)) (get_last_token_begin_pos d.(lx)) d
    = (d', Ret (Continue tk' (get_lines_processed d'.(lx)) (get_last_token_begin_pos d'.(lx)))) ->
  (length d'.(lx).(rest) < length d.(lx).(rest))%nat -> leads (d, tk) (d', tk').
Proof.
  intros Ht Hon Hl. exists 1%nat. split; [unfold remaining; cbn; lia|]. intros fuel. cbn [Nat.add run].
  rewrite bool_decide_eq_false_2 by done. cbn [deserialize_loop]. prog_step Hon. unfold run. by destruct tk' as [[] str].
Qed.

Lemma leads_St l n cur s l' n' cur' s' tk tk' :
  tk.(type) <> END_OF_BUFFER ->
  on_token from_chars tk (get_lines_processed l) (get_last_token_begin_pos l) (St l n cur s)
    = (St l' n' cur' s', Ret (Continue tk' (get_lines_processed l') (get_last_token_begin_pos l'))) ->
  (length l'.(rest) < length l.(rest))%nat -> leads (St l n cur s, tk) (St l' n' cur' s', tk').
Proof. intros Ht Hon Hl. by apply leads_continue. Qed.

Lemma leads_fetch d tk d1 d' tk' :
  tk.(type) <> END_OF_BUFFER ->
  on_token from_chars tk (get_lines_processed d.(lx)) (get_last_token_begin_pos d.(lx)) d = (d1, Ret Fetch) ->
  next d1 = (d', Ret tk') -> (length d'.(lx).(rest) < length d.(lx).(rest))%nat ->
  leads (d, tk) (d', tk').
Proof.
  intros Ht Hon Hn Hl. exists 1%nat. split; [unfold remaining; cbn; lia|]. intros fuel. cbn [Nat.add run].
  rewrite bool_decide_eq_false_2 by done. cbn [deserialize_loop]. prog_step Hon. prog_step Hn.
  prog_step (eq_refl : last_token_begin_pos d' = (_, Ret (get_last_token_begin_pos d'.(lx)))).
  prog_step (eq_refl : lines_processed d' = (_, Ret (get_lines_processed d'.(lx)))).
  unfold run. by destruct tk' as [[] str].
Qed.

(** ** Scalars *)
Definition reads_as (a : atom) (v : Yaml.node) : Prop := parse_flow from_chars (atom_type a) TAG_NONE (atom_str a) = Ret v.
Definition reads_as_value (t : chars) (v : Yaml.node) : Prop := reads_as (Plain t) v.

Lemma on_scalar_St l n cur s a v line indent d (b : bool) tk' i' l' :
  reads_as a v ->
  deserialize_scalar (Leaf v) indent line (atom_token a) (St l n cur s) = (d, Ret (b, tk', i', l')) ->
  on_token from_chars (atom_token a) line indent (St l n cur s) = (d, Ret (if b then Continue tk' l' i' else Fetch)).
Proof.
  intros Hv Hd. transitivity (on_scalar from_chars (atom_token a) line indent (St l n cur s)); [by destruct a|]. unfold on_scalar.
  assert (scalar_tag (St l n cur s) = (St l n cur s, Ret TAG_NONE)) as Ht by reflexivity. prog_step Ht.
  cbn [type str]. rewrite (lift_bind _ _ _ _ Hv). prog_step (apply_St l n (Leaf v) cur s). by prog_step Hd.
Qed.

Lemma atom_not_end a : (atom_token a).(type) <> END_OF_BUFFER.
Proof. by destruct a. Qed.
Lemma atom_not_separator a : (atom_token a).(type) <> KEY_SEPARATOR.
Proof. by destruct a. Qed.
Lemma atom_not_prefix a : (atom_token a).(type) <> SEQUENCE_BLOCK_PREFIX.
Proof. by destruct a. Qed.
Lemma atom_no_property a : no_property (atom_token a).(type).
Proof. by destruct a. Qed.
#[local] Hint Resolve atom_not_end atom_not_separator atom_not_prefix atom_no_property : core.

(** Where a token began. *)
Definition begun (pre : chars) (l : lexer) : Prop :=
  get_lines_processed l = line_of pre /\ get_last_token_begin_pos l = column_of pre.

Lemma reads_rest pre s l : reads pre s l -> l.(rest) = s.
Proof. by intros ((_ & H & _) & _). Qed.

(** ** Keys *)
Lemma colon_after pre k w r l :
  reads (pre ++ k) (":"%char :: w :: r) l -> small (pre ++ k ++ ":"%char :: w :: r) -> white_space_or_newline w = true ->
  exists l', get_next_token l = Ret (l', Token KEY_SEPARATOR []) /\ reads (pre ++ k ++ [":"%char]) (w :: r) l' /\
    begun (pre ++ k) l' /\ (length l'.(rest) < length l.(rest))%nat.
Proof.
  intros Hr Hs Hw. rewrite app_assoc in Hs. destruct (fetch_colon _ _ _ _ Hr Hs Hw) as (l' & H1 & H2 & H3 & H4).
  exists l'. rewrite <- app_assoc in H2. split_and!; [done..|]. rewrite (reads_rest _ _ _ Hr), (reads_rest _ _ _ H2). cbn. lia.
Qed.

(** The parser is at a container. *)
Definition resting (root : dnode) (cur : list step) : Prop :=
  exists c n, Forall frame_ok c /\ root = plug c n /\ cur = way c /\ match n with DMap _ | DSeq _ => True | _ => False end.

(** A key: how it is read, and that the mapping does not have it. *)
Definition good_key (k : chars) : Prop := plain_text k /\ reads_as_value k (Yaml.Str (of_bytes k)).

Lemma same_line pre k l l' : newline ∉ k -> begun pre l -> begun (pre ++ k) l' -> get_lines_processed l' = get_lines_processed l.
Proof. intros Hk [H1 _] [H2 _]. rewrite H1, H2, line_of_app, no_newlines by done. lia. Qed.

Lemma next_key pre k w r l c es cur extra ln i s :
  good_key k -> reads (pre ++ k) (":"%char :: w :: r) l -> small (pre ++ k ++ ":"%char :: w :: r) ->
  white_space_or_newline w = true -> begun pre l -> column_of pre = i ->
  Forall frame_ok c -> entries_ok es -> str_key k ∉ (key_of <$> es) -> resting (plug c (DMap es)) cur ->
  Forall (idle i) extra -> (extra = [] -> cur = way c) -> 0 <= i -> (i = 0 -> s = []) ->
  let c' := new_frame k es :: c in
  exists l', reads (pre ++ k ++ [":"%char]) (w :: r) l' /\ begun (pre ++ k) l' /\
    leads (St l (plug c (DMap es)) cur (extra ++ in_mapping ln i c :: s), Token PLAIN_SCALAR k)
      (St l' (plug c' null_node) (way c') (in_value ln i c' :: in_mapping ln i c :: s), Token KEY_SEPARATOR []).
Proof.
  intros [Hk Hv] Hr Hs Hw Hb Hcol Hc Hes Hfresh (c0 & n0 & Hc0 & Hroot & Hcur0 & Hn0) Hex Hcur Hi H0 c'.
  destruct (colon_after _ _ _ _ _ Hr Hs Hw) as (l' & Hn & Hr' & Hb' & Hl). exists l'. split_and!; [done..|].
  pose proof (same_line _ _ _ _ (plain_no_newline _ Hk) Hb Hb') as Hline. destruct Hb as [Hb1 Hb2].
  assert (forall l0, current_value (St l0 (plug c (DMap es)) cur (extra ++ in_mapping ln i c :: s))
    = (St l0 (plug c (DMap es)) cur (extra ++ in_mapping ln i c :: s), Ret n0)) as Hcv.
  { intros l0. rewrite Hroot, Hcur0. apply current_value_St; [done|by destruct n0]. }
  pose proof (fun l0 line => add_new_key_St l0 c k es cur extra ln i line s Hc Hes Hfresh Hex Hcur Hi H0) as Hadd.
  cbv zeta in Hadd. fold c' in Hadd. fold (str_key k) in Hv.
  destruct n0 as [v|xs|es0|]; try done.
  - apply leads_continue; [done| |done]. change (lx (St l ?n ?p ?s)) with l. rewrite Hb1, Hb2, Hcol.
    eapply (on_scalar_St _ _ _ _ (Plain k) _ _ _ _ true); [exact Hv|].
    unfold deserialize_scalar. prog_step (Hcv l). cbn [is_mapping].
    prog_step (next_St l l' _ (plug c (DMap es)) cur (extra ++ in_mapping ln i c :: s) Hn).
    prog_step (eq_refl : lines_processed (St l' (plug c (DMap es)) cur (extra ++ in_mapping ln i c :: s)) = (_, Ret (get_lines_processed l'))).
    prog_step (eq_refl : last_token_begin_pos (St l' (plug c (DMap es)) cur (extra ++ in_mapping ln i c :: s)) = (_, Ret (get_last_token_begin_pos l'))).
    cbn [type]. rewrite bool_decide_eq_true_2 by done. rewrite Hline, Hb1, Z.eqb_refl. cbn [negb].
    prog_step (Hcv l'). cbn [is_scalar].
    prog_step (eq_refl : (mret tt : parser unit) (St l' (plug c (DMap es)) cur (extra ++ in_mapping ln i c :: s)) = (_, Ret tt)).
    prog_step (Hadd l' (line_of pre)). change (lx (St l' ?n ?p ?s)) with l'. by rewrite Hline, Hb1.
  - eapply leads_fetch; [done| |by apply next_St|done]. change (lx (St l ?n ?p ?s)) with l. rewrite Hb1, Hb2, Hcol.
    eapply (on_scalar_St _ _ _ _ (Plain k) _ _ _ _ false (Token PLAIN_SCALAR k) i (line_of pre)); [exact Hv|].
    unfold deserialize_scalar. prog_step (Hcv l). cbn [is_mapping]. by prog_step (Hadd l (line_of pre)).
Qed.

(** ** What follows a key *)
Abbreviation at_value l c ln i s := (St l (plug c null_node) (way c) (in_value ln i c :: s)).

Lemma separator_begin l l' tk old_line old_indent c ln i s :
  Forall frame_ok c -> get_next_token l = Ret (l', tk) -> no_property tk.(type) ->
  let line := get_lines_processed l' in let indent := get_last_token_begin_pos l' in
  on_token from_chars (Token KEY_SEPARATOR []) old_line old_indent (at_value l c ln i s)
  = (if (line =? old_line) && (i <? old_indent) then mret (Continue tk line indent)
     else if old_line <? line then
       if bool_decide (tk.(type) = SEQUENCE_BLOCK_PREFIX) then on_key_of_sequence line indent else mret (Continue tk line indent)
     else on_explicit_value tk line indent) (at_value l' c ln i s).
Proof.
  intros Hc Hn Hp line indent. unfold on_token. cbn [type]. unfold on_key_separator.
  prog_step (current_value_St l c null_node (in_value ln i c :: s) Hc I). cbn [null_node]. cbv iota zeta.
  prog_step (next_St l l' tk (plug c null_node) (way c) (in_value ln i c :: s) Hn).
  prog_step (eq_refl : lines_processed (at_value l' c ln i s) = (_, Ret line)).
  prog_step (eq_refl : last_token_begin_pos (at_value l' c ln i s) = (_, Ret indent)).
  prog_step (node_properties_St l' (plug c null_node) (way c) (in_value ln i c :: s) tk indent Hp).
  prog_step (eq_refl : lines_processed (at_value l' c ln i s) = (_, Ret line)). cbn [andb].
  prog_step (eq_refl : last_token_begin_pos (at_value l' c ln i s) = (_, Ret indent)).
  prog_step (eq_refl : in_flow (at_value l' c ln i s) = (_, Ret false)). cbv iota.
  prog_step (eq_refl : gets m_context_stack (at_value l' c ln i s) = (_, Ret (in_value ln i c :: s))). cbv iota.
  change (YamlDoc.indent (in_value ln i c)) with i.
  destruct ((line =? old_line) && (i <? old_indent)); [done|]. destruct (old_line <? line); [|done].
  prog_step (eq_refl : gets props (at_value l' c ln i s) = (_, Ret _)). cbn [needs_tag_impl].
  prog_step (eq_refl : gets mp_meta (at_value l' c ln i s) = (_, Ret _)).
  by prog_step (eq_refl : (mret TAG_NONE : parser tag_t) (at_value l' c ln i s) = (_, Ret TAG_NONE)).
Qed.

Lemma separator_St l l' tk old_line old_indent c ln i s :
  Forall frame_ok c -> get_next_token l = Ret (l', tk) -> no_property tk.(type) ->
  get_lines_processed l' = old_line /\ i < old_indent \/
    old_line < get_lines_processed l' /\ tk.(type) <> SEQUENCE_BLOCK_PREFIX ->
  on_token from_chars (Token KEY_SEPARATOR []) old_line old_indent (at_value l c ln i s)
  = (at_value l' c ln i s, Ret (Continue tk (get_lines_processed l') (get_last_token_begin_pos l'))).
Proof.
  intros Hc Hn Hp Hline. rewrite (separator_begin l l' tk) by done. cbv zeta. destruct Hline as [[-> Hi]|[Hl Ht]].
  - by rewrite Z.eqb_refl, (proj2 (Z.ltb_lt _ _) Hi).
  - rewrite (proj2 (Z.eqb_neq _ _)) by lia. cbn [andb]. rewrite (proj2 (Z.ltb_lt _ _) Hl). by rewrite bool_decide_eq_false_2.
Qed.

Lemma separator_sequence_St l l1 l2 str tk old_line old_indent c ln i s :
  Forall frame_ok c -> get_next_token l = Ret (l1, Token SEQUENCE_BLOCK_PREFIX str) ->
  old_line < get_lines_processed l1 -> get_next_token l1 = Ret (l2, tk) -> no_property tk.(type) ->
  on_token from_chars (Token KEY_SEPARATOR []) old_line old_indent (at_value l c ln i s)
  = (St l2 (plug c sequence) (way c) (in_sequence (get_lines_processed l1) (get_last_token_begin_pos l1) c :: s),
     Ret (Continue tk (get_lines_processed l2) (get_last_token_begin_pos l2))).
Proof.
  intros Hc Hn1 Hl Hn2 Hp. rewrite (separator_begin l l1 (Token SEQUENCE_BLOCK_PREFIX str)) by done. cbv zeta.
  rewrite (proj2 (Z.eqb_neq _ _)) by lia. cbn [andb]. rewrite (proj2 (Z.ltb_lt _ _) Hl).
  rewrite bool_decide_eq_true_2 by done. unfold on_key_of_sequence.
  prog_step (replace_current_St l1 c null_node sequence (in_value ln i c :: s) Hc I).
  set (d := St l1 (plug c sequence) (way c) (in_value ln i c :: s)).
  prog_step (eq_refl : back d = (_, Ret (in_value ln i c))).
  set (ctx := in_sequence (get_lines_processed l1) (get_last_token_begin_pos l1) c).
  prog_step (eq_refl : set_back ctx d = (St l1 (plug c sequence) (way c) (ctx :: s), Ret tt)).
  prog_step (next_St l1 l2 tk (plug c sequence) (way c) (ctx :: s) Hn2).
  prog_step (eq_refl : lines_processed (St l2 (plug c sequence) (way c) (ctx :: s)) = (_, Ret (get_lines_processed l2))).
  prog_step (eq_refl : last_token_begin_pos (St l2 (plug c sequence) (way c) (ctx :: s)) = (_, Ret (get_last_token_begin_pos l2))).
  by prog_step (node_properties_St l2 (plug c sequence) (way c) (ctx :: s) tk (get_last_token_begin_pos l2) Hp).
Qed.

(** A scalar, with the token after it. *)
Lemma deserialize_value l l' tk n v c s t line indent d :
  Forall frame_ok c -> unanchored n -> is_mapping n = false -> get_next_token l = Ret (l', tk) ->
  tk.(type) <> KEY_SEPARATOR -> reads_as t v ->
  assign_node_value (Leaf v) (St l' (plug c n) (way c) s) = (d, Ret tt) -> d.(lx) = l' ->
  on_token from_chars (atom_token t) line indent (St l (plug c n) (way c) s)
  = (d, Ret (Continue tk (get_lines_processed l') (get_last_token_begin_pos l'))).
Proof.
  intros Hc Hn Hm Hnext Ht Hv Ha Hd. eapply (on_scalar_St _ _ _ _ t _ _ _ _ true); [exact Hv|]. unfold deserialize_scalar.
  prog_step (current_value_St l c n s Hc Hn). rewrite Hm. prog_step (next_St l l' tk (plug c n) (way c) s Hnext).
  prog_step (eq_refl : lines_processed (St l' (plug c n) (way c) s) = (_, Ret (get_lines_processed l'))).
  prog_step (eq_refl : last_token_begin_pos (St l' (plug c n) (way c) s) = (_, Ret (get_last_token_begin_pos l'))).
  rewrite bool_decide_eq_false_2 by done. by prog_step Ha.
Qed.

Lemma scalar_St l l' tk v f c t line indent ln i ln0 s :
  Forall frame_ok (f :: c) -> get_next_token l = Ret (l', tk) -> tk.(type) <> KEY_SEPARATOR -> reads_as t v ->
  on_token from_chars (atom_token t) line indent (at_value l (f :: c) ln i (in_mapping ln0 i c :: s))
  = (St l' (plug (f :: c) (Leaf v)) (way c) (in_mapping ln0 i c :: s),
     Ret (Continue tk (get_lines_processed l') (get_last_token_begin_pos l'))).
Proof.
  intros Hc Hn Ht Hv. eapply deserialize_value; try done. unfold assign_node_value.
  prog_step (eq_refl : in_flow (at_value l' (f :: c) ln i (in_mapping ln0 i c :: s)) = (_, Ret false)).
  prog_step (current_value_St l' (f :: c) null_node (in_value ln i (f :: c) :: in_mapping ln0 i c :: s) Hc I).
  prog_step (eq_refl : current (at_value l' (f :: c) ln i (in_mapping ln0 i c :: s)) = (_, Ret (Pointer None (way (f :: c))))).
  cbn [is_sequence null_node].
  prog_step (assign_St l' (f :: c) null_node (Leaf v) (way (f :: c)) (in_value ln i (f :: c) :: in_mapping ln0 i c :: s) Hc I).
  set (d := St l' (plug (f :: c) (Leaf v)) (way (f :: c)) (in_value ln i (f :: c) :: in_mapping ln0 i c :: s)).
  prog_step (eq_refl : gets m_context_stack d = (_, Ret (in_value ln i (f :: c) :: in_mapping ln0 i c :: s))).
  rewrite bool_decide_eq_false_2 by done. cbn [orb negb].
  by prog_step (pop_back_St l' (plug (f :: c) (Leaf v)) (way (f :: c)) (in_value ln i (f :: c)) (in_mapping ln0 i c :: s) eq_refl).
Qed.

Lemma item_St l l' tk v xs c t line indent s :
  Forall frame_ok c -> get_next_token l = Ret (l', tk) -> tk.(type) <> KEY_SEPARATOR -> reads_as t v ->
  on_token from_chars (atom_token t) line indent (St l (plug c (DSeq xs)) (way c) s)
  = (St l' (plug c (DSeq (xs ++ [Leaf v]))) (way c) s,
     Ret (Continue tk (get_lines_processed l') (get_last_token_begin_pos l'))).
Proof.
  intros Hc Hn Ht Hv. eapply deserialize_value; try done. unfold assign_node_value.
  prog_step (eq_refl : in_flow (St l' (plug c (DSeq xs)) (way c) s) = (_, Ret false)).
  prog_step (current_value_St l' c (DSeq xs) s Hc I).
  prog_step (eq_refl : current (St l' (plug c (DSeq xs)) (way c) s) = (_, Ret (Pointer None (way c)))). cbn [is_sequence].
  prog_step (eq_refl : (mret tt : parser unit) (St l' (plug c (DSeq xs)) (way c) s) = (_, Ret tt)).
  by prog_step (emplace_back_St l' c xs (Leaf v) (way c) s Hc).
Qed.

(** The prefix of the next item. *)
Lemma next_item_St l xs c ln i line s :
  Forall frame_ok c ->
  on_token from_chars (Token SEQUENCE_BLOCK_PREFIX []) line i (St l (plug c (DSeq xs)) (way c) (in_sequence ln i c :: s))
  = (St l (plug c (DSeq xs)) (way c) (in_sequence ln i c :: s), Ret Fetch).
Proof.
  intros Hc. unfold on_token. cbn [type]. unfold on_sequence_prefix. set (d := St _ _ _ _).
  prog_step (eq_refl : back d = (_, Ret (in_sequence ln i c))). change (indent (in_sequence ln i c)) with i.
  rewrite Z.ltb_irrefl. prog_step (eq_refl : gets m_context_stack d = (_, Ret (in_sequence ln i c :: s))).
  cbn [find_context]. change (state (in_sequence ln i c)) with BLOCK_SEQUENCE. change (indent (in_sequence ln i c)) with i.
  rewrite Z.eqb_refl, bool_decide_eq_true_2 by done. cbn [andb]. by prog_step (eq_refl : pop_many 0 d = (d, Ret tt)).
Qed.

(** ** The first key of a mapping

    At the root, or below a key on an earlier line. *)
Lemma entries_ok_nil : entries_ok [].
Proof. split; constructor. Qed.

Definition opens_mapping (s0 s : list parse_context) (c : list frame) (line : Z) : Prop :=
  s0 = [] /\ s = [] \/ exists ln i, s0 = in_value ln i c :: s /\ ln <> line.

Lemma first_key_St l l' k c s0 s j line :
  Forall frame_ok c -> reads_as_value k (Yaml.Str (of_bytes k)) -> opens_mapping s0 s c line ->
  get_next_token l = Ret (l', Token KEY_SEPARATOR []) -> get_lines_processed l' = line -> 0 <= j -> (j = 0 -> s = []) ->
  let c' := new_frame k [] :: c in
  on_token from_chars (Token PLAIN_SCALAR k) line j (St l (plug c null_node) (way c) s0)
  = (St l' (plug c' null_node) (way c') (in_value line j c' :: in_mapping line j c :: s),
     Ret (Continue (Token KEY_SEPARATOR []) (get_lines_processed l') (get_last_token_begin_pos l'))).
Proof.
  intros Hc Hk Ho Hn Hl Hj H0 c'. eapply (on_scalar_St _ _ _ _ (Plain k) _ _ _ _ true); [exact Hk|]. unfold deserialize_scalar.
  prog_step (current_value_St l c null_node s0 Hc I). cbn [is_mapping null_node].
  prog_step (next_St l l' _ (plug c null_node) (way c) s0 Hn).
  set (d := St l' (plug c null_node) (way c) s0).
  prog_step (eq_refl : lines_processed d = (_, Ret (get_lines_processed l'))).
  prog_step (eq_refl : last_token_begin_pos d = (_, Ret (get_last_token_begin_pos l'))).
  rewrite bool_decide_eq_true_2 by done. rewrite Hl, Z.eqb_refl. cbn [negb].
  prog_step (current_value_St l' c null_node s0 Hc I). cbn [is_scalar null_node].
  set (d' := St l' (plug c mapping) (way c) (in_mapping line j c :: s)).
  match goal with |- (?p ≫= _) _ = _ => assert (p d = (d', Ret tt)) as Hb end.
  - prog_step (eq_refl : current d = (_, Ret (Pointer None (way c)))).
    prog_step (eq_refl : gets m_context_stack d = (_, Ret s0)). destruct Ho as [[-> ->]|(ln & i & -> & Hln)].
    + prog_step (eq_refl : push (in_mapping line j c) d = (St l' (plug c null_node) (way c) [in_mapping line j c], Ret tt)).
      by prog_step (assign_St l' c null_node mapping (way c) [in_mapping line j c] Hc I).
    + rewrite !bool_decide_eq_false_2 by done. cbn [orb]. change (YamlDoc.line (in_value ln i c)) with ln.
      rewrite (proj2 (Z.eqb_neq _ _)) by done.
      prog_step (eq_refl : set_back (in_mapping line j c) d = (St l' (plug c null_node) (way c) (in_mapping line j c :: s), Ret tt)).
      exact (assign_St l' c null_node mapping (way c) (in_mapping line j c :: s) Hc I).
  - prog_step Hb.
    assert (str_key k ∉ (key_of <$> ([] : entries))) as Hf by apply not_elem_of_nil.
    pose proof (add_new_key_St l' c k [] (way c) [] line j line s Hc entries_ok_nil Hf (Forall_nil_2 _) (fun _ => eq_refl) Hj H0) as Ha.
    cbv zeta in Ha. fold (str_key k). by prog_step Ha.
Qed.

(** ** Empty containers

    They are written as flow containers. *)
Definition St_flow (l : lexer) (n : dnode) (cur : list step) (s : list parse_context) : deserializer :=
  Deserializer l (memory_of n) (Some (Pointer None cur)) s 1 NEEDS_VALUE_OR_SUFFIX (MetaInfo false false [] [] []) unnamed.

Lemma flow_begin_St container flow_state key_state l c ln i line col s :
  Forall frame_ok c -> slight container -> 0 <= i < col ->
  on_flow_begin container flow_state key_state line col (at_value l c ln i s)
  = (St_flow (set_context_state true l) (plug c container) (way c) (Context line col flow_state (pointer_to c) :: s), Ret Fetch).
Proof.
  intros Hc Hn Hi. unfold on_flow_begin. prog_step (eq_refl : gets m_flow_context_depth (at_value l c ln i s) = (_, Ret 0)).
  set (l' := set_context_state true l). set (d := at_value l' c ln i s).
  match goal with |- (?p ≫= _) _ = _ => assert (p (at_value l c ln i s) = (d, Ret tt)) as Hb end.
  { cbn [Z.eqb]. prog_step (eq_refl : modify (fun d => set_lx (set_context_state true d.(lx)) d) (at_value l c ln i s) = (d, Ret tt)).
    rewrite (proj2 (Z.eqb_neq _ _)) by lia. prog_step (eq_refl : back d = (d, Ret (in_value ln i c))).
    change (indent (in_value ln i c)) with i. by rewrite (proj2 (Z.leb_gt _ _)) by lia. }
  prog_step Hb. clear Hb.
  set (flow n s := St_flow l' (plug c n) (way c) s).
  prog_step (eq_refl : modify (set_flow_context_depth (u32 (0 + 1))) d = (flow null_node (in_value ln i c :: s), Ret tt)).
  prog_step (eq_refl : back (flow null_node (in_value ln i c :: s)) = (_, Ret (in_value ln i c))). cbn [state in_value].
  set (s' := Context line col flow_state (pointer_to c) :: s).
  match goal with |- (?p ≫= _) _ = _ => assert (p (flow null_node (in_value ln i c :: s)) = (flow container s', Ret tt)) as Hb end.
  { prog_step (eq_refl : current (flow null_node (in_value ln i c :: s)) = (_, Ret (Pointer None (way c)))).
    by prog_step (assign_at c null_node container (flow null_node (in_value ln i c :: s)) Hc I eq_refl). }
  prog_step Hb. prog_step (eq_refl : current (flow container s') = (_, Ret (Pointer None (way c)))).
  prog_step (eq_refl : apply_node_properties 0 container (flow container s') = (_, Ret container)).
  by prog_step (assign_at c container container (flow container s') Hc Hn eq_refl).
Qed.

Lemma flow_end_St flow_state key_state l l' tk c c' n ln i line line' col s :
  is_key_state key_state = true -> is_key_state flow_state = false ->
  get_next_token (set_context_state false l) = Ret (l', tk) -> tk.(type) <> KEY_SEPARATOR ->
  let s' := in_mapping ln i c' :: s in
  on_flow_end flow_state key_state line' (St_flow l (plug c n) (way c) (Context line col flow_state (pointer_to c) :: s'))
  = (St l' (plug c n) (way c') s', Ret (Continue tk (get_lines_processed l') (get_last_token_begin_pos l'))).
Proof.
  intros Hk Hf Hn Ht s'. unfold on_flow_end. set (ctx := Context line col flow_state (pointer_to c)).
  set (d := St_flow l (plug c n) (way c) (ctx :: s')). prog_step (eq_refl : gets m_flow_context_depth d = (_, Ret 1)). cbn [Z.eqb Z.sub Z.add Z.opp Z.pos_sub].
  set (l1 := set_context_state false l). set (d1 := St l1 (plug c n) (way c) (ctx :: s')).
  prog_step (eq_refl : modify (set_flow_context_depth 0) d = (St l (plug c n) (way c) (ctx :: s'), Ret tt)).
  prog_step (eq_refl : modify (fun d => set_lx (set_context_state false d.(lx)) d) (St l (plug c n) (way c) (ctx :: s')) = (d1, Ret tt)).
  prog_step (eq_refl : gets m_context_stack d1 = (_, Ret (ctx :: s'))). cbn [find_context].
  change (state ctx) with flow_state. rewrite (bool_decide_eq_true_2 (flow_state = flow_state)), orb_true_r by done.
  prog_step (eq_refl : back d1 = (_, Ret ctx)). change (p_node ctx) with (pointer_to c). unfold pointer_to at 1.
  prog_step (eq_refl : modify (set_current_node (Some (Pointer None (way c)))) d1 = (d1, Ret tt)).
  prog_step (eq_refl : modify (fun d => set_context_stack (tail d.(m_context_stack)) d) d1 = (St l1 (plug c n) (way c) s', Ret tt)).
  prog_step (eq_refl : pointing (pointer_to c) (St l1 (plug c n) (way c) s') = (_, Ret (Pointer None (way c)))).
  prog_step (eq_refl : gets m_context_stack (St l1 (plug c n) (way c) s') = (_, Ret s')). change (state ctx) with flow_state.
  rewrite (bool_decide_eq_false_2 (flow_state = key_state)), andb_false_r by congruence.
  prog_step (next_St l1 l' tk (plug c n) (way c) s' Hn). rewrite bool_decide_eq_false_2 by done.
  match goal with |- (?p ≫= _) _ = _ => assert (p (St l' (plug c n) (way c) s') = (St l' (plug c n) (way c') s', Ret tt)) as Hb by done end.
  by prog_step Hb.
Qed.

(** ** Texts in block style

    Keys are indented by [width] more than those of the mapping that they are in,
    items by [dash] more than the key above them: 2 and 0 in the texts of
    [yaml.dump]. Each line but the first has its newline before it. *)
Context (dash width : nat).

Fixpoint print (ind : nat) (b : block) : chars :=
  match b with
  | Scalar t => space :: atom_text t
  | Items [] => space :: "["%char :: ["]"%char]
  | Items l => mjoin ((fun t => indentation (ind + dash) ++ "-"%char :: space :: atom_text t) <$> l)
  | Entries [] => space :: "{"%char :: ["}"%char]
  | Entries l => mjoin ((fun e => indentation (ind + width) ++ e.1 ++ ":"%char :: print (ind + width) e.2) <$> l)
  end.
Definition print_entries (ind : nat) (l : list (chars * block)) : chars :=
  mjoin ((fun e => indentation ind ++ e.1 ++ ":"%char :: print ind e.2) <$> l).

Lemma print_entries_cons ind k b l :
  print_entries ind ((k, b) :: l) = indentation ind ++ k ++ ":"%char :: print ind b ++ print_entries ind l.
Proof. unfold print_entries. cbn [fmap list_fmap mjoin list_join fst snd]. by rewrite <- !app_assoc. Qed.

(** The text of a document. *)
Definition text_of (l : list (chars * block)) : chars :=
  match l with [] => ["{"; "}"]%char | _ => tail (print_entries 0 l) end ++ [newline].

(** What the library makes of a scalar. *)
Definition scalar (t : atom) : Yaml.node :=
  match parse_flow from_chars (atom_type t) TAG_NONE (atom_str t) with Ret v => v | _ => Yaml.Null end.
Definition good_scalar (t : atom) : Prop := atom_ok t /\ reads_as t (scalar t).

(** No plain scalar and no key is empty, no key comes twice, every key reads as a
    string and every scalar as a value. *)
Inductive readable : block -> Prop :=
  | readable_scalar t : good_scalar t -> readable (Scalar t)
  | readable_items l : Forall good_scalar l -> readable (Items l)
  | readable_entries l : NoDup l.*1 -> Forall (fun e : chars * block => good_key e.1) l ->
      Forall (fun e : chars * block => readable e.2) l -> readable (Entries l).

(** The node that is built. *)
Definition put_node (k : chars) (n : dnode) (es : entries) : entries :=
  let '(a, b) := place k es in a ++ (length es, (str_key k, n)) :: b.
Definition put_nodes (l : list (chars * dnode)) (es : entries) : entries := foldl (fun es e => put_node e.1 e.2 es) es l.
Fixpoint node_of (b : block) : dnode :=
  match b with
  | Scalar t => Leaf (scalar t)
  | Items l => DSeq ((fun t => Leaf (scalar t)) <$> l)
  | Entries l => DMap (put_nodes ((fun e => (e.1, node_of e.2)) <$> l) [])
  end.

Abbreviation nodes_of l := ((fun e : chars * block => (e.1, node_of e.2)) <$> l).

Lemma print_blank ind b s : readable b -> exists w r, print ind b ++ s = w :: r /\ white_space_or_newline w = true.
Proof.
  intros Hb. destruct Hb as [t _|[|t l] _|[|e l]]; cbn; eauto.
Qed.
Lemma fill_new_frame k es n : fill_frame (new_frame k es) n = DMap (put_node k n es).
Proof. unfold fill_frame, new_frame, put_node. by destruct (place k es). Qed.

(** What may follow: a line, with a token that is no key separator. *)
Definition followed (s : chars) : Prop :=
  (exists s', s = newline :: s') /\
  forall pre l, reads pre s l -> small (pre ++ s) ->
    exists l' tk, get_next_token l = Ret (l', tk) /\ tk.(type) <> KEY_SEPARATOR /\ (length l'.(rest) < length s)%nat.

Lemma followed_end : followed [newline].
Proof.
  split; [by eexists|]. intros pre l Hr Hs. destruct (fetch_end pre [newline] l Hr Hs) as (l' & H1 & H2).
  { by constructor. }
  exists l', (Token END_OF_BUFFER []). split_and!; [done..|]. rewrite H2. cbn. lia.
Qed.

Lemma fetch_key ind k b s pre l :
  plain_text k -> readable b ->
  reads pre (indentation ind ++ k ++ ":"%char :: print ind b ++ s) l ->
  small (pre ++ indentation ind ++ k ++ ":"%char :: print ind b ++ s) ->
  exists l', get_next_token l = Ret (l', Token PLAIN_SCALAR k) /\
    reads ((pre ++ indentation ind) ++ k) (":"%char :: print ind b ++ s) l' /\ begun (pre ++ indentation ind) l'.
Proof.
  intros Hk Hb Hr Hs. destruct (print_blank ind b s Hb) as (w & r & Hp & Hw).
  destruct (fetch_plain pre (indentation ind) k _ l Hr Hs (indentation_blank ind) Hk) as (l' & H1 & H2 & H3).
  { rewrite Hp. by right. }
  exists l'. rewrite app_assoc in H2. by split_and!.
Qed.

Lemma followed_entries ind l s :
  Forall (fun e : chars * block => good_key e.1) l -> Forall (fun e : chars * block => readable e.2) l ->
  followed s -> followed (print_entries ind l ++ s).
Proof.
  intros Hk Hb Hs. destruct l as [|[k b] l]; [done|]. apply list.Forall_cons in Hk as [[Hk _] _], Hb as [Hb _].
  rewrite print_entries_cons, <- !app_assoc. cbn [app]. rewrite <- !app_assoc. cbn [fst snd] in *.
  split; [by eexists|]. intros pre lx Hr Hsm.
  destruct (fetch_key ind k b _ pre lx Hk Hb Hr Hsm) as (l' & H1 & H2 & _).
  exists l', (Token PLAIN_SCALAR k). split_and!; [done..|]. rewrite (reads_rest _ _ _ H2). unfold indentation.
  rewrite !length_app. cbn [length]. rewrite length_app. lia.
Qed.

(** ** The tree that the program sees *)

(** A new key goes before the first that is not less: keys are sorted. *)
Fixpoint put {A} (k : chars) (a : A) (l : list (chars * A)) : list (chars * A) :=
  match l with
  | (k', a') :: l' => if string_lt (of_bytes k') (of_bytes k) then (k', a') :: put k a l' else (k, a) :: l
  | [] => [(k, a)]
  end.
Definition sort_keys {A} (l : list (chars * A)) : list (chars * A) := foldl (fun l e => put e.1 e.2 l) [] l.

Fixpoint tree (b : block) : Yaml.node :=
  match b with
  | Scalar t => scalar t
  | Items l => Yaml.Seq (scalar <$> l)
  | Entries l => Yaml.Map ((fun e => (Yaml.Str (of_bytes e.1), e.2)) <$> sort_keys ((fun e => (e.1, tree e.2)) <$> l))
  end.

Definition shows (n : dnode) (t : Yaml.node) : Prop :=
  forall tables fuel, (node_size n <= fuel)%nat -> tree_of tables fuel n = Ret t.
Definition entry_shows (e : nat * (dnode * dnode)) (kt : chars * Yaml.node) : Prop :=
  e.2.1 = str_key kt.1 /\ shows e.2.2 kt.2.

Lemma put_shows k n t es l :
  shows n t -> Forall2 entry_shows es l -> Forall2 entry_shows (put_node k n es) (put k t l).
Proof.
  intros Hn Hl. unfold put_node. generalize (length es) as id. intros id.
  induction Hl as [|[i [k1 n1]] [k2 t2] es l [Hk Hs] Hl IH]; cbn in *; [by repeat constructor|]. subst k1.
  cbn [str_key]. destruct (string_lt _ _); cbn; [|by repeat constructor].
  destruct (place k es) as [a b]. cbn. by constructor.
Qed.

Lemma leaf_shows v : shows (Leaf v) v.
Proof. intros tables [|fuel] Hf; [by apply Nat.le_0_r in Hf|done]. Qed.

Lemma seq_shows l : shows (DSeq (Leaf <$> l)) (Yaml.Seq l).
Proof.
  intros tables [|fuel] Hf; [by apply Nat.le_0_r in Hf|]. cbn [node_size tree_of shown] in *.
  assert (forall l', (l' = [] \/ 1 <= fuel)%nat -> trees (tree_of tables fuel) (Leaf <$> l') = Ret l') as Htrees.
  { induction l' as [|v l' IH]; [done|]. intros [|Hf']; [done|]. cbn [fmap list_fmap trees].
    rewrite leaf_shows by done. cbn [mbind outcome_bind]. rewrite IH by (by right). done. }
  rewrite Htrees; [done|]. destruct l; [by left|right]. cbn in Hf. lia.
Qed.

Lemma map_shows es l : Forall2 entry_shows es l ->
  shows (DMap es) (Yaml.Map ((fun e => (Yaml.Str (of_bytes e.1), e.2)) <$> l)).
Proof.
  intros Hl tables [|fuel] Hf; [by apply Nat.le_0_r in Hf|]. cbn [node_size tree_of shown] in *.
  assert (list_sum ((fun e : nat * (dnode * dnode) => let '(_, (k, v)) := e in (node_size k + node_size v)%nat) <$> es) <= fuel)%nat
    as Hsum by lia. clear Hf.
  assert (pairs (tree_of tables fuel) es = Ret ((fun e => (Yaml.Str (of_bytes e.1), e.2)) <$> l)) as ->; [|done].
  induction Hl as [|[i [k1 n1]] [k2 t2] es l [Hk Hs] Hl IH]; [done|]. cbn in Hk, Hs, Hsum |- *. subst k1. cbn [node_size str_key] in Hsum.
  assert (tree_of tables fuel (str_key k2) = Ret (Yaml.Str (of_bytes k2))) as -> by (apply leaf_shows; cbn; lia).
  cbn [mbind outcome_bind]. rewrite Hs by lia. cbn [mbind outcome_bind]. by rewrite IH by (unfold list_sum; lia).
Qed.

Lemma node_shows b : shows (node_of b) (tree b).
Proof.
  induction b as [t|l|l Hl] using block_induction; [apply leaf_shows| |].
  - cbn [node_of tree]. change ((fun t => Leaf (scalar t)) <$> l) with ((Leaf ∘ scalar) <$> l).
    rewrite list_fmap_compose. apply seq_shows.
  - cbn [node_of tree]. apply map_shows. unfold put_nodes, sort_keys.
    assert (forall es acc, Forall2 entry_shows es acc ->
      Forall2 entry_shows (foldl (fun es (e : chars * dnode) => put_node e.1 e.2 es) es (nodes_of l))
        (foldl (fun l e => put e.1 e.2 l) acc ((fun e : chars * block => (e.1, tree e.2)) <$> l))) as Hfold; [|by apply Hfold].
    induction Hl as [|[k b] l Hb Hl IH]; intros es acc Hacc; [done|]. cbn. apply IH. by apply put_shows.
Qed.

(** ** The characters of a text *)
Definition text_char (c : ascii) : bool :=
  plain_char c || flow_indicator c || Ascii.eqb c space || Ascii.eqb c newline || Ascii.eqb c quote.
Abbreviation text_chars := (Forall (fun c => text_char c = true)).

Lemma text_char_ascii c : text_char c = true -> plain_ascii c /\ c <> CR.
Proof.
  intros Hc. pose proof (forall_ascii (fun c => negb (text_char c) || (in_range 1 127 (code c) && negb (Ascii.eqb c CR))) eq_refl c) as H.
  cbn beta in H. rewrite Hc in H. apply andb_true_iff in H as [[H1 H2]%andb_true_iff H3%negb_true_iff].
  split; [unfold plain_ascii; lia|by apply Ascii.eqb_neq].
Qed.
Lemma plain_text_chars t : plain_text t -> text_chars t.
Proof. intros [Ht _]. eapply Forall_impl; [exact Ht|]. intros c Hc. unfold text_char. by rewrite Hc. Qed.
Lemma atom_text_chars a : atom_ok a -> text_chars (atom_text a).
Proof.
  destruct a as [t|t]; [apply plain_text_chars|]. intros Ht. cbn [atom_text]. constructor; [done|].
  apply Forall_app_2; [|by constructor]. eapply Forall_impl; [exact Ht|]. intros c Hc.
  unfold quoted_char in Hc. unfold text_char. apply orb_true_iff in Hc as [-> | ->]; [done|]. by rewrite !orb_true_r.
Qed.
Lemma indentation_chars n : text_chars (indentation n).
Proof. constructor; [done|]. by apply list.Forall_replicate. Qed.

Lemma entry_chars ind k s : plain_text k -> text_chars s -> text_chars (indentation ind ++ k ++ ":"%char :: s).
Proof.
  intros Hk Hs. apply Forall_app_2; [apply indentation_chars|]. apply Forall_app_2; [by apply plain_text_chars|by constructor].
Qed.

Lemma print_chars b ind : readable b -> text_chars (print ind b).
Proof.
  revert ind. induction b as [t|l|l IH] using block_induction; intros ind Hb; inversion Hb as [? Ht|? Hl|? _ Hk Hr]; subst; cbn [print].
  - constructor; [done|]. apply atom_text_chars, Ht.
  - destruct l as [|t0 l]; [by repeat constructor|].
    apply Forall_join, Forall_fmap. eapply Forall_impl; [exact Hl|]. intros t [Ht _]. apply Forall_app_2; [apply indentation_chars|].
    repeat constructor. by apply atom_text_chars.
  - destruct l as [|e0 l]; [by repeat constructor|].
    apply Forall_join, Forall_fmap. rewrite list.Forall_forall in *. intros [k b] Hin. apply entry_chars; [apply (Hk _ Hin)|].
    by apply (IH _ Hin), (Hr (k, b)).
Qed.

Lemma text_of_chars l : readable (Entries l) -> text_chars (text_of l).
Proof.
  intros Hl. unfold text_of. apply Forall_app_2; [|by constructor].
  destruct l as [|e l]; [by repeat constructor|]. revert Hl. generalize (e :: l). clear e l. intros l Hl.
  assert (text_chars (print_entries 0 l)) as H; [|by destruct H]. inversion Hl as [| |? _ Hk Hr]; subst.
  apply Forall_join, Forall_fmap. rewrite list.Forall_forall in *. intros [k b] Hin. apply entry_chars; [apply (Hk _ Hin)|].
  by apply print_chars, (Hr (k, b)).
Qed.

Lemma text_view l : readable (Entries l) -> get_buffer_view (Some (text_of l)) = Ret (text_of l).
Proof.
  intros Hl. pose proof (text_of_chars l Hl) as Hc. apply ascii_view.
  - unfold text_of. destruct l; [done|]. by destruct (tail _).
  - eapply Forall_impl; [exact Hc|]. intros c Hc'. by apply text_char_ascii.
  - intros Hin. rewrite list.Forall_forall in Hc. by destruct (text_char_ascii _ (Hc _ Hin)).
Qed.
(** ** From a key to what follows its value *)

(** The mapping at [c] has become [n]; the parser is at [s], whose first token it
    has fetched. *)
Definition arrives (pre s : chars) (x : config) (n : dnode) (c : list frame) (ln i : Z) (stack : list parse_context) : Prop :=
  exists l0 l tk cur extra,
    reads pre s l0 /\ get_next_token l0 = Ret (l, tk) /\
    leads x (St l (plug c n) cur (extra ++ in_mapping ln i c :: stack), tk) /\
    resting (plug c n) cur /\ Forall (idle i) extra /\ (extra = [] -> cur = way c).

Lemma arrives_leads pre s x y n c ln i stack : leads x y -> arrives pre s y n c ln i stack -> arrives pre s x n c ln i stack.
Proof.
  intros Hxy (l0 & l & tk & cur & extra & H1 & H2 & H3 & H4). exists l0, l, tk, cur, extra.
  split_and!; try apply H4; [done|done|by eapply leads_trans].
Qed.

Lemma scalar_arrives ind t pre s l f c ln stack :
  good_scalar t -> followed s -> reads pre (space :: atom_text t ++ s) l -> small (pre ++ space :: atom_text t ++ s) ->
  get_lines_processed l = line_of pre -> Z.of_nat ind < get_last_token_begin_pos l -> Forall frame_ok (f :: c) ->
  arrives (pre ++ space :: atom_text t) s (at_value l (f :: c) ln (Z.of_nat ind) (in_mapping ln (Z.of_nat ind) c :: stack), Token KEY_SEPARATOR [])
    (fill_frame f (Leaf (scalar t))) c ln (Z.of_nat ind) stack.
Proof.
  intros [Ht Hv] [[s' ->] Hs] Hr Hsm Hl Hpos Hc.
  destruct (fetch_atom pre [space] t (newline :: s') l Hr Hsm) as (l1 & Hn1 & Hr1 & Hl1 & _); [by constructor|done|by left|].
  destruct (Hs (pre ++ [space] ++ atom_text t) l1) as (l2 & tk & Hn2 & Htk & Hlen); [done|by rewrite <- app_assoc|].
  exists l1, l2, tk, (way c), []. split_and!; [done|done| | |constructor|done].
  - eapply leads_trans.
    + eapply leads_St; [done|apply separator_St; [done|exact Hn1|done|]|].
      * left. rewrite Hl1, Hl, line_of_app, no_newlines; [split; [lia|done]|]. by intros H%list_elem_of_singleton.
      * rewrite (reads_rest _ _ _ Hr), (reads_rest _ _ _ Hr1). cbn [length]. rewrite length_app. cbn [length]. lia.
    + eapply leads_St; [done|apply scalar_St; [done|exact Hn2|done|exact Hv]|].
      rewrite (reads_rest _ _ _ Hr1). lia.
  - exists c, (fill_frame f (Leaf (scalar t))). split_and!; try done. by apply list.Forall_cons in Hc as [_ Hc].
Qed.

(** *** Empty containers *)
Definition open_mark (m : bool) : ascii := if m then "{" else "[".
Definition close_mark (m : bool) : ascii := if m then "}" else "]".
Definition empty_container (m : bool) : dnode := if m then mapping else sequence.
Definition begin_type (m : bool) : lexical_token_t := if m then MAPPING_FLOW_BEGIN else SEQUENCE_FLOW_BEGIN.
Definition end_type (m : bool) : lexical_token_t := if m then MAPPING_FLOW_END else SEQUENCE_FLOW_END.

Lemma empty_arrives (m : bool) ind pre s l f c ln stack :
  followed s -> reads pre (space :: open_mark m :: close_mark m :: s) l ->
  small (pre ++ space :: open_mark m :: close_mark m :: s) ->
  get_lines_processed l = line_of pre -> Z.of_nat ind < get_last_token_begin_pos l -> Z.of_nat ind < column_of pre ->
  Forall frame_ok (f :: c) ->
  arrives (pre ++ space :: open_mark m :: [close_mark m]) s
    (at_value l (f :: c) ln (Z.of_nat ind) (in_mapping ln (Z.of_nat ind) c :: stack), Token KEY_SEPARATOR [])
    (fill_frame f (empty_container m)) c ln (Z.of_nat ind) stack.
Proof.
  intros [_ Hs] Hr Hsm Hl Hpos Hcol Hc. assert (newline ∉ [space]) as Hnl by (by intros H%list_elem_of_singleton).
  destruct (fetch_mark false pre [space] (open_mark m) (close_mark m :: s) l (begin_type m) Hr Hsm)
    as (l1 & Hn1 & Hr1 & Hl1 & Hp1); try (by destruct m); [by constructor|].
  destruct (fetch_mark true (pre ++ [space] ++ [open_mark m]) [] (close_mark m) s (set_context_state true l1) (end_type m))
    as (l2 & Hn2 & Hr2 & _); try (by destruct m); [split; [apply Hr1|done]|by rewrite <- app_assoc|].
  rewrite <- app_assoc in Hr2. cbn [app] in Hr2.
  destruct (Hs (pre ++ space :: open_mark m :: [close_mark m]) (set_context_state false l2)) as (l3 & tk & Hn3 & Htk & Hlen);
    [split; [apply Hr2|done]|by rewrite <- app_assoc|].
  exists (set_context_state false l2), l3, tk, (way c), []. split_and!; [split; [apply Hr2|done]|done| | |constructor|done].
  - rewrite line_of_app, no_newlines in Hl1 by done. rewrite column_of_app in Hp1 by done. cbn [length] in Hp1.
    eapply leads_trans; [eapply leads_St; [done|apply separator_St; [done|exact Hn1|by destruct m|]|]|].
    { left. rewrite Hl1, Hl. split; [lia|done]. }
    { rewrite (reads_rest _ _ _ Hr), (reads_rest _ _ _ Hr1). cbn. lia. }
    set (ctx col := Context (get_lines_processed l1) col (if m then FLOW_MAPPING else FLOW_SEQUENCE) (pointer_to (f :: c))).
    set (stack' := in_mapping ln (Z.of_nat ind) c :: stack).
    eapply (leads_trans _ (St_flow l2 (plug (f :: c) (empty_container m)) (way (f :: c)) (ctx (get_last_token_begin_pos l1) :: stack'), Token (end_type m) [])).
    + eapply (leads_fetch _ _ (St_flow (set_context_state true l1) (plug (f :: c) (empty_container m)) (way (f :: c))
        (ctx (get_last_token_begin_pos l1) :: stack'))); [by destruct m| | |].
      * change (lx (at_value l1 (f :: c) ln (Z.of_nat ind) stack')) with l1.
        destruct m; apply (flow_begin_St _ _ _ l1 (f :: c)); try done; lia.
      * unfold next. change (lx (St_flow ?l ?n ?p ?s)) with l. by rewrite Hn2.
      * change (length l2.(rest) < length l1.(rest))%nat. destruct Hr2 as ((_ & -> & _) & _). rewrite (reads_rest _ _ _ Hr1). cbn. lia.
    + apply leads_continue; [by destruct m| |].
      * change (lx (St_flow ?l ?n ?p ?s)) with l. destruct m; by apply (flow_end_St _ _ l2 l3 tk (f :: c) c).
      * change (length l3.(rest) < length l2.(rest))%nat. by destruct Hr2 as ((_ & -> & _) & _).
  - exists c, (fill_frame f (empty_container m)). split_and!; try done. by apply list.Forall_cons in Hc as [_ Hc].
Qed.

(** *** Items *)
Definition print_items (col : nat) (l : list atom) : chars :=
  mjoin ((fun t => indentation col ++ "-"%char :: space :: atom_text t) <$> l).

Lemma items_end col l s : followed s -> ends_here (print_items col l ++ s).
Proof. intros [[s' ->] _]. destruct l; by left. Qed.

Lemma fetch_item col t l s pre lx :
  atom_ok t -> followed s ->
  reads pre (indentation col ++ "-"%char :: space :: atom_text t ++ print_items col l ++ s) lx ->
  small (pre ++ indentation col ++ "-"%char :: space :: atom_text t ++ print_items col l ++ s) ->
  exists l1 l2, get_next_token lx = Ret (l1, Token SEQUENCE_BLOCK_PREFIX []) /\
    get_next_token l1 = Ret (l2, atom_token t) /\
    begun (pre ++ indentation col) l1 /\
    reads (pre ++ indentation col ++ "-"%char :: space :: atom_text t) (print_items col l ++ s) l2 /\
    (length l2.(rest) < length l1.(rest))%nat /\ (length l1.(rest) < length lx.(rest))%nat.
Proof.
  intros Ht Hs Hr Hsm. destruct (fetch_dash pre _ _ lx Hr Hsm (indentation_blank col)) as (l1 & Hn1 & Hr1 & Hb1).
  assert (small ((pre ++ indentation col ++ ["-"%char; space]) ++ atom_text t ++ print_items col l ++ s)) as Hsm1.
  { by rewrite <- !app_assoc. }
  destruct (fetch_atom _ [] t _ l1 Hr1 Hsm1 (Forall_nil_2 _) Ht (items_end col l s Hs)) as (l2 & Hn2 & Hr2 & _).
  exists l1, l2. rewrite <- !app_assoc in Hr2. cbn [app] in Hr2. split_and!; [done..| |].
  - rewrite (reads_rest _ _ _ Hr1), (reads_rest _ _ _ Hr2). pose proof (atom_text_length t Ht).
    cbn [app length]. rewrite !length_app. cbn [length]. rewrite ?length_app. lia.
  - rewrite (reads_rest _ _ _ Hr), (reads_rest _ _ _ Hr1). rewrite (length_app (indentation col)). cbn [length]. lia.
Qed.

Lemma items_lead col l xs t pre s lx c ln stack :
  Forall good_scalar (t :: l) -> followed s -> reads pre (print_items col l ++ s) lx -> small (pre ++ print_items col l ++ s) ->
  Forall frame_ok c ->
  let at_seq lx xs := St lx (plug c (DSeq xs)) (way c) (in_sequence ln (Z.of_nat col) c :: stack) in
  exists l0 l' tk, reads (pre ++ print_items col l) s l0 /\ get_next_token l0 = Ret (l', tk) /\
    leads (at_seq lx xs, atom_token t) (at_seq l' (xs ++ ((fun t => Leaf (scalar t)) <$> t :: l)), tk).
Proof.
  intros Hl Hs Hr Hsm Hc at_seq. revert xs t pre lx Hl Hr Hsm.
  induction l as [|t' l IH]; intros xs t pre lx [[Ht Hv] Hl]%list.Forall_cons Hr Hsm.
  - destruct Hs as [_ Hs]. destruct (Hs pre lx Hr Hsm) as (l' & tk & Hn & Htk & Hlen). exists lx, l', tk.
    split_and!; [by rewrite app_nil_r|done|]. apply leads_St; [done|by apply item_St|]. by rewrite (reads_rest _ _ _ Hr).
  - pose proof Hl as [[Ht' _] _]%list.Forall_cons.
    unfold print_items in Hr, Hsm. cbn [fmap list_fmap mjoin list_join] in Hr, Hsm.
    rewrite <- !app_assoc in Hr, Hsm. cbn [app] in Hr, Hsm.
    destruct (fetch_item col t' l s pre lx Ht' Hs Hr Hsm) as (l1 & l2 & Hn1 & Hn2 & [_ Hcol] & Hr2 & Hlt2 & Hlt1).
    rewrite column_of_indentation in Hcol.
    assert (small ((pre ++ indentation col ++ "-"%char :: space :: atom_text t') ++ print_items col l ++ s)) as Hsm2.
    { rewrite <- !app_assoc. by cbn [app]. }
    destruct (IH (xs ++ [Leaf (scalar t)]) t' _ l2 Hl Hr2 Hsm2) as (l0 & l' & tk & Hr0 & Hn0 & Hlead).
    exists l0, l', tk. split_and!; [|done|].
    + rewrite <- !app_assoc in Hr0. unfold print_items. cbn [fmap list_fmap mjoin list_join]. rewrite <- !app_assoc. exact Hr0.
    + eapply leads_trans; [eapply leads_St; [done|apply item_St; [done|exact Hn1|done|exact Hv]|exact Hlt1]|].
      eapply leads_trans; [eapply leads_fetch; [|  |apply next_St, Hn2|]|]; try done.
      * change (YamlDoc.lx ?d) with l1. rewrite Hcol. by apply next_item_St.
      * rewrite <- app_assoc in Hlead. exact Hlead.
Qed.

Lemma items_arrive ind l pre s lx f c ln stack :
  Forall good_scalar l -> followed s ->
  reads pre (print ind (Items l) ++ s) lx -> small (pre ++ print ind (Items l) ++ s) ->
  get_lines_processed lx = line_of pre -> Z.of_nat ind < get_last_token_begin_pos lx -> Z.of_nat ind < column_of pre ->
  Forall frame_ok (f :: c) ->
  arrives (pre ++ print ind (Items l)) s
    (at_value lx (f :: c) ln (Z.of_nat ind) (in_mapping ln (Z.of_nat ind) c :: stack), Token KEY_SEPARATOR [])
    (fill_frame f (node_of (Items l))) c ln (Z.of_nat ind) stack.
Proof.
  intros Hl Hs Hr Hsm Hline Hpos Hcol0 Hc. destruct l as [|t l]; [by apply (empty_arrives false)|]. pose proof Hl as [[Ht _] _]%list.Forall_cons.
  cbn [print fmap list_fmap mjoin list_join] in Hr, Hsm. rewrite <- !app_assoc in Hr, Hsm. cbn [app] in Hr, Hsm.
  destruct (fetch_item (ind + dash) t l s pre lx Ht Hs Hr Hsm) as (l1 & l2 & Hn1 & Hn2 & [Hln Hcol] & Hr2 & Hlt2 & Hlt1).
  rewrite column_of_indentation in Hcol. rewrite line_of_app, newlines_indentation in Hln.
  assert (small ((pre ++ indentation (ind + dash) ++ "-"%char :: space :: atom_text t) ++ print_items (ind + dash) l ++ s)) as Hsm2.
  { rewrite <- !app_assoc. by cbn [app]. }
  set (stack' := in_mapping ln (Z.of_nat ind) c :: stack).
  destruct (items_lead (ind + dash) l [] t _ s l2 (f :: c) (line_of pre + 1) stack' Hl Hs Hr2 Hsm2 Hc)
    as (l0 & l' & tk & Hr0 & Hn0 & Hlead).
  exists l0, l', tk, (way (f :: c)), [in_sequence (line_of pre + 1) (Z.of_nat (ind + dash)) (f :: c)]. split_and!.
  - rewrite <- !app_assoc in Hr0. cbn [print fmap list_fmap mjoin list_join]. rewrite <- !app_assoc. exact Hr0.
  - done.
  - eapply leads_trans; [eapply leads_St; [done| |]|exact Hlead].
    + rewrite (separator_sequence_St lx l1 l2 [] (atom_token t)); try done; [by rewrite Hln, Hcol|rewrite Hline, Hln; lia].
    + lia.
  - exists (f :: c), (node_of (Items (t :: l))). by split_and!.
  - constructor; [|constructor]. split_and!; [cbn; lia|done|by intros []].
  - done.
Qed.

(** *** Entries *)
Lemma put_node_keys k n es : key_of <$> put_node k n es ≡ₚ str_key k :: (key_of <$> es).
Proof.
  unfold put_node. pose proof (place_app k es) as Hes. destruct (place k es) as [a b]. rewrite Hes, !fmap_app. cbn.
  by rewrite Permutation_middle.
Qed.

Lemma put_node_ok k n es : entries_ok es -> entries_ok (put_node k n es).
Proof.
  unfold entries_ok, str_keys, put_node. pose proof (place_app k es) as Hes. destruct (place k es) as [a b]. subst es.
  rewrite !Forall_app, !Forall_cons. intros [[Ha Hb] [Ha' Hb']]. cbn.
  assert (forall l, Forall (fun e : nat * (dnode * dnode) => e.1 < length (a ++ b))%nat l ->
    Forall (fun e : nat * (dnode * dnode) => e.1 < length (a ++ (length (a ++ b), (str_key k, n)) :: b))%nat l) as Hmono.
  { intros l Hl. eapply Forall_impl; [exact Hl|]. intros e. rewrite !length_app. cbn. lia. }
  split_and!; try done; try (by apply Hmono); [by eexists|rewrite !length_app; cbn; lia].
Qed.

Definition value_leads (b : block) : Prop := forall ind pre s l f c ln stack,
  readable b -> followed s -> reads pre (print ind b ++ s) l -> small (pre ++ print ind b ++ s) ->
  get_lines_processed l = line_of pre -> Z.of_nat ind < get_last_token_begin_pos l -> Z.of_nat ind < column_of pre -> ln <= line_of pre ->
  Forall frame_ok (f :: c) ->
  arrives (pre ++ print ind b) s
    (at_value l (f :: c) ln (Z.of_nat ind) (in_mapping ln (Z.of_nat ind) c :: stack), Token KEY_SEPARATOR [])
    (fill_frame f (node_of b)) c ln (Z.of_nat ind) stack.

(** A value, behind the separator of its key. *)
Lemma key_value ind k b pre s l es c ln stack :
  value_leads b -> good_key k -> readable b -> followed s ->
  reads (pre ++ k ++ [":"%char]) (print ind b ++ s) l -> small (pre ++ k ++ ":"%char :: print ind b ++ s) ->
  begun (pre ++ k) l -> column_of pre = Z.of_nat ind -> ln <= line_of pre -> Forall frame_ok c -> entries_ok es ->
  arrives (pre ++ k ++ ":"%char :: print ind b) s
    (at_value l (new_frame k es :: c) ln (Z.of_nat ind) (in_mapping ln (Z.of_nat ind) c :: stack), Token KEY_SEPARATOR [])
    (DMap (put_node k (node_of b) es)) c ln (Z.of_nat ind) stack.
Proof.
  intros Hb Hk Hrb Hs Hr Hsm [Hl Hpos] Hcol Hln Hc Hes. pose proof (plain_no_newline _ (proj1 Hk)) as Hnl.
  assert (newline ∉ [":"%char]) as Hcolon by (by intros H%list_elem_of_singleton).
  rewrite <- fill_new_frame. replace (pre ++ k ++ ":"%char :: print ind b) with ((pre ++ k ++ [":"%char]) ++ print ind b)
    by (by rewrite <- !app_assoc).
  assert (1 <= Z.of_nat (length k)) as Hlen.
  { destruct (proj1 Hk) as (_ & Hne & _). destruct k; [done|]. cbn [length]. lia. }
  apply Hb; [done|done|done| | | | | |].
  - by rewrite <- !app_assoc.
  - rewrite Hl, app_assoc, (line_of_app (pre ++ k)), (no_newlines [":"%char]) by done. lia.
  - rewrite Hpos, column_of_app by done. lia.
  - rewrite app_assoc, !column_of_app by done. lia.
  - rewrite app_assoc, !line_of_app, !no_newlines by done. lia.
  - constructor; [by apply new_frame_ok|done].
Qed.

Lemma str_key_inj k k' : str_key k = str_key k' -> k = k'.
Proof.
  intros [= H]. rewrite <- (String.list_ascii_of_string_of_list_ascii k), H. apply String.list_ascii_of_string_of_list_ascii.
Qed.

Definition fresh (l : list (chars * block)) (es : entries) : Prop := Forall (fun e => str_key e.1 ∉ (key_of <$> es)) l.

Lemma fresh_put k b l es n : NoDup (k :: l.*1) -> fresh ((k, b) :: l) es -> fresh l (put_node k n es).
Proof.
  intros [Hk _]%NoDup_cons [_ Hl]%list.Forall_cons. unfold fresh in *. rewrite list.Forall_forall in *. intros [k' b'] Hin.
  rewrite put_node_keys, not_elem_of_cons. split; [|by apply (Hl (k', b'))].
  intros Heq%str_key_inj. apply Hk. apply list_elem_of_fmap. exists (k', b'). by split.
Qed.

Definition good_entries (l : list (chars * block)) : Prop :=
  NoDup l.*1 /\ Forall (fun e : chars * block => good_key e.1) l /\
  Forall (fun e : chars * block => readable e.2) l /\ Forall (fun e : chars * block => value_leads e.2) l.

Lemma entries_lead ind l es pre s l0 lx tk cur extra c ln stack :
  good_entries l -> fresh l es -> entries_ok es -> followed s ->
  reads pre (print_entries ind l ++ s) l0 -> get_next_token l0 = Ret (lx, tk) -> small (pre ++ print_entries ind l ++ s) ->
  ln <= line_of pre -> Forall frame_ok c -> (Z.of_nat ind = 0 -> stack = []) ->
  resting (plug c (DMap es)) cur -> Forall (idle (Z.of_nat ind)) extra -> (extra = [] -> cur = way c) ->
  arrives (pre ++ print_entries ind l) s
    (St lx (plug c (DMap es)) cur (extra ++ in_mapping ln (Z.of_nat ind) c :: stack), tk)
    (DMap (put_nodes (nodes_of l) es)) c ln (Z.of_nat ind) stack.
Proof.
  intros Hl Hf Hes Hs. revert es pre l0 lx tk cur extra Hf Hes Hl.
  induction l as [|[k b] l IH]; intros es pre l0 lx tk cur extra Hf Hes (Hnd & Hk & Hrb & Hb) Hr Hn Hsm Hln Hc H0 Hrest Hex Hcur.
  { exists l0, lx, tk, cur, extra. rewrite app_nil_r. split_and!; try done. apply leads_refl. }
  pose proof (fresh_put k b l es (node_of b) Hnd Hf) as Hf'. apply list.Forall_cons in Hf as [Hfk _].
  apply NoDup_cons in Hnd as [_ Hnd]. apply list.Forall_cons in Hk as [Hk Hkl], Hrb as [Hrb Hrl], Hb as [Hb Hbl]. cbn [fst snd] in *.
  pose proof (followed_entries ind l s Hkl Hrl Hs) as Hs'.
  rewrite print_entries_cons, <- !app_assoc in Hr, Hsm. cbn [app] in Hr, Hsm. rewrite <- !app_assoc in Hr, Hsm.
  destruct (fetch_key ind k b _ pre l0 (proj1 Hk) Hrb Hr Hsm) as (lx' & Hn' & Hr' & Hbg). rewrite Hn in Hn'. injection Hn' as <- ->.
  destruct (print_blank ind b (print_entries ind l ++ s) Hrb) as (w & r & Hp & Hw).
  set (pre1 := pre ++ indentation ind) in *.
  assert (column_of pre1 = Z.of_nat ind) as Hcol by apply column_of_indentation.
  assert (small (pre1 ++ k ++ ":"%char :: print ind b ++ print_entries ind l ++ s)) as Hsm1 by (unfold pre1; by rewrite <- app_assoc).
  rewrite Hp in Hr'. pose proof Hsm1 as Hsm2. rewrite Hp in Hsm2.
  destruct (next_key pre1 k w r lx c es cur extra ln (Z.of_nat ind) stack) as (l1 & Hr1 & Hb1 & Hlead); try done; [lia|].
  rewrite <- Hp in Hr1.
  assert (ln <= line_of pre1) as Hln1 by (unfold pre1; rewrite line_of_app, newlines_indentation; lia).
  destruct (key_value ind k b pre1 _ l1 es c ln stack Hb Hk Hrb Hs' Hr1 Hsm1 Hb1 Hcol Hln1 Hc Hes)
    as (l2 & l3 & tk3 & cur3 & extra3 & Hr2 & Hn2 & Hlead2 & Hrest2 & Hex2 & Hcur2).
  replace (pre ++ print_entries ind ((k, b) :: l)) with ((pre1 ++ k ++ ":"%char :: print ind b) ++ print_entries ind l).
  2: { unfold pre1. by rewrite print_entries_cons, <- !app_assoc. }
  eapply arrives_leads; [eapply leads_trans; [exact Hlead|exact Hlead2]|].
  eapply (IH (put_node k (node_of b) es)); try done; [by apply put_node_ok| |].
  - rewrite <- !app_assoc. by cbn [app].
  - rewrite line_of_app. unfold newlines. lia.
Qed.

(** A mapping, whose first key has been fetched. *)
Lemma mapping_arrives ind k b l pre s lx c s0 stack :
  good_entries ((k, b) :: l) -> followed s ->
  reads (pre ++ k) (":"%char :: print ind b ++ print_entries ind l ++ s) lx ->
  small (pre ++ k ++ ":"%char :: print ind b ++ print_entries ind l ++ s) ->
  begun pre lx -> column_of pre = Z.of_nat ind -> opens_mapping s0 stack c (line_of pre) -> Forall frame_ok c ->
  (Z.of_nat ind = 0 -> stack = []) ->
  arrives (pre ++ k ++ ":"%char :: print ind b ++ print_entries ind l) s
    (St lx (plug c null_node) (way c) s0, Token PLAIN_SCALAR k)
    (node_of (Entries ((k, b) :: l))) c (line_of pre) (Z.of_nat ind) stack.
Proof.
  intros (Hnd & Hk & Hrb & Hb) Hs Hr Hsm Hbg Hcol Ho Hc H0.
  assert (fresh l (put_node k (node_of b) [])) as Hf.
  { apply (fresh_put k b); [done|]. apply list.Forall_forall. intros e _. apply not_elem_of_nil. }
  apply NoDup_cons in Hnd as [_ Hnd]. apply list.Forall_cons in Hk as [Hk Hkl], Hrb as [Hrb Hrl], Hb as [Hb Hbl]. cbn [fst snd] in *.
  pose proof (followed_entries ind l s Hkl Hrl Hs) as Hs'.
  destruct (print_blank ind b (print_entries ind l ++ s) Hrb) as (w & r & Hp & Hw).
  assert (exists l1, get_next_token lx = Ret (l1, Token KEY_SEPARATOR []) /\ reads (pre ++ k ++ [":"%char]) (w :: r) l1 /\
    begun (pre ++ k) l1 /\ (length l1.(rest) < length lx.(rest))%nat) as (l1 & Hn1 & Hr1 & Hb1 & Hlen).
  { apply colon_after; [by rewrite <- Hp|by rewrite <- Hp|done]. }
  pose proof (same_line _ _ _ _ (plain_no_newline _ (proj1 Hk)) Hbg Hb1) as Hline. destruct Hbg as [Hl Hpos].
  pose proof (first_key_St lx l1 k c s0 stack (Z.of_nat ind) (line_of pre) Hc (proj2 Hk) Ho Hn1
    ltac:(by rewrite Hline) ltac:(lia) H0) as Hfirst. cbv zeta in Hfirst.
  rewrite <- Hp in Hr1.
  destruct (key_value ind k b pre _ l1 [] c (line_of pre) stack Hb Hk Hrb Hs' Hr1 Hsm Hb1 Hcol ltac:(lia) Hc entries_ok_nil)
    as (l2 & l3 & tk3 & cur3 & extra3 & Hr2 & Hn2 & Hlead2 & Hrest2 & Hex2 & Hcur2).
  replace (pre ++ k ++ ":"%char :: print ind b ++ print_entries ind l)
    with ((pre ++ k ++ ":"%char :: print ind b) ++ print_entries ind l) by (by rewrite <- !app_assoc).
  eapply arrives_leads; [eapply leads_trans; [|exact Hlead2]|].
  - apply leads_St; [done| |done]. by rewrite Hl, Hpos, Hcol.
  - eapply (entries_lead ind l (put_node k (node_of b) [])); try done.
    + by apply put_node_ok, entries_ok_nil.
    + rewrite <- !app_assoc. by cbn [app].
    + rewrite line_of_app. unfold newlines. lia.
Qed.

Context (width_positive : (0 < width)%nat).

Lemma entries_arrive l : Forall (fun e => value_leads e.2) l -> value_leads (Entries l).
Proof.
  intros Hl ind pre s lx f c ln stack Hread Hs Hr Hsm Hline Hpos Hcol Hln Hc. inversion Hread as [| |l' Hnd Hk Hrb]; subst l'.
  destruct l as [|[k b] l]; [by apply (empty_arrives true)|]. change (print ind (Entries ((k, b) :: l))) with (print_entries (ind + width) ((k, b) :: l)) in *.
  pose proof Hk as [[Hkt _] _]%list.Forall_cons. pose proof Hrb as [Hrb1 _]%list.Forall_cons. cbn [fst snd] in *.
  rewrite print_entries_cons in Hr, Hsm |- *. rewrite <- !app_assoc in Hr, Hsm. cbn [app] in Hr, Hsm. rewrite <- !app_assoc in Hr, Hsm.
  destruct (fetch_key (ind + width) k b _ pre lx Hkt Hrb1 Hr Hsm) as (l1 & Hn1 & Hr1 & Hb1).
  set (pre1 := pre ++ indentation (ind + width)) in *.
  assert (line_of pre1 = line_of pre + 1) as Hl1 by (unfold pre1; by rewrite line_of_app, newlines_indentation).
  set (stack' := in_value ln (Z.of_nat ind) (f :: c) :: in_mapping ln (Z.of_nat ind) c :: stack).
  destruct (mapping_arrives (ind + width) k b l pre1 s l1 (f :: c) stack' (in_mapping ln (Z.of_nat ind) c :: stack))
    as (l2 & l3 & tk & cur & extra & Hr2 & Hn2 & Hlead & Hrest & Hex & Hcur); try done.
  { unfold pre1. by rewrite <- app_assoc. }
  { apply column_of_indentation. }
  { right. exists ln, (Z.of_nat ind). split; [done|lia]. }
  { lia. }
  exists l2, l3, tk, cur, (extra ++ [in_mapping (line_of pre1) (Z.of_nat (ind + width)) (f :: c)]). split_and!; try done.
  - unfold pre1 in Hr2. by rewrite <- app_assoc in Hr2.
  - rewrite <- app_assoc. eapply leads_trans; [eapply leads_St; [done|apply separator_St; [done|exact Hn1|done|]|]|exact Hlead].
    + right. split; [|done]. destruct Hb1 as [-> _]. rewrite Hline. lia.
    + rewrite (reads_rest _ _ _ Hr), (reads_rest _ _ _ Hr1). unfold indentation. cbn [app length]. rewrite !length_app. cbn [length]. rewrite !length_app. lia.
  - apply Forall_app. split; [|constructor; [|constructor]].
    + eapply Forall_impl; [exact Hex|]. intros e He. eapply idle_deeper; [|exact He|right]; lia.
    + split_and!; [cbn; lia|done|]. cbn. intros [? _]. lia.
  - intros []%app_nil. done.
Qed.

Lemma every_value_leads b : value_leads b.
Proof.
  induction b as [t|l|l Hl] using block_induction.
  - intros ind pre s l f c ln stack Hb. inversion Hb. intros. by apply scalar_arrives.
  - intros ind pre s lx f c ln stack Hb. inversion Hb. intros. by apply items_arrive.
  - by apply entries_arrive.
Qed.

(** ** A document *)
Lemma clear_St l n cur s contexts :
  Forall (fun c => is_key_state c.(state) = false) contexts ->
  clear_contexts contexts (St l n cur s) = (St l n cur s, Ret tt).
Proof.
  intros Hs. induction Hs as [|c contexts Hc Hs IH]; [done|]. cbn [clear_contexts].
  by prog_step (destroy_St c l n cur s Hc).
Qed.

Lemma reads_first s : reads [] s (lexical_analyzer s).
Proof. by split_and!. Qed.
Lemma reads_set pre s l b : reads pre s l -> reads pre s (set_document_state b l).
Proof. done. Qed.

(** Before the root is begun. *)
Definition starting (l : lexer) : deserializer :=
  Deserializer l (Memory null_node ∅ 0 [[]]) None [] 0 NEEDS_VALUE_OR_SUFFIX (MetaInfo false false [] [] []) unnamed.

Lemma directives_St l l1 k :
  get_next_token (set_document_state true l) = Ret (l1, Token PLAIN_SCALAR k) ->
  deserialize_directives (starting l) = (starting (set_document_state false l1), Ret (Token PLAIN_SCALAR k)).
Proof.
  intros Hn. unfold deserialize_directives. set (d := starting (set_document_state true l)).
  prog_step (eq_refl : modify (fun d => set_lx (set_document_state true d.(lx)) d) (starting l) = (d, Ret tt)).
  prog_step (eq_refl : gets (fun d => length d.(lx).(rest)) d = (_, Ret (length l.(rest)))). cbn [directives_loop].
  assert (next d = (starting l1, Ret (Token PLAIN_SCALAR k))) as Hnext.
  { unfold next. change (lx d) with (set_document_state true l). by rewrite Hn. }
  by prog_step Hnext.
Qed.

(** From the directives to the first token of the root. *)
Lemma document_St s l1 k :
  get_next_token (set_document_state true (lexical_analyzer s)) = Ret (l1, Token PLAIN_SCALAR k) ->
  deserialize_document from_chars (new_deserializer s)
  = (last_type ← deserialize_node from_chars (Token PLAIN_SCALAR k);
     s ← gets m_context_stack;
     clear_contexts (rev s);;
     modify (fun d => set_context_stack [] (set_flow_token_state NEEDS_VALUE_OR_SUFFIX
               (set_flow_context_depth 0 (set_current_node None d))));;
     set_needs false false;;
     mret last_type) (St (set_document_state false l1) null_node [] []).
Proof.
  intros Hn. unfold deserialize_document. change (new_deserializer s) with (starting (lexical_analyzer s)).
  prog_step (directives_St _ _ _ Hn). set (l2 := set_document_state false l1).
  prog_step (eq_refl : lines_processed (starting l2) = (_, Ret (get_lines_processed l2))).
  prog_step (eq_refl : last_token_begin_pos (starting l2) = (_, Ret (get_last_token_begin_pos l2))).
  assert (no_property (Token PLAIN_SCALAR k).(type)) as Hp by by split.
  by prog_step (no_properties l2 (Memory null_node ∅ 0 [[]]) None [] 0 NEEDS_VALUE_OR_SUFFIX
    (MetaInfo false false [] [] []) _ (get_last_token_begin_pos l2) Hp).
Qed.

(** The loop has rounds enough. *)
Lemma deserialize_node_leads l n cur s tk y :
  tk.(type) <> END_OF_BUFFER -> leads (St l n cur s, tk) y -> y.2.(type) = END_OF_BUFFER ->
  deserialize_node from_chars tk (St l n cur s) = (y.1, Ret END_OF_BUFFER).
Proof.
  intros Ht (rounds & Hle & Hrun) Hy. unfold deserialize_node. unfold remaining in Hle. cbn [fst] in Hle. change (lx (St l n cur s)) with l in Hle.
  prog_step (eq_refl : lines_processed (St l n cur s) = (_, Ret (get_lines_processed l))).
  prog_step (eq_refl : last_token_begin_pos (St l n cur s) = (_, Ret (get_last_token_begin_pos l))).
  prog_step (eq_refl : gets (fun d => length d.(lx).(rest)) (St l n cur s) = (_, Ret (length l.(rest)))).
  pose proof (Hrun (3 * S (length l.(rest)) - rounds)%nat) as Hr.
  replace (rounds + (3 * S (length l.(rest)) - rounds))%nat with (3 * S (length l.(rest)))%nat in Hr by lia.
  unfold run in Hr. destruct y as [d' tk']. cbn [snd fst] in *. rewrite bool_decide_eq_false_2, (bool_decide_eq_true_2 (tk'.(type) = _)) in Hr by done.
  exact Hr.
Qed.

Lemma text_of_cons k b l : text_of ((k, b) :: l) = k ++ ":"%char :: print 0 b ++ print_entries 0 l ++ [newline].
Proof. unfold text_of. rewrite print_entries_cons. cbn. rewrite <- !app_assoc. cbn. by rewrite <- app_assoc. Qed.

Lemma text_reads l :
  readable (Entries l) -> small (text_of l) ->
  deserialize_view from_chars (text_of l) = Ret (node_of (Entries l), [[]]).
Proof.
  intros Hr Hs. inversion Hr as [| |l' Hnd Hk Hrb]; subst l'. destruct l as [|[k b] l]; [by vm_compute|].
  assert (good_entries ((k, b) :: l)) as Hgood.
  { split_and!; [done..|]. apply list.Forall_forall. intros e _. apply every_value_leads. }
  pose proof Hk as [[Hkt _] _]%list.Forall_cons. pose proof Hrb as [Hb _]%list.Forall_cons. cbn [fst snd] in *.
  rewrite text_of_cons in *. set (s := print 0 b ++ print_entries 0 l ++ [newline]) in *.
  destruct (print_blank 0 b (print_entries 0 l ++ [newline]) Hb) as (w & r & Hp & Hw).
  destruct (fetch_plain [] [] k (":"%char :: s) (set_document_state true (lexical_analyzer (k ++ ":"%char :: s))))
    as (l1 & Hn1 & Hr1 & Hb1); try done.
  { unfold s. rewrite Hp. by right. }
  destruct (mapping_arrives 0 k b l [] [newline] (set_document_state false l1) [] [] [])
    as (l2 & l3 & tk & cur & extra & Hr2 & Hn2 & Hlead & _ & Hex & _); try done; [apply followed_end|by left|].
  destruct (fetch_end _ [newline] l2 Hr2) as (l4 & Hn4 & _).
  { cbn [app]. rewrite <- !app_assoc. cbn [app]. by rewrite <- !app_assoc. }
  { by constructor. }
  rewrite Hn2 in Hn4. injection Hn4 as <- ->. cbn [plug] in Hlead.
  unfold deserialize_view. rewrite (document_St _ _ _ Hn1).
  assert ((Token PLAIN_SCALAR k).(type) <> END_OF_BUFFER) as Ht by done.
  prog_step (deserialize_node_leads _ _ _ _ _ _ Ht Hlead eq_refl). cbn [fst].
  set (s0 := extra ++ [in_mapping (line_of []) (Z.of_nat 0) []]) in *.
  set (root := node_of (Entries ((k, b) :: l))) in *.
  prog_step (eq_refl : gets m_context_stack (St l3 root cur s0) = (_, Ret s0)).
  assert (Forall (fun c => is_key_state c.(state) = false) (rev s0)) as Hkey.
  { apply List.Forall_rev, Forall_app. split; [|by repeat constructor]. eapply Forall_impl; [exact Hex|]. intros e (_ & He & _). exact He. }
  by prog_step (clear_St l3 root cur s0 (rev s0) Hkey).
Qed.

Lemma document_of_text l :
  readable (Entries l) -> small (text_of l) -> document from_chars (Some (text_of l)) = Ret (tree (Entries l)).
Proof.
  intros Hl Hs. unfold document, deserialize. rewrite (text_view l Hl). cbn [mbind outcome_bind].
  rewrite (text_reads l Hl Hs). cbn [mbind outcome_bind]. apply (node_shows (Entries l) [[]]). lia.
Qed.
End runs.

(** ** Properties *)

(** C25: what is written in block style is read back. Take a mapping of
    mappings, sequences and scalars of these kinds: a key is of letters, digits
    and the marks . _ - / : with a letter or a digit first and no colon last, is
    one that the library reads as a string on its own (so 1 and 0x1 are none),
    and comes once in its mapping; a scalar is of these characters, or in single
    quotes with blanks besides, and is one that the library can convert on its
    own (so 99999999999999999999 is none). Printed with any positive indentation
    of nested keys and any of the items of a sequence, in less than 2^32
    characters, it is parsed into the same tree, its scalars with the values
    that they have on their own and its keys sorted; so with the text that
    [yaml.dump] writes, whose nested keys are indented by two and whose items
    are not. *)
Theorem block_text_read_back from_chars dash width l :
  (0 < width)%nat -> readable from_chars (Entries l) -> Z.of_nat (length (text_of dash width l)) < 2 ^ 32 ->
  document from_chars (Some (text_of dash width l)) = Ret (tree from_chars (Entries l)).
Proof.
  intros Hw. by apply document_of_text.
Qed.

Definition a_list : list (chars * block) :=
  [(bytes_of "mesh", Entries
     [(bytes_of "udp", Entries [(bytes_of "group2", Items (Plain <$> [bytes_of "10.0.0.1"; bytes_of "10.0.0.2"])); (bytes_of "group1", Items [])]);
      (bytes_of "tcp", Scalar (Plain (bytes_of "null")));
      (bytes_of "time", Items [Quoted (bytes_of "2024-01-01 10:00:00"); Plain (bytes_of "7")])])].

(** The premises that evaluate. *)
Ltac readable_by_evaluation :=
  repeat first
    [ reflexivity
    | apply readable_scalar | apply readable_items | apply readable_entries
    | apply Forall_cons_2 | apply Forall_nil_2
    | match goal with
      | |- good_scalar _ _ => split
      | |- good_key _ _ => split
      | |- atom_ok (Plain ?t) => change (plain_text t)
      | |- atom_ok (Quoted ?t) => change (quoted_text t); unfold quoted_text
      | |- plain_text _ => split_and!
      | |- NoDup _ => apply (bool_decide_unpack _); vm_compute; exact I
      | |- _ <> _ => discriminate
      end
    | progress cbn [fst snd] ].

Lemma block_text_read_back_witness :
  let text := lines ["mesh:"; "  udp:"; "    group2:"; "    - 10.0.0.1"; "    - 10.0.0.2"; "    group1: []"; "  tcp: null";
    "  time:"; "  - '2024-01-01 10:00:00'"; "  - 7"] in
  text_of 0 2 a_list = text /\
  document (fun _ => None) (Some text)
  = Ret (Yaml.Map [(Yaml.Str "mesh", Yaml.Map
      [(Yaml.Str "tcp", Yaml.Null);
       (Yaml.Str "time", Yaml.Seq [Yaml.Str "2024-01-01 10:00:00"; Yaml.Int 7]);
       (Yaml.Str "udp", Yaml.Map [(Yaml.Str "group1", Yaml.Seq []); (Yaml.Str "group2", Yaml.Seq [Yaml.Str "10.0.0.1"; Yaml.Str "10.0.0.2"])])])]).
Proof.
  split; [reflexivity|]. change (document (fun _ => None) (Some (text_of 0 2 a_list)) = Ret (tree (fun _ => None) (Entries a_list))).
  apply block_text_read_back; [lia| |reflexivity]. readable_by_evaluation.
Defined.
