(* ===== verification/PingListFile.v ===== *)
(** * PingListFile: from the files that the agent writes to the targets.

    The first part of [load_address_info] of both message schedulers, which
    parses [pinglist.yaml] and [address_store.yaml], in front of the part that is
    modelled in [Scheduler]; and the two files as the agent stores them, in the
    block style that [YamlDump] prints. *)
From S2P Require Import Prelude Prog Text CxxString Common Yaml YamlScan YamlConv YamlParse YamlPlain YamlInput YamlLex YamlNode YamlDoc YamlBlock YamlDump Scheduler SchedulerLoad.
From Stdlib Require Import Ascii.
From Stdlib Require String.
Local Open Scope Z_scope.

(** ** Loading a file *)

(** [try { ... = fkyaml::node::deserialize(...) } catch (const std::exception &)]:
    no document when it throws. *)
Definition load_yaml (from_chars : chars -> option Z) (file : option chars) : outcome (option Yaml.node) :=
  match document from_chars file with
  | Ret n => Ret (Some n)
  | Throw _ => Ret None
  | Undef => Undef
  end.

(** [load_address_info] with the file for its document. *)
Definition udp_load_file (from_chars : chars -> option Z) (protocol ipaddr : string) (ifs_pinglist : option chars)
  (s : scheduler string) : outcome (scheduler string) :=
  pinglist ← load_yaml from_chars ifs_pinglist;
  Udp.load_address_info protocol ipaddr pinglist s.

(** The address store is not opened when the ping list is not read. *)
Definition rdma_load_files (from_chars : chars -> option Z) (protocol ipaddr : string)
  (ifs_pinglist ifs_addressStore : option chars) (s : scheduler Rdma.address) : outcome (scheduler Rdma.address) :=
  pinglist ← load_yaml from_chars ifs_pinglist;
  match pinglist with
  | None => Rdma.load_address_info protocol ipaddr None None s
  | Some _ =>
      addressStore ← load_yaml from_chars ifs_addressStore;
      Rdma.load_address_info protocol ipaddr pinglist addressStore s
  end.

(** ** What the agent stores *)

(** The groups of each protocol by their names; [null] for a protocol without
    groups. *)
Definition category (A : Type) : Type := list (chars * option (list (chars * A))).

Record ping_list := PingList {
  mesh : category (list chars);
  arrow : category (list chars * list chars) }.

Definition mesh_group_block (ips : list chars) : block := Items (Plain <$> ips).
Definition arrow_group_block (g : list chars * list chars) : block :=
  Entries [(bytes_of "dst", mesh_group_block g.2); (bytes_of "src", mesh_group_block g.1)].

Definition groups_block {A} (group : A -> block) (gs : option (list (chars * A))) : block :=
  match gs with
  | None => Scalar (Plain (bytes_of "null"))
  | Some gs => Entries ((fun g => (g.1, group g.2)) <$> gs)
  end.
Definition category_block {A} (group : A -> block) (c : category A) : block :=
  Entries ((fun p => (p.1, groups_block group p.2)) <$> c).

Definition ping_list_entries (p : ping_list) : list (chars * block) :=
  [(bytes_of "arrow", category_block arrow_group_block p.(arrow));
   (bytes_of "mesh", category_block mesh_group_block p.(mesh))].

(** An address, its GID, LID and queue pair number, and the time at which its
    host made the queue pair. The time looks like a timestamp of YAML, and is
    therefore written in quotes; so is a GID that looks like a number to Python. *)
Definition stored_address : Type := atom * Z * Z * chars.
Definition address_store := list (chars * stored_address).
Definition number_text (n : Z) : chars := bytes_of (dec_string n).
Definition address_block (e : chars * stored_address) : block :=
  let '(ip, (gid, lid, qpn, dtime)) := e in
  Items [Plain ip; gid; Plain (number_text lid); Plain (number_text qpn); Quoted dtime].
Definition by_address (st : address_store) : list (chars * (chars * stored_address)) := (fun e => (e.1, e)) <$> st.
Definition address_store_entries (st : address_store) : list (chars * block) :=
  (fun e => (e.1, address_block e.2)) <$> by_address st.

Section files.
Context (from_chars : chars -> option Z).

Definition names_ok {A} (l : list (chars * A)) : Prop := NoDup l.*1 /\ Forall (good_key from_chars) l.*1.
Definition category_ok {A} (ok : A -> Prop) (c : category A) : Prop :=
  names_ok c /\ forall protocol gs, (protocol, Some gs) ∈ c -> names_ok gs /\ forall name g, (name, g) ∈ gs -> ok g.
Definition addresses_ok (ips : list chars) : Prop := Forall (good_key from_chars) ips.
Definition ping_list_ok (p : ping_list) : Prop :=
  category_ok addresses_ok p.(mesh) /\
  category_ok (fun g => addresses_ok g.1 /\ addresses_ok g.2) p.(arrow).
(** A text that is read as a string. *)
Definition good_text (a : atom) : Prop :=
  match a with Plain t => good_key from_chars t | Quoted t => quoted_text t end.
Definition address_store_ok (st : address_store) : Prop :=
  names_ok st /\ forall ip gid lid qpn dtime, (ip, (gid, lid, qpn, dtime)) ∈ st ->
    good_text gid /\ is_u32 lid /\ is_u32 qpn /\ quoted_text dtime.

(** ** Both can be printed *)
Lemma good_text_scalar a : good_text a ->
  good_scalar from_chars a /\ scalar from_chars a = Yaml.Str (of_bytes (atom_str a)).
Proof.
  intros Ha. assert (reads_as from_chars a (Yaml.Str (of_bytes (atom_str a))) /\ atom_ok a) as [Hr Hok].
  - destruct a as [t|t]; [split; apply Ha|]. split; [|exact Ha].
    assert (quote ∉ t /\ newline ∉ t) as [Hq Hn].
    { cbn in Ha. unfold quoted_text in Ha. rewrite list.Forall_forall in Ha.
      split; intros Hin%Ha%quoted_char_safe; by destruct Hin as (? & ? & _). }
    unfold reads_as. cbn [atom_type atom_str]. rewrite <- (in_single_quotes_plain t Hq) at 1.
    by apply single_quoted_flow.
  - unfold good_scalar, scalar. unfold reads_as in *. by rewrite Hr.
Qed.

Lemma good_key_scalar k : good_key from_chars k -> scalar from_chars (Plain k) = Yaml.Str (of_bytes k).
Proof. intros Hk. by apply (good_text_scalar (Plain k)). Qed.

Lemma good_key_good k : good_key from_chars k -> good_scalar from_chars (Plain k).
Proof. intros Hk. by apply (good_text_scalar (Plain k)). Qed.

Lemma number_scalar n : is_u32 n -> good_scalar from_chars (Plain (number_text n)) /\ scalar from_chars (Plain (number_text n)) = Yaml.Int n.
Proof.
  unfold is_u32. intros Hn. assert (parse_flow from_chars PLAIN_SCALAR TAG_NONE (number_text n) = Ret (Yaml.Int n)) as Hp.
  { apply plain_decimal. lia. }
  assert (scalar from_chars (Plain (number_text n)) = Yaml.Int n) as Hs by (unfold scalar; cbn [atom_type atom_str]; by rewrite Hp).
  split; [|done]. split; [|unfold reads_as; by rewrite Hs]. cbn [atom_ok]. unfold number_text.
  destruct (dec_string_text n ltac:(lia)) as (Hd & Hne & _).
  assert (forall c, is_digit c = true -> isalnum c = true /\ c <> ":"%char) as Hc.
  { intros c Hc. pose proof (forall_ascii (fun c => negb (is_digit c) || (isalnum c && negb (Ascii.eqb c ":"))) eq_refl c) as H.
    cbn beta in H. rewrite Hc in H. apply andb_true_iff in H as [H1 H2%negb_true_iff]. split; [done|by apply Ascii.eqb_neq]. }
  unfold digits in Hd. split_and!.
  - eapply Forall_impl; [exact Hd|]. intros c H%Hc. unfold plain_char. by destruct H as [-> _].
  - destruct (bytes_of (dec_string n)) as [|c r]; [done|]. apply list.Forall_cons in Hd as [H%Hc _]. tauto.
  - intros Hl%last_Some_elem_of. rewrite list.Forall_forall in Hd. by apply Hd, Hc in Hl as [_ Hl].
Qed.

Lemma readable_named {A} (f : A -> block) (l : list (chars * A)) :
  names_ok l -> (forall k a, (k, a) ∈ l -> readable from_chars (f a)) ->
  readable from_chars (Entries ((fun e => (e.1, f e.2)) <$> l)).
Proof.
  intros [Hnd Hk] Hr. apply readable_entries.
  - by rewrite <- list_fmap_compose.
  - rewrite Forall_fmap. by rewrite Forall_fmap in Hk.
  - rewrite Forall_fmap, list.Forall_forall. intros [k a] Hin. by apply (Hr k).
Qed.

Lemma readable_addresses ips : addresses_ok ips -> readable from_chars (mesh_group_block ips).
Proof. intros Hips. apply readable_items, Forall_fmap. eapply Forall_impl; [exact Hips|]. apply good_key_good. Qed.

Lemma readable_category {A} (ok : A -> Prop) (group : A -> block) (c : category A) :
  (forall a, ok a -> readable from_chars (group a)) -> category_ok ok c -> readable from_chars (category_block group c).
Proof.
  intros Hg [Hn Hc]. apply (readable_named (groups_block group)); [done|]. intros protocol [gs|] Hin.
  - apply Hc in Hin as [Hgs Hok]. apply (readable_named group); [done|]. intros name g Hng. by eapply Hg, Hok.
  - readable_by_evaluation.
Qed.

Lemma ping_list_readable p : ping_list_ok p -> readable from_chars (Entries (ping_list_entries p)).
Proof.
  intros [Hm Ha]. apply readable_entries.
  - apply (bool_decide_unpack _). vm_compute. exact I.
  - readable_by_evaluation.
  - repeat apply Forall_cons_2; [| |by apply Forall_nil_2]; cbn [snd]; (eapply readable_category; [|done]).
    + intros [src dst] [Hs Hd]. apply readable_entries; [apply (bool_decide_unpack _); vm_compute; exact I|readable_by_evaluation|].
      repeat apply Forall_cons_2; [by apply readable_addresses..|by apply Forall_nil_2].
    + apply readable_addresses.
Qed.

Lemma by_address_keys st : (by_address st).*1 = st.*1.
Proof. unfold by_address. by rewrite <- list_fmap_compose. Qed.

Lemma address_store_readable st : address_store_ok st -> readable from_chars (Entries (address_store_entries st)).
Proof.
  intros [[Hnd Hk] Hst]. apply (readable_named address_block).
  - unfold names_ok. by rewrite by_address_keys.
  - intros k a ([ip [[[gid lid] qpn] dtime]] & [= -> ->] & Hin)%list_elem_of_fmap.
    destruct (Hst _ _ _ _ _ Hin) as (Hg & Hl & Hq & Ht). rewrite list.Forall_forall in Hk.
    apply (list_elem_of_fmap_2 fst), Hk in Hin. apply readable_items.
    repeat apply Forall_cons_2; [by apply good_key_good|by apply good_text_scalar|by apply number_scalar..| |by apply Forall_nil_2].
    by apply (good_text_scalar (Quoted dtime)).
Qed.

(** ** What the schedulers find in the documents *)
Lemma put_perm {A} k (a : A) l : put k a l ≡ₚ (k, a) :: l.
Proof.
  induction l as [|[k' a'] l IH]; cbn [put]; [done|]. destruct (string_lt _ _); [|done]. rewrite IH. constructor.
Qed.
Lemma sort_keys_perm {A} (l : list (chars * A)) : sort_keys l ≡ₚ l.
Proof.
  unfold sort_keys. enough (forall acc, foldl (fun l e => put e.1 e.2 l) acc l ≡ₚ l ++ acc) as H by (rewrite (H []); by rewrite app_nil_r).
  induction l as [|[k a] l IH]; intros acc; [done|]. cbn [foldl fst snd]. rewrite IH, put_perm. symmetry. apply Permutation_middle.
Qed.

Lemma put_fmap {A B} (f : A -> B) k a l : put k (f a) (prod_map id f <$> l) = prod_map id f <$> put k a l.
Proof. induction l as [|[k' a'] l IH]; [done|]. cbn. destruct (string_lt _ _); [|done]. cbn. by rewrite IH. Qed.
Lemma sort_keys_fmap {A B} (f : A -> B) (l : list (chars * A)) :
  sort_keys ((fun e => (e.1, f e.2)) <$> l) = (fun e => (e.1, f e.2)) <$> sort_keys l.
Proof.
  unfold sort_keys. enough (forall acc, foldl (fun l e => put e.1 e.2 l) (prod_map id f <$> acc) ((fun e => (e.1, f e.2)) <$> l)
    = prod_map id f <$> foldl (fun l e => put e.1 e.2 l) acc l) as H by exact (H []).
  induction l as [|[k a] l IH]; intros acc; [done|]. cbn [fmap list_fmap foldl fst snd]. rewrite put_fmap. apply IH.
Qed.

Abbreviation key_values := (fmap (fun e : chars * Yaml.node => (Yaml.Str (of_bytes e.1), e.2))).

Lemma tree_named {A} (f : A -> block) (l : list (chars * A)) :
  tree from_chars (Entries ((fun e => (e.1, f e.2)) <$> l))
  = Yaml.Map (key_values ((fun e => (e.1, tree from_chars (f e.2))) <$> sort_keys l)).
Proof. cbn [tree]. do 2 f_equal. rewrite <- list_fmap_compose. exact (sort_keys_fmap (fun a => tree from_chars (f a)) l). Qed.

Lemma find_key_in k v (l : list (chars * Yaml.node)) :
  NoDup l.*1 -> (bytes_of k, v) ∈ l -> Yaml.find_key k (key_values l) = Some v.
Proof.
  induction l as [|[k' v'] l IH]; intros Hnd Hin; [by apply elem_of_nil in Hin|].
  apply NoDup_cons in Hnd as [Hk Hnd]. cbn. destruct (String.eqb_spec (of_bytes k') k) as [Heq|Hne].
  - apply elem_of_cons in Hin as [[= _ ->]|Hin]; [done|]. destruct Hk. apply list_elem_of_fmap. exists (bytes_of k, v).
    split; [|done]. cbn. by rewrite <- Heq, String.list_ascii_of_string_of_list_ascii.
  - apply elem_of_cons in Hin as [[= <- _]|Hin]; [|by apply IH]. by rewrite String.string_of_list_ascii_of_string in Hne.
Qed.
Lemma find_key_none k (l : list (chars * Yaml.node)) : bytes_of k ∉ l.*1 -> Yaml.find_key k (key_values l) = None.
Proof.
  induction l as [|[k' v'] l IH]; intros Hk; [done|]. cbn [fmap list_fmap fst] in Hk. apply not_elem_of_cons in Hk as [Hne Hk]. cbn.
  destruct (String.eqb_spec (of_bytes k') k) as [Heq|_]; [|by apply IH].
  by rewrite <- Heq, String.list_ascii_of_string_of_list_ascii in Hne.
Qed.

Lemma named_once {A} (l : list (chars * A)) k a b : NoDup l.*1 -> (k, a) ∈ l -> (k, b) ∈ l -> a = b.
Proof.
  intros Hnd [i Hi]%list_elem_of_lookup_1 [j Hj]%list_elem_of_lookup_1.
  assert (i = j) as <-; [|congruence].
  apply (NoDup_lookup l.*1 i j k Hnd); rewrite list_lookup_fmap; [by rewrite Hi|by rewrite Hj].
Qed.

(** Looking a key up in a mapping that was stored. *)
Lemma named_lookup {A} (f : A -> block) (l : list (chars * A)) k :
  NoDup l.*1 ->
  let n := tree from_chars (Entries ((fun e => (e.1, f e.2)) <$> l)) in
  (forall a, (bytes_of k, a) ∈ l -> Yaml.contains n k = true /\ Yaml.at_key n k = Ret (tree from_chars (f a))) /\
  (bytes_of k ∉ l.*1 -> Yaml.contains n k = false).
Proof.
  intros Hnd n. unfold n. rewrite tree_named. cbn [Yaml.contains Yaml.at_key].
  assert (((fun e : chars * A => (e.1, tree from_chars (f e.2))) <$> sort_keys l).*1 ≡ₚ l.*1) as Hp.
  { rewrite <- list_fmap_compose. by rewrite sort_keys_perm. }
  split.
  - intros a Ha. rewrite (find_key_in k (tree from_chars (f a))); [done|by rewrite Hp|].
    apply list_elem_of_fmap. exists (bytes_of k, a). split; [done|]. by rewrite sort_keys_perm.
  - intros Hk. rewrite find_key_none; [done|]. by rewrite Hp.
Qed.

Lemma children_named {A} (f : A -> block) (l : list (chars * A)) :
  Yaml.children (tree from_chars (Entries ((fun e => (e.1, f e.2)) <$> l)))
  = Ret ((fun e => tree from_chars (f e.2)) <$> sort_keys l).
Proof. rewrite tree_named. cbn [Yaml.children]. by rewrite <- !list_fmap_compose. Qed.

(** The groups that the document has for a protocol are those of the list. *)
Lemma groups_stored {A} (ok : A -> Prop) (group : A -> block) (c : category A) protocol name pinglist :
  category_ok ok c ->
  Yaml.contains pinglist name = true ->
  Yaml.at_key pinglist name = Ret (tree from_chars (category_block group c)) ->
  exists gs, groups_of protocol name pinglist = Some ((fun g => tree from_chars (group g.2)) <$> gs) /\
    (forall g, g ∈ gs <-> exists named, (bytes_of protocol, Some named) ∈ c /\ g ∈ named).
Proof.
  intros [[Hnd _] Hc] H1 H2. unfold groups_of. rewrite H1, H2.
  destruct (named_lookup (groups_block group) c protocol Hnd) as [Hin Hout]. fold (category_block group c) in Hin, Hout.
  destruct (decide (bytes_of protocol ∈ c.*1)) as [Hp|Hp].
  - apply list_elem_of_fmap in Hp as ([k gs] & Hk & Hp). cbn in Hk. subst k.
    destruct (Hin _ Hp) as [-> ->].
    assert (forall gs', (bytes_of protocol, gs') ∈ c -> gs' = gs) as Huniq by (intros gs' Hgs'; by eapply (named_once c)).
    destruct gs as [named|].
    + exists (sort_keys named). split.
      * cbn [groups_block]. rewrite (children_named group named), tree_named. done.
      * intros g. rewrite sort_keys_perm. split; [intros Hg; by exists named|].
        intros (named' & [= ->]%Huniq & Hg). done.
    + exists []. split; [done|]. intros g. split; [by intros ?%elem_of_nil|]. by intros (named & [=]%Huniq & _).
  - rewrite (Hout Hp). exists []. split; [done|]. intros g. split; [by intros ?%elem_of_nil|].
    intros (named & Hin' & _). destruct Hp. apply list_elem_of_fmap. by exists (bytes_of protocol, Some named).
Qed.

Lemma strings_stored ips : addresses_ok ips -> strings_of (tree from_chars (mesh_group_block ips)) = Some (of_bytes <$> ips).
Proof.
  intros Hips. unfold strings_of, mesh_group_block. cbn [tree Yaml.children].
  induction Hips as [|t ips Ht Hips IH]; [done|]. cbn [fmap list_fmap mapM]. rewrite (good_key_scalar t Ht). cbn.
  by rewrite IH.
Qed.

Lemma mapM_stored {A B} (f : Yaml.node -> option B) (group : A -> block) (h : A -> B) (gs : list (chars * A)) :
  (forall name g, (name, g) ∈ gs -> f (tree from_chars (group g)) = Some (h g)) ->
  mapM f ((fun g => tree from_chars (group g.2)) <$> gs) = Some ((fun g => h g.2) <$> gs).
Proof.
  intros Hf. induction gs as [|[name g] gs IH]; [done|]. cbn [fmap list_fmap mapM snd].
  rewrite (Hf name g) by apply list_elem_of_here. cbn. rewrite IH; [done|].
  intros name' g' Hin. apply (Hf name'). by apply list_elem_of_further.
Qed.

Lemma arrow_group_stored src dst : addresses_ok src -> addresses_ok dst ->
  arrow_group_of (tree from_chars (arrow_group_block (src, dst))) = Some (of_bytes <$> src, of_bytes <$> dst).
Proof.
  intros Hs Hd. unfold arrow_group_of, arrow_group_block.
  assert (NoDup [bytes_of "dst"; bytes_of "src"]) as Hnd by (apply (bool_decide_unpack _); vm_compute; exact I).
  destruct (named_lookup mesh_group_block [(bytes_of "dst", dst); (bytes_of "src", src)] "src" Hnd) as [H1 _].
  destruct (named_lookup mesh_group_block [(bytes_of "dst", dst); (bytes_of "src", src)] "dst" Hnd) as [H2 _].
  cbn [fmap list_fmap fst snd] in H1, H2 |- *.
  destruct (H1 src) as [-> ->]; [by right; left|]. destruct (H2 dst) as [-> ->]; [by left|].
  cbn [andb]. rewrite !strings_stored by done. done.
Qed.

(** What the ping list asks the host to reach. *)
Definition asks_for (p : ping_list) (protocol ipaddr ip : string) : Prop :=
  (exists gs name ips, (bytes_of protocol, Some gs) ∈ p.(mesh) /\ (name, ips) ∈ gs /\
     bytes_of ipaddr ∈ ips /\ bytes_of ip ∈ ips) \/
  (exists gs name src dst, (bytes_of protocol, Some gs) ∈ p.(arrow) /\ (name, (src, dst)) ∈ gs /\
     bytes_of ipaddr ∈ src /\ bytes_of ip ∈ dst).

Lemma of_bytes_elem (ip : string) (ips : list chars) : ip ∈ (of_bytes <$> ips) <-> bytes_of ip ∈ ips.
Proof.
  rewrite list_elem_of_fmap. split.
  - intros (t & -> & Ht). by rewrite String.list_ascii_of_string_of_list_ascii.
  - intros Ht. exists (bytes_of ip). by rewrite String.string_of_list_ascii_of_string.
Qed.

Lemma ping_list_stored p protocol : ping_list_ok p ->
  let pinglist := tree from_chars (Entries (ping_list_entries p)) in
  exists ms ars, mesh_of protocol pinglist = Some ms /\ arrow_of protocol pinglist = Some ars /\
    forall ipaddr ip,
      (exists g, g ∈ ms /\ ipaddr ∈ g /\ ip ∈ g) \/ (exists src dst, (src, dst) ∈ ars /\ ipaddr ∈ src /\ ip ∈ dst) <->
      asks_for p protocol ipaddr ip.
Proof.
  intros [Hm Ha] pinglist.
  assert (NoDup (ping_list_entries p).*1) as Hnd by (apply (bool_decide_unpack _); vm_compute; exact I).
  destruct (named_lookup id (ping_list_entries p) "mesh" Hnd) as [Hmesh _].
  destruct (named_lookup id (ping_list_entries p) "arrow" Hnd) as [Harrow _].
  destruct (Hmesh _ ltac:(right; left)) as [Hm1 Hm2]. destruct (Harrow _ ltac:(left)) as [Ha1 Ha2].
  destruct (groups_stored _ _ _ protocol "mesh" pinglist Hm Hm1 Hm2) as (gm & Hgm & Hinm).
  destruct (groups_stored _ _ _ protocol "arrow" pinglist Ha Ha1 Ha2) as (ga & Hga & Hina).
  exists ((fun g : chars * list chars => of_bytes <$> g.2) <$> gm),
    ((fun g : chars * (list chars * list chars) => (of_bytes <$> g.2.1, of_bytes <$> g.2.2)) <$> ga).
  unfold mesh_of, arrow_of. rewrite Hgm, Hga. split_and!.
  - cbn [mbind option_bind]. apply (mapM_stored strings_of mesh_group_block (fun ips : list chars => of_bytes <$> ips)).
    intros name g (named & Hp & Hg)%Hinm. destruct Hm as [_ Hm]. by eapply strings_stored, Hm.
  - cbn [mbind option_bind]. apply (mapM_stored arrow_group_of arrow_group_block (fun g => (of_bytes <$> g.1, of_bytes <$> g.2))).
    intros name [src dst] (named & Hp & Hg)%Hina. destruct Ha as [_ Ha]. apply Ha in Hp as [_ Hok].
    apply Hok in Hg as [Hs Hd]. by apply arrow_group_stored.
  - intros ipaddr ip. unfold asks_for. apply Morphisms_Prop.or_iff_morphism; split.
    + intros (? & ([name ips] & -> & (gs & Hp & Hg)%Hinm)%list_elem_of_fmap & H1%of_bytes_elem & H2%of_bytes_elem).
      by exists gs, name, ips.
    + intros (gs & name & ips & Hp & Hg & H1 & H2). exists (of_bytes <$> ips : list string). rewrite !of_bytes_elem. split; [|done].
      apply list_elem_of_fmap. exists (name, ips). split; [done|]. apply Hinm. by exists gs.
    + intros (? & ? & ([name [src dst]] & [= -> ->] & (gs & Hp & Hg)%Hina)%list_elem_of_fmap & H1%of_bytes_elem & H2%of_bytes_elem).
      by exists gs, name, src, dst.
    + intros (gs & name & src & dst & Hp & Hg & H1 & H2). exists (of_bytes <$> src), (of_bytes <$> dst).
      rewrite !of_bytes_elem. split; [|done].
      apply list_elem_of_fmap. exists (name, (src, dst)). split; [done|]. apply Hina. by exists gs.
Qed.


Definition address_of (e : chars * stored_address) : Rdma.address :=
  let '(ip, (gid, lid, qpn, _)) := e in (of_bytes ip, of_bytes (atom_str gid), lid, qpn).

Lemma address_stored ip gid lid qpn dtime : good_key from_chars ip -> good_text gid -> is_u32 lid -> is_u32 qpn ->
  entry_of (tree from_chars (address_block (ip, (gid, lid, qpn, dtime)))) = Some (address_of (ip, (gid, lid, qpn, dtime))).
Proof.
  intros Hip Hg Hl Hq. cbn [address_block tree fmap list_fmap].
  rewrite (good_key_scalar ip Hip). destruct (good_text_scalar gid Hg) as [_ ->].
  destruct (number_scalar lid Hl) as [_ ->], (number_scalar qpn Hq) as [_ ->]. cbn. by rewrite !u32_small.
Qed.

Lemma first_entry_of es ip : NoDup (ip_of <$> es) ->
  forall a, first_entry ip es = Some a <-> a ∈ es /\ ip_of a = ip.
Proof.
  intros Hnd a. split.
  - intros Ha. split; [|by eapply first_entry_ip].
    induction es as [|b es IH]; [done|]. cbn in *. apply NoDup_cons in Hnd as [_ Hnd].
    destruct (String.eqb _ _); [simplify_eq; by left|]. right. by apply IH.
  - intros [Hin <-]. induction es as [|b es IH]; [by apply elem_of_nil in Hin|]. cbn in *. apply NoDup_cons in Hnd as [Hb Hnd].
    apply elem_of_cons in Hin as [->|Hin]; [by rewrite String.eqb_refl|].
    destruct (String.eqb_spec (ip_of b) (ip_of a)) as [Heq|_]; [|by apply IH].
    destruct Hb. rewrite Heq. by apply list_elem_of_fmap_2.
Qed.

Lemma store_stored st : address_store_ok st -> exists es,
  store_of (tree from_chars (Entries (address_store_entries st))) = Some es /\
  forall ip a, first_entry ip es = Some a <-> a ∈ (address_of <$> st) /\ ip_of a = ip.
Proof.
  intros [[Hnd Hk] Hst]. assert (sort_keys (by_address st) ≡ₚ by_address st) as Hperm by apply sort_keys_perm.
  exists ((fun e => address_of e.2) <$> sort_keys (by_address st)). split.
  - unfold store_of, address_store_entries. rewrite (children_named address_block).
    apply (mapM_stored entry_of address_block address_of). intros k e Hin. rewrite Hperm in Hin.
    apply list_elem_of_fmap in Hin as ([ip [[[gid lid] qpn] dtime]] & [= -> ->] & Hin).
    destruct (Hst _ _ _ _ _ Hin) as (Hg & Hl & Hq & _). rewrite list.Forall_forall in Hk.
    apply address_stored; [|done..]. by apply (list_elem_of_fmap_2 fst), Hk in Hin.
  - assert ((fun e => address_of e.2) <$> sort_keys (by_address st) ≡ₚ address_of <$> st) as Hes.
    { rewrite Hperm. unfold by_address. by rewrite <- list_fmap_compose. }
    intros ip a. rewrite first_entry_of; [by rewrite Hes|]. rewrite Hes.
    assert (ip_of <$> (address_of <$> st) = (of_bytes <$> st.*1 : list string)) as ->.
    { rewrite <- !list_fmap_compose. apply list_fmap_ext. by intros _ [ip' [[[gid lid] qpn] dtime]] _. }
    apply NoDup_fmap_2; [|done]. intros t t' Ht. apply (str_key_inj t t'). unfold str_key. by rewrite Ht.
Qed.

Context (dash width : nat) (width_positive : (0 < width)%nat).

Lemma load_yaml_text l :
  readable from_chars (Entries l) -> small (text_of dash width l) ->
  load_yaml from_chars (Some (text_of dash width l)) = Ret (Some (tree from_chars (Entries l))).
Proof. intros Hl Hs. unfold load_yaml. by rewrite document_of_text. Qed.
End files.

(** ** An example *)

Definition a_ping_list : ping_list :=
  PingList
    [(bytes_of "tcp", None);
     (bytes_of "udp", Some [(bytes_of "group2", [bytes_of "10.0.0.1"; bytes_of "10.0.0.2"]); (bytes_of "group1", [])])]
    [(bytes_of "udp", Some [(bytes_of "group1", ([bytes_of "10.0.0.1"], [bytes_of "10.0.0.9"; bytes_of "10.0.0.2"]))])].

Definition an_address_store : address_store :=
  let time := bytes_of "2024-01-01 10:00:00" in
  [(bytes_of "10.0.0.9", (Plain (bytes_of "00000000000000000000ffff0a000009"), 0, 17, time));
   (bytes_of "10.0.0.2", (Quoted (bytes_of "20010000000000000000000000000002"), 0, 18, time));
   (bytes_of "10.0.0.3", (Plain (bytes_of "00000000000000000000ffff0a000003"), 0, 19, time))].

(** A member of a list that is written out. *)
Ltac members :=
  intros; cbn [mesh arrow a_ping_list] in *;
  repeat match goal with
  | H : _ ∈ [] |- _ => apply elem_of_nil in H; destruct H
  | H : _ ∈ _ :: _ |- _ => apply elem_of_cons in H as [H|H]
  | H : (_, _) = (_, _) |- _ => injection H as ? ?; subst
  | H : Some _ = Some _ |- _ => injection H as ?; subst
  | H : Some _ = None |- _ => discriminate H
  end.
Ltac names_by_evaluation := split; [apply (bool_decide_unpack _); vm_compute; exact I|readable_by_evaluation].
Ltac category_by_evaluation :=
  split; [names_by_evaluation|]; members; (split; [names_by_evaluation|]; members; unfold addresses_ok; repeat split; readable_by_evaluation).

Lemma a_ping_list_ok : ping_list_ok (fun _ => None) a_ping_list.
Proof. split; category_by_evaluation. Qed.

Lemma an_address_store_ok : address_store_ok (fun _ => None) an_address_store.
Proof.
  split; [names_by_evaluation|]. intros ip gid lid qpn dtime H. unfold an_address_store in H. members; unfold is_u32.
  all: split_and!; [cbn [good_text]; unfold quoted_text; readable_by_evaluation|lia..|unfold quoted_text; readable_by_evaluation].
Qed.

(** ** Properties *)

(** C22: from the file to the targets. When the agent has stored a ping list,
    the UDP scheduler of a host gets from the file exactly the addresses that
    the list asks it to reach, each once: the members of every mesh group of its
    protocol that has the host, and the destinations of every arrow group that
    has the host as a source; it starts at the first, and its failures are
    forgotten. The names of groups and protocols and the addresses are texts
    that the library reads as strings on their own, no name comes twice in its
    list, and the file has less than 2^32 characters. *)
Theorem ping_list_file_loaded from_chars dash width protocol ipaddr p s :
  (0 < width)%nat -> ping_list_ok from_chars p -> Z.of_nat (length (text_of dash width (ping_list_entries p))) < 2 ^ 32 ->
  exists s', udp_load_file from_chars protocol ipaddr (Some (text_of dash width (ping_list_entries p))) s = Ret s' /\
    NoDup (addressInfo s') /\ (forall ip, ip ∈ addressInfo s' <-> asks_for p protocol ipaddr ip) /\
    addr_idx s' = 0%nat /\ load_yaml_retry_cnt s' = 0.
Proof.
  intros Hw Hp Hs. unfold udp_load_file.
  rewrite (load_yaml_text from_chars dash width Hw _ (ping_list_readable from_chars p Hp) Hs). cbn [mbind outcome_bind].
  destruct (ping_list_stored from_chars p protocol Hp) as (ms & ars & Hm & Ha & Hask).
  rewrite (load_address_info_typed protocol ipaddr _ ms ars s Hm Ha).
  pose proof (loaded_exactly ipaddr ms ars) as [Hnd Hin].
  set (l := Udp.infoNew _) in *. eexists. split; [done|].
  destruct (renewed l s) as (-> & -> & ->). split_and!; [done| |done..].
  intros ip. by rewrite Hin, Hask.
Qed.

Lemma ping_list_file_loaded_witness :
  let text := lines ["arrow:"; "  udp:"; "    group1:"; "      dst:"; "      - 10.0.0.9"; "      - 10.0.0.2"; "      src:"; "      - 10.0.0.1";
    "mesh:"; "  tcp: null"; "  udp:"; "    group2:"; "    - 10.0.0.1"; "    - 10.0.0.2"; "    group1: []"] in
  text_of 0 2 (ping_list_entries a_ping_list) = text /\
  exists s', udp_load_file (fun _ => None) "udp" "10.0.0.1" (Some text) example_scheduler = Ret s' /\
    NoDup (addressInfo s') /\ addressInfo s' = ["10.0.0.1"; "10.0.0.2"; "10.0.0.9"].
Proof.
  split; [reflexivity|].
  destruct (ping_list_file_loaded (fun _ => None) 0 2 "udp" "10.0.0.1" a_ping_list example_scheduler)
    as (s' & Hl & Hnd & _); [lia|apply a_ping_list_ok|reflexivity|].
  exists s'. split; [exact Hl|]. split; [exact Hnd|]. vm_compute in Hl. by injection Hl as <-.
Defined.

(** C23: from the two files to the targets. When the agent has stored a ping
    list and an address store, the RDMA scheduler of a host gets exactly the
    entries of the store whose address the list asks the host to reach, each
    once and with its own GID, LID and queue pair number. A stored entry has a
    fifth item, the time as text in single quotes; a GID is plain, if the
    library reads it as a string, or in single quotes. Names and addresses are
    texts that the library reads as strings on their own, no name comes twice in
    its list, the numbers are below 2^32, and each file has less than 2^32
    characters. *)
Theorem address_files_loaded from_chars dash width protocol ipaddr p st s :
  (0 < width)%nat -> ping_list_ok from_chars p -> address_store_ok from_chars st ->
  Z.of_nat (length (text_of dash width (ping_list_entries p))) < 2 ^ 32 ->
  Z.of_nat (length (text_of dash width (address_store_entries st))) < 2 ^ 32 ->
  exists s', rdma_load_files from_chars protocol ipaddr (Some (text_of dash width (ping_list_entries p)))
      (Some (text_of dash width (address_store_entries st))) s = Ret s' /\
    NoDup (ip_of <$> addressInfo s') /\
    (forall a, a ∈ addressInfo s' <-> a ∈ (address_of <$> st) /\ asks_for p protocol ipaddr (ip_of a)) /\
    addr_idx s' = 0%nat /\ load_yaml_retry_cnt s' = 0.
Proof.
  intros Hw Hp Hst Hs1 Hs2. unfold rdma_load_files.
  rewrite (load_yaml_text from_chars dash width Hw _ (ping_list_readable from_chars p Hp) Hs1). cbn [mbind outcome_bind].
  rewrite (load_yaml_text from_chars dash width Hw _ (address_store_readable from_chars st Hst) Hs2). cbn [mbind outcome_bind].
  destruct (ping_list_stored from_chars p protocol Hp) as (ms & ars & Hm & Ha & Hask).
  destruct (store_stored from_chars st Hst) as (es & Hes & Hfirst).
  destruct (rdma_load_typed protocol ipaddr _ _ ms ars es s Hm Ha Hes) as (l & -> & Hnd & Hin).
  eexists. split; [done|]. destruct (renewed (Rdma.infoNew l) s) as (-> & -> & ->). split_and!; [done| |done..].
  intros a. rewrite Hin, Hfirst, targets_spec, Hask. tauto.
Qed.

Lemma address_files_loaded_witness :
  let text := lines ["10.0.0.9:"; "- 10.0.0.9"; "- 00000000000000000000ffff0a000009"; "- 0"; "- 17"; "- '2024-01-01 10:00:00'";
    "10.0.0.2:"; "- 10.0.0.2"; "- '20010000000000000000000000000002'"; "- 0"; "- 18"; "- '2024-01-01 10:00:00'";
    "10.0.0.3:"; "- 10.0.0.3"; "- 00000000000000000000ffff0a000003"; "- 0"; "- 19"; "- '2024-01-01 10:00:00'"] in
  text_of 0 2 (address_store_entries an_address_store) = text /\
  exists s', rdma_load_files (fun _ => None) "udp" "10.0.0.1" (Some (text_of 0 2 (ping_list_entries a_ping_list)))
      (Some text) (Scheduler [] 0 10 0 0 1000 3000 0) = Ret s' /\
    addressInfo s' = [("10.0.0.2", "20010000000000000000000000000002", 0, 18);
                      ("10.0.0.9", "00000000000000000000ffff0a000009", 0, 17)].
Proof.
  split; [reflexivity|].
  destruct (address_files_loaded (fun _ => None) 0 2 "udp" "10.0.0.1" a_ping_list an_address_store (Scheduler [] 0 10 0 0 1000 3000 0))
    as (s' & Hl & Hnd & _); [lia|apply a_ping_list_ok|apply an_address_store_ok|reflexivity|reflexivity|].
  exists s'. split; [exact Hl|]. vm_compute in Hl. by injection Hl as <-.
Defined.
