(* ===== verification/RdmaCommon.v ===== *)
(** * RdmaCommon: address handles and posting of messages (rdma_common.cpp).

    The verbs library is outside the program: the results of its calls are
    inputs ([create]: the handle [ibv_create_ah] gives), what it is asked to do
    is output: the live address handles with their attributes, the work
    requests posted. A buffer is its bytes. *)
From S2P Require Import Prelude Text CxxString Format Common Ini Wire RdmaGid.
From Stdlib Require Import Ascii.
From Stdlib Require String.
Local Open Scope Z_scope.

(** The part of [rdma_context] that the running threads use. *)
Record rdma_context := RdmaContext {
  rnic_hw_ts : bool;
  active_port : Z; gid_index : Z; traffic_class : Z; send_flags : Z;
  buf : list (list Z);
  ah_map : gmap string Z }.

Definition GRH_SIZE : nat := 40.

Definition with_buf (b : list (list Z)) (c : rdma_context) : rdma_context :=
  RdmaContext (rnic_hw_ts c) (active_port c) (gid_index c) (traffic_class c) (send_flags c) b (ah_map c).
Definition with_ah_map (m : gmap string Z) (c : rdma_context) : rdma_context :=
  RdmaContext (rnic_hw_ts c) (active_port c) (gid_index c) (traffic_class c) (send_flags c) (buf c) m.

(** [ibv_ah_attr] and its [ibv_global_route]. *)
Record global_route := GlobalRoute { dgid : list Z; sgid_index : Z; hop_limit : Z; grh_traffic_class : Z }.
Record ibv_ah_attr := AhAttr {
  dlid : Z; sl : Z; port_num : Z; is_global : Z; grh : option global_route }.

(** The traffic class of the protocol, or the status and the default 0. *)
Definition get_traffic_class (ini : option chars) (protocol : string) (cur : Z) : outcome (Z * Z) :=
  if String.eqb protocol "ib" then
    '(r, tc) ← get_int_param_from_ini ini cur "traffic_class_ib";
    if IS_FAILURE r then Ret (PINGWEAVE_FAILURE, 0) else Ret (PINGWEAVE_SUCCESS, tc)
  else if String.eqb protocol "roce" then
    '(r, tc) ← get_int_param_from_ini ini cur "traffic_class_roce";
    if IS_FAILURE r then Ret (PINGWEAVE_FAILURE, 0) else Ret (PINGWEAVE_SUCCESS, tc)
  else Throw (RuntimeError "Invalid protocol type - must be either ib or roce").

(** [gid.global.interface_id], the last 8 bytes. *)
Definition interface_id (gid : list Z) : Z := le_val (slice 8 8 gid).

Definition ah_attr_of (ctx : rdma_context) (rem : rdma_addr) : ibv_ah_attr :=
  let global := negb (interface_id (ra_gid rem) =? 0) in
  AhAttr (u16 (ra_lid rem)) SERVICE_LEVEL (active_port ctx `mod` 256) (if global then 1 else 0)
    (if global then Some (GlobalRoute (ra_gid rem) (gid_index ctx `mod` 256) 255
                            (traffic_class ctx `mod` 256))
     else None).

Section address_handles.
Context (inet_ntop6 : list Z -> string).

Definition make_destination_key (lid : Z) (gid : list Z) : outcome string :=
  text ← parsed_gid inet_ntop6 gid; Ret (dec_string lid +:+ "_" +:+ text).

(** [live]: the address handles that exist. *)
Definition destroy_all (m : gmap string Z) (live : gmap Z ibv_ah_attr) : gmap Z ibv_ah_attr :=
  foldr (fun h live => delete h live) live (map_to_list m).*2.

Definition get_or_create_ah (rem_dest : rdma_addr) (create : option Z) (ctx : rdma_context)
  (live : gmap Z ibv_ah_attr) : outcome (option Z * rdma_context * gmap Z ibv_ah_attr) :=
  let '(ctx, live) :=
    if MAX_NUM_HOSTS_IN_PINGLIST <? Z.of_nat (size (ah_map ctx))
    then (with_ah_map ∅ ctx, destroy_all (ah_map ctx) live) else (ctx, live) in
  key ← make_destination_key (ra_lid rem_dest) (ra_gid rem_dest);
  match ah_map ctx !! key with
  | Some ah => Ret (Some ah, ctx, live)
  | None =>
      match create with
      | None => Ret (None, ctx, live)
      | Some ah =>
          Ret (Some ah, with_ah_map (<[key := ah]> (ah_map ctx)) ctx,
               <[ah := ah_attr_of ctx rem_dest]> live)
      end
  end.

(** ** Posting *)

(** The fields of [ibv_send_wr] that the code sets; [sw_bytes]: the message in
    the buffer when the request is posted. *)
Record send_wr := SendWr {
  sw_wr_id : Z; sw_bytes : list Z; sw_ah : Z; sw_qpn : Z; sw_qkey : Z; sw_flags : Z }.

(** [posted]: [ibv_post_send] accepts. An index or length out of the buffers is
    undefined behaviour. The request is what was handed to [ibv_post_send]. *)
Definition post_send (rem_dest : rdma_addr) (msg : list Z) (buf_idx wr_id : Z) (create : option Z)
  (posted : bool) (ctx : rdma_context) (live : gmap Z ibv_ah_attr)
  : outcome (Z * rdma_context * gmap Z ibv_ah_attr * option send_wr) :=
  '(ah, ctx, live) ← get_or_create_ah rem_dest create ctx live;
  match ah with
  | None => Ret (PINGWEAVE_FAILURE, ctx, live, None)
  | Some ah =>
      match (if 0 <=? buf_idx then buf ctx !! Z.to_nat buf_idx else None) with
      | None => Undef
      | Some b =>
          if (GRH_SIZE + length msg <=? length b)%nat then
            let b := blit GRH_SIZE msg b in
            let ctx := with_buf (<[Z.to_nat buf_idx := b]> (buf ctx)) ctx in
            let wr := SendWr wr_id (slice GRH_SIZE (length msg) b) ah (ra_qpn rem_dest)
                        PINGWEAVE_REMOTE_QKEY (send_flags ctx) in
            Ret (if posted then PINGWEAVE_SUCCESS else PINGWEAVE_FAILURE, ctx, live, Some wr)
          else Undef
      end
  end.
End address_handles.

(** [ok i]: the [i]-th [ibv_post_recv] accepts. *)
Fixpoint post_recv_loop (n : nat) (i : nat) (ok : nat -> bool) (cnt : Z) : Z :=
  match n with
  | O => cnt
  | S n => if ok i then post_recv_loop n (S i) ok (cnt + 1) else cnt
  end.

(** The result, and the buffer of the posted requests. *)
Definition post_recv (ctx : rdma_context) (wr_id n : Z) (ok : nat -> bool) : outcome (Z * Z) :=
  if (length (buf ctx) =? 0)%nat then Undef
  else
    let buf_idx := wr_id `mod` Z.of_nat (length (buf ctx)) in
    Ret (post_recv_loop (Z.to_nat n) 0 ok 0, buf_idx).

(** [event]: [ibv_get_cq_event] gives an event, on this context's queue or not. *)
Definition wait_for_cq_event (event : option bool) : Z :=
  match event with
  | None => PINGWEAVE_FAILURE
  | Some mine => if mine then PINGWEAVE_SUCCESS else PINGWEAVE_FAILURE
  end.

(** ** Texts *)

(** [save_device_info]: the directory exists or is created, the file opens, the
    write succeeds; with the status, the content written, if any. *)
Definition save_device_info (dir_exists mkdir_ok open_ok write_ok : bool)
  (wired_gid now : string) (lid qp_num : Z) : Z * option string :=
  if negb dir_exists && negb mkdir_ok then (PINGWEAVE_FAILURE, None)
  else if negb open_ok then (PINGWEAVE_FAILURE, None)
  else
    let nl := String newline "" in
    let text := wired_gid +:+ nl +:+ dec_string lid +:+ nl +:+ dec_string qp_num +:+ nl +:+ now in
    (if write_ok then PINGWEAVE_SUCCESS else PINGWEAVE_FAILURE, Some text).

Section result_text.
Context (strftime_localtime : Z -> string).

Definition stat_fields (s : result_stat_t) : list string :=
  [dec_string (mean s); dec_string (max s); dec_string (percentile_50 s);
   dec_string (percentile_95 s); dec_string (percentile_99 s)].

Definition convert_rdma_result_to_str (srcip dstip : string) (info : rdma_result_info_t)
  (client_stat network_stat server_stat : result_stat_t) : string :=
  String.concat "," ([srcip; dstip;
    Clock.timestamp_ns_to_string strftime_localtime (rd_ts_start info);
    Clock.timestamp_ns_to_string strftime_localtime (rd_ts_end info);
    dec_string (rd_n_success info); dec_string (rd_n_failure info); dec_string (rd_n_weird info)]
    ++ "client" :: stat_fields client_stat ++ "network" :: stat_fields network_stat
    ++ "server" :: stat_fields server_stat).
End result_text.

(** ** Lemmas *)
Lemma dec_val_digits s acc v :
  dec_val s acc = Some v -> Forall (fun c => c <> "_"%char) (bytes_of s).
Proof.
  revert acc. induction s as [|c s IH]; intros acc; cbn; [constructor|].
  destruct (digit_val c) as [d|] eqn:Hd; [|done]. intros H. constructor; [|by eapply IH].
  intros ->. by vm_compute in Hd.
Qed.

Lemma separator_inj s1 s2 t1 t2 :
  Forall (fun c => c <> "_"%char) (bytes_of s1) -> Forall (fun c => c <> "_"%char) (bytes_of s2) ->
  s1 +:+ ("_" +:+ t1) = s2 +:+ ("_" +:+ t2) -> s1 = s2 /\ t1 = t2.
Proof.
  revert s2. induction s1 as [|c1 s1 IH]; intros [|c2 s2]; cbn; intros H1 H2 He; simplify_eq; [done|..].
  - by inversion H2.
  - by inversion H1.
  - inversion H1. inversion H2. subst. destruct (IH s2) as [-> ->]; done.
Qed.

Section cache.
Context (inet_ntop6 : list Z -> string).
Context (inj : text_inj inet_ntop6).

Definition gid_ok (gid : list Z) : Prop :=
  length gid = 16%nat /\ Forall is_byte gid /\ text_fits inet_ntop6 gid.

Definition addr_ok (rem : rdma_addr) : Prop := 0 <= ra_lid rem /\ gid_ok (ra_gid rem).

Definition dest_key (rem : rdma_addr) : string :=
  dec_string (ra_lid rem) +:+ ("_" +:+ inet_ntop6 (ra_gid rem)).

Lemma dest_key_inj rem rem' : addr_ok rem -> addr_ok rem' -> dest_key rem = dest_key rem' ->
  ra_lid rem = ra_lid rem' /\ ra_gid rem = ra_gid rem'.
Proof.
  intros (Hl & Hg & Hb & _) (Hl' & Hg' & Hb' & _) He.
  apply separator_inj in He as [Hd Ht]; [|by eapply dec_val_digits, dec_val_string..].
  split; [by apply dec_string_inj|by apply inj].
Qed.

(** The cache and the device agree: a live handle is a cached one, a cached one
    is live with the attributes of its destination. *)
Record ah_ok (ctx : rdma_context) (live : gmap Z ibv_ah_attr) : Prop := {
  ah_owned : forall h, is_Some (live !! h) <-> exists key, ah_map ctx !! key = Some h;
  ah_distinct : forall k1 k2 h, ah_map ctx !! k1 = Some h -> ah_map ctx !! k2 = Some h -> k1 = k2;
  ah_right : forall rem h, addr_ok rem -> ah_map ctx !! dest_key rem = Some h ->
    live !! h = Some (ah_attr_of ctx rem);
  ah_bound : Z.of_nat (size (ah_map ctx)) <= MAX_NUM_HOSTS_IN_PINGLIST + 1;
}.

Lemma make_destination_key_ret rem : addr_ok rem ->
  make_destination_key inet_ntop6 (ra_lid rem) (ra_gid rem) = Ret (dest_key rem).
Proof. intros (_ & _ & _ & Hf). unfold make_destination_key. by rewrite parsed_gid_ret. Qed.

Lemma lookup_destroy_all m live h :
  destroy_all m live !! h = if decide (h ∈ (map_to_list m).*2) then None else live !! h.
Proof.
  unfold destroy_all. induction (map_to_list m).*2 as [|h' l IH]; [done|]. cbn [foldr].
  destruct (decide (h = h')) as [->|Hne].
  - rewrite lookup_delete_eq, decide_True by (by left). done.
  - rewrite lookup_delete_ne by done. rewrite IH.
    repeat case_decide; set_solver.
Qed.

Lemma ah_ok_cleared ctx live : ah_ok ctx live -> ah_ok (with_ah_map ∅ ctx) (destroy_all (ah_map ctx) live).
Proof.
  intros [Hown _ _ _].
  assert (forall h, destroy_all (ah_map ctx) live !! h = None) as Hnone.
  { intros h. rewrite lookup_destroy_all. case_decide as Hin; [done|].
    destruct (live !! h) as [a|] eqn:Ha; [|done]. destruct Hin.
    destruct (proj1 (Hown h)) as [key Hk]; [by rewrite Ha|].
    apply list_elem_of_fmap. exists (key, h). split; [done|]. by apply elem_of_map_to_list. }
  split; cbn [ah_map with_ah_map].
  - intros h. rewrite Hnone. split; [intros [? [=]]|]. intros [key Hk]. by rewrite lookup_empty in Hk.
  - intros k1 k2 h Hk. by rewrite lookup_empty in Hk.
  - intros rem h _ Hk. by rewrite lookup_empty in Hk.
  - rewrite map_size_empty. unfold MAX_NUM_HOSTS_IN_PINGLIST. lia.
Qed.

Lemma ah_ok_created ctx live rem h :
  ah_ok ctx live -> addr_ok rem -> Z.of_nat (size (ah_map ctx)) <= MAX_NUM_HOSTS_IN_PINGLIST ->
  ah_map ctx !! dest_key rem = None -> live !! h = None ->
  ah_ok (with_ah_map (<[dest_key rem := h]> (ah_map ctx)) ctx) (<[h := ah_attr_of ctx rem]> live).
Proof.
  intros [Hown Hdist Hright _] Hrem Hsize Hnone Hfresh.
  assert (forall key, ah_map ctx !! key <> Some h) as Hnew.
  { intros key Hk. destruct (proj2 (Hown h)) as [a Ha]; [by exists key|]. by rewrite Hfresh in Ha. }
  split; cbn [ah_map with_ah_map].
  - intros h'. destruct (decide (h' = h)) as [->|Hne].
    + rewrite lookup_insert_eq. split; [|by eexists]. exists (dest_key rem). by rewrite lookup_insert_eq.
    + rewrite lookup_insert_ne by done. rewrite Hown. split; intros [key Hk]; exists key.
      * rewrite lookup_insert_ne; [done|]. by intros <-; rewrite Hnone in Hk.
      * apply lookup_insert_Some in Hk as [[_ ?]|[_ ?]]; [by subst|done].
  - intros k1 k2 h'. rewrite !lookup_insert_Some.
    intros [[<- <-]|[? Hk1]] [[<- ?]|[? Hk2]]; subst; try done.
    + by destruct (Hnew k2).
    + by destruct (Hnew k1).
    + by eapply Hdist.
  - intros rem' h' Hrem'. rewrite lookup_insert_Some. intros [[Hk <-]|[Hk Hl]].
    + rewrite lookup_insert_eq. apply dest_key_inj in Hk as [Hk1 Hk2]; [|done..].
      unfold ah_attr_of. cbn. by rewrite Hk1, Hk2.
    + rewrite lookup_insert_ne; [by apply Hright|]. intros <-. by destruct (Hnew (dest_key rem')).
  - rewrite map_size_insert_None by done. lia.
Qed.

(** The cache is transparent. *)
Lemma get_or_create_ah_spec ctx live rem create :
  ah_ok ctx live -> addr_ok rem ->
  (forall h, create = Some h -> live !! h = None) ->
  exists r m live', let ctx' := with_ah_map m ctx in
    get_or_create_ah inet_ntop6 rem create ctx live = Ret (r, ctx', live') /\ ah_ok ctx' live' /\
    match r with Some h => live' !! h = Some (ah_attr_of ctx rem) | None => create = None end.
Proof.
  intros Hok Hrem Hfresh. unfold get_or_create_ah.
  assert (exists m live0, (if MAX_NUM_HOSTS_IN_PINGLIST <? Z.of_nat (size (ah_map ctx))
      then (with_ah_map ∅ ctx, destroy_all (ah_map ctx) live) else (ctx, live))
      = (with_ah_map m ctx, live0) /\ ah_ok (with_ah_map m ctx) live0 /\
      Z.of_nat (size m) <= MAX_NUM_HOSTS_IN_PINGLIST /\
      (forall h, create = Some h -> live0 !! h = None)) as (m & live0 & -> & Hok0 & Hsize & Hfresh0).
  { destruct (Z.ltb_spec MAX_NUM_HOSTS_IN_PINGLIST (Z.of_nat (size (ah_map ctx)))).
    - exists ∅, (destroy_all (ah_map ctx) live). split; [done|]. split; [by apply ah_ok_cleared|].
      split; [rewrite map_size_empty; unfold MAX_NUM_HOSTS_IN_PINGLIST; lia|].
      intros h Hc. rewrite lookup_destroy_all. case_decide; [done|by apply Hfresh].
    - exists (ah_map ctx), live. by destruct ctx. }
  rewrite make_destination_key_ret by done. cbn [mbind outcome_bind ah_map with_ah_map].
  destruct (m !! dest_key rem) as [h|] eqn:Hm.
  - exists (Some h), m, live0. split; [done|]. split; [done|]. by apply (ah_right _ _ Hok0).
  - destruct create as [h|].
    + eexists (Some h), _, _. split; [done|].
      split; [by apply (ah_ok_created (with_ah_map m ctx) live0); auto|]. by rewrite lookup_insert_eq.
    + by exists None, m, live0.
Qed.

(** The buffers that [init_ctx] allocates. *)
Definition bufs_ok (ctx : rdma_context) : Prop :=
  Z.of_nat (length (buf ctx)) = NUM_BUFFER /\
  Forall (fun b => Z.of_nat (length b) = MESSAGE_SIZE + Z.of_nat GRH_SIZE) (buf ctx).

Lemma ah_ok_with_buf b ctx live : ah_ok ctx live -> ah_ok (with_buf b ctx) live.
Proof. intros [H1 H2 H3 H4]. by split. Qed.

Lemma bufs_ok_write ctx i b msg :
  bufs_ok ctx -> buf ctx !! i = Some b -> (GRH_SIZE + length msg <= length b)%nat ->
  bufs_ok (with_buf (<[i := blit GRH_SIZE msg b]> (buf ctx)) ctx).
Proof.
  intros [Hlen Hall] Hb Hm. split; cbn [buf with_buf]; [by rewrite length_insert|].
  apply Forall_insert; [done|]. rewrite length_blit by done.
  rewrite list.Forall_forall in Hall. apply list_elem_of_lookup_2 in Hb. by apply Hall.
Qed.

Lemma post_send_spec rem msg buf_idx wr_id create posted ctx live :
  ah_ok ctx live -> bufs_ok ctx -> addr_ok rem -> (forall h, create = Some h -> live !! h = None) ->
  Z.of_nat (length msg) <= MESSAGE_SIZE -> 0 <= buf_idx < NUM_BUFFER ->
  exists m b live' (wr : option send_wr), let ctx' := with_buf b (with_ah_map m ctx) in
    post_send inet_ntop6 rem msg buf_idx wr_id create posted ctx live
      = Ret (match wr with
             | Some _ => if posted then PINGWEAVE_SUCCESS else PINGWEAVE_FAILURE
             | None => PINGWEAVE_FAILURE
             end, ctx', live', wr) /\
    ah_ok ctx' live' /\ bufs_ok ctx' /\
    match wr with
    | Some w => exists ah, w = SendWr wr_id msg ah (ra_qpn rem) PINGWEAVE_REMOTE_QKEY (send_flags ctx) /\
                live' !! ah = Some (ah_attr_of ctx rem)
    | None => create = None
    end.
Proof.
  intros Hok Hbufs Hrem Hfresh Hmsg Hidx. unfold post_send.
  destruct (get_or_create_ah_spec ctx live rem create Hok Hrem Hfresh) as (r & m & live' & -> & Hok' & Hr).
  cbn [mbind outcome_bind]. destruct r as [ah|].
  - pose proof Hbufs as [Hlen Hall]. rewrite (proj2 (Z.leb_le 0 buf_idx)) by lia.
    destruct (lookup_lt_is_Some_2 (buf ctx) (Z.to_nat buf_idx)) as [b Hb]; [lia|].
    cbn [buf with_ah_map]. rewrite Hb.
    assert (GRH_SIZE + length msg <= length b)%nat as Hfit.
    { rewrite list.Forall_forall in Hall. apply list_elem_of_lookup_2, Hall in Hb. lia. }
    rewrite (proj2 (Nat.leb_le _ _)) by done. rewrite slice_blit by done.
    eexists m, _, live', (Some _). split; [by destruct posted|].
    split; [by apply ah_ok_with_buf|]. split; [by apply (bufs_ok_write (with_ah_map m ctx))|].
    by exists ah.
  - exists m, (buf ctx), live', None. by destruct ctx.
Qed.
End cache.

Lemma post_recv_loop_spec n i ok cnt :
  exists k, (k <= n)%nat /\ post_recv_loop n i ok cnt = cnt + Z.of_nat k /\
    (forall j, (j < k)%nat -> ok (i + j)%nat = true) /\ (k = n \/ ok (i + k)%nat = false).
Proof.
  revert i cnt. induction n as [|n IH]; intros i cnt.
  - exists 0%nat. cbn. split_and!; [lia|lia|intros j; lia|by left].
  - cbn [post_recv_loop]. destruct (ok i) eqn:Hi.
    + destruct (IH (S i) (cnt + 1)) as (k & Hk & -> & Hok & Hend). exists (S k).
      split_and!; [lia|lia| |].
      * intros [|j] Hj; [by rewrite Nat.add_0_r|]. rewrite Nat.add_succ_r. apply (Hok j). lia.
      * rewrite Nat.add_succ_r. destruct Hend as [->|Hend]; [by left|by right].
    + exists 0%nat. rewrite Nat.add_0_r. split_and!; [lia|lia|intros j; lia|by right].
Qed.

(** ** Properties *)

(** C8: [post_send] on a well-formed context: the request posted carries exactly
    the message, the queue pair and the key of the destination, and an address
    handle that is live and has the attributes of this destination, cached or
    new; the cache never holds a dead or duplicate handle, never leaks one, and
    stays bounded; the buffers keep their sizes. It fails only when the handle
    cannot be created or the request is refused. *)
Theorem post_send_reaches_destination inet_ntop6 rem msg buf_idx wr_id create posted ctx live :
  text_inj inet_ntop6 ->
  ah_ok inet_ntop6 ctx live -> bufs_ok ctx -> addr_ok inet_ntop6 rem ->
  (forall h, create = Some h -> live !! h = None) ->
  Z.of_nat (length msg) <= MESSAGE_SIZE -> 0 <= buf_idx < NUM_BUFFER ->
  exists r ctx' live' wr,
    post_send inet_ntop6 rem msg buf_idx wr_id create posted ctx live = Ret (r, ctx', live', wr) /\
    ah_ok inet_ntop6 ctx' live' /\ bufs_ok ctx' /\
    Z.of_nat (size (ah_map ctx')) <= 10001 /\
    (r = PINGWEAVE_SUCCESS <-> is_Some wr /\ posted = true) /\
    (wr = None -> create = None) /\
    (forall w, wr = Some w -> exists ah,
      w = SendWr wr_id msg ah (ra_qpn rem) PINGWEAVE_REMOTE_QKEY (send_flags ctx) /\
      live' !! ah = Some (ah_attr_of ctx rem)).
Proof.
  intros Hinj Hok Hbufs Hrem Hfresh Hmsg Hidx.
  destruct (post_send_spec inet_ntop6 Hinj rem msg buf_idx wr_id create posted ctx live
    Hok Hbufs Hrem Hfresh Hmsg Hidx) as (m & b & live' & wr & Hp & Hok' & Hb' & Hwr).
  eexists _, _, live', wr. split; [exact Hp|]. split; [done|]. split; [done|].
  split; [apply (ah_bound _ _ _ Hok')|]. split; [|split].
  - destruct wr, posted; cbn; split; try done; [intros [_ [=]]|intros [[? [=]] _]..].
  - by intros ->.
  - by intros w ->.
Qed.

(** The digits of the GID as its text: injective and short. *)
Definition digits_ntop6 (gid : list Z) : string := of_bytes (gid_to_wire_gid gid).

Lemma digits_ntop6_fits gid : text_fits digits_ntop6 gid.
Proof.
  unfold text_fits, digits_ntop6. rewrite <- (String.list_ascii_of_string_of_list_ascii (gid_to_wire_gid gid)).
  unfold gid_to_wire_gid. cbn. lia.
Qed.

Definition example_context : rdma_context :=
  RdmaContext true 1 1 106 2 (replicate 256 (zeroed 104)) ∅.

Lemma digits_ntop6_inj : text_inj digits_ntop6.
Proof.
  intros gid gid' H1 H2 H3 H4 He. apply gid_to_wire_inj; [done..|].
  apply (f_equal bytes_of) in He. unfold digits_ntop6 in He.
  by rewrite !String.list_ascii_of_string_of_list_ascii in He.
Qed.

Lemma example_context_ok : ah_ok digits_ntop6 example_context ∅ /\ bufs_ok example_context.
Proof.
  split; [|split; [reflexivity|apply Forall_replicate; reflexivity]].
  split; cbn [ah_map example_context].
  - intros h. rewrite lookup_empty. split; [by intros [? [=]]|].
    intros [key Hk]. by rewrite lookup_empty in Hk.
  - intros k1 k2 h Hk. by rewrite lookup_empty in Hk.
  - intros rem h _ Hk. by rewrite lookup_empty in Hk.
  - vm_compute. discriminate.
Qed.

Lemma example_gid_ok : gid_ok digits_ntop6 example_gid.
Proof. split; [reflexivity|]. split; [repeat constructor; lia|apply digits_ntop6_fits]. Qed.

Lemma post_send_reaches_destination_witness :
  exists ctx' live' w,
    post_send digits_ntop6 (RdmaAddr 17 example_gid 0) (rdma_pongmsg_bytes [0;0;0;0] (RdmaPongMsg 1 9 0))
      9 9 (Some 5) true example_context ∅ = Ret (PINGWEAVE_SUCCESS, ctx', live', Some w) /\
    sw_qpn w = 17 /\
    live' !! sw_ah w = Some (AhAttr 0 0 1 1 (Some (GlobalRoute example_gid 1 255 106))).
Proof.
  destruct (post_send_reaches_destination digits_ntop6 (RdmaAddr 17 example_gid 0)
    (rdma_pongmsg_bytes [0;0;0;0] (RdmaPongMsg 1 9 0)) 9 9 (Some 5) true example_context ∅)
    as (r & ctx' & live' & wr & Hp & _ & _ & _ & Hr & _ & Hw).
  - apply digits_ntop6_inj.
  - apply example_context_ok.
  - apply example_context_ok.
  - split; [cbn; lia|exact example_gid_ok].
  - intros h _. apply lookup_empty.
  - vm_compute. discriminate.
  - unfold NUM_BUFFER. lia.
  - assert (r = PINGWEAVE_SUCCESS) as Hs.
    { clear Hw Hr. vm_compute in Hp. by injection Hp as <- _. }
    destruct (proj1 Hr Hs) as [[w ->] _]. destruct (Hw w eq_refl) as (ah & -> & Hl).
    rewrite Hs in Hp. exists ctx', live'. eexists. split; [exact Hp|]. split; [reflexivity|].
    exact Hl.
Defined.
