(* ===== verification/RdmaContext.v ===== *)
(** * RdmaContext: making an RDMA context (rdma_common.cpp:
    [get_context_by_ifname] to [initialize_contexts]).

    What the operating system and the verbs library answer is the input; what
    is acquired and released is the state: the device, the completion channel,
    the protection domain, the buffers with their memory regions, the two
    queues. *)
From S2P Require Import Prelude Text CxxString Format Common Ini RdmaGid RdmaCommon.
Local Open Scope Z_scope.

(** ** Finding the device *)

(** The loop over the directory of an interface: the entry names, and the
    devices of [ibv_get_device_list]. The directory is closed at the first
    entry that is not hidden; when no device has its name, the loop goes on
    reading the closed directory. *)
Fixpoint match_entry (entries devices : list string) : outcome (option string) :=
  match entries with
  | [] => Ret None
  | d_name :: entries =>
      if String.prefix "." d_name then match_entry entries devices
      else if bool_decide (d_name ∈ devices) then Ret (Some d_name) else Undef
  end.

(** 0 and the device that [ibv_open_device] opens, if it does, or 1. *)
Definition get_context_by_ifname (dir : option (list string)) (devices : option (list string))
  (opens : string -> bool) : outcome (Z * option string) :=
  match dir, devices with
  | Some entries, Some devices =>
      device ← match_entry entries devices;
      Ret (match device with Some d => (0, if opens d then Some d else None) | None => (1, None) end)
  | _, _ => Ret (1, None)
  end.

(** An address of [getifaddrs]: the interface, and for [AF_INET] the text of
    [getnameinfo], [None] when it fails. *)
Inductive if_host := IfHost (host : option string) | IfNotInet.
Record if_entry := IfEntry { ie_name : string; ie_host : if_host }.

Section by_ip.
Context (by_ifname : string -> outcome (Z * option string)).

(** [opened]: [ctx->context], [None] for a null pointer. *)
Fixpoint context_loop (ifaddr : list if_entry) (ipv4 : string) (opened : option string)
  : outcome (Z * option string) :=
  match ifaddr with
  | [] => Ret (match opened with Some _ => PINGWEAVE_SUCCESS | None => PINGWEAVE_FAILURE end, opened)
  | ifa :: ifaddr =>
      match ie_host ifa with
      | IfNotInet => context_loop ifaddr ipv4 opened
      | IfHost None => Ret (PINGWEAVE_FAILURE, opened)
      | IfHost (Some host) =>
          if String.eqb host ipv4 then
            '(r, device) ← by_ifname (ie_name ifa);
            if negb (r =? 0) then Ret (PINGWEAVE_FAILURE, opened)
            else Ret (match device with Some _ => PINGWEAVE_SUCCESS | None => PINGWEAVE_FAILURE end,
                      device)
          else context_loop ifaddr ipv4 opened
      end
  end.

Definition get_context_by_ip (ifaddr : option (list if_entry)) (ipv4 : string) (opened : option string)
  : outcome (Z * option string) :=
  match ifaddr with
  | None => Ret (PINGWEAVE_FAILURE, opened)
  | Some ifaddr => context_loop ifaddr ipv4 opened
  end.
End by_ip.

(** ** The active port *)

(** [query port]: [ibv_query_port]; is the port active? *)
Fixpoint active_port_loop (n : nat) (port : Z) (query : Z -> option bool) : Z :=
  match n with
  | O => -1
  | S n =>
      match query port with
      | Some true => port
      | _ => active_port_loop n (port + 1) query
      end
  end.

Definition find_active_port (phys_port_cnt : option Z) (query : Z -> option bool) : Z :=
  match phys_port_cnt with
  | None => -1
  | Some n => active_port_loop (Z.to_nat n) 1 query
  end.

(** ** Resources *)
Record resources := Resources {
  device : bool; channel : bool; pd : bool; cq : bool; qp : bool;
  memory : list nat;    (* the buffers whose memory is allocated *)
  regions : list nat    (* the buffers whose memory is registered *) }.

Inductive alloc_result := NoMemory | NotRegistered | Allocated.
#[export] Instance alloc_result_eq_dec : EqDecision alloc_result.
Proof. solve_decision. Defined.

(** [allocate_and_register_buffer] of the buffer [i]. *)
Definition allocate_and_register_buffer (i : nat) (a : alloc_result) (r : resources) : Z * resources :=
  match a with
  | NoMemory => (PINGWEAVE_FAILURE, r)
  | NotRegistered => (PINGWEAVE_FAILURE, r)   (* allocated and freed again *)
  | Allocated =>
      (PINGWEAVE_SUCCESS,
       Resources (device r) (channel r) (pd r) (cq r) (qp r) (memory r ++ [i]) (regions r ++ [i]))
  end.

Fixpoint allocate_buffers (n i : nat) (alloc : nat -> alloc_result) (r : resources) : Z * resources :=
  match n with
  | O => (PINGWEAVE_SUCCESS, r)
  | S n =>
      let '(s, r) := allocate_and_register_buffer i (alloc i) r in
      if IS_FAILURE s then (PINGWEAVE_FAILURE, r) else allocate_buffers n (S i) alloc r
  end.

(** The labels at the end of [init_ctx]: each falls through to the next. *)
Definition clean_device (r : resources) : resources :=
  Resources false (channel r) (pd r) (cq r) (qp r) (memory r) (regions r).
Definition clean_comp_channel (r : resources) : resources :=
  clean_device (Resources (device r) false (pd r) (cq r) (qp r) (memory r) (regions r)).
Definition clean_pd (r : resources) : resources :=
  clean_comp_channel (Resources (device r) (channel r) false (cq r) (qp r) (memory r) (regions r)).
Definition clean_mr (r : resources) : resources :=
  clean_pd (Resources (device r) (channel r) (pd r) (cq r) (qp r) [] []).
Definition clean_cq (r : resources) : resources :=
  clean_mr (Resources (device r) (channel r) (pd r) false (qp r) (memory r) (regions r)).
Definition clean_qp (r : resources) : resources :=
  clean_cq (Resources (device r) (channel r) (pd r) (cq r) false (memory r) (regions r)).

(** What the calls of [init_ctx] answer. *)
Record init_env := InitEnv {
  en_device_ex : option Z;          (* the timestamp mask of the extended query *)
  en_phys_port_cnt : option Z; en_query_port : Z -> option bool;
  en_gid_tbl_len : option Z; en_query_gid : Z -> option (list Z);
  en_channel : bool; en_pd : bool; en_alloc : nat -> alloc_result;
  en_cq : bool; en_qp : bool; en_max_inline_data : Z; en_modify_init : bool }.

Definition IBV_SEND_SIGNALED : Z := 2.
Definition IBV_SEND_INLINE : Z := 8.

(** The fields of the context that [init_ctx] sets. *)
Record init_info := InitInfo {
  ii_hw_ts : bool; ii_port : Z; ii_gid_index : Z; ii_send_flags : Z }.

Section init.
Context (inet_ntop6 : list Z -> string).

Definition init_ctx (env : init_env) (r : resources) : outcome (Z * option init_info * resources) :=
  let hw_ts := match en_device_ex env with Some mask => negb (mask =? 0) | None => false end in
  let port := find_active_port (en_phys_port_cnt env) (en_query_port env) in
  if port <? 0 then Ret (PINGWEAVE_FAILURE, None, clean_device r)
  else
    gid_index ← get_gid_table_index inet_ntop6 (en_gid_tbl_len env) (en_query_gid env);
    if gid_index <? 0 then Ret (PINGWEAVE_FAILURE, None, clean_device r)
    else if negb (en_channel env) then Ret (PINGWEAVE_FAILURE, None, clean_device r)
    else
      let r := Resources (device r) true (pd r) (cq r) (qp r) (memory r) (regions r) in
      if negb (en_pd env) then Ret (PINGWEAVE_FAILURE, None, clean_comp_channel r)
      else
        let r := Resources (device r) (channel r) true (cq r) (qp r) (memory r) (regions r) in
        let '(s, r) := allocate_buffers (Z.to_nat NUM_BUFFER) 0 (en_alloc env) r in
        if IS_FAILURE s then Ret (PINGWEAVE_FAILURE, None, clean_pd r)
        else if negb (en_cq env) then Ret (PINGWEAVE_FAILURE, None, clean_mr r)
        else
          let r := Resources (device r) (channel r) (pd r) true (qp r) (memory r) (regions r) in
          if negb (en_qp env) then Ret (PINGWEAVE_FAILURE, None, clean_cq r)
          else
            let r := Resources (device r) (channel r) (pd r) (cq r) true (memory r) (regions r) in
            let flags := if MESSAGE_SIZE + Z.of_nat GRH_SIZE <=? en_max_inline_data env
                         then Z.lor IBV_SEND_SIGNALED IBV_SEND_INLINE else IBV_SEND_SIGNALED in
            if negb (en_modify_init env) then Ret (PINGWEAVE_FAILURE, None, clean_qp r)
            else Ret (PINGWEAVE_SUCCESS, Some (InitInfo hw_ts port gid_index flags), r).

(** [rtr] and [rts]: the two transitions of the queue pair succeed. *)
Definition prepare_ctx (rtr rts : bool) : Z :=
  if negb rtr then PINGWEAVE_FAILURE else if negb rts then PINGWEAVE_FAILURE else PINGWEAVE_SUCCESS.

(** What the calls of [make_ctx] answer. *)
Record make_env := MakeEnv {
  me_dir : string -> option (list string);   (* the directory of an interface *)
  me_devices : option (list string);         (* [ibv_get_device_list] *)
  me_opens : string -> bool;                 (* [ibv_open_device] *)
  me_ifaddr : option (list if_entry);
  me_opened : option string;       (* the value of [ctx->context] before *)
  me_init : init_env;
  me_rtr : bool; me_rts : bool;
  me_gid : option (list Z) }.      (* the last [ibv_query_gid] *)

(** The context as made: the GID, its wire form and the traffic class. *)
Record made_ctx := MadeCtx {
  mc_init : init_info; mc_gid : list Z; mc_wired_gid : chars; mc_traffic_class : Z }.

Definition no_resources : resources := Resources false false false false false [] [].

Definition make_ctx (ini : option chars) (env : make_env) (ipv4 protocol : string)
  : outcome (Z * option made_ctx * resources) :=
  '(s, _) ← get_context_by_ip
    (fun name => get_context_by_ifname (me_dir env name) (me_devices env) (me_opens env))
    (me_ifaddr env) ipv4 (me_opened env);
  if IS_FAILURE s then Ret (PINGWEAVE_FAILURE, None, no_resources)
  else
    '(s, info, r) ← init_ctx (me_init env) (Resources true false false false false [] []);
    if IS_FAILURE s then Ret (PINGWEAVE_FAILURE, None, r)
    else if IS_FAILURE (prepare_ctx (me_rtr env) (me_rts env)) then Ret (PINGWEAVE_FAILURE, None, r)
    else
      match me_gid env, info with
      | Some gid, Some info =>
          '(_, tc) ← get_traffic_class ini protocol 0;
          Ret (PINGWEAVE_SUCCESS, Some (MadeCtx info gid (gid_to_wire_gid gid) tc), r)
      | _, _ => Ret (PINGWEAVE_FAILURE, None, r)
      end.

(** The status, the two contexts, the resources of each. [true] is returned
    when the RX context fails. *)
Definition initialize_contexts (ini : option chars) (env_tx env_rx : make_env)
  (ipv4 protocol : string) : outcome (Z * option made_ctx * option made_ctx * resources * resources) :=
  '(s, tx, rtx) ← make_ctx ini env_tx ipv4 protocol;
  if IS_FAILURE s then Ret (PINGWEAVE_FAILURE, None, None, rtx, no_resources)
  else
    '(s, rx, rrx) ← make_ctx ini env_rx ipv4 protocol;
    if IS_FAILURE s then Ret (1, tx, None, rtx, rrx)
    else Ret (PINGWEAVE_SUCCESS, tx, rx, rtx, rrx).
End init.

(** ** Lemmas *)
Lemma active_port_loop_spec n port query : 0 < port ->
  let i := active_port_loop n port query in
  (port <= i < port + Z.of_nat n /\ query i = Some true /\ forall j, port <= j < i -> query j <> Some true) \/
  (i = -1 /\ forall j, port <= j < port + Z.of_nat n -> query j <> Some true).
Proof.
  cbv zeta. revert port. induction n as [|n IH]; intros port Hp.
  - right. split; [done|]. intros j Hj. cbn in Hj. lia.
  - cbn [active_port_loop]. destruct (query port) as [[]|] eqn:Hq.
    + left. split_and!; [lia|lia|done|]. intros j Hj. lia.
    + destruct (IH (port + 1)) as [(Hi & Hq' & Hj)|(Hi & Hj)]; [lia|left|right];
        split_and!; try lia; try done; intros j Hj'; (destruct (decide (j = port)) as [->|];
          [by rewrite Hq|apply Hj; lia]).
    + destruct (IH (port + 1)) as [(Hi & Hq' & Hj)|(Hi & Hj)]; [lia|left|right];
        split_and!; try lia; try done; intros j Hj'; (destruct (decide (j = port)) as [->|];
          [by rewrite Hq|apply Hj; lia]).
Qed.

(** The buffers are taken in order, up to the first that fails. *)
Lemma allocate_buffers_spec n i alloc r :
  exists k, (k <= n)%nat /\ (forall j, (j < k)%nat -> alloc (i + j)%nat = Allocated) /\
    let s := if (k =? n)%nat then PINGWEAVE_SUCCESS else PINGWEAVE_FAILURE in
    (k <> n -> alloc (i + k)%nat <> Allocated) /\
    allocate_buffers n i alloc r
    = (s, Resources (device r) (channel r) (pd r) (cq r) (qp r)
            (memory r ++ seq i k) (regions r ++ seq i k)).
Proof.
  revert i r. induction n as [|n IH]; intros i r.
  - exists 0%nat. cbn. rewrite !app_nil_r. split_and!; [lia|intros; lia|done|by destruct r].
  - cbn [allocate_buffers]. destruct (decide (alloc i = Allocated)) as [Ha|Ha].
    + rewrite Ha. cbn [allocate_and_register_buffer IS_FAILURE].
      destruct (IH (S i) (Resources (device r) (channel r) (pd r) (cq r) (qp r) (memory r ++ [i])
        (regions r ++ [i]))) as (k & Hk & Hj & Hend & Hr).
      exists (S k). split_and!; [lia| | |].
      * intros [|j] Hlt; [by rewrite Nat.add_0_r|]. rewrite Nat.add_succ_r. apply (Hj j). lia.
      * intros Hne. rewrite Nat.add_succ_r. apply Hend. lia.
      * cbn [Z.eqb]. change (IS_FAILURE PINGWEAVE_SUCCESS) with false. cbn [negb].
        rewrite Hr. cbn [device channel pd cq qp memory regions seq]. by rewrite <- !app_assoc.
    + exists 0%nat. rewrite Nat.add_0_r. cbn [seq]. rewrite !app_nil_r.
      split_and!; [lia|intros; lia|done|]. destruct (alloc i); [by destruct r..|done].
Qed.

Definition all_resources : resources :=
  Resources true true true true true (seq 0 (Z.to_nat NUM_BUFFER)) (seq 0 (Z.to_nat NUM_BUFFER)).

Section made.
Context (inet_ntop6 : list Z -> string).

Lemma gid_index_total len query : table_fits inet_ntop6 query ->
  exists i, get_gid_table_index inet_ntop6 len query = Ret i.
Proof.
  intros Hfit. unfold get_gid_table_index. destruct len as [size|]; [|by eexists].
  destruct (size <=? 0); [by eexists|].
  destruct (gid_index_loop_spec inet_ntop6 query Hfit (Z.to_nat size) (-1) (-1))
    as (gi & pf & -> & _); [lia|lia|by eexists].
Qed.

(** A context is made with everything, or not at all but for the buffers
    allocated before the one that failed. *)
Definition ready (env : init_env) (info : init_info) : Prop :=
  en_query_port env (ii_port info) = Some true /\
  (forall j, 1 <= j < ii_port info -> en_query_port env j <> Some true) /\
  0 <= ii_gid_index info /\
  get_gid_table_index inet_ntop6 (en_gid_tbl_len env) (en_query_gid env) = Ret (ii_gid_index info).

Definition released (env : init_env) (r : resources) : Prop :=
  exists k, r = Resources false false false false false (seq 0 k) (seq 0 k) /\
    (k <> 0%nat -> (k < Z.to_nat NUM_BUFFER)%nat /\ en_alloc env k <> Allocated).

Lemma init_ctx_cases env gi :
  get_gid_table_index inet_ntop6 (en_gid_tbl_len env) (en_query_gid env) = Ret gi ->
  exists s info r, init_ctx inet_ntop6 env (Resources true false false false false [] []) = Ret (s, info, r) /\
    ((s = PINGWEAVE_SUCCESS /\ r = all_resources /\ exists i, info = Some i /\ ready env i) \/
     (s = PINGWEAVE_FAILURE /\ info = None /\ released env r)).
Proof.
  intros Hgi. assert (released env (Resources false false false false false [] [])) as Hnone by (by exists 0%nat).
  unfold init_ctx. set (port := find_active_port _ _).
  destruct (Z.ltb_spec port 0) as [|Hport]; [do 3 eexists; split; [done|by right]|].
  assert (en_query_port env port = Some true /\
    forall j, 1 <= j < port -> en_query_port env j <> Some true) as [Hq Hfirst].
  { subst port. unfold find_active_port in *. destruct (en_phys_port_cnt env) as [n|]; [|done].
    destruct (active_port_loop_spec (Z.to_nat n) 1 (en_query_port env)) as [(_ & ? & ?)|(Hi & _)]; [lia|done|].
    cbv zeta in Hi. lia. }
  rewrite Hgi.
  cbn [mbind outcome_bind]. destruct (Z.ltb_spec gi 0); [do 3 eexists; split; [done|by right]|].
  destruct (en_channel env); [|do 3 eexists; split; [done|by right]].
  destruct (en_pd env); [|do 3 eexists; split; [done|by right]].
  cbn [negb device channel pd cq qp memory regions].
  match goal with |- context [allocate_buffers ?n ?i ?al ?r] =>
    destruct (allocate_buffers_spec n i al r) as (k & Hk & Hal & Hend & ->) end.
  cbn [device channel pd cq qp memory regions app].
  destruct (Nat.eqb_spec k (Z.to_nat NUM_BUFFER)) as [->|Hne].
  - change (IS_FAILURE PINGWEAVE_SUCCESS) with false. cbv iota.
    destruct (en_cq env); [|do 3 eexists; split; [done|by right]].
    destruct (en_qp env); [|do 3 eexists; split; [done|by right]].
    destruct (en_modify_init env); [|do 3 eexists; split; [done|by right]].
    do 3 eexists. split; [done|]. left. split_and!; [done|done|]. eexists. by split.
  - change (IS_FAILURE PINGWEAVE_FAILURE) with true. cbv iota. do 3 eexists. split; [done|]. right.
    split_and!; [done|done|]. exists k. split; [done|]. intros _. split; [lia|]. by apply Hend.
Qed.

Lemma init_ctx_spec env : table_fits inet_ntop6 (en_query_gid env) ->
  exists s info r, init_ctx inet_ntop6 env (Resources true false false false false [] []) = Ret (s, info, r) /\
    ((s = PINGWEAVE_SUCCESS /\ r = all_resources /\ exists i, info = Some i /\ ready env i) \/
     (s = PINGWEAVE_FAILURE /\ info = None /\ released env r)).
Proof.
  intros Hfit. destruct (gid_index_total (en_gid_tbl_len env) (en_query_gid env) Hfit) as [gi Hgi].
  by apply (init_ctx_cases env gi).
Qed.

Lemma traffic_class_total ini protocol cur :
  protocol ∈ ["ib"; "roce"] -> exists r tc, get_traffic_class ini protocol cur = Ret (r, tc).
Proof.
  intros Hp. unfold get_traffic_class.
  destruct (get_int_param_total ini cur "traffic_class_ib") as (r1 & v1 & H1 & _).
  destruct (get_int_param_total ini cur "traffic_class_roce") as (r2 & v2 & H2 & _).
  rewrite H1, H2. cbn [mbind outcome_bind].
  destruct (String.eqb_spec protocol "ib"); [destruct (IS_FAILURE r1); by do 2 eexists|].
  destruct (String.eqb_spec protocol "roce"); [destruct (IS_FAILURE r2); by do 2 eexists|].
  rewrite !elem_of_cons, elem_of_nil in Hp. tauto.
Qed.

(** The two places where making a context is undefined. The interface that has
    the address is looked up, and no device has the name of its first entry that
    is not hidden; *)
Definition device_undefined (env : make_env) (ipv4 : string) : Prop :=
  exists l1 name l2 hidden d_name entries devices,
    me_ifaddr env = Some (l1 ++ IfEntry name (IfHost (Some ipv4)) :: l2) /\
    Forall (fun ifa => ie_host ifa = IfNotInet \/
                       exists host, ie_host ifa = IfHost (Some host) /\ host <> ipv4) l1 /\
    me_dir env name = Some (hidden ++ d_name :: entries) /\ me_devices env = Some devices /\
    Forall (fun e => String.prefix "." e = true) hidden /\ String.prefix "." d_name = false /\
    d_name ∉ devices.

(** the table of the GIDs has one whose text does not fit its buffer. *)
Definition gid_undefined (env : init_env) : Prop :=
  exists size i gid, en_gid_tbl_len env = Some size /\ 0 <= i < size /\
    en_query_gid env i = Some gid /\ ~ text_fits inet_ntop6 gid.

Definition verbs_undefined (env : make_env) (ipv4 : string) : Prop :=
  device_undefined env ipv4 \/ gid_undefined (me_init env).

Lemma match_entry_cases entries devices :
  match match_entry entries devices with
  | Ret _ => True
  | Throw _ => False
  | Undef => exists hidden d_name rest, entries = hidden ++ d_name :: rest /\
      Forall (fun e => String.prefix "." e = true) hidden /\ String.prefix "." d_name = false /\
      d_name ∉ devices
  end.
Proof.
  induction entries as [|d entries IH]; [done|]. cbn [match_entry].
  destruct (String.prefix "." d) eqn:Hd.
  - destruct (match_entry entries devices); [done|done|].
    destruct IH as (hidden & d_name & rest & -> & Hh & Hx). exists (d :: hidden), d_name, rest.
    split; [done|]. split; [by constructor|done].
  - destruct (bool_decide_reflect (d ∈ devices)); [done|]. by exists [], d, entries.
Qed.

Lemma context_by_ip_cases env ipv4 :
  match get_context_by_ip
    (fun name => get_context_by_ifname (me_dir env name) (me_devices env) (me_opens env))
    (me_ifaddr env) ipv4 (me_opened env)
  with
  | Ret _ => True
  | Throw _ => False
  | Undef => device_undefined env ipv4
  end.
Proof.
  unfold device_undefined. destruct (me_ifaddr env) as [l|]; [|done]. cbn [get_context_by_ip].
  induction l as [|[name [[host|]|]] l IH]; cbn [context_loop ie_host ie_name]; [done| |done|].
  - destruct (String.eqb_spec host ipv4) as [->|Hne].
    + unfold get_context_by_ifname. destruct (me_dir env name) as [entries|] eqn:Hd; [|done].
      destruct (me_devices env) as [devices|]; [|done]. pose proof (match_entry_cases entries devices) as Hm.
      destruct (match_entry entries devices) as [d| |]; cbn [mbind outcome_bind];
        [destruct d; cbn [negb Z.eqb]; done|done|].
      destruct Hm as (hidden & d_name & rest & -> & Hm). exists [], name, l, hidden, d_name, rest, devices.
      split; [done|]. split; [by constructor|]. split; [exact Hd|by split].
    + destruct (context_loop _ l ipv4 (me_opened env)); [done|done|].
      destruct IH as (l1 & n & l2 & hidden & d & es & ds & [= ->] & Hl & Hx).
      exists (IfEntry name (IfHost (Some host)) :: l1), n, l2, hidden, d, es, ds. split; [done|].
      split; [|done]. constructor; [right; by exists host|done].
  - destruct (context_loop _ l ipv4 (me_opened env)); [done|done|].
    destruct IH as (l1 & n & l2 & hidden & d & es & ds & [= ->] & Hl & Hx).
    exists (IfEntry name IfNotInet :: l1), n, l2, hidden, d, es, ds. split; [done|].
    split; [|done]. constructor; [by left|done].
Qed.

Lemma init_ctx_undef env r :
  get_gid_table_index inet_ntop6 (en_gid_tbl_len env) (en_query_gid env) = Undef ->
  init_ctx inet_ntop6 env r = Ret (PINGWEAVE_FAILURE, None, clean_device r) \/
  init_ctx inet_ntop6 env r = Undef.
Proof. intros Hg. unfold init_ctx. rewrite Hg. destruct (_ <? 0); [by left|by right]. Qed.

(** What [make_ctx] gives when it returns. *)
Definition made_or_not (env : make_env) (s : Z) (c : option made_ctx) (r : resources) : Prop :=
  (s = PINGWEAVE_SUCCESS /\ r = all_resources /\ exists mc, c = Some mc /\
     ready (me_init env) (mc_init mc) /\ me_gid env = Some (mc_gid mc) /\
     mc_wired_gid mc = gid_to_wire_gid (mc_gid mc)) \/
  (s = PINGWEAVE_FAILURE /\ c = None).

Lemma make_ctx_cases ini env ipv4 protocol :
  protocol ∈ ["ib"; "roce"] ->
  (exists s c r, make_ctx inet_ntop6 ini env ipv4 protocol = Ret (s, c, r) /\ made_or_not env s c r) \/
  (make_ctx inet_ntop6 ini env ipv4 protocol = Undef /\ verbs_undefined env ipv4).
Proof.
  intros Hp. unfold make_ctx. pose proof (context_by_ip_cases env ipv4) as Hc.
  destruct (get_context_by_ip _ _ _ _) as [[s d]| |]; cbn [mbind outcome_bind];
    [|done|right; split; [done|by left]].
  destruct (IS_FAILURE s); [left; do 3 eexists; split; [done|by right]|].
  pose proof (gid_table_cases inet_ntop6 (en_gid_tbl_len (me_init env)) (en_query_gid (me_init env))) as Hg.
  destruct (get_gid_table_index _ _ _) as [gi| |] eqn:Hgi; [|done|].
  2: { destruct (init_ctx_undef (me_init env) (Resources true false false false false [] []) Hgi) as [-> | ->];
       cbn [mbind outcome_bind]; [left; do 3 eexists; split; [done|by right]|right; split; [done|by right]]. }
  left. destruct (init_ctx_cases (me_init env) gi Hgi) as (s1 & info & r & -> & Hcase).
  cbn [mbind outcome_bind].
  destruct Hcase as [(-> & -> & i & -> & Hr)|(-> & -> & _)];
    [|do 3 eexists; split; [done|by right]].
  change (IS_FAILURE PINGWEAVE_SUCCESS) with false. cbv iota.
  destruct (IS_FAILURE (prepare_ctx _ _)); [do 3 eexists; split; [done|by right]|].
  destruct (me_gid env) as [gid|] eqn:Hgid; [|do 3 eexists; split; [done|by right]].
  destruct (traffic_class_total ini protocol 0 Hp) as (r1 & tc & ->). cbn [mbind outcome_bind].
  do 3 eexists. split; [done|]. left. split_and!; [done|done|]. by eexists.
Qed.
End made.

(** ** Properties *)

(** C9: [init_ctx] ends in one of two ways. With success it holds every
    resource, all 256 buffers registered, and the context names the first
    active port and the chosen GID index. With failure it has released
    everything, with one exception: when a buffer cannot be allocated or
    registered, the buffers before it stay allocated and registered. *)
Theorem rdma_init_ctx_resources inet_ntop6 env :
  table_fits inet_ntop6 (en_query_gid env) ->
  exists s info r,
    init_ctx inet_ntop6 env (Resources true false false false false [] []) = Ret (s, info, r) /\
    ((s = PINGWEAVE_SUCCESS /\ r = all_resources /\ exists i, info = Some i /\ ready inet_ntop6 env i) \/
     (s = PINGWEAVE_FAILURE /\ info = None /\
      exists k, r = Resources false false false false false (seq 0 k) (seq 0 k) /\
        (k <> 0%nat -> (k < 256)%nat /\ en_alloc env k <> Allocated))).
Proof. intros Hfit. by apply (init_ctx_spec inet_ntop6 env). Qed.

(** A RoCE host whose allocation of the buffer 3 fails, or none when [n] is
    large. *)
Definition example_env (n : nat) : init_env :=
  InitEnv (Some 1) (Some 2) (fun p => Some (p =? 2)) (Some 4)
    (fun i => if i =? 1 then Some (replicate 10 0 ++ [255; 255; 10; 0; 0; 1]) else None)
    true true (fun i => if (i =? n)%nat then NotRegistered else Allocated) true true 0 true.

Lemma rdma_init_ctx_resources_witness :
  exists info r,
    init_ctx example_ntop6 (example_env 3) (Resources true false false false false [] [])
      = Ret (PINGWEAVE_FAILURE, info, r) /\ regions r = [0; 1; 2]%nat.
Proof.
  destruct (rdma_init_ctx_resources example_ntop6 (example_env 3) (fun i gid _ => example_ntop6_fits gid))
    as (s & info & r & Hi & _).
  assert (s = PINGWEAVE_FAILURE /\ regions r = [0; 1; 2]%nat) as [-> Hr].
  { vm_compute in Hi. injection Hi as <- <- <-. split; reflexivity. }
  by exists info, r.
Defined.


(** The device of an interface that has one. *)
Definition example_make_env (dir : list string) (n : nat) : make_env :=
  MakeEnv (fun _ => Some dir) (Some ["mlx5_0"]) (fun _ => true)
    (Some [IfEntry "eth0" (IfHost (Some "10.0.0.1"))]) None (example_env n) true true (Some example_gid).
Definition example_dir : list string := ["."; ".."; "mlx5_0"].

