(* ===== verification/RdmaServer.v ===== *)
(** * RdmaServer: the RDMA server (rdma_server.cpp).

    The RX thread takes the pings that the device completed and queues them;
    the TX thread records each in the ping table and sends its PONG; the TX CQE
    thread turns the completion of a PONG into the ACK with the server's delay.
    One definition per handler; a completion is an input, and with hardware
    timestamps or without is the context's flag. *)
From S2P Require Import Prelude Text CxxString Format Common Queue KeyTable PingMsgMap Wire.
From S2P Require Import RdmaGid RdmaCommon.
Local Open Scope Z_scope.

(** [ibv_wc]: [wc_ts] is [ibv_wc_read_completion_ts]; [clock]: the steady clock
    while the completion is handled. *)
Record ibv_wc := Wc { wc_success : bool; wc_wr_id : Z; wc_opcode : Z; wc_ts : Z; wc_clock : Z }.
Definition IBV_WC_SEND : Z := 0.
Definition IBV_WC_RECV : Z := 128.

(** [cqe_time]: the device's timestamp, or the host's clock. *)
Definition cqe_time (hw_ts : bool) (wc : ibv_wc) : Z :=
  if hw_ts then wc_ts wc else Clock.get_current_timestamp_steady_ns (wc_clock wc).

(** The message in the buffer of a receive, after the GRH. *)
Definition received_bytes (ctx : rdma_context) (wr_id : Z) (n : nat) : outcome (list Z) :=
  match (if 0 <=? wr_id then buf ctx !! Z.to_nat wr_id else None) with
  | Some b => if (GRH_SIZE + n <=? length b)%nat then Ret (slice GRH_SIZE n b) else Undef
  | None => Undef
  end.

(** The end of a [process_*_cqe] function after the completions: acknowledge
    them, and ask for the next event. *)
Definition end_of_poll {A} (notify_ok : bool) (what : string) (a : A) : outcome A :=
  if notify_ok then Ret a else Throw (RuntimeError what).

(** A round of a completion thread: wait for an event, then poll the queue. *)
Definition await_cqe {A} (event : option bool) (what : string) (process : outcome A) : outcome A :=
  if IS_FAILURE (wait_for_cq_event event) then Throw (RuntimeError what) else process.

Section server.
Context `{SpscQueue Q rdma_pingmsg_t} (inet_ntop6 : list Z -> string) (threshold_ms : Z).

(** ** RX *)

(** [reposted]: the buffers handed to [ibv_post_recv] again. *)
Record rx_state := RxState { server_queue : Q; reposted : list Z }.

Definition server_rx_cqe (ctx : rdma_context) (wc : ibv_wc) (st : rx_state) : outcome rx_state :=
  if negb (wc_success wc) then Ret st
  else if wc_opcode wc =? IBV_WC_RECV then
    bytes ← received_bytes ctx (wc_wr_id wc) SIZEOF_RDMA_PINGMSG;
    let m := rdma_pingmsg_of bytes in
    let ping_msg := RdmaPingMsg (pm_pingid m) (pm_qpn m) (pm_gid m) (pm_lid m)
                      (cqe_time (rnic_hw_ts ctx) wc) in
    Ret (RxState (enqueued ping_msg (server_queue st)) (reposted st ++ [wc_wr_id wc]))
  else Throw (RuntimeError "rx cqe - Unexpected opcode in RX thread").

Fixpoint server_rx_cqes (ctx : rdma_context) (wcs : list ibv_wc) (st : rx_state) : outcome rx_state :=
  match wcs with
  | [] => Ret st
  | wc :: wcs => st ← server_rx_cqe ctx wc st; server_rx_cqes ctx wcs st
  end.

(** [polled]: the completions, [None] when [ibv_poll_cq] fails. *)
Definition server_process_rx_cqe (ctx : rdma_context) (polled : option (list ibv_wc)) (notify_ok : bool)
  (st : rx_state) : outcome rx_state :=
  match polled with
  | None => Throw (RuntimeError "rx cqe - Failed to poll CQ")
  | Some [] => Throw (RuntimeError "rx cqe - Failed during CQ polling")
  | Some wcs =>
      st ← server_rx_cqes ctx wcs st;
      end_of_poll notify_ok "rx cqe - Failed to post cqe request notification." st
  end.

Definition server_rx_round (ctx : rdma_context) (event : option bool) (polled : option (list ibv_wc))
  (notify_ok : bool) (st : rx_state) : outcome rx_state :=
  await_cqe event "rx thread -  Failed during CQ event waiting"
    (server_process_rx_cqe ctx polled notify_ok st).

(** The start of the RX thread: every buffer is posted [RX_DEPTH] times, [ok i]
    says which posts of the [i]-th the device takes. *)
Fixpoint post_all (n : nat) (i : nat) (ctx : rdma_context) (ok : nat -> nat -> bool) : outcome (list Z) :=
  match n with
  | O => Ret []
  | S n =>
      '(cnt, buf_idx) ← post_recv ctx (Z.of_nat i) RX_DEPTH (ok i);
      if negb (cnt =? RX_DEPTH)
      then Throw (RuntimeError "rx thread - Failed to post RECV WR when initialization.")
      else rest ← post_all n (S i) ctx ok; Ret (buf_idx :: rest)
  end.
Definition server_rx_start (ctx : rdma_context) (ok : nat -> nat -> bool) (notify_ok : bool)
  : outcome (list Z) :=
  posted ← post_all (length (buf ctx)) 0 ctx ok;
  end_of_poll notify_ok "rx thread -  Couldn't register CQE notification" posted.

(** ** TX *)
Record tx_state := TxState {
  tx_ctx : rdma_context; tx_live : gmap Z ibv_ah_attr; ping_table : table rdma_pingmsg_t;
  tx_sent : list send_wr }.

(** What the posting of a message depends on: the new handle, the device. *)
Record post_env := PostEnv { pe_create : option Z; pe_posted : bool; pe_pad : list Z }.

(** [post_send] of a PONG or an ACK to the sender of a ping. *)
Definition answer (env : post_env) (ping_msg : rdma_pingmsg_t) (pong_msg : rdma_pongmsg_t)
  (buf_key wr_id : Z) (st : tx_state) : outcome (Z * tx_state) :=
  let dst_addr := RdmaAddr (pm_qpn ping_msg) (pm_gid ping_msg) (pm_lid ping_msg) in
  let size := Z.of_nat (length (buf (tx_ctx st))) in
  if size =? 0 then Undef
  else
    '(r, ctx, live, wr) ← post_send inet_ntop6 dst_addr (rdma_pongmsg_bytes (pe_pad env) pong_msg)
       (buf_key `mod` size) wr_id (pe_create env) (pe_posted env) (tx_ctx st) (tx_live st);
    Ret (r, TxState ctx live (ping_table st) (tx_sent st ++ option_list wr)).

(** A round of [rdma_server_tx_thread] that dequeued a ping. *)
Definition server_tx_ping (env : post_env) (now_expire now : Z) (ping_msg : rdma_pingmsg_t)
  (st : tx_state) : outcome tx_state :=
  let '(_, t) := insert threshold_ms (pm_pingid ping_msg) ping_msg now_expire now (ping_table st) in
  let st := TxState (tx_ctx st) (tx_live st) t (tx_sent st) in
  let pong_msg := RdmaPongMsg PINGWEAVE_OPCODE_PONG (pm_pingid ping_msg) 0 in
  '(r, st) ← answer env ping_msg pong_msg (pm_pingid ping_msg) (pm_pingid ping_msg) st;
  if IS_FAILURE r then Throw (RuntimeError "tx thread - SEND PONG post failed") else Ret st.

(** The round, with the queue. *)
Definition server_tx_round (env : post_env) (now_expire now : Z) (q : Q) (st : tx_state)
  : outcome (Q * tx_state) :=
  match wait_dequeue_timed q with
  | None => Ret (q, st)
  | Some (ping_msg, q) => st ← server_tx_ping env now_expire now ping_msg st; Ret (q, st)
  end.

(** ** TX completions *)
Definition server_process_pong_cqe (env : post_env) (wr_id cqe_time : Z) (st : tx_state)
  : outcome (Z * tx_state) :=
  let '(found, ping_msg) := get wr_id (RdmaPingMsg 0 0 (replicate 16 0) 0 0) (ping_table st) in
  '(r, st) ←
    (if negb (found =? 0) then
       let server_delay := Clock.calc_time_delta_with_modulo (pm_time ping_msg) cqe_time
                             PINGWEAVE_TIME_CALC_MODULO in
       let pong_msg := RdmaPongMsg PINGWEAVE_OPCODE_ACK wr_id server_delay in
       answer env ping_msg pong_msg wr_id PINGWEAVE_WRID_PONG_ACK st
     else Ret (PINGWEAVE_SUCCESS, st));
  if IS_FAILURE r then Ret (PINGWEAVE_FAILURE, st)
  else
    '(_, t) ← remove wr_id (ping_table st);
    Ret (PINGWEAVE_SUCCESS, TxState (tx_ctx st) (tx_live st) t (tx_sent st)).

Definition server_tx_cqe (env : post_env) (wc : ibv_wc) (st : tx_state) : outcome tx_state :=
  if negb (wc_success wc) then Ret st
  else if wc_opcode wc =? IBV_WC_SEND then
    if wc_wr_id wc =? PINGWEAVE_WRID_PONG_ACK then Ret st
    else
      '(r, st) ← server_process_pong_cqe env (wc_wr_id wc) (cqe_time (rnic_hw_ts (tx_ctx st)) wc) st;
      if IS_FAILURE r then Throw (RuntimeError "tx cqe - Failed to process PONG CQE") else Ret st
  else Throw (RuntimeError "tx cqe - Unexpected opcode").

Fixpoint server_tx_cqes (wcs : list (ibv_wc * post_env)) (st : tx_state) : outcome tx_state :=
  match wcs with
  | [] => Ret st
  | (wc, env) :: wcs => st ← server_tx_cqe env wc st; server_tx_cqes wcs st
  end.

Definition server_process_tx_cqe (polled : option (list (ibv_wc * post_env))) (notify_ok : bool)
  (st : tx_state) : outcome tx_state :=
  match polled with
  | None => Throw (RuntimeError "tx cqe - Failed to poll CQ")
  | Some [] => Throw (RuntimeError "tx cqe - Failed during CQ polling")
  | Some wcs =>
      st ← server_tx_cqes wcs st;
      end_of_poll notify_ok "tx cqe - Failed to post cqe request notification." st
  end.

Definition server_tx_cqe_round (event : option bool) (polled : option (list (ibv_wc * post_env)))
  (notify_ok : bool) (st : tx_state) : outcome tx_state :=
  await_cqe event "tx thread -  Failed during CQ event waiting"
    (server_process_tx_cqe polled notify_ok st).

(** ** Lemmas *)
Lemma received_bytes_ret ctx wr_id n :
  bufs_ok ctx -> 0 <= wr_id < NUM_BUFFER -> (Z.of_nat n <= MESSAGE_SIZE) ->
  exists b, buf ctx !! Z.to_nat wr_id = Some b /\
    received_bytes ctx wr_id n = Ret (slice GRH_SIZE n b).
Proof.
  intros [Hlen Hall] Hid Hn. destruct (lookup_lt_is_Some_2 (buf ctx) (Z.to_nat wr_id)) as [b Hb]; [lia|].
  exists b. split; [done|]. unfold received_bytes. rewrite (proj2 (Z.leb_le 0 wr_id)) by lia. rewrite Hb.
  apply list_elem_of_lookup_2 in Hb. rewrite list.Forall_forall in Hall. apply Hall in Hb.
  by rewrite (proj2 (Nat.leb_le _ _)) by lia.
Qed.

(** The ping that a completion delivers. *)
Definition ping_of (ctx : rdma_context) (wc : ibv_wc) : rdma_pingmsg_t :=
  let m := rdma_pingmsg_of (slice GRH_SIZE SIZEOF_RDMA_PINGMSG (default [] (buf ctx !! Z.to_nat (wc_wr_id wc)))) in
  RdmaPingMsg (pm_pingid m) (pm_qpn m) (pm_gid m) (pm_lid m) (cqe_time (rnic_hw_ts ctx) wc).

Definition rx_expected (wc : ibv_wc) : Prop :=
  wc_success wc = true -> wc_opcode wc = IBV_WC_RECV /\ 0 <= wc_wr_id wc < NUM_BUFFER.

Lemma server_rx_cqes_spec ctx wcs st :
  bufs_ok ctx -> Forall rx_expected wcs ->
  server_rx_cqes ctx wcs st =
  let good := filter (fun wc => wc_success wc = true) wcs in
  Ret (RxState (foldl (fun q m => enqueued m q) (server_queue st) (ping_of ctx <$> good))
         (reposted st ++ (wc_wr_id <$> good))).
Proof.
  intros Hb Hall. revert st. induction Hall as [|wc wcs Hwc Hall IH]; intros st.
  - cbn. rewrite app_nil_r. by destruct st.
  - cbn [server_rx_cqes]. cbv zeta. rewrite filter_cons. unfold server_rx_cqe at 1.
    destruct (wc_success wc) eqn:Hs; cbn [negb].
    + rewrite decide_True by done. destruct (Hwc Hs) as [-> Hid]. rewrite Z.eqb_refl.
      destruct (received_bytes_ret ctx (wc_wr_id wc) SIZEOF_RDMA_PINGMSG Hb Hid) as (b & Hbuf & ->); [done|].
      cbn [mbind outcome_bind]. rewrite IH. cbn [server_queue reposted]. cbv zeta.
      assert (ping_of ctx wc = let m := rdma_pingmsg_of (slice GRH_SIZE SIZEOF_RDMA_PINGMSG b) in
        RdmaPingMsg (pm_pingid m) (pm_qpn m) (pm_gid m) (pm_lid m) (cqe_time (rnic_hw_ts ctx) wc))
        as Hping by (unfold ping_of; by rewrite Hbuf).
      rewrite !fmap_cons. cbn [foldl]. rewrite Hping. by rewrite <- app_assoc.
    + rewrite decide_False by done. cbn [mbind outcome_bind]. by rewrite IH.
Qed.

Lemma server_rx_cqes_app ctx wcs wcs' st :
  server_rx_cqes ctx (wcs ++ wcs') st
  = (st ← server_rx_cqes ctx wcs st; server_rx_cqes ctx wcs' st).
Proof.
  revert st. induction wcs as [|wc wcs IH]; intros st; [done|]. cbn [app server_rx_cqes].
  destruct (server_rx_cqe ctx wc st); cbn [mbind outcome_bind]; [apply IH|done..].
Qed.

(** When every post is taken, the buffers from [i] on are posted in order. *)
Lemma post_all_ret n i ctx ok :
  (forall i j, ok i j = true) -> (i + n <= length (buf ctx))%nat ->
  post_all n i ctx ok = Ret (Z.of_nat <$> seq i n).
Proof.
  intros Hok. revert i. induction n as [|n IH]; intros i Hlen; [done|]. cbn [post_all]. unfold post_recv.
  destruct (Nat.eqb_spec (length (buf ctx)) 0); [lia|].
  destruct (post_recv_loop_spec (Z.to_nat RX_DEPTH) 0 (ok i) 0) as (k & _ & -> & _ & [->|Hf]);
    [|by rewrite Hok in Hf].
  cbn [mbind outcome_bind]. change (0 + Z.of_nat (Z.to_nat RX_DEPTH) =? RX_DEPTH) with true. cbn [negb].
  rewrite IH by lia. cbn [mbind outcome_bind seq fmap list_fmap]. by rewrite Z.mod_small by lia.
Qed.

Definition tx_ok (st : tx_state) : Prop :=
  ah_ok inet_ntop6 (tx_ctx st) (tx_live st) /\ bufs_ok (tx_ctx st).

Definition fresh_handle (env : post_env) (st : tx_state) : Prop :=
  exists h, pe_create env = Some h /\ tx_live st !! h = None.

Definition addr_of (m : rdma_pingmsg_t) : rdma_addr := RdmaAddr (pm_qpn m) (pm_gid m) (pm_lid m).

(** The request that an answer posts. *)
Definition answers (ctx : rdma_context) (live : gmap Z ibv_ah_attr) (env : post_env)
  (ping_msg : rdma_pingmsg_t) (pong_msg : rdma_pongmsg_t) (wr_id : Z) (w : send_wr) : Prop :=
  exists ah, w = SendWr wr_id (rdma_pongmsg_bytes (pe_pad env) pong_msg) ah (pm_qpn ping_msg)
               PINGWEAVE_REMOTE_QKEY (send_flags ctx) /\
    live !! ah = Some (ah_attr_of ctx (addr_of ping_msg)).

Context (inj : text_inj inet_ntop6).

Lemma answer_spec env ping_msg pong_msg buf_key wr_id st :
  tx_ok st -> addr_ok inet_ntop6 (addr_of ping_msg) -> fresh_handle env st -> pe_posted env = true ->
  pad_ok 4 (pe_pad env) ->
  exists b m live w, let ctx := with_buf b (with_ah_map m (tx_ctx st)) in
    answer env ping_msg pong_msg buf_key wr_id st
      = Ret (PINGWEAVE_SUCCESS, TxState ctx live (ping_table st) (tx_sent st ++ [w])) /\
    tx_ok (TxState ctx live (ping_table st) (tx_sent st ++ [w])) /\
    answers (tx_ctx st) live env ping_msg pong_msg wr_id w.
Proof.
  intros [Hah Hb] Haddr (h & Hc & Hfresh) Hpost Hpad. unfold answer. fold (addr_of ping_msg).
  pose proof Hb as [Hlen _]. rewrite Hlen.
  destruct (post_send_spec inet_ntop6 inj (addr_of ping_msg)
    (rdma_pongmsg_bytes (pe_pad env) pong_msg) (buf_key `mod` NUM_BUFFER) wr_id (pe_create env)
    (pe_posted env) (tx_ctx st) (tx_live st) Hah Hb Haddr) as (m & b & live & wr & Hp & Hah' & Hb' & Hwr).
  - intros h'. rewrite Hc. by intros [= <-].
  - by rewrite rdma_pongmsg_length.
  - apply Z.mod_pos_bound. done.
  - change (NUM_BUFFER =? 0) with false. cbv iota. rewrite Hp, Hpost. cbn [mbind outcome_bind].
    destruct wr as [w|]; [|by rewrite Hc in Hwr]. destruct Hwr as (ah & -> & Hl).
    exists b, m, live. eexists. split; [done|]. split; [by split|]. by exists ah.
Qed.

(** The completion of a PONG whose ping is in the table. *)
Lemma pong_cqe_spec env ping_msg ts wr_id cqe st :
  tx_ok st -> addr_ok inet_ntop6 (addr_of ping_msg) -> fresh_handle env st -> pe_posted env = true ->
  pad_ok 4 (pe_pad env) -> wf (ping_table st) -> (wr_id, (ping_msg, ts)) ∈ contents (ping_table st) ->
  exists st' w, server_process_pong_cqe env wr_id cqe st = Ret (PINGWEAVE_SUCCESS, st') /\
    tx_ok st' /\ tx_sent st' = tx_sent st ++ [w] /\
    answers (tx_ctx st) (tx_live st') env ping_msg
      (RdmaPongMsg PINGWEAVE_OPCODE_ACK wr_id
        (Clock.calc_time_delta_with_modulo (pm_time ping_msg) cqe PINGWEAVE_TIME_CALC_MODULO))
      PINGWEAVE_WRID_PONG_ACK w /\
    contents (ping_table st') = aremove wr_id (contents (ping_table st)).
Proof.
  intros Hok Haddr Hfresh Hpost Hpad Hwf Hin. unfold server_process_pong_cqe.
  destruct (get_contents wr_id (RdmaPingMsg 0 0 (replicate 16 0) 0 0) (ping_table st) Hwf) as [Hg _].
  rewrite (Hg _ _ Hin). change (negb (PINGWEAVE_SUCCESS =? 0)) with true. cbv iota.
  match goal with |- context [answer env ping_msg ?p wr_id ?w st] =>
    destruct (answer_spec env ping_msg p wr_id w st Hok Haddr Hfresh Hpost Hpad)
      as (b & m & live & w' & -> & Hok' & Hans) end.
  cbn [mbind outcome_bind ping_table]. change (IS_FAILURE PINGWEAVE_SUCCESS) with false. cbv iota.
  destruct (remove_total wr_id (ping_table st) Hwf) as (r & t' & -> & _ & Hc & _).
  cbn [mbind outcome_bind]. eexists _, w'. split; [done|]. by split_and!.
Qed.

(** A ping of the TX thread is recorded and answered. *)
Lemma tx_ping_spec env now_expire now ping_msg st :
  tx_ok st -> addr_ok inet_ntop6 (addr_of ping_msg) -> fresh_handle env st -> pe_posted env = true ->
  pad_ok 4 (pe_pad env) -> wf (ping_table st) -> timed now_expire (ping_table st) -> now_expire <= now ->
  pm_pingid ping_msg ∉ (contents (ping_table st)).*1 ->
  exists st' w, server_tx_ping env now_expire now ping_msg st = Ret st' /\
    tx_ok st' /\ tx_sent st' = tx_sent st ++ [w] /\
    answers (tx_ctx st) (tx_live st') env ping_msg
      (RdmaPongMsg PINGWEAVE_OPCODE_PONG (pm_pingid ping_msg) 0) (pm_pingid ping_msg) w /\
    wf (ping_table st') /\
    contents (ping_table st') =
      filter (fun p => ~ is_stale now_expire threshold_ms p) (contents (ping_table st))
        ++ [(pm_pingid ping_msg, (ping_msg, now))].
Proof.
  intros Hok Haddr Hfresh Hpost Hpad Hwf Htm Hle Hnew. unfold server_tx_ping.
  destruct (insert_spec threshold_ms (pm_pingid ping_msg) ping_msg now_expire now (ping_table st)
    Hwf Htm Hle) as (t' & -> & Hwf' & _ & Hc). cbv zeta in Hc.
  rewrite bool_decide_eq_false_2 in Hc.
  2:{ intros (p & Hp & Hin)%list_elem_of_fmap. destruct Hnew. apply list_elem_of_fmap. exists p.
      split; [done|]. by apply list_elem_of_filter in Hin as [_ Hin]. }
  match goal with |- context [answer env ping_msg ?p ?k ?w ?st0] =>
    destruct (answer_spec env ping_msg p k w st0) as (b & m & live & w' & -> & Hok' & Hans);
      [done..|] end.
  cbn [mbind outcome_bind tx_ctx tx_live ping_table tx_sent] in *.
  change (IS_FAILURE PINGWEAVE_SUCCESS) with false. cbv iota.
  eexists _, w'. split; [done|]. by split_and!.
Qed.
End server.

Arguments RxState {Q} _ _.
Arguments server_queue {Q} _.
Arguments reposted {Q} _.

(** ** Properties *)

(** C13: the server's receives. A thread whose posts are all taken starts with
    each of the 256 buffers posted. One round of it: every completed receive is
    queued as the ping its buffer holds, stamped with its arrival time, in order,
    and its buffer is posted again; a failed receive is skipped, and its buffer
    is not posted again, so that the number of receives outstanding drops by one
    for each failure. A completion of another kind ends the thread, and so does
    an empty poll or a failed wait. *)
Theorem rdma_server_rx_queues `{SpscQueue Q rdma_pingmsg_t} ctx wcs (st : rx_state) ok :
  bufs_ok ctx -> Forall rx_expected wcs -> (forall i j, ok i j = true) ->
  let good := filter (fun wc => wc_success wc = true) wcs in
  server_rx_start ctx ok true = Ret (Z.of_nat <$> seq 0 256) /\
  (wcs <> [] ->
   server_rx_round ctx (Some true) (Some wcs) true st
   = Ret (RxState (foldl (fun q m => enqueued m q) (server_queue st) (ping_of ctx <$> good))
            (reposted st ++ (wc_wr_id <$> good)))) /\
  server_rx_round ctx (Some true) (Some []) true st
    = Throw (RuntimeError "rx cqe - Failed during CQ polling") /\
  server_rx_round ctx None (Some wcs) true st
    = Throw (RuntimeError "rx thread -  Failed during CQ event waiting") /\
  (forall wc rest, wc_success wc = true -> wc_opcode wc <> IBV_WC_RECV ->
   server_rx_round ctx (Some true) (Some (wcs ++ wc :: rest)) true st
   = Throw (RuntimeError "rx cqe - Unexpected opcode in RX thread")).
Proof.
  intros Hb Hall Hok good. split_and!; [| |done|done|].
  - unfold server_rx_start, end_of_poll. rewrite post_all_ret by (done || (pose proof Hb as [? _]; lia)).
    pose proof Hb as [Hlen _]. cbn [mbind outcome_bind]. do 3 f_equal. unfold NUM_BUFFER in Hlen. lia.
  - intros Hne. change (server_rx_round ctx (Some true) (Some wcs) true st)
      with (server_process_rx_cqe ctx (Some wcs) true st).
    unfold server_process_rx_cqe. destruct wcs as [|wc wcs]; [done|]. by rewrite server_rx_cqes_spec.
  - intros wc rest Hs Hop. assert (server_rx_round ctx (Some true) (Some (wcs ++ wc :: rest)) true st
      = (st ← server_rx_cqes ctx (wcs ++ wc :: rest) st;
         end_of_poll true "rx cqe - Failed to post cqe request notification." st)) as -> by (by destruct wcs).
    rewrite server_rx_cqes_app, server_rx_cqes_spec by done. cbn [mbind outcome_bind server_rx_cqes].
    unfold server_rx_cqe. rewrite Hs. cbn [negb]. by rewrite (proj2 (Z.eqb_neq _ _)).
Qed.

Lemma rdma_server_rx_queues_witness :
  let msg := RdmaPingMsg 9 17 example_gid 0 0 in
  let b := blit 40 (rdma_pingmsg_bytes [0;0;0;0] [0;0;0;0] msg) (zeroed 104) in
  let ctx := RdmaContext true 1 1 106 2 (<[3%nat := b]> (replicate 256 (zeroed 104))) ∅ in
  server_rx_round ctx (Some true) (Some [Wc false 5 0 0 0; Wc true 3 IBV_WC_RECV 777 0]) true
    (RxState ([] : list rdma_pingmsg_t) [])
  = Ret (RxState [RdmaPingMsg 9 17 example_gid 0 777] [3]).
Proof.
  intros msg b ctx.
  destruct (rdma_server_rx_queues (H := list_spsc _) ctx [Wc false 5 0 0 0; Wc true 3 IBV_WC_RECV 777 0]
    (RxState ([] : list rdma_pingmsg_t) []) (fun _ _ => true)) as (_ & Hq & _).
  - split; [reflexivity|]. apply Forall_insert; [|reflexivity]. apply Forall_replicate. reflexivity.
  - repeat constructor; intros; try done; unfold NUM_BUFFER; cbn; lia.
  - reflexivity.
  - rewrite (Hq ltac:(discriminate)). vm_compute. reflexivity.
Defined.

(** C7: the server's protocol for a ping that is not in the table: the TX thread
    records it and posts a PONG with its id to its sender; when the PONG's send
    completes, the completion thread posts to the same sender an ACK with the
    same id and the time from the ping's arrival to that completion (any below
    2^32 ns, across wraps of the clock), and the ping leaves the table, which
    keeps exactly the entries not expired; the ACK's own completion changes
    nothing. *)
Theorem rdma_server_answers_ping inet_ntop6 threshold_ms env ping_msg now_expire now start st :
  text_inj inet_ntop6 ->
  tx_ok inet_ntop6 st -> addr_ok inet_ntop6 (addr_of ping_msg) ->
  fresh_handle env st -> pe_posted env = true -> pad_ok 4 (pe_pad env) ->
  wf (ping_table st) -> timed now_expire (ping_table st) -> now_expire <= now ->
  pm_pingid ping_msg ∉ (contents (ping_table st)).*1 -> pm_pingid ping_msg <> PINGWEAVE_WRID_PONG_ACK ->
  pm_time ping_msg = u64 start ->
  let id := pm_pingid ping_msg in
  exists st1 pong, server_tx_ping inet_ntop6 threshold_ms env now_expire now ping_msg st = Ret st1 /\
    tx_sent st1 = tx_sent st ++ [pong] /\
    answers (tx_ctx st) (tx_live st1) env ping_msg (RdmaPongMsg PINGWEAVE_OPCODE_PONG id 0) id pong /\
    forall env2 wc elapsed,
      fresh_handle env2 st1 -> pe_posted env2 = true -> pad_ok 4 (pe_pad env2) ->
      wc_success wc = true -> wc_opcode wc = IBV_WC_SEND -> wc_wr_id wc = id ->
      cqe_time (rnic_hw_ts (tx_ctx st1)) wc = u64 (start + elapsed) -> 0 <= elapsed < 2 ^ 32 ->
      exists st2 ack, server_tx_cqe_round inet_ntop6 (Some true) (Some [(wc, env2)]) true st1 = Ret st2 /\
        tx_sent st2 = tx_sent st1 ++ [ack] /\
        answers (tx_ctx st1) (tx_live st2) env2 ping_msg
          (RdmaPongMsg PINGWEAVE_OPCODE_ACK id elapsed) PINGWEAVE_WRID_PONG_ACK ack /\
        contents (ping_table st2) =
          filter (fun p => ~ is_stale now_expire threshold_ms p) (contents (ping_table st)) /\
        forall env3 wc3, wc_success wc3 = true -> wc_opcode wc3 = IBV_WC_SEND ->
          wc_wr_id wc3 = PINGWEAVE_WRID_PONG_ACK ->
          server_tx_cqe_round inet_ntop6 (Some true) (Some [(wc3, env3)]) true st2 = Ret st2.
Proof.
  intros Hinj Hok Haddr Hfresh Hpost Hpad Hwf Htm Hle Hnew Hid Htime id.
  destruct (tx_ping_spec inet_ntop6 threshold_ms Hinj env now_expire now ping_msg st)
    as (st1 & pong & Hp & Hok1 & Hsent & Hans & Hwf1 & Hc1); [done..|].
  exists st1, pong. split_and!; [done|done|done|].
  intros env2 wc elapsed Hfresh2 Hpost2 Hpad2 Hs Hop Hwr Hcqe Hel.
  destruct (pong_cqe_spec inet_ntop6 Hinj env2 ping_msg now id (u64 (start + elapsed)) st1)
    as (st2 & ack & Ha & _ & Hsent2 & Hans2 & Hc2); [done..| |].
  { rewrite Hc1. apply elem_of_app. right. by left. }
  rewrite Htime, Clock.modulo_delta_elapsed in Hans2 by done.
  exists st2, ack. split_and!; [|done|done| |].
  - unfold server_tx_cqe_round, server_process_tx_cqe, end_of_poll. cbn [server_tx_cqes]. unfold server_tx_cqe.
    rewrite Hs, Hop, Hwr, Hcqe. cbn [negb]. rewrite Z.eqb_refl, (proj2 (Z.eqb_neq _ _)), Ha by done.
    reflexivity.
  - rewrite Hc2, Hc1. unfold aremove. rewrite list.filter_app, filter_cons_False, app_nil_r by (intros Hn; by destruct Hn).
    apply (aremove_absent id). intros (p & Hpid & Hin)%list_elem_of_fmap. destruct Hnew.
    apply list_elem_of_fmap. exists p. split; [done|]. by apply list_elem_of_filter in Hin as [_ Hin].
  - intros env3 wc3 Hs3 Hop3 Hwr3. unfold server_tx_cqe_round, server_process_tx_cqe, end_of_poll. cbn [server_tx_cqes].
    unfold server_tx_cqe. rewrite Hs3, Hop3, Hwr3. cbn [negb]. rewrite !Z.eqb_refl. reflexivity.
Qed.

Lemma rdma_server_answers_ping_witness :
  let m := RdmaPingMsg 4294967299 17 example_gid 0 18446744073709551000 in
  let env h := PostEnv (Some h) true [0; 0; 0; 0] in
  let st := TxState example_context ∅ empty_table [] in
  exists st1 pong st2 ack, server_tx_ping digits_ntop6 1000 (env 5) 10 20 m st = Ret st1 /\
    server_tx_cqe_round digits_ntop6 (Some true) (Some [(Wc true 4294967299 IBV_WC_SEND 384 0, env 6)]) true st1
      = Ret st2 /\
    tx_sent st2 = [pong; ack] /\ sw_wr_id pong = 4294967299 /\
    rdma_pongmsg_of (sw_bytes ack) = RdmaPongMsg PINGWEAVE_OPCODE_ACK 4294967299 1000.
Proof.
  intros m env st.
  destruct (rdma_server_answers_ping digits_ntop6 1000 (env 5) m 10 20 18446744073709551000 st)
    as (st1 & pong & Hp & Hsent & (ah & -> & _) & Hcqe).
  - apply digits_ntop6_inj.
  - apply example_context_ok.
  - split; [cbn; lia|exact example_gid_ok].
  - exists 5. split; [reflexivity|apply lookup_empty].
  - reflexivity.
  - split; [reflexivity|]. repeat constructor; lia.
  - apply wf_empty.
  - apply timed_empty.
  - lia.
  - apply not_elem_of_nil.
  - vm_compute. discriminate.
  - reflexivity.
  - assert (tx_live st1 !! 6 = None /\ rnic_hw_ts (tx_ctx st1) = true) as [Hl Hhw].
    { vm_compute in Hp. injection Hp as <-. split; reflexivity. }
    destruct (Hcqe (env 6) (Wc true 4294967299 IBV_WC_SEND 384 0) 1000)
      as (st2 & ack & Ha & Hsent2 & (ah2 & -> & _) & _).
    + exists 6. split; [reflexivity|exact Hl].
    + reflexivity.
    + split; [reflexivity|]. repeat constructor; lia.
    + reflexivity.
    + reflexivity.
    + reflexivity.
    + rewrite Hhw. reflexivity.
    + lia.
    + exists st1. do 3 eexists. split; [exact Hp|]. split; [exact Ha|].
      split; [rewrite Hsent2, Hsent; reflexivity|]. split; [reflexivity|]. vm_compute. reflexivity.
Defined.
