(* ===== verification/RdmaClient.v ===== *)
(** * RdmaClient: the RDMA client (rdma_client.cpp).

    The TX thread sends a PING and records it in the ping table; the TX CQE
    thread gives the table the time at which its send completed; the RX thread
    gives it the PONGs and ACKs. One definition per handler. The completion
    queue's types and the handling of a receive buffer are those of
    [RdmaServer]. *)
From S2P Require Import Prelude Text CxxString Format Common Queue KeyTable PingLedger RdmaPingInfo.
From S2P Require Import Yaml Scheduler Wire RdmaGid RdmaCommon RdmaServer.
Import Yaml.
From Stdlib Require String.
Local Open Scope Z_scope.

Section client.
Context `{SpscQueue Q rdma_result_msg_t} (inet_ntop6 : list Z -> string) (indet threshold_ms : Z).

(** ** RX *)
Definition handle_received_message (pong_msg : rdma_pongmsg_t) (recv_time cqe_time : Z)
  (ping_table : pinginfo_map Q) : outcome (pinginfo_map Q) :=
  if po_opcode pong_msg =? PINGWEAVE_OPCODE_PONG then
    '(_, t) ← update_pong_info indet (po_pingid pong_msg) recv_time cqe_time ping_table; Ret t
  else if po_opcode pong_msg =? PINGWEAVE_OPCODE_ACK then
    '(_, t) ← update_ack_info indet (po_pingid pong_msg) (po_server_delay pong_msg) ping_table; Ret t
  else Ret ping_table.

(** The receives posted again are returned with the table. *)
Definition client_rx_cqe (ctx : rdma_context) (wc : ibv_wc) (st : pinginfo_map Q * list Z)
  : outcome (pinginfo_map Q * list Z) :=
  let '(ping_table, reposted) := st in
  if negb (wc_success wc) then Ret st
  else if wc_opcode wc =? IBV_WC_RECV then
    bytes ← received_bytes ctx (wc_wr_id wc) SIZEOF_RDMA_PONGMSG;
    let pong_msg := rdma_pongmsg_of bytes in
    let recv_time := Clock.get_current_timestamp_steady_ns (wc_clock wc) in
    t ← handle_received_message pong_msg recv_time (cqe_time (rnic_hw_ts ctx) wc) ping_table;
    Ret (t, reposted ++ [wc_wr_id wc])
  else Throw (RuntimeError (if rnic_hw_ts ctx then "rx cqe - Unexpected opcode"
                            else "rx cqe - RX WR failure")).

Fixpoint client_rx_cqes (ctx : rdma_context) (wcs : list ibv_wc) (st : pinginfo_map Q * list Z)
  : outcome (pinginfo_map Q * list Z) :=
  match wcs with
  | [] => Ret st
  | wc :: wcs => st ← client_rx_cqe ctx wc st; client_rx_cqes ctx wcs st
  end.

Definition client_process_rx_cqe (ctx : rdma_context) (polled : option (list ibv_wc)) (notify_ok : bool)
  (st : pinginfo_map Q * list Z) : outcome (pinginfo_map Q * list Z) :=
  match polled with
  | None => Throw (RuntimeError "rx cqe - Failed to poll CQ")
  | Some [] => Throw (RuntimeError "rx cqe - Failed during CQ polling")
  | Some wcs =>
      st ← client_rx_cqes ctx wcs st;
      end_of_poll notify_ok "rx cqe - Failed to post cqe request notification." st
  end.

Definition client_rx_round (ctx : rdma_context) (event : option bool) (polled : option (list ibv_wc))
  (notify_ok : bool) (st : pinginfo_map Q * list Z) : outcome (pinginfo_map Q * list Z) :=
  await_cqe event "rx thread - Failed during CQ event waiting"
    (client_process_rx_cqe ctx polled notify_ok st).

(** ** TX completions

    Without hardware timestamps a completed send is only logged. *)
Definition client_tx_cqe (hw_ts : bool) (wc : ibv_wc) (ping_table : pinginfo_map Q)
  : outcome (pinginfo_map Q) :=
  if negb (wc_success wc) then Ret ping_table
  else if wc_opcode wc =? IBV_WC_SEND then
    if hw_ts then
      '(_, t) ← update_ping_cqe_time indet (wc_wr_id wc) (wc_ts wc) ping_table; Ret t
    else Ret ping_table
  else Throw (RuntimeError "tx cqe - TX WR failure").

Fixpoint client_tx_cqes (hw_ts : bool) (wcs : list ibv_wc) (ping_table : pinginfo_map Q)
  : outcome (pinginfo_map Q) :=
  match wcs with
  | [] => Ret ping_table
  | wc :: wcs => t ← client_tx_cqe hw_ts wc ping_table; client_tx_cqes hw_ts wcs t
  end.

(** The table, and whether the notification was asked for again: an empty poll
    returns before it. *)
Definition client_process_tx_cqe (hw_ts : bool) (polled : option (list ibv_wc)) (notify_ok : bool)
  (ping_table : pinginfo_map Q) : outcome (pinginfo_map Q * bool) :=
  match polled with
  | None => Throw (RuntimeError "tx cqe - Failed to poll CQ")
  | Some [] => Ret (ping_table, false)
  | Some wcs =>
      t ← client_tx_cqes hw_ts wcs ping_table;
      end_of_poll notify_ok "tx cqe - Failed to post cqe request notification." (t, true)
  end.

Definition client_tx_cqe_round (hw_ts : bool) (event : option bool) (polled : option (list ibv_wc))
  (notify_ok : bool) (ping_table : pinginfo_map Q) : outcome (pinginfo_map Q * bool) :=
  await_cqe event "tx cqe - Failed during CQ event waiting"
    (client_process_tx_cqe hw_ts polled notify_ok ping_table).

(** ** TX *)
Record client_tx := ClientTx {
  ct_scheduler : scheduler Scheduler.Rdma.address; ct_ping_uid : Z;
  ct_ctx : rdma_context; ct_live : gmap Z ibv_ah_attr; ct_sent : list send_wr }.

(** What a round reads: the two files, the clocks of the scheduler, of [insert]
    and of the host's completion time, the posting, and the bytes of the
    message that its initialisation leaves open (the [time] field). *)
Record client_env := ClientEnv {
  ce_pinglist : option node; ce_store : option node;
  ce_load_now : Z; ce_ping_now : Z;
  ce_expire : Z; ce_steady : Z; ce_system : Z; ce_cqe_now : Z;
  ce_create : option Z; ce_posted : bool;
  ce_pad1 : list Z; ce_pad2 : list Z; ce_time : Z }.

Inductive client_action := CtSleep (time_sleep_us : Z) | CtPing (pingid : Z) (dst_ip : string).

(** A failed [assert] ends the program; it is an exception here. *)
Definition client_tx_round (ipv4 protocol : string) (rx_gid : list Z) (rx_lid rx_qpn : Z)
  (env : client_env) (tx : client_tx) (ping_table : pinginfo_map Q)
  : outcome (client_action * client_tx * pinginfo_map Q) :=
  '(r, dst_addr, time_sleep_us, scheduler) ←
    Scheduler.Rdma.next protocol ipv4 (ce_pinglist env) (ce_store env) (ce_load_now env)
      (ce_ping_now env) (ct_scheduler tx);
  if IS_SUCCESS r then
    match dst_addr with
    | None => Undef
    | Some (dst_ip, dst_gid_str, dst_lid, dst_qpn) =>
        dst_gid ← wire_gid_to_gid indet (bytes_of dst_gid_str);
        let dst_addr := RdmaAddr dst_qpn dst_gid dst_lid in
        let pingid := PingId.make_pingid (NetAddr.ip2uint indet ipv4) (ct_ping_uid tx) in
        let msg := RdmaPingMsg pingid rx_qpn rx_gid rx_lid (ce_time env) in
        let ping_table := (insert indet threshold_ms pingid msg dst_ip
          (ce_expire env) (ce_steady env) (ce_system env) ping_table).2 in
        let size := Z.of_nat (length (buf (ct_ctx tx))) in
        if pingid <=? PINGWEAVE_WRID_PONG_ACK then Throw (RuntimeError "assertion failed")
        else if size =? 0 then Undef
        else
          '(r, ctx, live, wr) ← post_send inet_ntop6 dst_addr
            (rdma_pingmsg_bytes (ce_pad1 env) (ce_pad2 env) msg)
            (pingid `mod` size) pingid (ce_create env) (ce_posted env) (ct_ctx tx) (ct_live tx);
          ping_table ←
            (if IS_FAILURE r then Ret ping_table
             else if rnic_hw_ts ctx then Ret ping_table
             else '(_, t) ← update_ping_cqe_time indet pingid
                    (Clock.get_current_timestamp_steady_ns (ce_cqe_now env)) ping_table; Ret t);
          Ret (CtPing pingid dst_ip,
               ClientTx scheduler (u32 (ct_ping_uid tx + 1)) ctx live (ct_sent tx ++ option_list wr),
               ping_table)
    end
  else Ret (CtSleep time_sleep_us,
            ClientTx scheduler (ct_ping_uid tx) (ct_ctx tx) (ct_live tx) (ct_sent tx), ping_table).
End client.
