(* ===== verification/RdmaResult.v ===== *)
(** * RdmaResult: the RDMA result thread (rdma_client.cpp).

    The instance of [ResultThread] for the RDMA messages, and what its reports
    say. *)
From S2P Require Import Prelude Text CxxString Format Common Ipc TcpUdpCommon ResultThread.
From S2P Require Import RdmaGid RdmaCommon.
Local Open Scope Z_scope.

Section rdma_results.
Context (strftime_localtime : Z -> string).

#[export] Instance rdma_results : ResultKind rdma_result_msg_t rdma_result_info_t := {
  rk_dstip := rd_dstip;
  rk_time_ping_send := rd_time_ping_send;
  rk_result := rd_result;
  rk_init := rdma_result_info_init;
  rk_ts_start := rd_ts_start;
  rk_stamp ts_start ts_end i := RdmaResultInfo (rd_n_success i) (rd_n_failure i) (rd_n_weird i)
    ts_start ts_end (rd_server_delays i) (rd_network_delays i) (rd_client_delays i);
  rk_success m i := RdmaResultInfo (u32 (rd_n_success i + 1)) (rd_n_failure i) (rd_n_weird i)
    (rd_ts_start i) (rd_ts_end i) (rd_server_delays i ++ [rd_server_delay m])
    (rd_network_delays i ++ [rd_network_delay m]) (rd_client_delays i ++ [rd_client_delay m]);
  rk_failure i := RdmaResultInfo (rd_n_success i) (u32 (rd_n_failure i + 1)) (rd_n_weird i)
    (rd_ts_start i) (rd_ts_end i) (rd_server_delays i) (rd_network_delays i) (rd_client_delays i);
  rk_weird i := RdmaResultInfo (rd_n_success i) (rd_n_failure i) (u32 (rd_n_weird i + 1))
    (rd_ts_start i) (rd_ts_end i) (rd_server_delays i) (rd_network_delays i) (rd_client_delays i);
  rk_line srcip dstip i :=
    client_stat ← Stats.calc_result_stats (rd_client_delays i);
    network_stat ← Stats.calc_result_stats (rd_network_delays i);
    server_stat ← Stats.calc_result_stats (rd_server_delays i);
    Ret (convert_rdma_result_to_str strftime_localtime srcip dstip i client_stat network_stat
           server_stat)
}.

(** ** The history *)
Definition successes (ms : list rdma_result_msg_t) : list rdma_result_msg_t :=
  with_result rd_result PINGWEAVE_RESULT_SUCCESS ms.

Definition rdma_summary (ms : list rdma_result_msg_t) : rdma_result_info_t :=
  RdmaResultInfo (n_result rd_result PINGWEAVE_RESULT_SUCCESS ms)
    (n_result rd_result PINGWEAVE_RESULT_FAILURE ms) (n_result rd_result PINGWEAVE_RESULT_WEIRD ms)
    (first_time (rd_time_ping_send <$> ms)) (default 0 (last (rd_time_ping_send <$> ms)))
    (rd_server_delay <$> successes ms) (rd_network_delay <$> successes ms)
    (rd_client_delay <$> successes ms).

Lemma rdma_summary_snoc l m : rdma_summary (l ++ [m]) = update_info m (rdma_summary l).
Proof.
  unfold rdma_summary, update_info. rewrite !n_result_snoc, !fmap_app.
  cbn [fmap list_fmap rk_result rk_stamp rk_ts_start rk_time_ping_send rk_success rk_failure rk_weird
    rdma_results rd_ts_start rd_ts_end rd_n_success rd_n_failure rd_n_weird rd_server_delays
    rd_network_delays rd_client_delays].
  rewrite first_time_snoc, last_snoc. unfold successes, with_result.
  rewrite filter_app, filter_cons, filter_nil.
  unfold PINGWEAVE_RESULT_SUCCESS, PINGWEAVE_RESULT_FAILURE, PINGWEAVE_RESULT_WEIRD.
  case_decide as Hd.
  - rewrite Hd. cbn. by rewrite !fmap_app.
  - rewrite app_nil_r. destruct (Z.eqb_spec (rd_result m) 0); [done|].
    case_cmp; by try congruence.
Qed.

Lemma rdma_aggregate ms dst :
  aggregate ms !! dst = match to_dst dst ms with [] => None | l => Some (rdma_summary l) end.
Proof. apply aggregate_summary; [done|]. apply rdma_summary_snoc. Qed.

(** ** The report *)
Context (order : gmap Z rdma_result_info_t -> list (Z * rdma_result_info_t)).
Context (order_entries : forall d, order d ≡ₚ map_to_list d) (ipv4 : string).

(** The line of a destination: the statistics of its three delays, as text. *)
Definition rdma_line (w : list rdma_result_msg_t) (dst : Z) (line : string) : Prop :=
  let info := rdma_summary (to_dst dst w) in
  exists client network server,
    Stats.calc_result_stats (rd_client_delays info) = Ret client /\
    Stats.calc_result_stats (rd_network_delays info) = Ret network /\
    Stats.calc_result_stats (rd_server_delays info) = Ret server /\
    line = convert_rdma_result_to_str strftime_localtime ipv4 (NetAddr.uint2ip dst) info
             client network server.

Lemma rdma_line_exists w dst :
  Z.of_nat (length w) * 99 < 2 ^ 64 -> exists line,
    rk_line ipv4 (NetAddr.uint2ip dst) (rdma_summary (to_dst dst w)) = Ret line.
Proof.
  intros Hw. assert (forall f : rdma_result_msg_t -> Z, exists s,
    Stats.calc_result_stats (f <$> successes (to_dst dst w)) = Ret s) as Hs.
  { intros f. apply Stats.calc_result_stats_ret. unfold Stats.size_ok. rewrite length_fmap.
    pose proof (to_dst_length dst w).
    pose proof (length_filter (fun m => rd_result m = PINGWEAVE_RESULT_SUCCESS) (to_dst dst w)).
    unfold successes, with_result. lia. }
  cbn [rk_line rdma_results rdma_summary rd_client_delays rd_network_delays rd_server_delays].
  destruct (Hs rd_client_delay) as [c ->], (Hs rd_network_delay) as [n ->], (Hs rd_server_delay) as [v ->].
  by eexists.
Qed.

Lemma rdma_line_of w dst line :
  rk_line ipv4 (NetAddr.uint2ip dst) (rdma_summary (to_dst dst w)) = Ret line -> rdma_line w dst line.
Proof.
  cbn [rk_line rdma_results]. unfold rdma_line.
  destruct (Stats.calc_result_stats (rd_client_delays _)) as [c| |]; cbn [mbind outcome_bind]; [|done..].
  destruct (Stats.calc_result_stats (rd_network_delays _)) as [n| |]; cbn [mbind outcome_bind]; [|done..].
  destruct (Stats.calc_result_stats (rd_server_delays _)) as [v| |]; cbn [mbind outcome_bind]; [|done..].
  intros [= <-]. by exists c, n, v.
Qed.

(** ** Properties *)

(** The RDMA result thread never fails on a ring that is well formed and a
    run of fewer than 2^57 rounds; every closed window is reported as one line
    per destination seen in it, with the 32-bit counts of the destination's
    successes, failures and weird results, its first non-zero and last send
    times, and the statistics of the client, network and server delays of its
    successes only. *)
Theorem rdma_reports_total N M report_interval_ms rounds start p :
  1 < N -> (1 <= M)%nat -> ring_ok N M (data p) ->
  Z.of_nat (length rounds) * 99 < 2 ^ 64 ->
  (exists st', result_loop order N M report_interval_ms ipv4
      rounds (ResultState ∅ start p) = Ret st' /\ ring_ok N M (data (ipc_producer st'))) /\
  Forall (fun w => exists dsts lines, NoDup dsts /\ (forall dst, dst ∈ dsts <-> dst ∈ rd_dstip <$> w) /\
      Forall2 (rdma_line w) dsts lines /\
      aggregate_lines ipv4 (order (aggregate w)) ""
        = Ret (String.concat "" ((fun line => line +:+ new_line) <$> lines)))
    (windows report_interval_ms rounds [] start).1.1.
Proof.
  intros HN HM Hok Hlen. pose proof (windows_small report_interval_ms rounds start Hlen) as Hall.
  eapply list.Forall_impl in Hall; [|intros w Hw; apply (report_text order ipv4 rdma_summary w order_entries);
    [intros dst; apply rdma_aggregate|intros dst; by apply rdma_line_exists]].
  split.
  - apply loop_ret; [done..|]. eapply list.Forall_impl; [exact Hall|]. intros w Hw. by exists rdma_summary.
  - eapply list.Forall_impl; [exact Hall|]. intros w (dsts & lines & Hnd & Hin & Hf & Ht).
    exists dsts, lines. split_and!; [done|done| |done]. eapply Forall2_impl; [exact Hf|].
    intros dst line. apply rdma_line_of.
Qed.
End rdma_results.

Lemma rdma_reports_total_witness :
  let order := map_to_list (K := Z) (A := rdma_result_info_t) (M := gmap Z _) in
  let ring := Producer (Shared (replicate 4 (replicate 300 NUL)) 0 0) 0 in
  let m r c n v := RdmaResultMsg 9 33554442 777 c n v r in
  exists st', result_loop (H := rdma_results (fun _ => "t")) order 4 300 10 "10.0.0.1"
    [(Some (m PINGWEAVE_RESULT_SUCCESS 1 2 3), 5000000); (Some (m PINGWEAVE_RESULT_WEIRD 9 9 9), 10000000);
     (None, 30000000)] (ResultState ∅ 0 ring) = Ret st' /\
    pending 4 (data (ipc_producer st')) = [bytes_of
      ("10.0.0.1,10.0.0.2,t.000000777,t.000000777,1,0,1,client,1,1,1,1,1,network,2,2,2,2,2,server,3,3,3,3,3"
       +:+ new_line)].
Proof.
  intros order ring m.
  destruct (rdma_reports_total (fun _ => "t") order ltac:(done) "10.0.0.1" 4 300 10
    [(Some (m PINGWEAVE_RESULT_SUCCESS 1 2 3), 5000000); (Some (m PINGWEAVE_RESULT_WEIRD 9 9 9), 10000000);
     (None, 30000000)] 0 ring) as [(st' & Hl & _) _].
  - lia.
  - lia.
  - split; cbn; [done|by repeat constructor|lia|lia].
  - cbn. lia.
  - exists st'. split; [exact Hl|]. vm_compute in Hl. injection Hl as <-. vm_compute. reflexivity.
Defined.
