(* ===== verification/Pipeline.v ===== *)
(** * Pipeline: a client process as a whole, from its pings to the reports that
    the agent reads.

    A client's threads feed a queue; the result thread takes the messages of
    the queue into the history of the open window, and writes a report of each
    closed window to the ring; the agent's process reads the ring. What the
    three clients promise to the reporting side is the class [PingSource], what
    the two kinds of report promise is [ReportLaws]: the accounting of pings
    through all the stages is proved once, against the two. *)
From S2P Require Import Prelude Text CxxString Format Common Queue KeyTable PingLedger.
From S2P Require Import Wire RdmaPingInfo TcpUdpPingInfo Scheduler Ipc TcpUdpCommon ResultThread UdpPing TcpPing RdmaResult.
From Stdlib Require String.
Local Open Scope Z_scope.

(** ** The interfaces *)

(** A client: its runs, the ids of the pings its table accepted, the messages
    that the result thread took, those in the queue, the ids in the table. *)
Class PingSource (C M Hist : Type) `{ResultKind M Hist} := {
  ps_start : C;
  ps_step : C -> C -> Prop;
  ps_id : M -> Z;
  ps_accepted : C -> list Z;
  ps_delivered : C -> list M;
  ps_queued : C -> list M;
  ps_pending : C -> list Z;
  ps_lossless : Prop;
  ps_distinct s : rtc ps_step ps_start s -> NoDup (ps_accepted s);
  ps_counted s : rtc ps_step ps_start s ->
    Forall (fun m => counted_result (rk_result m)) (ps_delivered s);
  ps_start_delivered : ps_delivered ps_start = [];
  ps_ledger s : rtc ps_step ps_start s ->
    exists lost, (ps_lossless -> lost = []) /\
      ps_accepted s ≡ₚ (ps_id <$> ps_delivered s ++ ps_queued s) ++ ps_pending s ++ lost;
}.

(** A kind of report: the history is a summary of the messages, every summary
    has a line, and its counters count every message. *)
Class ReportLaws (M Hist : Type) `{ResultKind M Hist} := {
  rl_summary : list M -> Hist;
  rl_summary_nil : rl_summary [] = rk_init;
  rl_summary_snoc l m : rl_summary (l ++ [m]) = update_info m (rl_summary l);
  rl_total : Hist -> Z;
  rl_counts w : Forall (fun m => counted_result (rk_result m)) w -> Z.of_nat (length w) < 2 ^ 32 ->
    rl_total (rl_summary w) = Z.of_nat (length w);
  rl_line ipv4 w dst : Z.of_nat (length w) * 99 < 2 ^ 64 ->
    exists line, rk_line ipv4 (NetAddr.uint2ip dst) (rl_summary (to_dst dst w)) = Ret line;
}.

(** Every message has one of the three results. *)
Lemma count_results {M} (res : M -> Z) w :
  Forall (fun m => counted_result (res m)) w -> Z.of_nat (length w) < 2 ^ 32 ->
  n_result res PINGWEAVE_RESULT_SUCCESS w + n_result res PINGWEAVE_RESULT_FAILURE w +
    n_result res PINGWEAVE_RESULT_WEIRD w = Z.of_nat (length w).
Proof.
  intros Hw Hlen. assert (length (with_result res PINGWEAVE_RESULT_SUCCESS w) +
    length (with_result res PINGWEAVE_RESULT_FAILURE w) +
    length (with_result res PINGWEAVE_RESULT_WEIRD w) = length w)%nat as Hsum.
  { clear Hlen. unfold with_result. induction Hw as [|m w Hm Hw IH]; [done|].
    rewrite !filter_cons. unfold counted_result in Hm. rewrite !elem_of_cons, elem_of_nil in Hm.
    destruct Hm as [Hm|[Hm|[Hm|[]]]]; rewrite Hm; repeat case_decide; try done; cbn [length]; lia. }
  unfold n_result. rewrite !u32_small by (unfold is_u32; lia). lia.
Qed.

#[export] Program Instance tcpudp_laws strftime_localtime :
  @ReportLaws _ _ (tcpudp_results strftime_localtime) :=
  @Build_ReportLaws _ _ (tcpudp_results strftime_localtime) tcpudp_summary _ _
    (fun i => tu_n_success i + tu_n_failure i + tu_n_weird i) _ _.
Next Obligation. done. Qed.
Next Obligation. intros. apply tcpudp_summary_snoc. Qed.
Next Obligation. intros t w. apply (count_results tu_result). Qed.
Next Obligation. intros. by apply tcpudp_line_exists. Qed.

#[export] Program Instance rdma_laws strftime_localtime :
  @ReportLaws _ _ (rdma_results strftime_localtime) :=
  @Build_ReportLaws _ _ (rdma_results strftime_localtime) rdma_summary _ _
    (fun i => rd_n_success i + rd_n_failure i + rd_n_weird i) _ _.
Next Obligation. done. Qed.
Next Obligation. intros. apply rdma_summary_snoc. Qed.
Next Obligation. intros t w. apply (count_results rd_result). Qed.
Next Obligation. intros. by apply rdma_line_exists. Qed.

(** ** The process *)
Section pipeline.
Context `{PingSource C M Hist} `{!ReportLaws M Hist}.
Context (order : gmap Z Hist -> list (Z * Hist)) (N : Z) (slot_size : nat).
Context (report_interval_ms : Z) (ipv4 : string).

(** [pl_received]: what the agent has read. *)
Record pipeline := Pipeline {
  pl_source : C; pl_result : result_state (Hist := Hist); pl_received : list chars }.

Abbreviation ring_of r := (data (ipc_producer r)).

(** The agent moves the head of the ring. *)
Definition consumed (d : SharedData) (r : result_state (Hist := Hist)) : result_state (Hist := Hist) :=
  ResultState (dstip2result r) (last_report_time r)
    (Producer d (n_dropped_msgs (ipc_producer r))).

(** A round of the result thread is one step of the process, and so is what the
    threads of the client do between two of them. *)
Inductive pipe_step : pipeline -> pipeline -> Prop :=
  | pipe_source s s' r g :
      ps_step s s' -> ps_delivered s' = ps_delivered s ->
      pipe_step (Pipeline s r g) (Pipeline s' r g)
  | pipe_dequeue s s' m now r r' g :
      ps_step s s' -> ps_delivered s' = ps_delivered s ++ [m] ->
      result_round order N slot_size report_interval_ms ipv4 (Some m) now r = Ret r' ->
      pipe_step (Pipeline s r g) (Pipeline s' r' g)
  | pipe_timeout s now r r' g :
      result_round order N slot_size report_interval_ms ipv4 None now r = Ret r' ->
      pipe_step (Pipeline s r g) (Pipeline s r' g)
  | pipe_consume s r g text d :
      read_one N (ring_of r) = Some (text, d) ->
      pipe_step (Pipeline s r g) (Pipeline s (consumed d r) (g ++ [text])).

(** The process starts with an empty history and a ring fresh from
    [initSharedMemory]. *)
Definition pipe_init (mapped : SharedData) (now : Z) : pipeline :=
  Pipeline ps_start (ResultState ∅ now (Producer (initSharedMemory mapped) 0)) [].

(** The text of a window. *)
Definition window_text (w : list M) : chars :=
  match aggregate_lines ipv4 (order (aggregate w)) "" with
  | Ret text => bytes_of text
  | _ => []
  end.

(** Of the closed windows, each with whether the ring took its report: the
    texts that are in the ring or were. A window without message has none. *)
Definition published (closed : list (list M * bool)) : list chars :=
  filter (fun t => t <> []) (window_text <$> (filter (fun x => x.2 = true) closed).*1).

Definition dropped (closed : list (list M * bool)) : Z :=
  u64 (Z.of_nat (length (filter (fun x => x.2 = false) closed))).

Lemma published_snoc closed w b :
  published (closed ++ [(w, b)]) = published closed ++ (if b then filter (fun t => t <> []) [window_text w] else []).
Proof.
  unfold published. rewrite filter_app, fmap_app, fmap_app, filter_app. f_equal. by destruct b.
Qed.

Lemma dropped_snoc closed w b :
  dropped (closed ++ [(w, b)]) = if b then dropped closed else u64 (dropped closed + 1).
Proof.
  unfold dropped. rewrite filter_app, length_app. destruct b.
  - rewrite filter_cons_False, filter_nil by done. by rewrite Nat.add_0_r.
  - rewrite filter_cons_True, filter_nil by done. unfold u64. rewrite Zplus_mod_idemp_l. f_equal. cbn [length]. lia.
Qed.

(** ** The invariant *)
Record pipe_ok (closed : list (list M * bool)) (cur : list M) (p : pipeline) : Prop := {
  po_run : rtc ps_step ps_start (pl_source p);
  po_messages : ps_delivered (pl_source p) = concat closed.*1 ++ cur;
  po_history : dstip2result (pl_result p) = aggregate cur;
  po_ring : ring_ok N slot_size (ring_of (pl_result p));
  po_reports : pl_received p ++ Ipc.pending N (ring_of (pl_result p)) = as_read slot_size <$> published closed;
  po_dropped : n_dropped_msgs (ipc_producer (pl_result p)) = dropped closed;
}.

Context (HN : 1 < N) (HM : (1 <= slot_size)%nat).

(** A closed window is written to the ring, or counted as dropped. *)
Lemma write_window closed w p g :
  ring_ok N slot_size (data p) -> n_dropped_msgs p = dropped closed ->
  g ++ Ipc.pending N (data p) = as_read slot_size <$> published closed ->
  forall b p', writeMessage N slot_size (window_text w) p = Ret (b, p') ->
  ring_ok N slot_size (data p') /\ n_dropped_msgs p' = dropped (closed ++ [(w, b)]) /\
  g ++ Ipc.pending N (data p') = as_read slot_size <$> published (closed ++ [(w, b)]).
Proof.
  intros Hok Hd Hg b p'. rewrite dropped_snoc, published_snoc, fmap_app.
  destruct (decide (window_text w = [])) as [He|Hne].
  - rewrite He. intros [= <- <-]. cbn. rewrite app_nil_r. by split_and!.
  - destruct (writeMessage_cases N slot_size HN HM p (window_text w) Hok Hne)
      as [[_ ->]|(d' & _ & -> & Hd' & Hp)]; intros [= <- <-].
    + cbn. rewrite app_nil_r, Hd. by split_and!.
    + rewrite filter_cons_True, filter_nil by done. cbn [data n_dropped_msgs fmap list_fmap].
      rewrite Hp, app_assoc, Hg. by split_and!.
Qed.

(** A round closes the window, or goes on with it. *)
Lemma round_ok closed cur dq now r r' g :
  dstip2result r = aggregate cur -> ring_ok N slot_size (ring_of r) ->
  n_dropped_msgs (ipc_producer r) = dropped closed ->
  g ++ Ipc.pending N (ring_of r) = as_read slot_size <$> published closed ->
  result_round order N slot_size report_interval_ms ipv4 dq now r = Ret r' ->
  exists closed' cur', concat closed'.*1 ++ cur' = (concat closed.*1 ++ cur) ++ option_list dq /\
    dstip2result r' = aggregate cur' /\ ring_ok N slot_size (ring_of r') /\
    n_dropped_msgs (ipc_producer r') = dropped closed' /\
    g ++ Ipc.pending N (ring_of r') = as_read slot_size <$> published closed'.
Proof.
  destruct r as [h opened p]. cbn [dstip2result ipc_producer]. intros -> Hok Hd Hg.
  rewrite round_aggregate. cbv zeta. destruct (known_result dq && _).
  - unfold report. cbn [dstip2result ipc_producer]. set (w := cur ++ option_list dq).
    destruct (aggregate_lines _ _ _) as [text| |] eqn:Ht; cbn [mbind outcome_bind]; [|done..].
    assert (bytes_of text = window_text w) as -> by (unfold window_text; by rewrite Ht).
    destruct (writeMessage _ _ _ _) as [[b p']| |] eqn:Hw; cbn [mbind outcome_bind]; [|done..].
    intros [= <-]. exists (closed ++ [(w, b)]), []. cbn [dstip2result ipc_producer].
    destruct (write_window closed w p g Hok Hd Hg b p' Hw) as (H1' & H2' & H3').
    split_and!; [|done|done|done|done].
    rewrite fmap_app, concat_app. cbn [fmap list_fmap concat fst]. unfold w. by rewrite !app_nil_r, app_assoc.
  - intros [= <-]. exists closed, (cur ++ option_list dq). split_and!; [by rewrite app_assoc|done..].
Qed.

Lemma pipe_step_ok p p' closed cur :
  pipe_ok closed cur p -> pipe_step p p' -> exists closed' cur', pipe_ok closed' cur' p'.
Proof.
  intros [Hrun Hmsg Hh Hring Hrep Hdrop] Hstep.
  destruct Hstep as [s s' r g Hs Hd|s s' m now r r' g Hs Hd Hr|s now r r' g Hr|s r g text d Hc]; cbn in *.
  - exists closed, cur. split; cbn; [by eapply rtc_r|congruence|done..].
  - destruct (round_ok closed cur (Some m) now r r' g) as (closed' & cur' & Hm & ? & ? & ? & ?); [done..|].
    exists closed', cur'. split; cbn; [by eapply rtc_r|by rewrite Hd, Hm, Hmsg|done..].
  - destruct (round_ok closed cur None now r r' g) as (closed' & cur' & Hm & ? & ? & ? & ?); [done..|].
    exists closed', cur'. split; cbn; [done|by rewrite Hm, app_nil_r|done..].
  - exists closed, cur. pose proof (read_one_cases N slot_size HN HM _ Hring) as Hc'.
    destruct (Ipc.pending N (ring_of r)) as [|t rest] eqn:Hp; [by rewrite Hc' in Hc|].
    destruct Hc' as (d' & Hc' & Hd' & Hp'). rewrite Hc' in Hc. injection Hc as <- <-.
    split; cbn; try done. rewrite Hp', <- app_assoc. exact Hrep.
Qed.

Lemma pipe_reachable_ok mapped now p :
  length (messages mapped) = Z.to_nat N -> Forall (fun slot => length slot = slot_size) (messages mapped) ->
  rtc pipe_step (pipe_init mapped now) p -> exists closed cur, pipe_ok closed cur p.
Proof.
  intros Hl Hs. revert p. apply (rtc_ind_r (fun p => exists closed cur, pipe_ok closed cur p)).
  - exists [], []. split; cbn; [apply rtc_refl|apply ps_start_delivered|done| | |done].
    + split; cbn; (done || lia).
    + unfold Ipc.pending. cbn. unfold count. by rewrite Z.mod_0_l by lia.
  - intros p1 p2 _ Hstep (closed & cur & Hok). by eapply pipe_step_ok.
Qed.

(** ** Reports *)
Context (order_entries : forall d, order d ≡ₚ map_to_list d).

Lemma window_reported w : Z.of_nat (length w) * 99 < 2 ^ 64 -> reported order ipv4 rl_summary w.
Proof.
  intros Hw. apply report_text; [done| |].
  - intros dst. apply aggregate_summary; [apply rl_summary_nil|apply rl_summary_snoc].
  - intros dst. by apply rl_line.
Qed.

(** The result thread never fails. *)
Lemma round_total closed cur p dq now :
  pipe_ok closed cur p -> Z.of_nat (S (length (ps_delivered (pl_source p)))) * 99 < 2 ^ 64 ->
  exists r', result_round order N slot_size report_interval_ms ipv4 dq now (pl_result p) = Ret r'.
Proof.
  intros [_ Hmsg Hh Hring _ _] Hlen. destruct (pl_result p) as [h opened pr]. cbn in *. subst h.
  rewrite round_aggregate. cbv zeta. destruct (known_result dq && _); [|by eexists].
  destruct (window_reported (cur ++ option_list dq)) as (dsts & lines & _ & _ & _ & Ht).
  { rewrite Hmsg, length_app in Hlen. rewrite length_app.
    assert (length (option_list dq) <= 1)%nat by (by destruct dq; cbn; lia). lia. }
  unfold report. cbn [dstip2result ipc_producer]. rewrite Ht. cbn [mbind outcome_bind].
  match goal with |- context [writeMessage N slot_size ?m pr] =>
    destruct (writeMessage_ret N slot_size m pr HN HM Hring) as (b & p' & -> & _) end.
  by eexists.
Qed.

(** What the report of a closed window says: a line per destination, with its
    summary, in which every message for it is counted. *)
Definition window_told (w : list M) : Prop :=
  reported order ipv4 rl_summary w /\
  forall dst, rl_total (rl_summary (to_dst dst w)) = Z.of_nat (length (to_dst dst w)).

Lemma closed_told closed cur p :
  pipe_ok closed cur p -> Z.of_nat (length (ps_delivered (pl_source p))) < 2 ^ 32 ->
  Forall (fun x => window_told x.1) closed.
Proof.
  intros [Hrun Hmsg _ _ _ _] Hlen. pose proof (ps_counted _ Hrun) as Hc.
  apply list.Forall_forall. intros [w b] Hin. cbn. rewrite Hmsg in Hlen, Hc. rewrite length_app in Hlen.
  apply list_elem_of_split in Hin as (l1 & l2 & ->). rewrite fmap_app, concat_app in Hlen, Hc.
  cbn [fmap list_fmap concat fst] in Hlen, Hc. rewrite !length_app in Hlen. rewrite !list.Forall_app in Hc.
  destruct Hc as [[_ [Hc _]] _]. split; [apply window_reported; lia|]. intros dst.
  pose proof (to_dst_length dst w). apply rl_counts; [|lia].
  eapply sublist_Forall; [apply sublist_filter|done].
Qed.
End pipeline.

(** ** Properties *)

(** C5: every ping of a client, from its insertion to the report: in every state
    that the client's threads, the result thread and the agent reach together,
    the pings that the table accepted are, each in exactly one place, in a
    closed window, in the open one, in the queue, in the table, or lost to a
    full queue; the agent has read, followed by what the ring holds, the reports
    of the closed windows in order, each cut to its slot and decoded
    ([as_read]), but for those that the full ring refused, which are counted;
    each report has one line per destination of its own window, the summary of
    that destination's messages, whose counters add up to their number; and the
    result thread never fails. *)
Theorem pipeline_accounted `{PingSource C M Hist} `{!ReportLaws M Hist}
    order N slot_size report_interval_ms ipv4 mapped now p :
  (forall d, order d ≡ₚ map_to_list d) -> 1 < N -> (1 <= slot_size)%nat ->
  length (messages mapped) = Z.to_nat N -> Forall (fun slot => length slot = slot_size) (messages mapped) ->
  rtc (pipe_step order N slot_size report_interval_ms ipv4) (pipe_init mapped now) p ->
  Z.of_nat (length (ps_delivered (pl_source p))) < 2 ^ 32 ->
  exists closed cur lost,
    ps_accepted (pl_source p) ≡ₚ
      (ps_id <$> concat closed.*1 ++ cur ++ ps_queued (pl_source p)) ++ ps_pending (pl_source p) ++ lost /\
    NoDup (ps_accepted (pl_source p)) /\ (ps_lossless -> lost = []) /\
    dstip2result (pl_result p) = aggregate cur /\
    pl_received p ++ Ipc.pending N (data (ipc_producer (pl_result p)))
      = as_read slot_size <$> published order ipv4 closed /\
    n_dropped_msgs (ipc_producer (pl_result p)) = dropped closed /\
    Forall (fun x => window_told order ipv4 x.1) closed /\
    forall dq now, exists r',
      result_round order N slot_size report_interval_ms ipv4 dq now (pl_result p) = Ret r'.
Proof.
  intros Hord HN HM Hl Hs Hr Hlen.
  destruct (pipe_reachable_ok order N slot_size report_interval_ms ipv4 HN HM mapped now p Hl Hs Hr)
    as (closed & cur & Hok).
  pose proof Hok as [Hrun Hmsg Hh Hring Hrep Hdrop].
  destruct (ps_ledger _ Hrun) as (lost & Hlost & Hp). exists closed, cur, lost. split_and!; try done.
  - by rewrite Hp, Hmsg, <- app_assoc.
  - by apply ps_distinct.
  - by eapply closed_told.
  - intros dq now'. eapply round_total; [done..|]. lia.
Qed.

(** ** The three clients *)
Section tcpudp_sources.
Context (strftime_localtime : Z -> string).
#[local] Instance tcpudp_kind : ResultKind tcpudp_result_msg_t tcpudp_result_info_t := tcpudp_results strftime_localtime.
Context `{SpscQueue Q tcpudp_result_msg_t} (indet threshold_ms : Z) (ipv4 : string).
Context (scheduler : scheduler string) (q : Q).
Context (Hv : NetAddr.valid_ipv4 ipv4) (Hq : q_contents q = []).

(** A run of the UDP client's TX and RX threads, for its first 2^32 pings. *)
Definition udp_source_step (s s' : udp_client) : Prop :=
  udp_step indet threshold_ms ipv4 s s' /\ Z.of_nat (length (cl_issued s')) <= 2 ^ 32.

Lemma udp_source_ok s :
  rtc udp_source_step (UdpClient (UdpTx scheduler 0) 0 (TcpUdpMap empty_table q) [] []) s ->
  client_ok indet threshold_ms ipv4 q s /\ Z.of_nat (length (cl_issued s)) <= 2 ^ 32.
Proof.
  revert s. apply (rtc_ind_r (fun s => client_ok indet threshold_ms ipv4 q s /\
    Z.of_nat (length (cl_issued s)) <= 2 ^ 32)).
  - split; [|done]. split_and!; [apply rtc_refl|done|done].
  - intros s1 s2 _ [Hstep Hlen] [Hok _]. split; [|done]. by eapply udp_client_step_ok.
Qed.

Lemma udp_source_trace s : client_ok indet threshold_ms ipv4 q s ->
  trace_ok (Trace (cl_now s) (cl_table s) (cl_delivered s) (cl_issued s)).
Proof. intros (Hr & _ & _). by eapply udp_reachable_ok. Qed.

#[export] Program Instance udp_source : PingSource udp_client tcpudp_result_msg_t tcpudp_result_info_t := {|
  ps_start := UdpClient (UdpTx scheduler 0) 0 (TcpUdpMap empty_table q) [] [];
  ps_step := udp_source_step;
  ps_id := tu_pingid;
  ps_accepted := cl_issued;
  ps_delivered := cl_delivered;
  ps_queued s := q_contents (tu_queue (cl_table s));
  ps_pending := udp_pending;
  ps_lossless := forall (m : tcpudp_result_msg_t) (q : Q), has_room m q;
|}.
Next Obligation.
  intros s [(_ & Hids & _) Hlen]%udp_source_ok. rewrite Hids. by apply first_pingids_nodup.
Qed.
Next Obligation.
  intros s [Hok%udp_source_trace _]%udp_source_ok. destruct Hok as [_ _ Hm _]. by apply list.Forall_app in Hm as [Hm _].
Qed.
Next Obligation. done. Qed.
Next Obligation.
  intros s [Hok%udp_source_trace _]%udp_source_ok. destruct Hok as [_ _ _ (lost & Hl & Hp)]. by exists lost.
Qed.

(** A run of the TCP client's TX thread and its detached threads; the pings
    accepted are those that were inserted. *)
Definition tcp_source_step (s s' : tcp_client) : Prop :=
  tcp_step indet threshold_ms ipv4 s s' /\ Z.of_nat (length (tl_issued s')) <= 2 ^ 32.

Lemma tcp_source_ok s :
  rtc tcp_source_step (TcpClient (UdpTx scheduler 0) 0 (TcpUdpMap empty_table q) [] [] [] []) s ->
  tcp_ok indet threshold_ms ipv4 q s.
Proof.
  intros Hr. cut (tcp_ok indet threshold_ms ipv4 q s /\ Z.of_nat (length (tl_issued s)) <= 2 ^ 32);
    [by intros [? _]|].
  revert s Hr. apply (rtc_ind_r (fun s => tcp_ok indet threshold_ms ipv4 q s /\
    Z.of_nat (length (tl_issued s)) <= 2 ^ 32)).
  - split; [|done]. split; cbn; [apply rtc_refl|done|done|constructor|done].
  - intros s1 s2 _ [Hstep Hlen] [Hok _]. split; [|done]. by eapply tcp_step_ok.
Qed.

Lemma tcp_source_trace s : tcp_ok indet threshold_ms ipv4 q s ->
  trace_ok (Trace (tl_now s) (tl_table s) (tl_delivered s) (tl_inserted s)).
Proof. intros [Hr _ _ _ _]. by eapply udp_reachable_ok. Qed.

#[export] Program Instance tcp_source : PingSource tcp_client tcpudp_result_msg_t tcpudp_result_info_t := {|
  ps_start := TcpClient (UdpTx scheduler 0) 0 (TcpUdpMap empty_table q) [] [] [] [];
  ps_step := tcp_source_step;
  ps_id := tu_pingid;
  ps_accepted := tl_inserted;
  ps_delivered := tl_delivered;
  ps_queued s := q_contents (tu_queue (tl_table s));
  ps_pending := tcp_pending;
  ps_lossless := forall (m : tcpudp_result_msg_t) (q : Q), has_room m q;
|}.
Next Obligation. intros s [_ _ _ Hnd _]%tcp_source_ok. by apply NoDup_app in Hnd as (_ & _ & Hnd). Qed.
Next Obligation.
  intros s [_ _ Hm _]%tcp_source_ok%tcp_source_trace. by apply list.Forall_app in Hm as [Hm _].
Qed.
Next Obligation. done. Qed.
Next Obligation. intros s [_ _ _ (lost & Hl & Hp)]%tcp_source_ok%tcp_source_trace. by exists lost. Qed.
End tcpudp_sources.

Section rdma_source.
Context (strftime_localtime : Z -> string).
#[local] Instance rdma_kind : ResultKind rdma_result_msg_t rdma_result_info_t := rdma_results strftime_localtime.
Context `{SpscQueue Q rdma_result_msg_t} (indet threshold_ms : Z) (once : Prop).
Context (q : Q) (Hq : q_contents q = []).

(** A run of the RDMA table's methods, in which no ping id is used twice. *)
Definition rdma_source_step (s s' : RdmaPingInfo.trace) : Prop :=
  RdmaPingInfo.client_step indet threshold_ms once s s' /\ NoDup (RdmaPingInfo.tr_inserted s').

Lemma rdma_source_ok s :
  rtc rdma_source_step (RdmaPingInfo.Trace 0 (PinginfoMap empty_table q) [] []) s ->
  RdmaPingInfo.trace_ok once s /\ NoDup (RdmaPingInfo.tr_inserted s).
Proof.
  revert s. apply (rtc_ind_r (fun s => RdmaPingInfo.trace_ok once s /\ NoDup (RdmaPingInfo.tr_inserted s))).
  - split; [by apply accounted_empty|constructor].
  - intros s1 s2 _ [Hstep Hnd] [Hok _]. split; [|done]. by eapply RdmaPingInfo.client_step_ok.
Qed.

#[export] Program Instance rdma_source : PingSource RdmaPingInfo.trace rdma_result_msg_t rdma_result_info_t := {|
  ps_start := RdmaPingInfo.Trace 0 (PinginfoMap empty_table q) [] [];
  ps_step := rdma_source_step;
  ps_id := rd_pingid;
  ps_accepted := RdmaPingInfo.tr_inserted;
  ps_delivered := RdmaPingInfo.tr_delivered;
  ps_queued s := q_contents (client_queue (RdmaPingInfo.tr_map s));
  ps_pending := RdmaPingInfo.pending;
  ps_lossless := RdmaPingInfo.lossless once;
|}.
Next Obligation. by intros s [_ Hnd]%rdma_source_ok. Qed.
Next Obligation. intros s [[_ _ Hm _] _]%rdma_source_ok. by apply list.Forall_app in Hm as [Hm _]. Qed.
Next Obligation. done. Qed.
Next Obligation. intros s [[_ _ _ (lost & Hl & Hp)] _]%rdma_source_ok. by exists lost. Qed.
End rdma_source.

(** ** An example: a ping of the UDP client, sent, answered, taken, reported,
    read. *)
Lemma example_valid : NetAddr.valid_ipv4 "10.0.0.1".
Proof. eexists. vm_compute. reflexivity. Qed.

#[local] Instance example_kind : ResultKind tcpudp_result_msg_t tcpudp_result_info_t :=
  tcpudp_results (fun _ => "t").
#[local] Instance example_source : PingSource udp_client tcpudp_result_msg_t tcpudp_result_info_t :=
  udp_source (fun _ => "t") (H := list_spsc _) 0 1000000 "10.0.0.1" UdpPing.example_scheduler []
    example_valid eq_refl.

Definition example_ping : Z := 72057636987600896.
Definition example_env : udp_tx_env := UdpTxEnv None 0 5000000 100 200 777 [0;0;0;0] [0;0;0;0] 24.
Definition example_reply : list recv_attempt :=
  [RecvData (tcpudp_pingmsg_bytes [0;0;0;0] [0;0;0;0] (TcpUdpPingMsg 0 example_ping 0)) [10;0;0;2]].
Definition example_ring : SharedData := Shared (replicate 4 (replicate 300 NUL)) 3 1.
Definition example_order : gmap Z tcpudp_result_info_t -> list (Z * tcpudp_result_info_t) := map_to_list.
Definition example_line : chars :=
  bytes_of ("10.0.0.1,10.0.0.2,t.000000777,t.000000777,1,0,0,network,800,800,800,800,800" +:+ new_line).

Lemma pipeline_accounted_witness :
  exists p, rtc (pipe_step example_order 4 300 10 "10.0.0.1") (pipe_init example_ring 0) p /\
    pl_received p = [example_line] /\ cl_issued (pl_source p) = [example_ping] /\
    exists closed cur lost,
      [example_ping] ≡ₚ (tu_pingid <$> concat closed.*1 ++ cur ++ []) ++ [] ++ lost /\
      [example_line] ++ [] = as_read 300 <$> published example_order "10.0.0.1" closed.
Proof.
  assert (exists p, rtc (pipe_step example_order 4 300 10 "10.0.0.1") (pipe_init example_ring 0) p /\
    pl_received p = [example_line] /\ ps_accepted (pl_source p) = [example_ping] /\
    length (ps_delivered (pl_source p)) = 1%nat /\
    ps_queued (pl_source p) = [] /\ ps_pending (pl_source p) = [] /\
    Ipc.pending 4 (data (ipc_producer (pl_result p))) = []) as (p & Hr & H1 & H2 & H3 & H4 & H5 & H6).
  { eexists. split.
    - eapply rtc_l.
      { eapply pipe_source; [split; [eapply (udp_tx_step _ _ _ example_env); [cbn; lia|cbn; lia|]|]|].
        - vm_compute. reflexivity.
        - vm_compute. discriminate.
        - reflexivity. }
      eapply rtc_l.
      { eapply pipe_source; [split; [eapply (udp_rx_step _ _ _ 0 example_reply 1000)|]|].
        - vm_compute. reflexivity.
        - vm_compute. discriminate.
        - reflexivity. }
      eapply rtc_l.
      { eapply (pipe_dequeue _ _ _ _ _ _ _ _ 20000000); [split; [eapply udp_result_step; reflexivity|]| |].
        - vm_compute. discriminate.
        - reflexivity.
        - vm_compute. reflexivity. }
      eapply rtc_once. eapply pipe_consume. vm_compute. reflexivity.
    - split_and!; vm_compute; reflexivity. }
  exists p. split; [exact Hr|]. split; [exact H1|]. split; [exact H2|].
  destruct (pipeline_accounted example_order 4 300 10 "10.0.0.1" example_ring 0 p)
    as (closed & cur & lost & Hp & _ & _ & _ & Hrep & _).
  - done.
  - lia.
  - lia.
  - reflexivity.
  - by repeat constructor.
  - exact Hr.
  - rewrite H3. lia.
  - exists closed, cur, lost. rewrite H2, H4, H5 in Hp. rewrite H1, H6 in Hrep. split; [exact Hp|exact Hrep].
Defined.
