(* ===== verification/RdmaPing.v ===== *)
(** * RdmaPing: an RDMA ping from end to end.

    The client's TX thread ([RdmaClient]), the server's threads
    ([RdmaServer]) and the client's completion threads, composed through the
    bytes of the messages: what one side's [post_send] is handed is what the
    other side's receive buffer holds. *)
From S2P Require Import Prelude Text CxxString Format Common Queue KeyTable PingLedger RdmaPingInfo.
From S2P Require Import Yaml Scheduler Wire RdmaGid RdmaCommon RdmaServer RdmaClient.
Import Yaml.
Local Open Scope Z_scope.

(** The device put these bytes into the buffer of a completed receive. *)
Definition received_wc (ctx : rdma_context) (wc : ibv_wc) (bytes : list Z) : Prop :=
  wc_success wc = true /\ wc_opcode wc = IBV_WC_RECV /\
  received_bytes ctx (wc_wr_id wc) (length bytes) = Ret bytes.

(** The device completed the send of a request. *)
Definition sent_wc (wc : ibv_wc) (wr_id : Z) : Prop :=
  wc_success wc = true /\ wc_opcode wc = IBV_WC_SEND /\ wc_wr_id wc = wr_id.

(** What the client's completion threads handle, one completion per event. *)
Inductive completion :=
  | TxDone (wc : ibv_wc)
  | RxDone (ctx : rdma_context) (wc : ibv_wc).

Section completions.
Context `{SpscQueue Q rdma_result_msg_t} (indet : Z).

Definition client_handle (c : completion) (t : pinginfo_map Q) : outcome (pinginfo_map Q) :=
  match c with
  | TxDone wc => '(t, _) ← client_tx_cqe_round indet true (Some true) (Some [wc]) true t; Ret t
  | RxDone ctx wc => '(t, _) ← client_rx_round indet ctx (Some true) (Some [wc]) true (t, []); Ret t
  end.

Fixpoint client_handle_all (cs : list completion) (t : pinginfo_map Q) : outcome (pinginfo_map Q) :=
  match cs with
  | [] => Ret t
  | c :: cs => t ← client_handle c t; client_handle_all cs t
  end.

(** A completion carries an event of a ping. *)
Definition carries (id : Z) (c : completion) (ev : ping_event) : Prop :=
  match c, ev with
  | TxDone wc, EvPingCqe x => sent_wc wc id /\ wc_ts wc = x
  | RxDone ctx wc, EvPong recv_time ct =>
      u64 (wc_clock wc) = recv_time /\ cqe_time (rnic_hw_ts ctx) wc = ct /\
      exists bytes sd, received_wc ctx wc bytes /\ length bytes = SIZEOF_RDMA_PONGMSG /\
        rdma_pongmsg_of bytes = RdmaPongMsg PINGWEAVE_OPCODE_PONG id sd
  | RxDone ctx wc, EvAck server_delay =>
      exists bytes, received_wc ctx wc bytes /\ length bytes = SIZEOF_RDMA_PONGMSG /\
        rdma_pongmsg_of bytes = RdmaPongMsg PINGWEAVE_OPCODE_ACK id server_delay
  | _, _ => False
  end.

Lemma client_handle_deliver id c ev t :
  carries id c ev -> client_handle c t = ('(_, t) ← deliver indet id ev t; Ret t).
Proof.
  destruct c as [wc|ctx wc], ev as [x|rt ct|sd]; cbn [carries]; try done.
  - intros ((Hs & Ho & <-) & <-). unfold client_handle, client_tx_cqe_round, client_process_tx_cqe.
    cbn [client_tx_cqes]. unfold client_tx_cqe. rewrite Hs, Ho. cbn [negb]. rewrite Z.eqb_refl.
    cbn [deliver]. by destruct (update_ping_cqe_time _ _ _ t) as [[r t']| |].
  - intros (<- & <- & bytes & sd & (Hs & Ho & Hb) & Hl & Hm). unfold client_handle, client_rx_round, client_process_rx_cqe.
    cbn [client_rx_cqes]. unfold client_rx_cqe. rewrite Hs, Ho. cbn [negb]. rewrite Z.eqb_refl, <- Hl, Hb.
    cbn [mbind outcome_bind]. rewrite Hm. unfold handle_received_message. cbn [po_opcode po_pingid].
    rewrite Z.eqb_refl. cbn [deliver]. unfold Clock.get_current_timestamp_steady_ns, Clock.convert_clock_to_ns.
    by destruct (update_pong_info _ _ _ _ t) as [[r t']| |].
  - intros (bytes & (Hs & Ho & Hb) & Hl & Hm). unfold client_handle, client_rx_round, client_process_rx_cqe.
    cbn [client_rx_cqes]. unfold client_rx_cqe. rewrite Hs, Ho. cbn [negb]. rewrite Z.eqb_refl, <- Hl, Hb.
    cbn [mbind outcome_bind]. rewrite Hm. unfold handle_received_message. cbn [po_opcode po_pingid po_server_delay].
    change (PINGWEAVE_OPCODE_ACK =? PINGWEAVE_OPCODE_PONG) with false. cbv iota. rewrite Z.eqb_refl.
    cbn [deliver]. by destruct (update_ack_info _ _ _ t) as [[r t']| |].
Qed.

Lemma client_handle_all_deliver id cs evs t :
  Forall2 (carries id) cs evs -> client_handle_all cs t = deliver_all indet id evs t.
Proof.
  intros Hf. revert t. induction Hf as [|c ev cs evs Hc Hf IH]; intros t; [done|].
  cbn [client_handle_all deliver_all]. rewrite (client_handle_deliver id c ev t Hc).
  destruct (deliver indet id ev t) as [[r t']| |]; cbn [mbind outcome_bind]; [apply IH|done..].
Qed.

(** Completions in any order carry the events in that order. *)
Lemma carries_permutation id cs cs' evs' :
  Forall2 (carries id) cs' evs' -> cs ≡ₚ cs' ->
  exists evs, Forall2 (carries id) cs evs /\ evs ≡ₚ evs'.
Proof.
  intros Hf Hp. destruct (Permutation_Forall2 (Permutation_sym Hp) Hf) as (evs & He & Hf').
  by exists evs.
Qed.
End completions.

(** ** The client's send *)
Section send.
Context `{SpscQueue Q rdma_result_msg_t} (inet_ntop6 : list Z -> string) (indet threshold_ms : Z).
Context (inj : text_inj inet_ntop6).

(** A client whose next ping has the id [id]: its context is well formed and
    takes hardware timestamps, and the new handle, the padding and the posting
    are as the device and the compiler make them. *)
Record client_ready (env : client_env) (tx : client_tx) : Prop := {
  cr_handles : ah_ok inet_ntop6 (ct_ctx tx) (ct_live tx);
  cr_buffers : bufs_ok (ct_ctx tx);
  cr_hw_ts : rnic_hw_ts (ct_ctx tx) = true;
  cr_fresh : exists h, ce_create env = Some h /\ ct_live tx !! h = None;
  cr_posted : ce_posted env = true;
  cr_pads : pad_ok 4 (ce_pad1 env) /\ pad_ok 4 (ce_pad2 env) /\ is_u64 (ce_time env);
}.

Lemma client_tx_spec ipv4 protocol rx_gid rx_lid rx_qpn env tx (table : pinginfo_map Q)
    dst_ip dst_gid dst_lid dst_qpn us sc :
  let id := PingId.make_pingid (NetAddr.ip2uint indet ipv4) (ct_ping_uid tx) in
  let dst := RdmaAddr dst_qpn dst_gid dst_lid in
  Scheduler.Rdma.next protocol ipv4 (ce_pinglist env) (ce_store env) (ce_load_now env)
    (ce_ping_now env) (ct_scheduler tx)
  = Ret (PINGWEAVE_SUCCESS, Some (dst_ip, of_bytes (gid_to_wire_gid dst_gid), dst_lid, dst_qpn), us, sc) ->
  client_ready env tx -> addr_ok inet_ntop6 dst -> gid_ok inet_ntop6 rx_gid ->
  PINGWEAVE_WRID_PONG_ACK < id -> wf (tbl table) -> id ∉ (contents (tbl table)).*1 ->
  exists tx' t' ah gone e,
    let msg := RdmaPingMsg id rx_qpn rx_gid rx_lid (ce_time env) in
    let w := SendWr id (rdma_pingmsg_bytes (ce_pad1 env) (ce_pad2 env) msg) ah dst_qpn
               PINGWEAVE_REMOTE_QKEY (send_flags (ct_ctx tx)) in
    client_tx_round inet_ntop6 indet threshold_ms ipv4 protocol rx_gid rx_lid rx_qpn env tx table
      = Ret (CtPing id dst_ip, tx',
             PinginfoMap t' (expired_effect (on_expire indet) gone (client_queue table))) /\
    ct_ping_uid tx' = u32 (ct_ping_uid tx + 1) /\ ct_sent tx' = ct_sent tx ++ [w] /\
    ct_live tx' !! ah = Some (ah_attr_of (ct_ctx tx) dst) /\
    gone `prefix_of` contents (tbl table) /\ wf t' /\ tmap t' !! id = Some e /\
    value e = PingInfo id rx_qpn rx_gid rx_lid dst_ip (u64 (ce_system env)) (u64 (ce_steady env))
                0 0 PINGWEAVE_MASK_INIT 0.
Proof.
  intros id dst Hnext [Hah Hbufs Hhw (h & Hc & Hfresh) Hpost (Hp1 & Hp2 & Htime)] Hdst (Hg1 & Hg2 & _) Hid Hwf Hnew.
  unfold client_tx_round. rewrite Hnext. cbn [mbind outcome_bind]. change (IS_SUCCESS PINGWEAVE_SUCCESS) with true.
  cbv iota. rewrite String.list_ascii_of_string_of_list_ascii.
  pose proof Hdst as (_ & Hdg & Hdb & _). rewrite wire_roundtrip by done. cbn [mbind outcome_bind]. fold id dst.
  destruct (rdma_insert_new indet threshold_ms id (RdmaPingMsg id rx_qpn rx_gid rx_lid (ce_time env)) dst_ip
    (ce_expire env) (ce_steady env) (ce_system env) table Hwf Hnew)
    as (gone & t' & -> & Hpre & Hwf' & e & He & Hv). cbn [snd].
  rewrite (proj2 (Z.leb_gt id _)) by done. pose proof Hbufs as [Hlen _]. rewrite Hlen.
  change (NUM_BUFFER =? 0) with false. cbv iota.
  destruct (post_send_spec inet_ntop6 inj dst
    (rdma_pingmsg_bytes (ce_pad1 env) (ce_pad2 env) (RdmaPingMsg id rx_qpn rx_gid rx_lid (ce_time env)))
    (id `mod` NUM_BUFFER) id (ce_create env) (ce_posted env) (ct_ctx tx) (ct_live tx) Hah Hbufs Hdst)
    as (m & b & live & wr & -> & _ & _ & Hwr).
  - intros h'. rewrite Hc. by intros [= <-].
  - by rewrite rdma_pingmsg_length.
  - apply Z.mod_pos_bound. done.
  - destruct wr as [w|]; [|by rewrite Hc in Hwr]. destruct Hwr as (ah & -> & Hl). rewrite Hpost.
    cbn [mbind outcome_bind]. change (IS_FAILURE PINGWEAVE_SUCCESS) with false.
    cbn [rnic_hw_ts with_buf with_ah_map]. rewrite Hhw. cbv iota. cbn [mbind outcome_bind].
    eexists _, t', ah, gone, e. split; [done|]. by split_and!.
Qed.
End send.

(** What the server received: the client's message with the arrival time. *)
Lemma ping_of_received p1 p2 msg ctx wc :
  pad_ok 4 p1 -> pad_ok 4 p2 -> length (pm_gid msg) = 16%nat -> Forall is_byte (pm_gid msg) -> is_u64 (pm_pingid msg) -> is_u32 (pm_qpn msg) ->
  is_u32 (pm_lid msg) -> is_u64 (pm_time msg) ->
  received_wc ctx wc (rdma_pingmsg_bytes p1 p2 msg) ->
  ping_of ctx wc = RdmaPingMsg (pm_pingid msg) (pm_qpn msg) (pm_gid msg) (pm_lid msg)
                     (cqe_time (rnic_hw_ts ctx) wc).
Proof.
  intros Hp1 Hp2 Hg1 Hg2 Hi Hq Hl Ht (_ & _ & Hb). unfold received_bytes in Hb.
  rewrite rdma_pingmsg_length in Hb by done.
  destruct (0 <=? wc_wr_id wc); [|done].
  destruct (buf ctx !! Z.to_nat (wc_wr_id wc)) as [b|] eqn:Hbuf; [|done].
  destruct (_ <=? _)%nat; [|done]. injection Hb as Hb.
  unfold ping_of. rewrite Hbuf. cbn [default]. unfold from_option, id. rewrite Hb.
  by rewrite rdma_pingmsg_of_bytes.
Qed.

(** A server that takes a ping: its context is well formed, and its table is in
    time order without the ping. *)
Record server_ready (inet_ntop6 : list Z -> string) (env : post_env) (now_expire now : Z)
    (ping : rdma_pingmsg_t) (st : tx_state) : Prop := {
  sr_ok : tx_ok inet_ntop6 st;
  sr_fresh : fresh_handle env st;
  sr_posted : pe_posted env = true;
  sr_pad : pad_ok 4 (pe_pad env);
  sr_wf : wf (ping_table st);
  sr_timed : timed now_expire (ping_table st);
  sr_clock : now_expire <= now;
  sr_new : pm_pingid ping ∉ (contents (ping_table st)).*1;
}.

(** The three completions at the client, in any order. *)
Lemma client_completes `{SpscQueue Q rdma_result_msg_t} indet id e t q twc pctx pwc actx awc
    pad1 pad2 server_delay cs :
  wf t -> tmap t !! id = Some e -> fresh_entry id (value e) -> is_u64 id -> is_u64 server_delay ->
  pad_ok 4 pad1 -> pad_ok 4 pad2 -> sent_wc twc id ->
  received_wc pctx pwc (rdma_pongmsg_bytes pad1 (RdmaPongMsg PINGWEAVE_OPCODE_PONG id 0)) ->
  received_wc actx awc (rdma_pongmsg_bytes pad2 (RdmaPongMsg PINGWEAVE_OPCODE_ACK id server_delay)) ->
  wc_ts twc <> 0 -> cqe_time (rnic_hw_ts pctx) pwc <> 0 ->
  cs ≡ₚ [TxDone twc; RxDone pctx pwc; RxDone actx awc] ->
  exists t', client_handle_all indet cs (PinginfoMap t q)
    = Ret (PinginfoMap t' (enqueued (expected_report indet (value e) (wc_ts twc) (u64 (wc_clock pwc))
        (cqe_time (rnic_hw_ts pctx) pwc) server_delay) q)) /\
    contents t' = aremove id (contents t).
Proof.
  intros Hwf He Hfresh Hid Hsd Hp1 Hp2 Htx Hpong Hack Hx Hct Hcs.
  assert (Forall2 (carries id) [TxDone twc; RxDone pctx pwc; RxDone actx awc]
    [EvPingCqe (wc_ts twc); EvPong (u64 (wc_clock pwc)) (cqe_time (rnic_hw_ts pctx) pwc);
     EvAck server_delay]) as Hf0.
  { assert (is_u64 0) as H0 by (unfold is_u64; lia).
    assert (forall op, op = PINGWEAVE_OPCODE_PONG \/ op = PINGWEAVE_OPCODE_ACK -> is_u32 op) as Hop
      by (intros op [-> | ->]; unfold is_u32, PINGWEAVE_OPCODE_PONG, PINGWEAVE_OPCODE_ACK; lia).
    apply Forall2_cons; split; [exact (conj Htx eq_refl)|].
    apply Forall2_cons; split; [|apply Forall2_cons; split; [|apply Forall2_nil; exact Logic.I]].
    - split; [reflexivity|]. split; [reflexivity|]. eexists _, 0. split; [exact Hpong|].
      split; [by apply rdma_pongmsg_length|]. apply rdma_pongmsg_of_bytes; auto.
    - eexists. split; [exact Hack|]. split; [by apply rdma_pongmsg_length|].
      apply rdma_pongmsg_of_bytes; auto. }
  destruct (carries_permutation id cs _ _ Hf0 Hcs) as (evs & Hf & Hevs).
  destruct (deliver_three indet id (PinginfoMap t q) e evs (wc_ts twc) (u64 (wc_clock pwc))
      (cqe_time (rnic_hw_ts pctx) pwc) server_delay Hwf He Hfresh Hevs) as (t' & _ & Hc & Hd).
  exists t'. unfold expected_report. rewrite <- (measured_stamps evs) by done.
  by rewrite (client_handle_all_deliver indet id cs evs _ Hf).
Qed.

(** ** Properties *)

(** C1: an RDMA ping from end to end, with hardware timestamps at the client.
    When the scheduler gives a destination, the TX round posts one message to
    that destination's queue pair and address. Whichever buffer of the server
    receives these bytes, the server's TX thread posts a PONG, and at the PONG's
    completion an ACK, both to the queue pair of the client's receiver; and
    whichever buffers of the client receive those bytes, the three completions
    at the client (the PING's send, the PONG, the ACK), handled in any order,
    report the ping exactly once, with the host's and the network's time modulo
    2^32, the time the server took, and the send time, and remove it.
    This is under these conditions. The time stamps of the PING's completion and
    of the PONG's at the client are not 0, which the code takes for unset, and
    the server's time from the PING to the PONG's completion is below 2^32 ns.
    Every post and every completion succeeds, and a new address handle is one
    not in use. The two tables do not have the ping yet, the server's is in time
    order, and the ping's id is above the reserved one. The texts of different
    GIDs differ and fit their buffer, and the addresses are valid. *)
Theorem rdma_ping_end_to_end `{SpscQueue Q rdma_result_msg_t} inet_ntop6 indet threshold_ms ipv4
    protocol rx_gid rx_lid rx_qpn env tx (table : pinginfo_map Q) dst_ip dst_gid dst_lid dst_qpn us sc :
  text_inj inet_ntop6 ->
  let id := PingId.make_pingid (NetAddr.ip2uint indet ipv4) (ct_ping_uid tx) in
  let dst := RdmaAddr dst_qpn dst_gid dst_lid in
  Scheduler.Rdma.next protocol ipv4 (ce_pinglist env) (ce_store env) (ce_load_now env)
    (ce_ping_now env) (ct_scheduler tx)
  = Ret (PINGWEAVE_SUCCESS, Some (dst_ip, of_bytes (gid_to_wire_gid dst_gid), dst_lid, dst_qpn), us, sc) ->
  NetAddr.valid_ipv4 ipv4 -> is_u32 (ct_ping_uid tx) -> PINGWEAVE_WRID_PONG_ACK < id ->
  client_ready inet_ntop6 env tx -> addr_ok inet_ntop6 dst -> gid_ok inet_ntop6 rx_gid -> is_u32 rx_lid -> is_u32 rx_qpn ->
  wf (tbl table) -> id ∉ (contents (tbl table)).*1 ->
  exists tx' table' w,
    client_tx_round inet_ntop6 indet threshold_ms ipv4 protocol rx_gid rx_lid rx_qpn env tx table
      = Ret (CtPing id dst_ip, tx', table') /\
    ct_sent tx' = ct_sent tx ++ [w] /\ sw_qpn w = dst_qpn /\
    ct_live tx' !! sw_ah w = Some (ah_attr_of (ct_ctx tx) dst) /\
  forall sctx rwc start senv sst now_expire now sthr,
    received_wc sctx rwc (sw_bytes w) -> cqe_time (rnic_hw_ts sctx) rwc = u64 start ->
    server_ready inet_ntop6 senv now_expire now (ping_of sctx rwc) sst ->
  exists sst1 pong,
    server_tx_ping inet_ntop6 sthr senv now_expire now (ping_of sctx rwc) sst = Ret sst1 /\
    tx_sent sst1 = tx_sent sst ++ [pong] /\ sw_qpn pong = rx_qpn /\
  forall aenv swc elapsed,
    fresh_handle aenv sst1 -> pe_posted aenv = true -> pad_ok 4 (pe_pad aenv) ->
    sent_wc swc (sw_wr_id pong) ->
    cqe_time (rnic_hw_ts (tx_ctx sst1)) swc = u64 (start + elapsed) -> 0 <= elapsed < 2 ^ 32 ->
  exists sst2 ack,
    server_tx_cqe_round inet_ntop6 (Some true) (Some [(swc, aenv)]) true sst1 = Ret sst2 /\
    tx_sent sst2 = tx_sent sst1 ++ [ack] /\ sw_qpn ack = rx_qpn /\
  forall twc pctx pwc actx awc cs,
    sent_wc twc (sw_wr_id w) -> received_wc pctx pwc (sw_bytes pong) ->
    received_wc actx awc (sw_bytes ack) ->
    wc_ts twc <> 0 -> cqe_time (rnic_hw_ts pctx) pwc <> 0 ->
    cs ≡ₚ [TxDone twc; RxDone pctx pwc; RxDone actx awc] ->
    let host := (u64 (wc_clock pwc) - u64 (ce_steady env)) `mod` 2 ^ 32 in
    let network := (cqe_time (rnic_hw_ts pctx) pwc - wc_ts twc) `mod` 2 ^ 32 in
  exists t',
    client_handle_all indet cs table' = Ret (PinginfoMap t'
      (enqueued (RdmaResultMsg id (NetAddr.ip2uint indet dst_ip) (u64 (ce_system env))
          (u64 (host - network)) (if elapsed <? network then u64 (network - elapsed) else network)
          elapsed
          (if network <=? elapsed then PINGWEAVE_RESULT_WEIRD else PINGWEAVE_RESULT_SUCCESS))
        (client_queue table'))) /\
    contents t' = aremove id (contents (tbl table')).
Proof.
  intros Hinj id dst Hnext Hv Huid Hid Hready Hdst Hgid Hlid Hqpn Hwf Hnew.
  pose proof (PingId.make_pingid_u64 _ _ (NetAddr.ip2uint_u32 indet ipv4 Hv) Huid) as Hidu. fold id in Hidu.
  pose proof (cr_pads _ _ _ Hready) as (Hpad1 & Hpad2 & Htime).
  destruct (client_tx_spec inet_ntop6 indet threshold_ms Hinj ipv4 protocol rx_gid rx_lid rx_qpn env tx
    table dst_ip dst_gid dst_lid dst_qpn us sc Hnext Hready Hdst Hgid Hid Hwf Hnew)
    as (tx' & t1 & ah & gone & e & Hround & _ & Hsent & Hlive & _ & Hwf1 & He & Hval).
  eexists tx', _, _. split; [exact Hround|]. split; [exact Hsent|]. split; [done|]. split; [exact Hlive|].
  intros sctx rwc start senv sst now_expire now sthr Hrecv Hstart [Hok Hfr Hpost Hpad Hswf Htm Hle Hsnew].
  cbn [sw_bytes] in Hrecv. apply ping_of_received in Hrecv; [|done|done|apply Hgid|apply Hgid|done..]. cbn [pm_pingid pm_qpn pm_gid pm_lid] in Hrecv.
  rewrite Hstart in Hrecv. set (ping := RdmaPingMsg id rx_qpn rx_gid rx_lid (u64 start)) in Hrecv.
  rewrite Hrecv in Hsnew |- *.
  assert (addr_ok inet_ntop6 (addr_of ping)) as Haddr by (split; [unfold is_u32 in Hlid; cbn; lia|exact Hgid]).
  destruct (tx_ping_spec inet_ntop6 sthr Hinj senv now_expire now ping sst)
    as (sst1 & pong & Hp & Hok1 & Hsent1 & (pah & -> & _) & Hwfs & Hc1); [done..|].
  eexists sst1, _. split; [exact Hp|]. split; [exact Hsent1|]. split; [done|].
  intros aenv swc elapsed Hafr Hapost Hapad (Hs1 & Hs2 & Hs3) Hcqe Hel. cbn [sw_wr_id] in Hs3.
  destruct (pong_cqe_spec inet_ntop6 Hinj aenv ping now id (u64 (start + elapsed)) sst1)
    as (sst2 & ack & Ha & _ & Hsent2 & (aah & -> & _) & _); [done..| |].
  { rewrite Hc1. apply elem_of_app. right. by left. }
  cbn [pm_time ping] in Ha, Hsent2. rewrite Clock.modulo_delta_elapsed in Hsent2 by done.
  eexists sst2, _. split; [|split; [exact Hsent2|split; [done|]]].
  { unfold server_tx_cqe_round, server_process_tx_cqe, end_of_poll. cbn [server_tx_cqes]. unfold server_tx_cqe.
    rewrite Hs1, Hs2, Hs3, Hcqe. cbn [negb pm_pingid ping].
    rewrite Z.eqb_refl, (proj2 (Z.eqb_neq _ _)), Ha by lia. reflexivity. }
  intros twc pctx pwc actx awc cs Htwc Hpwc Hawc Hx Hct Hcs host network. cbn [sw_wr_id sw_bytes] in *.
  destruct (client_completes indet id e t1 (expired_effect (on_expire indet) gone (client_queue table))
    twc pctx pwc actx awc (pe_pad senv) (pe_pad aenv) elapsed cs) as (t' & Hall & Hc'); try done.
  - by rewrite Hval.
  - unfold is_u64. lia.
  - exists t'. split; [|exact Hc']. rewrite Hall. unfold expected_report. by rewrite Hval.
Qed.

(** A concrete ping: the two sides' states and inputs. *)
Definition example_pad : list Z := [0; 0; 0; 0].

Definition example_tx : client_tx :=
  ClientTx (Scheduler [("10.0.0.2", of_bytes (gid_to_wire_gid example_gid), 0, 17)] 0 10 0 0 1000 1000 0)
    5 example_context ∅ [].

Definition example_env : client_env :=
  ClientEnv None None 0 2000000 0 500 600 0 (Some 5) true example_pad example_pad 0.

(** A context whose buffer 3 holds what the device wrote, and its completion. *)
Definition received_in (bytes : list Z) : rdma_context :=
  RdmaContext true 1 1 106 2 (<[3%nat := blit 40 bytes (zeroed 104)]> (replicate 256 (zeroed 104))) ∅.
Definition recv_wc (ts clock : Z) : ibv_wc := Wc true 3 IBV_WC_RECV ts clock.

Lemma received_in_wc bytes ts clock :
  (length bytes <= 64)%nat -> received_wc (received_in bytes) (recv_wc ts clock) bytes.
Proof.
  intros Hl. split; [done|]. split; [done|].
  destruct (received_bytes_ret (received_in bytes) 3 (length bytes)) as (b & Hb & Hr).
  - split; cbn [buf received_in]; [by rewrite length_insert, length_replicate|].
    apply Forall_insert; [by apply Forall_replicate|].
    rewrite length_blit; [done|]. unfold zeroed. rewrite length_replicate. lia.
  - unfold NUM_BUFFER. lia.
  - unfold MESSAGE_SIZE. lia.
  - cbn [wc_wr_id recv_wc]. rewrite Hr. f_equal. cbn [buf received_in] in Hb.
    rewrite list_lookup_insert_eq in Hb by (rewrite length_replicate; change (Z.to_nat 3) with 3%nat; lia).
    injection Hb as <-. apply slice_blit. unfold zeroed. rewrite length_replicate.
    change GRH_SIZE with 40%nat. lia.
Qed.

Lemma example_pad_ok : pad_ok 4 example_pad.
Proof. split; [reflexivity|]. repeat constructor; lia. Qed.

Lemma example_client_ready : client_ready digits_ntop6 example_env example_tx.
Proof.
  split; [apply example_context_ok|apply example_context_ok|reflexivity| |reflexivity|].
  - exists 5. split; [reflexivity|apply lookup_empty].
  - split_and!; [exact example_pad_ok..|cbn; unfold is_u64; lia].
Qed.

Lemma example_server_ready ping :
  server_ready digits_ntop6 (PostEnv (Some 5) true example_pad) 10 20 ping
    (TxState example_context ∅ empty_table []).
Proof.
  split; [apply example_context_ok| |reflexivity|exact example_pad_ok|apply wf_empty|apply timed_empty
         |lia|apply not_elem_of_nil].
  exists 5. split; [reflexivity|apply lookup_empty].
Qed.

(** A part of a returned value, without the rest of it. *)
Definition part {A B} (f : A -> B) (o : outcome A) : option B :=
  match o with Ret a => Some (f a) | _ => None end.

Lemma part_ret {A B} (f : A -> B) o a b : o = Ret a -> part f o = Some b -> f a = b.
Proof. intros ->. by intros [=]. Qed.

Lemma rdma_ping_end_to_end_witness :
  let id := 72057636987600901 in
  exists w pong ack table' t',
    (exists tx', client_tx_round (H := list_spsc _) digits_ntop6 7 1000 "10.0.0.1" "rdma" example_gid 0 33
       example_env example_tx (PinginfoMap empty_table []) = Ret (CtPing id "10.0.0.2", tx', table')) /\
    sw_qpn w = 17 /\ sw_qpn pong = 33 /\ sw_qpn ack = 33 /\
    client_handle_all (H := list_spsc _) 7
      [RxDone (received_in (sw_bytes ack)) (recv_wc 5000 9000); TxDone (Wc true id IBV_WC_SEND 1000 0);
       RxDone (received_in (sw_bytes pong)) (recv_wc 1700 1400)] table'
    = Ret (PinginfoMap t' [RdmaResultMsg id 33554442 600 200 100 600 PINGWEAVE_RESULT_SUCCESS]).
Proof.
  destruct (rdma_ping_end_to_end (H := list_spsc _) digits_ntop6 7 1000 "10.0.0.1" "rdma" example_gid 0 33
    example_env example_tx (PinginfoMap empty_table []) "10.0.0.2" example_gid 0 17 0
    (with_idx 0 (with_ping_time 2000000 (ct_scheduler example_tx))))
    as (tx' & table' & w & Hround & Hsent & Hq & _ & Hserver).
  - apply digits_ntop6_inj.
  - vm_compute. reflexivity.
  - eexists. vm_compute. reflexivity.
  - cbn. unfold is_u32. lia.
  - vm_compute. reflexivity.
  - exact example_client_ready.
  - split; [cbn; lia|exact example_gid_ok].
  - exact example_gid_ok.
  - unfold is_u32. lia.
  - unfold is_u32. lia.
  - apply wf_empty.
  - apply not_elem_of_nil.
  - pose proof (part_ret (fun r => ct_sent r.1.2) _ _ _ Hround ltac:(vm_compute; reflexivity)) as Hw.
    cbn [fst snd] in Hw. rewrite Hw in Hsent. injection Hsent as Hw'.
    destruct (Hserver (received_in (sw_bytes w)) (recv_wc 10000 0) 10000
      (PostEnv (Some 5) true example_pad) (TxState example_context ∅ empty_table []) 10 20 1000)
      as (sst1 & pong & Hpong & Hsent1 & Hpq & Hack).
    + apply received_in_wc. rewrite <- Hw'. cbn. lia.
    + reflexivity.
    + apply example_server_ready.
    + rewrite <- Hw' in Hpong.
      pose proof (part_ret tx_sent _ _ _ Hpong ltac:(vm_compute; reflexivity)) as Hp.
      pose proof (part_ret tx_live _ _ _ Hpong ltac:(vm_compute; reflexivity)) as Hl.
      pose proof (part_ret (fun s => rnic_hw_ts (tx_ctx s)) _ _ _ Hpong ltac:(vm_compute; reflexivity)) as Hhw.
      rewrite Hp in Hsent1. injection Hsent1 as Hp'.
      destruct (Hack (PostEnv (Some 6) true example_pad) (Wc true 72057636987600901 IBV_WC_SEND 10600 0) 600)
        as (sst2 & ack & Ha & Hsent2 & Haq & Hclient).
      * exists 6. split; [reflexivity|]. rewrite Hl. reflexivity.
      * reflexivity.
      * exact example_pad_ok.
      * rewrite <- Hp'. repeat split.
      * rewrite Hhw. reflexivity.
      * lia.
      * pose proof Ha as Hboth. change (server_tx_cqe_round _ _ _ _ _) with
          (mbind (server_tx_cqe_round digits_ntop6 (Some true) (Some [(Wc true 72057636987600901 IBV_WC_SEND 10600 0,
             PostEnv (Some 6) true example_pad)]) true) (Ret sst1)) in Hboth.
        rewrite <- Hpong in Hboth.
        pose proof (part_ret tx_sent _ _ _ Hboth ltac:(vm_compute; reflexivity)) as Hs2.
        rewrite Hs2, Hp in Hsent2. injection Hsent2 as Ha'.
        destruct (Hclient (Wc true 72057636987600901 IBV_WC_SEND 1000 0) (received_in (sw_bytes pong))
          (recv_wc 1700 1400) (received_in (sw_bytes ack)) (recv_wc 5000 9000)
          [RxDone (received_in (sw_bytes ack)) (recv_wc 5000 9000);
           TxDone (Wc true 72057636987600901 IBV_WC_SEND 1000 0);
           RxDone (received_in (sw_bytes pong)) (recv_wc 1700 1400)]) as (t' & Hall & _).
        -- rewrite <- Hw'. repeat split.
        -- apply received_in_wc. rewrite <- Hp'. cbn. lia.
        -- apply received_in_wc. rewrite <- Ha'. cbn. lia.
        -- discriminate.
        -- discriminate.
        -- apply (Permutation_app_comm [_] [_; _]).
        -- pose proof (part_ret (fun r => client_queue r.2) _ _ _ Hround ltac:(vm_compute; reflexivity)) as Ht.
           cbn [snd] in Ht. rewrite Ht in Hall.
           exists w, pong, ack, table', t'. split; [by exists tx'|].
           split; [exact Hq|]. split; [exact Hpq|]. split; [exact Haq|].
           rewrite Hall. vm_compute. reflexivity.
Defined.
