(* ===== verification/Supervisor.v ===== *)
(** * Supervisor: the main loops that watch over the threads
    (udp_client.cpp, tcp_client.cpp, rdma_client.cpp, rdma_server.cpp).

    After the set-up, [main] polls the flag of each of its threads every
    second; when one is false, it sends an alarm, joins the thread, sends
    another alarm and starts the thread again. A thread sets its flag to true
    when it starts, and its loop has no exit but an exception: the handler sets
    the flag to false and rethrows. An exception that leaves the function of a
    [std::thread] calls [std::terminate]. *)
From S2P Require Import Prelude.

(** The threads of each program, in the order in which they are polled. *)
Definition udp_client_threads : list string :=
  ["udp_client_tx_thread"; "udp_client_rx_thread"; "udp_client_result_thread"]%string.
Definition tcp_client_threads : list string :=
  ["tcp_client_tx_thread"; "tcp_client_result_thread"]%string.
Definition rdma_client_threads : list string :=
  ["rdma_client_result_thread"; "rdma_client_rx_thread"; "rdma_client_tx_sched_thread"; "rdma_client_tx_cqe_thread"]%string.
Definition rdma_server_threads : list string :=
  ["rdma_server_rx_thread"; "rdma_server_tx_cqe_thread"; "rdma_server_tx_thread"]%string.

(** [Failing]: the flag has been set to false, the exception is on its way.
    [Ended]: the function of the thread has returned, as [join] waits for. *)
Inductive worker := Starting | Working | Failing | Ended.

(** Where the main thread is; the number is that of the thread it looks at. *)
Inductive sup_pc :=
  | Sleeping
  | Checking (i : nat)
  | Joining (i : nat)
  | Announcing (i : nat)
  | Marking (i : nat)
  | Spawning (i : nat).

Record process := Process {
  pc : sup_pc; threads : list worker; alive : list bool; alarms : list string; spawned : nat }.

(** [None]: [std::terminate] has ended the process. *)
Abbreviation state := (option process).

Section supervisor.
Context (names : list string).
Implicit Types (p : process).

Definition with_pc (c : sup_pc) p : process := Process c (threads p) (alive p) (alarms p) (spawned p).
Definition with_thread (i : nat) (w : worker) p : process :=
  Process (pc p) (<[i := w]> (threads p)) (alive p) (alarms p) (spawned p).
Definition with_alive (i : nat) (b : bool) p : process :=
  Process (pc p) (threads p) (<[i := b]> (alive p)) (alarms p) (spawned p).
Definition with_alarm (m : string) p : process :=
  Process (pc p) (threads p) (alive p) (alarms p ++ [m]) (spawned p).
Definition with_spawn p : process := Process (pc p) (threads p) (alive p) (alarms p) (S (spawned p)).

(** The threads started before the loop. *)
Definition started : process :=
  Process Sleeping ((fun _ => Starting) <$> names) ((fun _ => true) <$> names) [] 0.

(** One step of the main thread; [None]: [join] blocks. *)
Definition supervise p : option process :=
  match pc p with
  | Sleeping => Some (with_pc (Checking 0) p)
  | Checking i =>
      match names !! i, alive p !! i with
      | Some name, Some false =>
          Some (with_pc (Joining i) (with_alarm ("Unexpected termination: " +:+ name) p))
      | Some _, Some true => Some (with_pc (Checking (S i)) p)
      | _, _ => Some (with_pc Sleeping p)
      end
  | Joining i =>
      match threads p !! i with
      | Some Ended => Some (with_pc (Announcing i) p)
      | _ => None
      end
  | Announcing i =>
      Some (with_pc (Marking i) (with_alarm ("Restarted: " +:+ default "" (names !! i)) p))
  | Marking i => Some (with_pc (Spawning i) (with_alive i true p))
  | Spawning i => Some (with_pc (Checking (S i)) (with_thread i Starting (with_spawn p)))
  end.

(** One step of thread [i]; [fails]: an exception is raised in its loop. *)
Definition work (i : nat) (fails : bool) p : option state :=
  match threads p !! i with
  | Some Starting => Some (Some (with_thread i Working (with_alive i true p)))
  | Some Working =>
      Some (Some (if fails then with_thread i Failing (with_alive i false p) else p))
  | Some Failing => Some None
  | _ => None
  end.

Inductive step : state -> state -> Prop :=
  | step_main p p' : supervise p = Some p' -> step (Some p) (Some p')
  | step_work i fails p s : work i fails p = Some s -> step (Some p) s.

(** ** A flag is false only while its exception is on its way *)
Record process_ok p : Prop := {
  ok_threads : length (threads p) = length names;
  ok_alive : length (alive p) = length names;
  ok_flag i : alive p !! i = Some false -> threads p !! i = Some Failing;
  ok_ended i : threads p !! i <> Some Ended;
  ok_pc : match pc p with
          | Joining i => threads p !! i = Some Failing /\
              exists name, names !! i = Some name /\ alarms p = ["Unexpected termination: " +:+ name]
          | Announcing _ | Marking _ | Spawning _ => False
          | _ => alarms p = []
          end;
  ok_spawned : spawned p = 0;
}.

Lemma started_ok : process_ok started.
Proof.
  split; cbn; rewrite ?length_fmap; try done.
  - intros i Hi. by apply list_lookup_fmap_Some in Hi as (? & ? & _).
  - intros i Hi. by apply list_lookup_fmap_Some in Hi as (? & ? & _).
Qed.

Lemma supervise_ok p p' : process_ok p -> supervise p = Some p' -> process_ok p'.
Proof.
  intros [H1 H2 H3 H4 H5 H6]. unfold supervise. destruct (pc p) as [|i|i|i|i|i] eqn:Hpc; try done.
  - intros [= <-]. by split.
  - destruct (names !! i) as [name|] eqn:Hn; [|intros [= <-]; by split].
    destruct (alive p !! i) as [[]|] eqn:Ha; intros [= <-]; try by split.
    split; cbn; try done. split; [by apply H3|]. exists name. by rewrite H5.
  - destruct (threads p !! i) as [[]|] eqn:Ht; try done. by destruct (H4 i).
Qed.

Lemma work_ok i fails p p' : process_ok p -> work i fails p = Some (Some p') -> process_ok p'.
Proof.
  intros [H1 H2 H3 H4 H5 H6]. unfold work. destruct (threads p !! i) as [[]|] eqn:Ht; try done;
    pose proof (lookup_lt_Some _ _ _ Ht) as Hi.
  - intros [= <-]. split; cbn; rewrite ?length_insert; try done.
    + intros k. rewrite !list_lookup_insert. repeat case_decide; naive_solver.
    + intros k. rewrite list_lookup_insert. case_decide; naive_solver.
    + destruct (pc p); try done. rewrite list_lookup_insert. case_decide; [|done]. naive_solver.
  - intros [= <-]. destruct fails; [|by split]. split; cbn; rewrite ?length_insert; try done.
    + intros k. rewrite !list_lookup_insert. repeat case_decide; naive_solver.
    + intros k. rewrite list_lookup_insert. case_decide; naive_solver.
    + destruct (pc p); try done. rewrite list_lookup_insert. case_decide; [|done]. naive_solver.
Qed.

Lemma reachable_ok s : rtc step (Some started) s -> match s with Some p => process_ok p | None => True end.
Proof.
  revert s. apply (rtc_ind_r (fun s => match s with Some p => process_ok p | None => True end)).
  - apply started_ok.
  - intros s s' _ Hstep Hok. destruct Hstep as [p p' E|i fails p s E]; [by eapply supervise_ok|].
    destruct s as [p'|]; [by eapply work_ok|done].
Qed.
End supervisor.

(** The loop of each program. *)
Definition udp_client : process -> option process := supervise udp_client_threads.
Definition tcp_client : process -> option process := supervise tcp_client_threads.
Definition rdma_client : process -> option process := supervise rdma_client_threads.
Definition rdma_server : process -> option process := supervise rdma_server_threads.

(** C19: the supervisor never restarts a thread. In every state of a process
    that still runs, no thread was started but the first ones and no restart
    was announced; a main thread that has seen a false flag waits for a thread
    whose exception is about to end the whole process, and the next step of
    that thread does. *)
Theorem supervisor_never_restarts names p :
  rtc (step names) (Some (started names)) (Some p) ->
  spawned p = 0 /\
  (alarms p = [] \/ exists name, name ∈ names /\ alarms p = ["Unexpected termination: " +:+ name]) /\
  (forall i, pc p = Joining i -> supervise names p = None /\ forall fails, work i fails p = Some None).
Proof.
  intros Hr. destruct (reachable_ok names _ Hr) as [H1 H2 H3 H4 H5 H6]. split_and!; [done| |].
  - destruct (pc p); try done; [by left|by left|]. destruct H5 as (_ & name & Hn & Ha). right. exists name.
    split; [by eapply list_elem_of_lookup_2|done].
  - intros i Hpc. rewrite Hpc in H5. destruct H5 as [Ht _]. unfold supervise, work. by rewrite Hpc, Ht.
Qed.

(** The RX thread of the UDP client fails, and the main thread sees it. *)
Lemma supervisor_never_restarts_witness :
  let p := Process (Joining 1) [Working; Failing; Starting] [true; false; true]
             ["Unexpected termination: udp_client_rx_thread"%string] 0 in
  rtc (step udp_client_threads) (Some (started udp_client_threads)) (Some p) /\
  spawned p = 0 /\ work 1 false p = Some None.
Proof.
  intros p. assert (rtc (step udp_client_threads) (Some (started udp_client_threads)) (Some p)) as Hr.
  { eapply rtc_l; [apply (step_work _ 0 false); reflexivity|].
    eapply rtc_l; [apply (step_work _ 1 false); reflexivity|].
    eapply rtc_l; [apply step_main; reflexivity|].
    eapply rtc_l; [apply step_main; reflexivity|].
    eapply rtc_l; [apply (step_work _ 1 true); reflexivity|].
    apply rtc_once. apply step_main. reflexivity. }
  split; [exact Hr|]. destruct (supervisor_never_restarts udp_client_threads p Hr) as (H & _ & Hj).
  split; [exact H|]. apply (Hj 1 eq_refl).
Defined.
