(* ===== verification/Logging.v ===== *)
(** * Logging: the loggers of a process (logger.hpp).

    A logger writes to a file of its name; spdlog keeps the loggers of a process
    by name. Opening the file is the system's. What a logger writes is not
    modelled, but whether it exists is: the programs and the producer of reports
    stop when their loggers cannot be made. *)
From S2P Require Import Prelude Prog Text CxxString Format Common Ini.
From Stdlib Require String.
Local Open Scope Z_scope.

Definition LOG_FILE_SIZE : Z := 30 * 1024 * 1024.
Definition LOG_FILE_SIZE_SMALL : Z := 3 * 1024 * 1024.
Definition LOG_FILE_EXTRA_NUM : Z := 0.
Definition DIR_LOG_PATH : string := "/../logs".
Definition DIR_RESULT_PATH : string := "/../result".

Record logger := Logger {
  lg_file : string; lg_level : level_enum; lg_file_size : Z; lg_file_num : Z }.

(** The state of a process that its set-up changes: the loggers by name, the
    open descriptors. *)
Record process_state := ProcessState { pr_loggers : gmap string logger; pr_fds : gset Z }.

(** What the process finds: the configuration file, the directory of the
    sources, and which files can be opened for writing. *)
Record host := Host { h_ini : option chars; h_src_dir : string; h_opens : string -> bool }.

Section logging.
Context (h : host).

Definition log_file (logname dir_path : string) : string :=
  h_src_dir h +:+ dir_path +:+ "/" +:+ logname +:+ ".log".

Definition initialize_logger (logname dir_path : string) (log_level : level_enum)
  (file_size file_num : Z) : prog process_state logger := fun st =>
  match pr_loggers st !! logname with
  | Some l => (st, Ret l)
  | None =>
      let file := log_file logname dir_path in
      if h_opens h file then
        let l := Logger file log_level file_size file_num in
        (ProcessState (<[logname := l]> (pr_loggers st)) (pr_fds st), Ret l)
      else (st, Throw SpdlogError)
  end.

(** How every logger of the programs is made: the level is read from the
    configuration file into a variable without a value ([indet_level]). *)
Definition open_logger (indet_level : level_enum) (key logname dir_path : string) (file_size : Z)
  : prog process_state logger :=
  '(r, log_level) ← lift (get_log_config_from_ini (h_ini h) indet_level key);
  if IS_FAILURE r then throw (RuntimeError ("Failed to get a param '" +:+ key +:+ "'"))
  else initialize_logger logname dir_path log_level file_size LOG_FILE_EXTRA_NUM.

(** ** Lemmas *)

(** The level that the file gives to a key. *)
Definition level_of (key : string) : option level_enum :=
  match get_log_config_from_ini (h_ini h) level_info key with
  | Ret (r, l) => if IS_FAILURE r then None else Some l
  | _ => None
  end.

Lemma log_config_cases cur key :
  get_log_config_from_ini (h_ini h) cur key
  = Ret (match level_of key with
         | Some l => (PINGWEAVE_SUCCESS, l) | None => (PINGWEAVE_FAILURE, cur) end).
Proof.
  unfold level_of, get_log_config_from_ini. destruct (IniParser.load _ _) as [[] parser]; [|done].
  cbn [negb]. unfold get_str_value_from_ini. case_match; [done|].
  cbn [mbind outcome_bind catch_runtime_error]. by destruct (logLevelMap !! _).
Qed.

(** A logger that can be made: its level is given, its file can be opened. *)
Definition logger_ready (key logname dir_path : string) : bool :=
  match level_of key with Some _ => h_opens h (log_file logname dir_path) | None => false end.

Lemma open_logger_spec cur key logname dir_path file_size st :
  pr_loggers st !! logname = None ->
  open_logger cur key logname dir_path file_size st =
  match level_of key with
  | Some level =>
      if h_opens h (log_file logname dir_path) then
        let l := Logger (log_file logname dir_path) level file_size LOG_FILE_EXTRA_NUM in
        (ProcessState (<[logname := l]> (pr_loggers st)) (pr_fds st), Ret l)
      else (st, Throw SpdlogError)
  | None => (st, Throw (RuntimeError ("Failed to get a param '" +:+ key +:+ "'")))
  end.
Proof.
  intros Hnew. unfold open_logger, mbind, prog_bind, lift. rewrite log_config_cases.
  destruct (level_of key) as [level|]; [|done]. cbn. unfold initialize_logger. by rewrite Hnew.
Qed.
End logging.
