(* ===== verification/Programs.v ===== *)
(** * Programs: from [main] to the threads, of the UDP and TCP programs
    (udp_client.cpp, udp_server.cpp, tcp_client.cpp, tcp_server.cpp).

    [main] checks its arguments; the program makes its loggers, its queue, its
    table and its sockets, and starts the threads. Any exception on the way is
    caught by [main], which returns 1. Servers have no thread to start but the
    loop of [UdpPing.udp_server_round] or [TcpPing.tcp_server_accept]. *)
From S2P Require Import Prelude Prog Text CxxString Format Common Ini Logging Queue KeyTable PingLedger.
From S2P Require Import TcpUdpPingInfo Scheduler TcpUdpCommon UdpPing TcpPing Supervisor.
From S2P Require Import SharedMemory ResultThread.
From Stdlib Require String.
Local Open Scope Z_scope.

(** ** [main] *)

(** It returns a status, with the help text or not, or runs for ever. *)
Inductive main_result (A : Type) := Exits (status : Z) (help : bool) | Runs (a : A).
Arguments Exits {A} status help.
Arguments Runs {A} a.

Definition is_help (arg : string) : bool := String.eqb arg "-h" || String.eqb arg "--help".

(** [catch (const std::exception &)] around the program; its loop never ends. *)
Definition try_main {A} (program : prog process_state A) : prog process_state (main_result A) := fun st =>
  match program st with
  | (st, Ret a) => (st, Ret (Runs a))
  | (st, Throw _) => (st, Ret (Exits 1 false))
  | (st, Undef) => (st, Undef)
  end.

(** The [main] of the programs that take an address. *)
Definition main_ip {A} (program : string -> prog process_state A) (argv : list string)
  : prog process_state (main_result A) := fun st =>
  match argv with
  | [_; arg] => if is_help arg then (st, Ret (Exits 0 true)) else try_main (program arg) st
  | _ => (st, Ret (Exits 1 true))
  end.

(** An operation on the open descriptors. *)
Definition with_fds {A} (f : gset Z -> gset Z * outcome A) : prog process_state A := fun st =>
  let '(fds, o) := f (pr_fds st) in (ProcessState (pr_loggers st) fds, o).

Section programs.
Context (h : host) (indet_level : level_enum) (indet : Z).

Abbreviation logger_of := (open_logger h indet_level).

(** ** The TX threads, up to their loops *)

(** [None]: the constructor of the scheduler exits. *)
Definition client_tx_start (protocol : string) (now_ping now_load : Z) : option (outcome udp_tx) :=
  scheduler ← MsgScheduler protocol (h_ini h) now_ping now_load;
  Some (s ← scheduler; Ret (UdpTx s 0)).
Definition udp_client_tx_start : Z -> Z -> option (outcome udp_tx) := client_tx_start "udp".
Definition tcp_client_tx_start : Z -> Z -> option (outcome udp_tx) := client_tx_start "tcp".

(** ** The producer of reports

    The constructor of [ProducerQueue]: its logger, then the segment. *)
Definition producer_queue_new (env : shm_env) (prefix name : string) (w : shm_world)
  : prog process_state (outcome producer_queue * shm_world) :=
  _ ← logger_of "logger_ipc_process_producer" ("ipc_producer_" +:+ prefix +:+ "_" +:+ name)
        DIR_LOG_PATH LOG_FILE_SIZE_SMALL;
  mret (create_queue env prefix name w).

(** ** The UDP client *)
Section clients.
Context {Q : Type} (new_queue : Z -> Q).

(** What runs: the contexts, the table of pings, the threads. *)
Record udp_process := UdpProcess {
  up_tx : udp_context; up_rx : udp_context; up_table : tcpudp_map Q; up_threads : process }.

(** The contexts are local variables: they are destroyed when the exception
    leaves. *)
Definition udp_client_contexts (env_tx env_rx : udp_env) (ipv4 : string)
  : prog process_state (udp_context * udp_context) :=
  with_fds (fun fds =>
    match initialize_contexts (h_ini h) env_tx env_rx (UdpContext None indet "") (UdpContext None indet "")
            ipv4 PINGWEAVE_UDP_PORT_CLIENT fds with
    | Ret (r, tx, rx, fds) =>
        if IS_FAILURE r then
          (close_fd (uc_sock tx) (close_fd (uc_sock rx) fds),
           Throw (RuntimeError "Failed to initialize UDP contexts."))
        else (fds, Ret (tx, rx))
    | Throw e => (fds, Throw e)
    | Undef => (fds, Undef)
    end).

Definition udp_client (env_tx env_rx : udp_env) (ipv4 : string) : prog process_state udp_process :=
  _ ← logger_of "logger_cpp_process_udp_client" ("udp_client_" +:+ ipv4) DIR_LOG_PATH LOG_FILE_SIZE;
  _ ← logger_of "logger_cpp_process_udp_result" ("udp_" +:+ ipv4) DIR_RESULT_PATH LOG_FILE_SIZE;
  let client_queue := new_queue MSG_QUEUE_SIZE in
  _ ← logger_of "logger_cpp_process_udp_ping_table" ("udp_table_" +:+ ipv4) DIR_LOG_PATH LOG_FILE_SIZE;
  let ping_table := TcpUdpMap empty_table client_queue in
  '(ctx_tx, ctx_rx) ← udp_client_contexts env_tx env_rx ipv4;
  mret (UdpProcess ctx_tx ctx_rx ping_table (started udp_client_threads)).

Definition udp_client_main (env_tx env_rx : udp_env) : list string -> prog process_state (main_result udp_process) :=
  main_ip (udp_client env_tx env_rx).

(** ** The TCP client *)
Record tcp_process := TcpProcess { tp_table : tcpudp_map Q; tp_threads : process }.

Definition tcp_client (ipv4 : string) : prog process_state tcp_process :=
  _ ← logger_of "logger_cpp_process_tcp_client" ("tcp_client_" +:+ ipv4) DIR_LOG_PATH LOG_FILE_SIZE;
  _ ← logger_of "logger_cpp_process_tcp_result" ("tcp_" +:+ ipv4) DIR_RESULT_PATH LOG_FILE_SIZE;
  let client_queue := new_queue MSG_QUEUE_SIZE in
  _ ← logger_of "logger_cpp_process_tcp_ping_table" ("tcp_table_" +:+ ipv4) DIR_LOG_PATH LOG_FILE_SIZE;
  let ping_table := TcpUdpMap empty_table client_queue in
  mret (TcpProcess ping_table (started tcp_client_threads)).

Definition tcp_client_main : list string -> prog process_state (main_result tcp_process) :=
  main_ip tcp_client.
End clients.

(** ** The UDP server *)
Definition udp_server (env : udp_env) (ipv4 : string) : prog process_state udp_context :=
  _ ← logger_of "logger_cpp_process_udp_server" ("udp_server_" +:+ ipv4) DIR_LOG_PATH LOG_FILE_SIZE;
  with_fds (fun fds =>
    match make_udp_ctx (h_ini h) env (UdpContext None indet "") ipv4 PINGWEAVE_UDP_PORT_SERVER fds with
    | Ret (r, ctx_server, fds, _) =>
        if IS_FAILURE r then
          (close_fd (uc_sock ctx_server) fds,
           Throw (RuntimeError "Failed to create UDP context at server"))
        else (fds, Ret ctx_server)
    | Throw e => (fds, Throw e)
    | Undef => (fds, Undef)
    end).

Definition udp_server_main (env : udp_env) : list string -> prog process_state (main_result udp_context) :=
  main_ip (udp_server env).

(** ** The TCP server *)
Definition tcp_server (env : tcp_env) (ipv4 : string) : prog process_state tcp_context :=
  _ ← logger_of "logger_cpp_process_tcp_server" ("tcp_server_" +:+ ipv4) DIR_LOG_PATH LOG_FILE_SIZE;
  with_fds (fun fds =>
    let '(r, ctx_server, fds) := make_tcp_ctx env (TcpContext None "" true) ipv4 PINGWEAVE_TCP_PORT_SERVER fds in
    if IS_FAILURE r then
      (close_fd (tc_sock ctx_server) fds,
       Throw (RuntimeError "Failed to create TCP context at server"))
    else (fds, Ret ctx_server)).

Definition tcp_server_main (env : tcp_env) : list string -> prog process_state (main_result tcp_context) :=
  main_ip (tcp_server env).
End programs.
Arguments udp_process Q : clear implicits.
Arguments tcp_process Q : clear implicits.

(** ** When a program starts

    [ready]: the conditions under which it does; [good]: what it has then.
    Without, an exception ends the set-up, and the open descriptors are as
    before, unless [leak]. *)
Definition starts_if {A} (ready : bool) (leak : Prop) (good : process_state -> A -> Prop)
  (p : prog process_state A) (st : process_state) : Prop :=
  if ready then exists st' a, p st = (st', Ret a) /\ good st' a
  else exists st' e, p st = (st', Throw e) /\ (pr_fds st' = pr_fds st \/ leak).

(** The end of [main], in every case. *)
Definition main_ends {A} (ready : string -> bool) (leak : Prop) (good : string -> process_state -> A -> Prop)
  (argv : list string) (st st' : process_state) (r : main_result A) : Prop :=
  match r with
  | Runs a => exists prog ip, argv = [prog; ip] /\ is_help ip = false /\ ready ip = true /\ good ip st' a
  | Exits status help =>
      (pr_fds st' = pr_fds st \/ leak) /\
      ((status = 0 /\ help = true /\ exists prog arg, argv = [prog; arg] /\ is_help arg = true) \/
       (status = 1 /\ help = true /\ length argv <> 2%nat) \/
       (status = 1 /\ help = false /\
        exists prog ip, argv = [prog; ip] /\ is_help ip = false /\ ready ip = false))
  end.

Lemma starts_try_main {A} ready leak good (p : prog process_state A) st :
  starts_if ready leak good p st ->
  exists st' r, try_main p st = (st', Ret r) /\
    match r with
    | Runs a => ready = true /\ good st' a
    | Exits status help => status = 1 /\ help = false /\ ready = false /\ (pr_fds st' = pr_fds st \/ leak)
    end.
Proof.
  unfold starts_if, try_main. destruct ready; intros (st' & a & -> & Hg); by eexists _, _.
Qed.

Lemma starts_main_ip {A} ready leak good (program : string -> prog process_state A) argv st :
  (forall ip, starts_if (ready ip) leak (good ip) (program ip) st) ->
  exists st' r, main_ip program argv st = (st', Ret r) /\ main_ends ready leak good argv st st' r.
Proof.
  intros Hp. destruct argv as [|prog [|arg [|x l]]]; cbn [main_ip];
    try (eexists st, (Exits 1 true); split; [done|]; split; [by left|]; right; left; by split_and!).
  destruct (is_help arg) eqn:Ha.
  - exists st, (Exits 0 true). split; [done|]. split; [by left|]. left. split_and!; [done|done|]. by exists prog, arg.
  - destruct (starts_try_main _ _ _ _ _ (Hp arg)) as (st' & r & -> & Hr). exists st', r. split; [done|].
    destruct r as [status help|a]; cbn.
    + destruct Hr as (-> & -> & Hr & Hfds). split; [done|]. right; right. split_and!; [done|done|].
      by exists prog, arg.
    + destruct Hr as [Hr Hg]. by exists prog, arg.
Qed.

(** One logger, then the rest: the rest goes on from its state, or not at all. *)
Lemma open_logger_then {A} h cur key logname dir size (f : logger -> prog process_state A) st :
  pr_loggers st !! logname = None ->
  if logger_ready h key logname dir then
    exists l, lg_file l = log_file h logname dir /\
      (open_logger h cur key logname dir size ≫= f) st
      = f l (ProcessState (<[logname := l]> (pr_loggers st)) (pr_fds st))
  else exists e, (open_logger h cur key logname dir size ≫= f) st = (st, Throw e).
Proof.
  intros Hnew. pose proof (open_logger_spec h cur key logname dir size st Hnew) as Hs. unfold logger_ready.
  destruct (level_of h key) as [level|]; [destruct (h_opens h (log_file h logname dir))|].
  - eexists. split; [|by rewrite (prog_bind_ret _ _ _ _ _ Hs)]. done.
  - eexists. by apply prog_bind_throw.
  - eexists. by apply prog_bind_throw.
Qed.

(** A logger, then the rest. *)
Lemma starts_logger {A} h cur key logname dir size ready leak good (f : logger -> prog process_state A) st :
  pr_loggers st !! logname = None ->
  (forall l, lg_file l = log_file h logname dir ->
     starts_if ready leak good (f l) (ProcessState (<[logname := l]> (pr_loggers st)) (pr_fds st))) ->
  starts_if (logger_ready h key logname dir && ready) leak good
    (open_logger h cur key logname dir size ≫= f) st.
Proof.
  intros Hnew Hf. pose proof (open_logger_then h cur key logname dir size f st Hnew) as Hp.
  destruct (logger_ready _ _ _ _); cbn [andb].
  - destruct Hp as (l & Hl & Hp). specialize (Hf l Hl). unfold starts_if in *. by rewrite Hp.
  - destruct Hp as [e Hp]. exists st, e. split; [exact Hp|by left].
Qed.

(** *** Sockets *)

(** The value of an [int] parameter. *)
Definition param_of (h : host) (key : string) : option Z :=
  match get_int_param_from_ini (h_ini h) 0 key with
  | Ret (r, v) => if IS_FAILURE r then None else Some v
  | _ => None
  end.

Lemma int_param_cases h cur key :
  get_int_param_from_ini (h_ini h) cur key
  = Ret (match param_of h key with
         | Some v => (PINGWEAVE_SUCCESS, v) | None => (PINGWEAVE_FAILURE, cur) end).
Proof.
  unfold param_of, get_int_param_from_ini. destruct (IniParser.load _ _) as [[] parser]; [|done].
  cbn [negb]. unfold get_int_value_from_ini. by case_match.
Qed.

Definition fcntl_fails (env : udp_env) : bool := (ue_getfl env =? -1) || (ue_setfl env =? -1).

(** The conditions for a UDP context. *)
Definition udp_ctx_ready (h : host) (env : udp_env) (ipv4 : string) : bool :=
  match param_of h "interval_poll_event_udp_microsec" with
  | Some poll => (0 <=? ue_socket env) && negb ((0 <? poll) && fcntl_fails env) &&
                 bool_decide (is_Some (inet_pton4 ipv4)) && (0 <=? ue_bind env)
  | None => false
  end.

Definition udp_bound (h : host) (env : udp_env) (ipv4 : string) (ctx : udp_context) : Prop :=
  uc_sock ctx = Some (ue_socket env) /\ uc_ipv4 ctx = ipv4 /\ 0 <= ue_socket env /\
  param_of h "interval_poll_event_udp_microsec" = Some (uc_poll_interval_us ctx).

Lemma make_udp_ctx_spec h env poll0 ipv4 port fds :
  ue_socket env ∉ fds ->
  if udp_ctx_ready h env ipv4 then
    exists ctx addr, make_udp_ctx (h_ini h) env (UdpContext None poll0 "") ipv4 port fds
      = Ret (PINGWEAVE_SUCCESS, ctx, {[ue_socket env]} ∪ fds, Some (addr, port)) /\
      udp_bound h env ipv4 ctx /\ inet_pton4 ipv4 = Some addr
  else
    exists ctx fds', make_udp_ctx (h_ini h) env (UdpContext None poll0 "") ipv4 port fds
      = Ret (PINGWEAVE_FAILURE, ctx, fds', None) /\
      (close_fd (uc_sock ctx) fds' = fds \/ fcntl_fails env = true).
Proof.
  intros Hfd. unfold udp_ctx_ready, make_udp_ctx, udp_bound, fcntl_fails.
  cbn [uc_sock uc_poll_interval_us]. rewrite int_param_cases.
  destruct (param_of h "interval_poll_event_udp_microsec") as [poll|]; cbn [mbind outcome_bind];
    [|do 2 eexists; split; [done|by left]].
  change (IS_FAILURE PINGWEAVE_SUCCESS) with false. cbv iota.
  rewrite (Z.ltb_antisym 0 (ue_socket env)), (Z.ltb_antisym 0 (ue_bind env)).
  destruct (Z.leb_spec 0 (ue_socket env)) as [Hs|Hs]; cbn [negb andb];
    [|do 2 eexists; split; [done|by left]].
  destruct (0 <? poll), (ue_getfl env =? -1), (ue_setfl env =? -1); cbn [andb orb negb];
    try (do 2 eexists; split; [done|by right]).
  all: destruct (inet_pton4 ipv4) as [addr|]; [rewrite bool_decide_eq_true_2 by (by eexists)|
    rewrite bool_decide_eq_false_2 by (by intros [? ?])]; cbn [andb];
    [|do 2 eexists; split; [done|left; by apply close_new_fd]].
  all: destruct (0 <=? ue_bind env); cbn [negb];
    [do 2 eexists; split; [done|by split_and!]|do 2 eexists; split; [done|left; by apply close_new_fd]].
Qed.

Definition both_fcntl_fails (env_tx env_rx : udp_env) : Prop :=
  fcntl_fails env_tx = true \/ fcntl_fails env_rx = true.

(** The contexts of the client: both, or none. *)
Lemma udp_client_contexts_start h indet env_tx env_rx ipv4 st :
  ue_socket env_tx ∉ pr_fds st -> ue_socket env_rx ∉ ({[ue_socket env_tx]} ∪ pr_fds st : gset Z) ->
  starts_if (udp_ctx_ready h env_tx ipv4 && udp_ctx_ready h env_rx ipv4) (both_fcntl_fails env_tx env_rx)
    (fun st' ctxs => udp_bound h env_tx ipv4 ctxs.1 /\ udp_bound h env_rx ipv4 ctxs.2 /\
       st' = ProcessState (pr_loggers st) ({[ue_socket env_rx]} ∪ ({[ue_socket env_tx]} ∪ pr_fds st)))
    (udp_client_contexts h indet env_tx env_rx ipv4) st.
Proof.
  intros Htx Hrx. unfold udp_client_contexts, with_fds, initialize_contexts, starts_if.
  pose proof (make_udp_ctx_spec h env_tx indet ipv4 0 (pr_fds st) Htx) as Hs.
  destruct (udp_ctx_ready h env_tx ipv4); cbn [andb].
  2: { destruct Hs as (ctx & fds' & -> & Hc). cbn [mbind outcome_bind].
       change (IS_FAILURE PINGWEAVE_FAILURE) with true. cbv iota. eexists _, _. split; [done|].
       cbn. destruct Hc as [Hc|Hc]; [by left|by right; left]. }
  destruct Hs as (tx & addr & -> & Hb & _). cbn [mbind outcome_bind].
  change (IS_FAILURE PINGWEAVE_SUCCESS) with false. cbv iota.
  pose proof (make_udp_ctx_spec h env_rx indet ipv4 PINGWEAVE_UDP_PORT_CLIENT _ Hrx) as Hs.
  pose proof Hb as (Hsock & _ & H0 & _).
  destruct (udp_ctx_ready h env_rx ipv4).
  - destruct Hs as (rx & addr' & -> & Hb' & _). cbn [mbind outcome_bind].
    change (IS_FAILURE PINGWEAVE_SUCCESS) with false. cbv iota. by eexists _, _.
  - destruct Hs as (ctx & fds' & -> & Hc). cbn [mbind outcome_bind].
    change (IS_FAILURE PINGWEAVE_FAILURE) with true. cbv iota. eexists _, _. split; [done|].
    cbn [pr_fds]. destruct Hc as [->|Hc]; [left|by right; right]. rewrite Hsock. by apply close_new_fd.
Qed.

(** ** The loggers of a client *)

(** Three, each with a file of its own; the last one made comes first. *)
Definition client_files (h : host) (kind ip : string) : list (string * string) :=
  let log name dir := (name, log_file h name dir) in
  [log (kind +:+ "_table_" +:+ ip) DIR_LOG_PATH; log (kind +:+ "_" +:+ ip) DIR_RESULT_PATH;
   log (kind +:+ "_client_" +:+ ip) DIR_LOG_PATH].

Definition files_of (st : process_state) : gmap string string := lg_file <$> pr_loggers st.

Definition client_loggers_ready (h : host) (kind k1 k2 k3 ip : string) : bool :=
  logger_ready h k1 (kind +:+ "_client_" +:+ ip) DIR_LOG_PATH &&
  (logger_ready h k2 (kind +:+ "_" +:+ ip) DIR_RESULT_PATH &&
   logger_ready h k3 (kind +:+ "_table_" +:+ ip) DIR_LOG_PATH).

(** The next logger of a program, with its key: without it, the program ends. *)
Ltac next_logger key l Hl :=
  match goal with |- context [(open_logger ?h ?cur key ?name ?dir ?size ≫= ?f) ?st] =>
    let H := fresh in
    assert (pr_loggers st !! name = None) as H;
    [|apply (open_logger_then h cur key name dir size f) in H;
      destruct (logger_ready h key name dir); cbn [andb];
      [destruct H as (l & Hl & ->)|destruct H as [? H]; by do 2 eexists]]
  end.

Lemma client_loggers_then {A} h cur kind k1 k2 k3 ip (f : prog process_state A) st :
  pr_loggers st = ∅ ->
  let p :=
    _ ← open_logger h cur k1 (kind +:+ "_client_" +:+ ip) DIR_LOG_PATH LOG_FILE_SIZE;
    _ ← open_logger h cur k2 (kind +:+ "_" +:+ ip) DIR_RESULT_PATH LOG_FILE_SIZE;
    _ ← open_logger h cur k3 (kind +:+ "_table_" +:+ ip) DIR_LOG_PATH LOG_FILE_SIZE;
    f in
  if client_loggers_ready h kind k1 k2 k3 ip then
    exists st', files_of st' = list_to_map (client_files h kind ip) /\ pr_fds st' = pr_fds st /\ p st = f st'
  else exists st' e, p st = (st', Throw e) /\ pr_fds st' = pr_fds st.
Proof.
  intros H0 p. subst p. unfold client_loggers_ready.
  assert (forall a b, String.length a <> String.length b -> kind +:+ a +:+ ip <> kind +:+ b +:+ ip) as Hne.
  { intros a b Hl He. apply (f_equal String.length) in He. rewrite !string_app_length in He. lia. }
  next_logger k1 l1 Hf1; [by rewrite H0|]. set (st1 := ProcessState _ _).
  next_logger k2 l2 Hf2; [cbn; rewrite H0, lookup_insert_ne; [done|by apply Hne]|]. set (st2 := ProcessState _ _).
  next_logger k3 l3 Hf3; [cbn; rewrite H0, !lookup_insert_ne; [done|by apply Hne..]|].
  eexists. split; [|split; [|reflexivity]]; [|done].
  unfold files_of, client_files. subst st2 st1. cbn. rewrite H0, !fmap_insert, fmap_empty. by rewrite Hf1, Hf2, Hf3.
Qed.

Lemma starts_client_loggers {A} h cur kind k1 k2 k3 ip ready leak good (f : prog process_state A) st :
  pr_loggers st = ∅ ->
  (forall st', files_of st' = list_to_map (client_files h kind ip) -> pr_fds st' = pr_fds st ->
     starts_if ready leak good f st') ->
  starts_if (client_loggers_ready h kind k1 k2 k3 ip && ready) leak good
    (_ ← open_logger h cur k1 (kind +:+ "_client_" +:+ ip) DIR_LOG_PATH LOG_FILE_SIZE;
     _ ← open_logger h cur k2 (kind +:+ "_" +:+ ip) DIR_RESULT_PATH LOG_FILE_SIZE;
     _ ← open_logger h cur k3 (kind +:+ "_table_" +:+ ip) DIR_LOG_PATH LOG_FILE_SIZE;
     f) st.
Proof.
  intros H0 Hf. pose proof (client_loggers_then h cur kind k1 k2 k3 ip f st H0) as Hp. cbv zeta in Hp.
  destruct (client_loggers_ready _ _ _ _ _ _); cbn [andb].
  - destruct Hp as (st' & Hfiles & Hfds & Hp). specialize (Hf st' Hfiles Hfds). unfold starts_if in *.
    rewrite Hp, <- Hfds. exact Hf.
  - destruct Hp as (st' & e & Hp & Hfds). exists st', e. split; [exact Hp|by left].
Qed.

(** When the UDP client starts. *)
Definition udp_client_ready (h : host) (env_tx env_rx : udp_env) (ip : string) : bool :=
  client_loggers_ready h "udp" "logger_cpp_process_udp_client" "logger_cpp_process_udp_result"
    "logger_cpp_process_udp_ping_table" ip &&
  (udp_ctx_ready h env_tx ip && udp_ctx_ready h env_rx ip).

(** What it has then. *)
Definition udp_client_runs (h : host) {Q} (new_queue : Z -> Q)
  (env_tx env_rx : udp_env) (fds : gset Z) (ip : string) (st' : process_state) (p : udp_process Q) : Prop :=
  udp_bound h env_tx ip (up_tx p) /\ udp_bound h env_rx ip (up_rx p) /\
  pr_fds st' = {[ue_socket env_rx]} ∪ ({[ue_socket env_tx]} ∪ fds) /\
  files_of st' = list_to_map (client_files h "udp" ip) /\
  up_table p = TcpUdpMap empty_table (new_queue MSG_QUEUE_SIZE) /\
  up_threads p = started udp_client_threads.

(** C12: what [main] of the UDP client does, for any arguments: it returns 0 with
    the help text exactly when its one argument asks for help, 1 with the help
    text when there is not one argument, and otherwise runs exactly when the
    three log levels are configured and the log files can be opened, and both
    sockets can be made for the address. It then has an empty table, a queue
    of 65 536 results ([MSG_QUEUE_SIZE]), two bound sockets, three loggers with
    a file each and the three threads of the client. When it does not run it
    returns 1, and holds no descriptor more than before, except when [fcntl]
    failed on a socket. The descriptors that [socket] gives are ones not in
    use. *)
Theorem udp_client_main_status (h : host) (indet_level : level_enum) (indet : Z)
  {Q} (new_queue : Z -> Q) env_tx env_rx argv (fds : gset Z) :
  ue_socket env_tx ∉ fds -> ue_socket env_rx ∉ ({[ue_socket env_tx]} ∪ fds : gset Z) ->
  let st := ProcessState ∅ fds in
  exists st' r, udp_client_main h indet_level indet new_queue env_tx env_rx argv st = (st', Ret r) /\
    main_ends (udp_client_ready h env_tx env_rx) (both_fcntl_fails env_tx env_rx)
      (udp_client_runs h new_queue env_tx env_rx fds) argv st st' r.
Proof.
  intros Htx Hrx st. apply starts_main_ip. intros ip.
  apply (starts_client_loggers h indet_level "udp"); [done|]. intros st' Hfiles Hfds. subst st. cbn in Hfds.
  pose proof (udp_client_contexts_start h indet env_tx env_rx ip st') as Hs.
  rewrite Hfds in Hs. specialize (Hs Htx Hrx). unfold starts_if in *.
  destruct (_ && _).
  - destruct Hs as (st'' & [tx rx] & Hp & Hb & Hb' & ->). eexists _, _.
    split; [by rewrite (prog_bind_ret _ _ _ _ _ Hp)|].
    split; [exact Hb|]. split; [exact Hb'|]. by split_and!.
  - destruct Hs as (st'' & e & Hp & Hf). exists st'', e. split; [by apply prog_bind_throw|exact Hf].
Qed.

Definition example_ini : option chars :=
  Some (print_items [ISection (bytes_of "param");
    IAssign (bytes_of "interval_poll_event_udp_microsec") (bytes_of "10") None;
    ISection (bytes_of "logging");
    IAssign (bytes_of "logger_cpp_process_udp_client") (bytes_of "info") None;
    IAssign (bytes_of "logger_cpp_process_udp_result") (bytes_of "info") None;
    IAssign (bytes_of "logger_cpp_process_udp_ping_table") (bytes_of "WARN") None]).
Definition example_host : host := Host example_ini "/opt/src" (fun _ => true).

(** One run, and one address that cannot be bound to: both descriptors are
    closed, 1 is returned. *)
Lemma udp_client_main_status_witness :
  let main bound := udp_client_main example_host level_info 0 (fun _ => @nil tcpudp_result_msg_t)
    (UdpEnv 7 2 0 0) (UdpEnv 8 2 0 bound) ["udp_client"; "10.0.0.1"]%string (ProcessState ∅ {[3]}) in
  (exists st' p, main 0 = (st', Ret (Runs p)) /\ pr_fds st' = {[8; 7; 3]} /\
     uc_sock (up_rx p) = Some 8 /\ uc_poll_interval_us (up_rx p) = 10) /\
  (exists st', main (-1) = (st', Ret (Exits 1 false)) /\ pr_fds st' = {[3]}).
Proof.
  intros main.
  assert (forall bound, exists st' r, main bound = (st', Ret r) /\
    main_ends (udp_client_ready example_host (UdpEnv 7 2 0 0) (UdpEnv 8 2 0 bound))
      (both_fcntl_fails (UdpEnv 7 2 0 0) (UdpEnv 8 2 0 bound))
      (udp_client_runs example_host (fun _ => @nil tcpudp_result_msg_t) (UdpEnv 7 2 0 0) (UdpEnv 8 2 0 bound) {[3]})
      ["udp_client"; "10.0.0.1"]%string (ProcessState ∅ {[3]}) st' r) as Hm.
  { intros bound. apply udp_client_main_status; cbn [ue_socket]; set_solver by lia. }
  split.
  - destruct (Hm 0) as (st' & r & Hr & Hends). destruct r as [|p]; [by vm_compute in Hr|].
    destruct Hends as (prog & ip & Hargv & _ & _ & _ & (Hs & _ & _ & Hpoll) & Hfds & _).
    exists st', p. split; [exact Hr|]. split; [rewrite Hfds; vm_compute; reflexivity|]. split; [exact Hs|].
    enough (Some (uc_poll_interval_us (up_rx p)) = Some 10) as [= He] by exact He.
    rewrite <- Hpoll. vm_compute. reflexivity.
  - destruct (Hm (-1)) as (st' & r & Hr & Hends). destruct r as [status help|]; [|by vm_compute in Hr].
    exists st'. assert (status = 1 /\ help = false) as [-> ->] by (vm_compute in Hr; by simplify_eq).
    split; [exact Hr|]. destruct Hends as [[Hfds|Hleak] _]; [exact Hfds|].
    vm_compute in Hleak. destruct Hleak; discriminate.
Defined.

(** ** The other programs *)
Definition tcp_client_ready (h : host) (ip : string) : bool :=
  client_loggers_ready h "tcp" "logger_cpp_process_tcp_client" "logger_cpp_process_tcp_result"
    "logger_cpp_process_tcp_ping_table" ip && true.

Definition tcp_client_runs (h : host) {Q} (new_queue : Z -> Q) (fds : gset Z) (ip : string)
  (st' : process_state) (p : tcp_process Q) : Prop :=
  pr_fds st' = fds /\ files_of st' = list_to_map (client_files h "tcp" ip) /\
  tp_table p = TcpUdpMap empty_table (new_queue MSG_QUEUE_SIZE) /\ tp_threads p = started tcp_client_threads.

(** The TCP client opens its sockets later, one per ping. *)
Theorem tcp_client_main_status (h : host) (indet_level : level_enum) {Q} (new_queue : Z -> Q) argv (fds : gset Z) :
  let st := ProcessState ∅ fds in
  exists st' r, tcp_client_main h indet_level new_queue argv st = (st', Ret r) /\
    main_ends (tcp_client_ready h) False (tcp_client_runs h new_queue fds) argv st st' r.
Proof.
  intros st. apply starts_main_ip. intros ip.
  apply (starts_client_loggers h indet_level "tcp"); [done|]. intros st' Hfiles Hfds. cbn.
  eexists _, _. split; [done|]. by split_and!.
Qed.

(** The address that a server's socket is bound to is the one it was given. *)
Definition udp_server_runs (h : host) (env : udp_env) (fds : gset Z) (ip : string)
  (st' : process_state) (ctx : udp_context) : Prop :=
  udp_bound h env ip ctx /\ pr_fds st' = {[ue_socket env]} ∪ fds /\
  files_of st' = {["udp_server_" +:+ ip := log_file h ("udp_server_" +:+ ip) DIR_LOG_PATH]}.

Definition udp_server_ready (h : host) (env : udp_env) (ip : string) : bool :=
  logger_ready h "logger_cpp_process_udp_server" ("udp_server_" +:+ ip) DIR_LOG_PATH && udp_ctx_ready h env ip.

Theorem udp_server_main_status (h : host) (indet_level : level_enum) (indet : Z) env argv (fds : gset Z) :
  ue_socket env ∉ fds ->
  let st := ProcessState ∅ fds in
  exists st' r, udp_server_main h indet_level indet env argv st = (st', Ret r) /\
    main_ends (udp_server_ready h env) (fcntl_fails env = true) (udp_server_runs h env fds) argv st st' r.
Proof.
  intros Hfd st. apply starts_main_ip. intros ip. apply starts_logger; [done|]. intros l Hl.
  unfold starts_if, with_fds. cbn [pr_fds pr_loggers st].
  pose proof (make_udp_ctx_spec h env indet ip PINGWEAVE_UDP_PORT_SERVER fds Hfd) as Hs.
  destruct (udp_ctx_ready h env ip).
  - destruct Hs as (ctx & addr & -> & Hb & _). change (IS_FAILURE PINGWEAVE_SUCCESS) with false. cbv iota.
    eexists _, _. split; [done|]. split; [exact Hb|]. split; [done|].
    unfold files_of. cbn [pr_loggers]. by rewrite fmap_insert, fmap_empty, Hl.
  - destruct Hs as (ctx & fds' & -> & Hc). change (IS_FAILURE PINGWEAVE_FAILURE) with true. cbv iota.
    eexists _, _. split; [done|]. exact Hc.
Qed.

Definition tcp_ctx_ready (env : tcp_env) (ip : string) : bool :=
  let '(r, _, _) := make_tcp_ctx env (TcpContext None "" true) ip PINGWEAVE_TCP_PORT_SERVER ∅ in
  negb (IS_FAILURE r).

Definition tcp_server_ready (h : host) (env : tcp_env) (ip : string) : bool :=
  logger_ready h "logger_cpp_process_tcp_server" ("tcp_server_" +:+ ip) DIR_LOG_PATH && tcp_ctx_ready env ip.

Definition tcp_server_runs (h : host) (env : tcp_env) (fds : gset Z) (ip : string)
  (st' : process_state) (ctx : tcp_context) : Prop :=
  tc_sock ctx = Some (te_socket env) /\ pr_fds st' = {[te_socket env]} ∪ fds /\
  files_of st' = {["tcp_server_" +:+ ip := log_file h ("tcp_server_" +:+ ip) DIR_LOG_PATH]}.

(** Whether a context is made does not depend on the open descriptors. *)
Lemma tcp_ctx_ready_any env ip fds :
  let '(r, _, _) := make_tcp_ctx env (TcpContext None "" true) ip PINGWEAVE_TCP_PORT_SERVER fds in
  negb (IS_FAILURE r) = tcp_ctx_ready env ip.
Proof. unfold tcp_ctx_ready, make_tcp_ctx. cbn. repeat case_match; by simplify_eq. Qed.

Theorem tcp_server_main_status (h : host) (indet_level : level_enum) env argv (fds : gset Z) :
  te_socket env ∉ fds ->
  let st := ProcessState ∅ fds in
  exists st' r, tcp_server_main h indet_level env argv st = (st', Ret r) /\
    main_ends (tcp_server_ready h env) False (tcp_server_runs h env fds) argv st st' r.
Proof.
  intros Hfd st. apply starts_main_ip. intros ip. apply starts_logger; [done|]. intros l Hl.
  unfold starts_if, with_fds. cbn [pr_fds pr_loggers st].
  pose proof (tcp_ctx_ready_any env ip fds) as Hr.
  pose proof (make_tcp_ctx_owns env ip true "" PINGWEAVE_TCP_PORT_SERVER fds) as Ho.
  pose proof (make_tcp_ctx_closed env ip true "" PINGWEAVE_TCP_PORT_SERVER fds Hfd) as Hc.
  destruct (make_tcp_ctx env _ ip _ fds) as [[r ctx] fds'] eqn:Hm. rewrite <- Hr.
  destruct (IS_FAILURE r) eqn:Hf; cbn [negb].
  - eexists _, _. split; [done|]. left. exact Hc.
  - eexists _, _. split; [done|]. destruct Ho as [(H0 & _ & _)|(H0 & Hs & ->)].
    + unfold make_tcp_ctx in Hm. rewrite (proj2 (Z.ltb_lt _ _) H0) in Hm. by simplify_eq.
    + split; [exact Hs|]. split; [done|].
      unfold files_of. cbn [pr_loggers]. by rewrite fmap_insert, fmap_empty, Hl.
Qed.
