(* ===== verification/RdmaPrograms.v ===== *)
(** * RdmaPrograms: from [main] to the threads, of the RDMA programs
    (rdma_client.cpp, rdma_server.cpp).

    They take a protocol besides the address. The client hands its scheduler and
    its CQE handler the GID, the LID and the queue pair number of its RX context;
    the server writes these to a file for the agent. *)
From S2P Require Import Prelude Prog Text CxxString Format Common Ini Logging Queue KeyTable.
From S2P Require Import RdmaPingInfo PingMsgMap Scheduler RdmaGid RdmaCommon RdmaContext RdmaServer RdmaClient Supervisor Programs.
From Stdlib Require String.
Local Open Scope Z_scope.

(** ** [main] *)
Definition supported (protocol : string) : bool :=
  negb (negb (String.eqb protocol "roce") && negb (String.eqb protocol "ib")).

Definition main_ip_protocol {A} (program : string -> string -> prog process_state A) (argv : list string)
  : prog process_state (main_result A) := fun st =>
  match argv with
  | [_; ipv4; protocol] =>
      if supported protocol then try_main (program ipv4 protocol) st else (st, Ret (Exits 1 false))
  | [_; arg] => if is_help arg then (st, Ret (Exits 0 true)) else (st, Ret (Exits 1 true))
  | _ => (st, Ret (Exits 1 true))
  end.

(** What the verbs calls answer to the two contexts, and the LID and the number
    of the queue pair of the RX context. *)
Record rdma_env := RdmaEnv { re_tx : make_env; re_rx : make_env; re_lid : Z; re_qp_num : Z }.
(** What the calls of [save_device_info] answer, and its clock. *)
Record save_env := SaveEnv {
  sv_dir_exists : bool; sv_mkdir_ok : bool; sv_open_ok : bool; sv_write_ok : bool; sv_now : string }.

Section programs.
Context (h : host) (indet_level : level_enum) (inet_ntop6 : list Z -> string).

(** ** The client *)

(** The GID is [None] when the RX context failed before it had one: it is then
    an indeterminate value. *)
Record rdma_client_process Q := RdmaClientProcess {
  rc_tx : option made_ctx; rc_table : pinginfo_map Q;
  rc_rx_gid : option (list Z); rc_rx_lid : Z; rc_rx_qpn : Z; rc_threads : process }.
Arguments RdmaClientProcess {Q}.

(** What follows the loggers. *)
Definition rdma_client_contexts {Q} (new_queue : Z -> Q) (env : rdma_env) (ipv4 protocol : string)
  : prog process_state (rdma_client_process Q) :=
  let client_queue := new_queue MSG_QUEUE_SIZE in
  let ping_table := PinginfoMap empty_table client_queue in
  '(s, ctx_tx, ctx_rx, _, rrx) ←
    lift (initialize_contexts inet_ntop6 (h_ini h) (re_tx env) (re_rx env) ipv4 protocol);
  if IS_FAILURE s then throw (RuntimeError "Client main - Failed to initialize RDMA contexts.")
  else if negb (qp rrx) then lift Undef  (* [ctx_rx.qp->qp_num] *)
  else mret (RdmaClientProcess ctx_tx ping_table (mc_gid <$> ctx_rx) (re_lid env) (re_qp_num env)
               (started rdma_client_threads)).

Definition rdma_client {Q} (new_queue : Z -> Q) (env : rdma_env) (ipv4 protocol : string)
  : prog process_state (rdma_client_process Q) :=
  _ ← open_logger h indet_level "logger_cpp_process_rdma_client" (protocol +:+ "_client_" +:+ ipv4)
        DIR_LOG_PATH LOG_FILE_SIZE;
  _ ← open_logger h indet_level "logger_cpp_process_rdma_result" (protocol +:+ "_" +:+ ipv4)
        DIR_RESULT_PATH LOG_FILE_SIZE;
  _ ← open_logger h indet_level "logger_cpp_process_rdma_ping_table" (protocol +:+ "_table_" +:+ ipv4)
        DIR_LOG_PATH LOG_FILE_SIZE;
  rdma_client_contexts new_queue env ipv4 protocol.

Definition rdma_client_main {Q} (new_queue : Z -> Q) (env : rdma_env)
  : list string -> prog process_state (main_result (rdma_client_process Q)) :=
  main_ip_protocol (rdma_client new_queue env).

(** The start of its threads, up to their loops. [None]: the program ends, by
    [throw;] where no exception is handled, or by [exit]. *)
Definition rdma_client_rx_start (ctx_rx : rdma_context) (ok : nat -> nat -> bool) (notify_ok : bool)
  : option (outcome (list Z)) :=
  match post_all (length (buf ctx_rx)) 0 ctx_rx ok with
  | Throw _ => None
  | Undef => Some Undef
  | Ret posted => if notify_ok then Some (Ret posted) else None
  end.
Definition rdma_client_tx_cqe_start (notify_ok : bool) : option unit := if notify_ok then Some tt else None.
Definition rdma_client_tx_sched_start (protocol : string) (ctx : rdma_context) (live : gmap Z ibv_ah_attr)
  (now_ping now_load : Z) : option (outcome client_tx) :=
  scheduler ← MsgScheduler protocol (h_ini h) now_ping now_load;
  Some (s ← scheduler; Ret (ClientTx s 0 ctx live [])).

(** ** The server *)
Record rdma_server_process Q := RdmaServerProcess {
  rs_tx : option made_ctx; rs_rx : made_ctx; rs_queue : Q; rs_table : table rdma_pingmsg_t;
  rs_saved : string; rs_threads : process }.
Arguments RdmaServerProcess {Q}.

(** [save_device_info] on an RX context that may not be made: the GID of one that
    is not has no value, but it is read only once the file is open. *)
Definition save_rx_info (sv : save_env) (lid qp_num : Z) (ctx_rx : option made_ctx)
  : outcome (Z * option string) :=
  let save gid := save_device_info (sv_dir_exists sv) (sv_mkdir_ok sv) (sv_open_ok sv) (sv_write_ok sv)
                    gid (sv_now sv) lid qp_num in
  match ctx_rx with
  | Some mc => Ret (save (of_bytes (mc_wired_gid mc)))
  | None => if (sv_dir_exists sv || sv_mkdir_ok sv) && sv_open_ok sv then Undef else Ret (save "")
  end.

Definition rdma_server {Q} (new_queue : Z -> Q) (env : rdma_env) (sv : save_env) (ipv4 protocol : string)
  : prog process_state (rdma_server_process Q) :=
  _ ← open_logger h indet_level "logger_cpp_process_rdma_server" (protocol +:+ "_server_" +:+ ipv4)
        DIR_LOG_PATH LOG_FILE_SIZE;
  let server_queue := new_queue MSG_QUEUE_SIZE in
  let ping_table := empty_table in
  '(s, ctx_tx, ctx_rx, _, _) ←
    lift (initialize_contexts inet_ntop6 (h_ini h) (re_tx env) (re_rx env) ipv4 protocol);
  if IS_FAILURE s then throw (RuntimeError "server main - Failed to initialize RDMA contexts.")
  else
    '(s, saved) ← lift (save_rx_info sv (re_lid env) (re_qp_num env) ctx_rx);
    if IS_FAILURE s then throw (RuntimeError "server main - save_device_info failed.")
    else
      match ctx_rx, saved with
      | Some ctx_rx, Some saved =>
          mret (RdmaServerProcess ctx_tx ctx_rx server_queue ping_table saved (started rdma_server_threads))
      | _, _ => lift Undef
      end.

Definition rdma_server_main {Q} (new_queue : Z -> Q) (env : rdma_env) (sv : save_env)
  : list string -> prog process_state (main_result (rdma_server_process Q)) :=
  main_ip_protocol (rdma_server new_queue env sv).

Definition rdma_server_tx_cqe_start (notify_ok : bool) : outcome unit :=
  end_of_poll notify_ok "tx thread -  Couldn't register CQE notification" tt.
End programs.
Arguments RdmaClientProcess {Q}.
Arguments RdmaServerProcess {Q}.
Arguments rc_tx {Q}. Arguments rc_table {Q}. Arguments rc_rx_gid {Q}. Arguments rc_rx_lid {Q}.
Arguments rc_rx_qpn {Q}. Arguments rc_threads {Q}.
Arguments rs_tx {Q}. Arguments rs_rx {Q}. Arguments rs_queue {Q}. Arguments rs_table {Q}.
Arguments rs_saved {Q}. Arguments rs_threads {Q}.

(** ** How a program ends *)

(** The status and the help text for arguments with which the program is not
    even started. *)
Definition refused (argv : list string) (status : Z) (help : bool) : Prop :=
  (status = 0 /\ help = true /\ exists prog arg, argv = [prog; arg] /\ is_help arg = true) \/
  (status = 1 /\ help = true /\ length argv <> 3%nat /\ ~ exists prog arg, argv = [prog; arg] /\ is_help arg = true) \/
  (status = 1 /\ help = false /\ exists prog ip protocol, argv = [prog; ip; protocol] /\ supported protocol = false).

Lemma main_ip_protocol_spec {A} (program : string -> string -> prog process_state A) argv st :
  match argv with
  | [_; ip; protocol] =>
      if supported protocol then main_ip_protocol program argv st = try_main (program ip protocol) st
      else main_ip_protocol program argv st = (st, Ret (Exits 1 false)) /\ refused argv 1 false
  | _ => exists status help, main_ip_protocol program argv st = (st, Ret (Exits status help)) /\
           refused argv status help
  end.
Proof.
  assert (forall l, length l <> 3%nat -> (~ exists prog arg, l = [prog; arg] /\ is_help arg = true) ->
    refused l 1 true) as Hno by (intros; right; left; by split_and!).
  destruct argv as [|prog [|a [|b [|c l]]]]; cbn [main_ip_protocol].
  - do 2 eexists. split; [done|]. apply Hno; [done|naive_solver].
  - do 2 eexists. split; [done|]. apply Hno; [done|naive_solver].
  - destruct (is_help a) eqn:Ha; do 2 eexists; (split; [done|]).
    + left. split_and!; [done|done|]. by exists prog, a.
    + apply Hno; [done|]. intros (p & x & [= <- <-] & Hx). congruence.
  - destruct (supported b) eqn:Hb; [done|]. split; [done|]. right; right. split_and!; [done|done|].
    by exists prog, a, b.
  - do 2 eexists. split; [done|]. apply Hno; [done|naive_solver].
Qed.

Lemma supported_protocols protocol : supported protocol = true -> protocol ∈ ["ib"; "roce"]%string.
Proof.
  unfold supported. destruct (String.eqb_spec protocol "roce") as [->|]; [set_solver|].
  destruct (String.eqb_spec protocol "ib") as [->|]; [set_solver|done].
Qed.

(** The record of the server for the agent. *)
Definition device_info (gid : list Z) (lid qp_num : Z) (now : string) : string :=
  let nl := String newline "" in
  of_bytes (gid_to_wire_gid gid) +:+ nl +:+ dec_string lid +:+ nl +:+ dec_string qp_num +:+ nl +:+ now.

Definition file_opens (sv : save_env) : bool := (sv_dir_exists sv || sv_mkdir_ok sv) && sv_open_ok sv.

Section server_spec.
Context (h : host) (indet_level : level_enum) (inet_ntop6 : list Z -> string).
Context {Q : Type} (new_queue : Z -> Q) (env : rdma_env) (sv : save_env).

Definition server_logger_ready (ip protocol : string) : bool :=
  logger_ready h "logger_cpp_process_rdma_server" (protocol +:+ "_server_" +:+ ip) DIR_LOG_PATH.

Definition made (e : make_env) (ip protocol : string) (mc : made_ctx) : Prop :=
  make_ctx inet_ntop6 (h_ini h) e ip protocol = Ret (PINGWEAVE_SUCCESS, Some mc, all_resources) /\
  ready inet_ntop6 (me_init e) (mc_init mc).
Definition not_made (e : make_env) (ip protocol : string) : Prop :=
  exists r, make_ctx inet_ntop6 (h_ini h) e ip protocol = Ret (PINGWEAVE_FAILURE, None, r).

(** What a running server has. *)
Definition rdma_server_runs (ip protocol : string) (st' : process_state) (p : rdma_server_process Q) : Prop :=
  exists tx, rs_tx p = Some tx /\ made (re_tx env) ip protocol tx /\ made (re_rx env) ip protocol (rs_rx p) /\
    rs_saved p = device_info (mc_gid (rs_rx p)) (re_lid env) (re_qp_num env) (sv_now sv) /\
    rs_queue p = new_queue MSG_QUEUE_SIZE /\ rs_table p = empty_table /\
    rs_threads p = started rdma_server_threads /\
    files_of st' = {[protocol +:+ "_server_" +:+ ip := log_file h (protocol +:+ "_server_" +:+ ip) DIR_LOG_PATH]}.

Lemma rdma_server_spec ip protocol fds :
  supported protocol = true ->
  exists st' o, rdma_server h indet_level inet_ntop6 new_queue env sv ip protocol (ProcessState ∅ fds) = (st', o) /\
    match o with
    | Ret p => server_logger_ready ip protocol = true /\ file_opens sv = true /\ sv_write_ok sv = true /\
               rdma_server_runs ip protocol st' p
    | Throw _ => server_logger_ready ip protocol = false \/ not_made (re_tx env) ip protocol \/
                 file_opens sv = false \/ sv_write_ok sv = false
    | Undef => server_logger_ready ip protocol = true /\
               (verbs_undefined inet_ntop6 (re_tx env) ip \/
                (exists tx, made (re_tx env) ip protocol tx) /\
                (verbs_undefined inet_ntop6 (re_rx env) ip \/
                 not_made (re_rx env) ip protocol /\ file_opens sv = true))
    end.
Proof.
  intros Hsup. apply supported_protocols in Hsup.
  unfold rdma_server, server_logger_ready, logger_ready.
  set (key := "logger_cpp_process_rdma_server"%string). set (name := protocol +:+ "_server_" +:+ ip).
  pose proof (open_logger_spec h indet_level key name DIR_LOG_PATH LOG_FILE_SIZE (ProcessState ∅ fds)
    (lookup_empty _)) as Hl.
  destruct (level_of h key) as [level|]; [destruct (h_opens h (log_file h name DIR_LOG_PATH)) eqn:Ho|];
    [|do 2 eexists; split; [by apply prog_bind_throw|by left]..].
  cbv zeta in Hl. rewrite (prog_bind_ret _ _ _ _ _ Hl). clear Hl.
  unfold initialize_contexts.
  destruct (make_ctx_cases inet_ntop6 (h_ini h) (re_tx env) ip protocol Hsup)
    as [(s & tx & rtx & Hmt & Ht)|[Hmt Hu]]; rewrite Hmt; cbn [mbind outcome_bind].
  2: { do 2 eexists. split; [reflexivity|]. split; [done|by left]. }
  destruct Ht as [(-> & -> & mt & -> & Hrt & _ & _)|(-> & ->)].
  2: { do 2 eexists. split; [done|]. right; left. by exists rtx. }
  change (IS_FAILURE PINGWEAVE_SUCCESS) with false. cbv iota.
  assert (made (re_tx env) ip protocol mt) as Hmade by by split.
  destruct (make_ctx_cases inet_ntop6 (h_ini h) (re_rx env) ip protocol Hsup)
    as [(s' & rx & rrx & Hmr & Hr)|[Hmr Hu]]; rewrite Hmr; cbn [mbind outcome_bind].
  2: { do 2 eexists. split; [reflexivity|]. split; [done|]. right. split; [by exists mt|by left]. }
  destruct Hr as [(-> & -> & mr & -> & Hrr & _ & Hw)|(-> & ->)].
  - erewrite lift_bind by reflexivity. cbv iota beta. change (IS_FAILURE PINGWEAVE_SUCCESS) with false. cbv iota.
    unfold save_rx_info. erewrite lift_bind by reflexivity. unfold save_device_info, file_opens.
    destruct (sv_dir_exists sv), (sv_mkdir_ok sv), (sv_open_ok sv), (sv_write_ok sv); cbn [negb andb orb]; cbv iota;
      (do 2 eexists; (split; [reflexivity|])); try (right; right; by auto).
    all: split_and!; [done..|]; exists mt; (split; [done|]); (split; [done|]); (split; [by split|]);
      (split; [by rewrite Hw|]); split_and!; try done; unfold files_of; cbn; by rewrite fmap_insert, fmap_empty.
  - erewrite lift_bind by reflexivity. cbv iota beta. change (IS_FAILURE 1) with false. cbv iota.
    unfold save_rx_info, save_device_info, file_opens.
    destruct (sv_dir_exists sv), (sv_mkdir_ok sv), (sv_open_ok sv); cbn [negb andb orb]; cbv iota;
      (do 2 eexists; (split; [reflexivity|])); try (right; right; by auto).
    all: split; [done|]; right; split; [by exists mt|]; right; split; [by exists rrx|done].
Qed.
End server_spec.

(** ** Properties *)


Definition rdma_example_ini : option chars :=
  Some (print_items [ISection (bytes_of "param");
    IAssign (bytes_of "traffic_class_roce") (bytes_of "106") None;
    ISection (bytes_of "logging");
    IAssign (bytes_of "logger_cpp_process_rdma_server") (bytes_of "info") None]).

(** [n]: the buffer that cannot be registered in the RX context. *)
Definition rdma_example_env (n : nat) : rdma_env :=
  RdmaEnv (example_make_env example_dir 999%nat) (example_make_env example_dir n) 7 1234.

(** A server that runs; the same with an RX context that is not made. *)
Example rdma_server_example :
  let main n := (rdma_server_main (Host rdma_example_ini "/opt/src" (fun _ => true)) level_info example_ntop6
    (fun _ => @nil rdma_pingmsg_t) (rdma_example_env n) (SaveEnv true true true true "now")
    ["rdma_server"; "10.0.0.1"; "roce"]%string (ProcessState ∅ ∅)).2 in
  match main 999%nat with
  | Ret (Runs p) => rs_saved p = device_info example_gid 7 1234 "now"
  | _ => False
  end /\ main 3%nat = Undef.
Proof. split; vm_compute; reflexivity. Qed.

(** The client: a failure of the RX context is not seen either. Its pings then
    carry a GID that has no value, when there is a queue pair; without one the
    program reads through a pointer to none. *)
Theorem rdma_client_main_status h indet_level inet_ntop6 {Q} (new_queue : Z -> Q) env ip protocol fds :
  supported protocol = true ->
  let loggers_ready :=
    client_loggers_ready h protocol "logger_cpp_process_rdma_client" "logger_cpp_process_rdma_result"
      "logger_cpp_process_rdma_ping_table" ip in
  exists st' o, rdma_client_main h indet_level inet_ntop6 new_queue env ["rdma_client"; ip; protocol]%string
      (ProcessState ∅ fds) = (st', o) /\
    match o with
    | Ret (Runs p) => loggers_ready = true /\ (exists tx, rc_tx p = Some tx /\ made h inet_ntop6 (re_tx env) ip protocol tx) /\
        ((exists rx, made h inet_ntop6 (re_rx env) ip protocol rx /\ rc_rx_gid p = Some (mc_gid rx)) \/
         (not_made h inet_ntop6 (re_rx env) ip protocol /\ rc_rx_gid p = None)) /\
        rc_table p = PinginfoMap empty_table (new_queue MSG_QUEUE_SIZE) /\
        files_of st' = list_to_map (client_files h protocol ip)
    | Ret (Exits status help) => status = 1 /\ help = false /\
        (loggers_ready = false \/ not_made h inet_ntop6 (re_tx env) ip protocol)
    | Undef => loggers_ready = true /\
        (verbs_undefined inet_ntop6 (re_tx env) ip \/ verbs_undefined inet_ntop6 (re_rx env) ip \/
         not_made h inet_ntop6 (re_rx env) ip protocol)
    | Throw _ => False
    end.
Proof.
  intros Hs loggers_ready. unfold rdma_client_main, main_ip_protocol, try_main. rewrite Hs.
  apply supported_protocols in Hs.
  set (client := rdma_client h indet_level inet_ntop6 new_queue env ip protocol (ProcessState ∅ fds)).
  assert (if loggers_ready then exists st', files_of st' = list_to_map (client_files h protocol ip) /\
            client = rdma_client_contexts h inet_ntop6 new_queue env ip protocol st'
          else exists st' e, client = (st', Throw e)) as Hl.
  { pose proof (client_loggers_then h indet_level protocol "logger_cpp_process_rdma_client"
      "logger_cpp_process_rdma_result" "logger_cpp_process_rdma_ping_table" ip
      (rdma_client_contexts h inet_ntop6 new_queue env ip protocol) (ProcessState ∅ fds) eq_refl) as Hl.
    cbv zeta in Hl. fold loggers_ready in Hl. destruct loggers_ready; naive_solver. }
  destruct loggers_ready.
  2: { destruct Hl as (st' & e & ->). do 2 eexists. split; [done|]. split_and!; [done|done|by left]. }
  destruct Hl as (st' & Hfiles & ->). unfold rdma_client_contexts.
  unfold initialize_contexts.
  destruct (make_ctx_cases inet_ntop6 (h_ini h) (re_tx env) ip protocol Hs)
    as [(s & tx & rtx & Hmt & Ht)|[Hmt Hu]]; rewrite Hmt; cbn [mbind outcome_bind].
  2: { do 2 eexists. split; [reflexivity|]. split; [done|by left]. }
  destruct Ht as [(-> & -> & mt & -> & Hrt & _ & _)|(-> & ->)].
  2: { do 2 eexists. split; [done|]. split_and!; [done|done|]. right. by exists rtx. }
  change (IS_FAILURE PINGWEAVE_SUCCESS) with false. cbv iota.
  assert (made h inet_ntop6 (re_tx env) ip protocol mt) as Hmade by by split.
  destruct (make_ctx_cases inet_ntop6 (h_ini h) (re_rx env) ip protocol Hs)
    as [(s' & rx & rrx & Hmr & Hr)|[Hmr Hu]]; rewrite Hmr; cbn [mbind outcome_bind].
  2: { do 2 eexists. split; [reflexivity|]. split; [done|by right; left]. }
  destruct Hr as [(-> & -> & mr & -> & Hrr & _ & Hw)|(-> & ->)].
  - erewrite lift_bind by reflexivity. cbv iota beta. change (IS_FAILURE PINGWEAVE_SUCCESS) with false. cbv iota.
    do 2 eexists. split; [reflexivity|]. split; [done|]. split; [by exists mt|].
    split; [left; exists mr; by split|]. by split.
  - erewrite lift_bind by reflexivity. cbv iota beta. change (IS_FAILURE 1) with false. cbv iota.
    destruct (qp rrx); do 2 eexists; (split; [reflexivity|]); (split; [done|]);
      [|right; right; by exists rrx].
    split; [by exists mt|]. split; [right; split; [by exists rrx|done]|]. by split.
Qed.
